(* ===== verification/_CoqProject ===== *)
-Q . S2P
Prelude.v
Utf8.v
Errors.v
Config.v
Envelope.v
Base64.v
RelayWire.v
RelayConfig.v
RelayLimits.v
RelayState.v
RelayApi.v
RelayConc.v
RelayMain.v
Cursor.v
Pairing.v
Recovery.v
Storage.v
Keys.v
Transport.v
Tls.v
Open.v
Backoff.v
Session.v
SessionConc.v
Engine.v
Client.v
EngineDemo.v
EngineRuns.v
EngineSafe.v
EngineSend.v
Ffi.v
EngineListen.v
EnginePair.v
EngineSync.v
EngineRecover.v
EngineCut.v
EngineConc.v
EndToEnd.v
EngineRelay.v
EngineDeliver.v
EnginePairRelay.v
FuzzTargets.v
HarnessCodec.v
Harness.v
TestCert.v
TestsStore.v
Keepalive.v
TestsFormats.v
TestsOffer.v
