(* ===== verification/Prelude.v ===== *)
(** * Titlan: a verification of the relay and of the client core

    ** The program

    Titlan is an end-to-end encrypted messenger.  Two parties pair by scanning
    an offer, exchange Signal-encrypted messages, and leave them for each other
    in mailboxes of a relay that sees only opaque blobs.  The sources hold two
    Rust crates:

    - [tezca-relay]: the relay.  [main.rs] starts an HTTP server and a periodic
      sweep over one shared state ([state.rs]: mailboxes, a byte counter, two
      rate limiters of [limits.rs]).  [api.rs] has the handlers (create,
      deposit, PUT, delete, subscribe) and the loop [deliver] that streams a
      mailbox to its WebSocket subscriber and removes what the subscriber
      acknowledges.  [wire.rs] has the frame formats, [config.rs] the flags.
    - [tezca-core]: the client.  [envelope/] frames and pads messages,
      [pairing.rs] and [recovery.rs] define the control payloads and the
      derivation of recovery mailboxes, [storage/] keeps conversations,
      messages and keys in an encrypted database, [identity.rs] and
      [session.rs] drive the Signal library, [relay_client/] talks to the
      relay: [http.rs] and [ws.rs] are the transport, [ws/pin.rs] decides which
      certificates it trusts, [mod.rs] is the engine that pairs, sends, listens
      and recovers, [backoff.rs] paces its reconnects.  [client.rs] is the
      facade, [ffi.rs] what the Android application sees of it.  Its example
      [deposit_harness.rs] drives the client from the command line.

    Each crate has fuzz targets and unit tests; the relay's example
    [gen_test_cert.rs] makes the certificate and pin of the end-to-end tests.

    ** The files

    - [Prelude]: results with errors and panics, bytes, fixed-width integers,
      big-endian numbers, the tactics and the hint database.
    - [Utf8]: UTF-8 validation and the character classes of [str].
    - [Errors]: the error values with their texts ([error.rs]) and the state-and-error monad
      [st] of the client's stateful code: what was written before an error
      stays written.
    - [Config]: constants, timing records, padding profiles ([config.rs]).
    - [Envelope]: the outer envelope and the padded inner frame ([envelope/]).
    - [Base64], [RelayWire]: mailbox ids and relay frames ([wire.rs]; the
      client's own base64 of [recovery.rs] is proved to agree).
    - [RelayConfig]: the relay's flags ([config.rs]).
    - [RelayLimits]: windows and the two limiters ([limits.rs]).
    - [RelayState]: mailbox table, creation, sweep, and the invariant [Inv].
    - [RelayApi]: each handler as a function of the shared state.
    - [RelayConc]: the process.  A handler is cut at its lock regions into
      tasks ([exec] runs one region), a [deliver] loop is a connection
      ([conn_exec] runs one action), and [step] interleaves them in any order;
      [reachable] is what the process can become from its start.
    - [RelayMain]: how the process starts ([main.rs], [hardening.rs]).
    - [Cursor], [Pairing]: the pairing parsers and writers ([pairing.rs]).
    - [Recovery]: recovery hello, derived ids, generations ([recovery.rs]).
    - [Storage]: the tables of [storage/mod.rs] as rows in rowid order, and the
      migrations of [storage/schema.rs].
    - [Keys]: the library's key stores ([storage/signal_stores.rs]) and the
      identity lifecycle ([identity.rs]).
    - [Transport]: HTTP calls and the subscription ([relay_client/http.rs],
      [relay_client/ws.rs]); the class [DeliveryChannel] states what a
      subscriber needs of the relay's frames, and the relay's frames are an
      instance.  The class [Platform] is the client's outside: network,
      generator, clocks, and the failures of the database; [StoreWorks] says
      of a platform that its database does not fail.
    - [Tls]: certificate pinning ([ws/pin.rs]) and the subscription attempt
      ([ws.rs]); the class [Tls] is sockets, handshakes and the digest.
    - [Open]: the database key and opening the encrypted file ([Store::open] of
      [storage/mod.rs]), migrations included, one transaction at a time; the
      class [Sqlcipher] is the database library, any call of which may fail.
    - [Backoff]: the reconnect schedule ([backoff.rs]) with its binary64 delay.
    - [Session]: establishing, encrypting and decrypting ([session.rs]) over
      the key store.  [SessionConc]: the same by single accesses to the stores
      ([call], [enter]), interleaved ([step], [interleaved]).
    - [Engine]: the sync engine ([relay_client/mod.rs]).  [Engine.t] is its state: key store, tables, outside,
      callbacks, the maps of rotations, hellos and recovery cycles, and the
      live sync generation; calls of the callbacks, acks and started tasks are
      its log.  One definition per method.  The listeners and the wait for the
      handoff are functions of what their socket and the cancel signal give
      them, in order; [listener_step] is the conversation listener between two
      points at which it looks at the cancel signal.
    - [Client]: the facade ([client.rs]).  [Ffi]: the foreign surface ([ffi.rs]),
      errors, records and callbacks as they cross and every exported method.
    - [EngineDemo]: concrete platforms (one whose database fails now and then
      among them), libraries and states for witnesses;
      [EngineRuns]: how a run of the engine that returned is taken apart.
    - [EngineSend], [EngineListen], [EnginePair], [EngineRecover]: the theorems
      about the engine.  [EngineSync]: its listener tasks over sync generations
      as a state machine ([event], [step]), in which a task can be about to
      start, run, have ended by itself, or wait to be joined.  [EngineSafe]:
      none of its tasks panics or leaves a malformed state.  [EngineCut]: tasks
      dropped at an await.
    - [EngineConc]: flushes cut at their store accesses and awaits
      ([flush_step]), interleaved under the locks of [flush_locks], cancelled,
      with other engine work in between ([step], [reachable]).
    - [EndToEnd]: sender, relay and receiver composed.  [EngineRelay]: the
      engine whose network is the relay of [RelayApi].  [EngineDeliver]: from
      that engine's outbox to the history of the peer's.  [EnginePairRelay]: a
      pairing of two such engines.
    - [FuzzTargets]: the four fuzz targets as functions that panic when an
      assertion fails.
    - [HarnessCodec], [Harness]: the deposit harness, its base64url codec and
      its commands, over a machine ([Vm]) with files, a terminal and a network.
      [TestCert]: the certificate tool.
    - [Keepalive]: a subscription whose waits and sends have lengths ([turn] is
      one turn of the loop of [Subscription::next]; a send may never complete,
      and then the turn [Hangs]), with the keepalive tests.
    - [TestsStore], [TestsFormats], [TestsOffer]: the unit tests, one definition
      per test, run on the model; [TestsOffer] holds the committed pairing
      vectors of [proto/fixtures].

    ** Conventions

    - A Rust [Result] is [result E A] with a third outcome [Panic] for
      [expect], out-of-range slices and checked arithmetic: the release
      profile keeps overflow checks on, so [+] and [-] on machine integers are
      [checked_add] and [checked_sub] under [expect].  Atomic counters wrap.
    - Integers are [Z] with their width written out; bytes are [list Z], and
      [bytes_ok] says each is below 256 where a theorem needs it.
    - Clocks, random bytes and generated ids are arguments.  In [RelayConc]
      they are bounded only by [env_ok]: a region's readings come after the
      clock, and message ids have 16 bytes.  The relay's wall clock is taken to
      be past the Unix epoch (its rate limiters panic before it); the client's
      is not ([unix_now], [now_timestamp]).
    - An operation of [Engine] runs without other tasks of the engine in
      between; [EngineConc] takes flushes apart and interleaves them, with an
      encryption as one step ([sessions_isolated] says when that is no loss).
    - Any access of the engine to its database may fail, before it changed
      anything; which accesses fail is the platform's ([store_fault]).  A call
      that makes several accesses to the key store fails as a whole and at its
      first access ([on_keys]); the failures of the accesses that the Signal
      library makes through its store traits are among the library's own
      errors.  Theorems that promise progress assume [StoreWorks]; those on
      safety, order, isolation and error reporting hold under failures too.
    - A task dropped at an await is a run in which that request's answer is a
      panic: nothing after it runs and nothing handles it ([EngineCut.cut]).
    - A failed assertion of a test or a fuzz target is a panic.  Keys,
      certificates and ids that a test draws are arguments or fixed values, and
      MAC and signatures in tests are stand-ins that depend on every byte.
    - A lock region is atomic.  The mailbox-table lock covers everything a
      region does to mailboxes; the limiter locks and the counter are touched
      by single operations.  A panic inside a region poisons the lock, after
      which no region runs.
    - Code outside the sources is a parameter: the database's error texts
      ([SqlText]), the Signal library's records and ratchet ([LibSignal],
      [RatchetLib]), MAC and signature functions, the keyed hash of the source
      limiter, the network, generator and clocks ([Platform]), signatures and
      the MAC as the engine uses them ([Crypto]), sockets, TLS and the digest
      ([Tls]), the database library ([Sqlcipher]), the relay's host ([Host]),
      address parsing, and the framework's answer to an oversize body.  What a
      theorem assumes of them is a class of laws ([TlsLaws], [SqlcipherLaws],
      [SqlcipherWrites], [HarnessLaws], [RatchetCalls], [TypedOutside]) or a
      hypothesis, and has a witness with concrete
      functions.
    - A binary64 number is an integer count of its units of [2 ^ -1074], and
      every operation rounds to 53 bits, ties to even.

    ** Fuel and bounds

    The retry loop of mailbox creation and the registration-id loop run over
    the list of random draws; theorems state which lists suffice (more distinct
    draws than mailboxes; one draw with a non-zero 14-bit part).  The binary
    search runs with the length of the slice as fuel.  [run_solo] needs at most
    four regions per request and [drive] needs three actions plus one per
    queued message; a flush alone needs three steps for each stored message and
    three more.  These bounds are in the statements.  A call for the next event
    runs for as many turns as items are queued and three more, which is
    enough unless a send never completes ([Keepalive.next_from_returns]).  The harness's wait loop is bounded
    by the lifetime of the offer; [None] of a harness command means that it
    still waits for an input.

    ** What the theorems show

    - Relay: under every interleaving no panic, exact byte accounting, cap and
      quotas ([relay_invariant]); no lost wakeup; the regions compose to the
      handlers; functional behaviour of deposits, acks and the sweep; the rate
      bound; no existence oracle; termination of creation; what a started
      process is ([main_correct]).
    - Formats: every parser accepts exactly what its writer produces (with the
      one exception that [bundle_parse_exact] states), and none panics; a
      payload of any length is encoded or refused with the error its length
      calls for ([inner_encode_spec]).
    - Pairing: an offer is accepted exactly when signed by its own identity and
      within its window; the proof of scan binds bundle and contribution.
    - Links: the harness's decoder is the bit-by-bit reference on every string
      and reads back every printed link ([link_codec_correct]).
    - Recovery: parties converge; derived ids are well formed and distinct
      unless the MAC collides.
    - Engine: what is sent is stored before the network is used and stays
      pending until settled ([send_chat_durable]); pending messages go out in
      order; a listener acks the deliveries it took, each after its handling
      and none left out ([listener_acks_handled]); the two sides of a pairing store
      matching conversations; recovery and rotation leave each party sending
      where the other receives; recovery gives up after three cycles; an
      unacceptable offer or a wrong proof has no effect but its error; hellos
      act once ([hello_acts_once]); a generation runs at most one listener per
      conversation and its stop is handed every task that still runs
      ([one_listener_each]); no task panics, whichever requests and database
      accesses fail ([engine_type_safe]); under every interleaving of flushes a message is
      not encrypted again before the attempt before is given up
      ([one_flush_at_a_time]); reconnect delays are within 20 percent of their
      schedule to the nanosecond ([backoff_delays]); a dropped recovery can be
      taken up again and a dropped pairing leaves no half-made conversation
      ([dropped_tasks]); a dead connection is noticed within the interval, the
      grace period and the time its sends take, a live one is never given up,
      and only a send that never completes keeps a call from returning
      ([keepalive_in_time]).
    - Sessions: establishing, encrypting and decrypting for different peers,
      session-setup messages included when they name different one-time
      prekeys, interleave without effect on each other; for one peer two calls
      can start from the same record ([sessions_isolated]).
    - Trust: a mailbox is reported open or gone only over a stream that the pin
      or the bundled roots vouch for ([subscribe_trust]).
    - Foreign surface: a refused offer shows its own class of error, and what is
      sent is what the message list shows.
    - Store and keys: outbox, history, summaries, labels, routing, migrations;
      trust on first use; prekeys of offers do not disturb each other; a store
      opens under its own key only, with its rows ([open_correct]).
    - End to end: what is encrypted and accepted is delivered, decrypted to the
      same frame, and forgotten by the relay once acknowledged; over a line
      that loses requests and answers, outbox and mailbox together lose nothing
      ([outbox_to_mailbox]); what leaves one outbox is what the other history
      gains, once and in order ([chats_arrive]); a scanned offer leads two
      engines over the relay to matching conversations, unless the relay
      refuses the handoff ([pairing_over_relay]).
    - Tools and tests: the harness confirms a deposit only when the outbox is
      empty ([send_honest]); the client trusts exactly the certificate that the
      certificate tool made ([test_pin_trusts]); no fuzz target fails on any
      input ([fuzz_targets_pass]); the unit tests pass on the model, the
      committed vector among them ([unit_tests_pass]).

    ** Not modelled

    The asynchronous runtime and sockets, the wiping of keys from memory, the
    generated bindings and the Android application.  Of the engine: tasks other
    than flushes and session calls interleaved inside one operation.
    Of the tests: those of the bundled root store, of name resolution and of
    the HTTP library's timeout, which are about the libraries only, and the
    integration tests of the two crates, which start processes and sockets. *)

From Stdlib Require Export ZArith Lia.
From Stdlib Require Import Ascii.
From stdpp Require Export base gmap strings numbers option sorting.
From stdpp Require Export list_basics list_relations list_monad list.

Global Open Scope Z_scope.

(** ** Outcomes of fallible code

    A Rust function that returns [Result<A, E>] and that may also panic (slice
    indexing out of range, [expect], a checked arithmetic overflow: the
    workspace builds with [overflow-checks = true] in release) has three
    outcomes. *)
Inductive result (E A : Type) : Type :=
  | Ok (a : A)
  | Err (e : E)
  | Panic.
Arguments Ok {E A} a.
Arguments Err {E A} e.
Arguments Panic {E A}.

#[export] Instance result_ret {E} : MRet (result E) := fun A a => Ok a.

#[export] Instance result_bind {E} : MBind (result E) :=
  fun A B f m => match m with Ok a => f a | Err e => Err e | Panic => Panic end.

#[export] Instance result_fmap {E} : FMap (result E) :=
  fun A B f m => match m with Ok a => Ok (f a) | Err e => Err e | Panic => Panic end.

(** [if !b { return Err(e) }] *)
Definition ensure {E : Type} (b : bool) (e : E) : result E unit :=
  if b then Ok tt else Err e.

(** [Option::ok_or] *)
Definition ok_or {E A : Type} (o : option A) (e : E) : result E A :=
  match o with Some a => Ok a | None => Err e end.

(** [Option::expect] / [Result::expect]: a [None] is a panic. *)
Definition expect {E A : Type} (o : option A) : result E A :=
  match o with Some a => Ok a | None => Panic end.

(** [Result::map_err] *)
Definition map_err {E F A : Type} (f : E -> F) (r : result E A) : result F A :=
  match r with Ok a => Ok a | Err e => Err (f e) | Panic => Panic end.

(** [Result::is_ok] as a boolean *)
Definition is_ok {E A : Type} (r : result E A) : bool :=
  match r with Ok _ => true | _ => false end.

(** ** Byte strings and machine integers

    A byte is a [Z] in [0, 256); a [Vec<u8>], a [&[u8]] and the UTF-8 contents
    of a [String] are lists of bytes. *)
Abbreviation bytes := (list Z).

Definition byte_ok (b : Z) : Prop := 0 <= b < 256.

Definition bytes_ok (l : bytes) : Prop := Forall byte_ok l.

#[export] Instance byte_ok_dec b : Decision (byte_ok b).
Proof. unfold byte_ok. apply _. Defined.

#[export] Instance bytes_ok_dec l : Decision (bytes_ok l).
Proof. unfold bytes_ok. apply _. Defined.

Definition zlen {A : Type} (l : list A) : Z := Z.of_nat (length l).

Definition u16_max : Z := 2 ^ 16 - 1.
Definition u32_max : Z := 2 ^ 32 - 1.
Definition u64_max : Z := 2 ^ 64 - 1.
(** [usize] on the 64-bit targets the project ships. *)
Definition usize_max : Z := 2 ^ 64 - 1.

Definition in_u16 (z : Z) : Prop := 0 <= z <= u16_max.
Definition in_u32 (z : Z) : Prop := 0 <= z <= u32_max.
Definition in_u64 (z : Z) : Prop := 0 <= z <= u64_max.

(** [uN::checked_add], [uN::saturating_add], [uN::wrapping_*] at maximum [m]. *)
Definition checked_add (m a b : Z) : option Z :=
  if a + b <=? m then Some (a + b) else None.

Definition checked_sub (a b : Z) : option Z :=
  if b <=? a then Some (a - b) else None.

Definition saturating_add (m a b : Z) : Z := Z.min m (a + b).

Definition wrapping_add (m a b : Z) : Z := (a + b) mod (m + 1).

Definition wrapping_sub (m a b : Z) : Z := (a - b) mod (m + 1).

Definition wrapping_mul (m a b : Z) : Z := (a * b) mod (m + 1).

(** [uN::try_from(n)] for a non-negative [n]. *)
Definition try_from_max (m n : Z) : option Z := if n <=? m then Some n else None.

(** [bytes[i]]: panics when out of range. *)
Definition index {E : Type} (l : bytes) (i : Z) : result E Z :=
  if (0 <=? i) && (i <? zlen l) then expect (l !! Z.to_nat i) else Panic.

(** [&bytes[a..b]]: panics unless [a <= b <= len]. *)
Definition slice {E : Type} (l : bytes) (a b : Z) : result E bytes :=
  if (0 <=? a) && (a <=? b) && (b <=? zlen l)
  then Ok (take (Z.to_nat (b - a)) (drop (Z.to_nat a) l))
  else Panic.

(** [uN::to_be_bytes] at [n] bytes, and [uN::from_be_bytes]. *)
Fixpoint to_be (n : nat) (z : Z) : bytes :=
  match n with
  | O => []
  | S m => to_be m (z / 256) ++ [z mod 256]
  end.

Definition from_be (l : bytes) : Z := foldl (fun acc b => acc * 256 + b) 0 l.

(** A byte-string literal [b"..."]. *)
Definition bstr (s : string) : bytes :=
  map (fun a => Z.of_N (N_of_ascii a)) (String.list_ascii_of_string s).

(** Slice equality [a == b] on byte strings. *)
Definition beq (a b : bytes) : bool := bool_decide (a = b).

#[global] Arguments index : simpl never.
#[global] Arguments slice : simpl never.
#[global] Arguments from_be : simpl never.
#[global] Arguments zlen : simpl never.
#[global] Arguments beq : simpl never.

(** ** Hint databases and automation *)
Create HintDb titlan.
Create Rewrite HintDb zlen_rw.

(** Splits a boolean test of the goal or of a hypothesis and turns it into
    the proposition it decides. *)
Ltac bool_case :=
  match goal with
  | |- context [if ?b then _ else _] => let E := fresh "E" in destruct b eqn:E
  | H : context [if ?b then _ else _] |- _ => let E := fresh "E" in destruct b eqn:E
  end.

Ltac reflect_bools :=
  repeat match goal with
  | H : (_ && _)%bool = true |- _ => apply andb_prop in H; destruct H
  | H : (_ && _)%bool = false |- _ => apply andb_false_iff in H
  | H : (_ || _)%bool = true |- _ => apply orb_prop in H
  | H : (_ || _)%bool = false |- _ => apply orb_false_elim in H; destruct H
  | H : negb _ = true |- _ => apply negb_true_iff in H
  | H : negb _ = false |- _ => apply negb_false_iff in H
  | H : (_ <=? _) = true |- _ => apply Z.leb_le in H
  | H : (_ <=? _) = false |- _ => apply Z.leb_gt in H
  | H : (_ <? _) = true |- _ => apply Z.ltb_lt in H
  | H : (_ <? _) = false |- _ => apply Z.ltb_ge in H
  | H : (_ =? _) = true |- _ => apply Z.eqb_eq in H
  | H : (_ =? _) = false |- _ => apply Z.eqb_neq in H
  | H : beq _ _ = true |- _ => apply bool_decide_eq_true in H
  | H : beq _ _ = false |- _ => apply bool_decide_eq_false in H
  | H : bool_decide _ = true |- _ => apply bool_decide_eq_true in H
  | H : bool_decide _ = false |- _ => apply bool_decide_eq_false in H
  end.

(** Closes a decidable goal by evaluation. *)
Ltac by_compute := apply (bool_decide_unpack _); vm_compute; exact I.

(** Computes the monadic plumbing only. *)
Ltac rsimpl :=
  cbn [mbind result_bind mret result_ret fmap result_fmap ensure ok_or expect map_err
       option_bind option_fmap option_map option_ret negb fst snd].

(** Unfolds a chain of binds that is known to have returned. *)
Ltac inv_ok H :=
  repeat match type of H with
  | mbind _ ?m = Ok _ =>
      let E := fresh "Hm" in
      let a := fresh "a" in
      destruct m as [a| |] eqn:E; simpl in H; [| discriminate H | discriminate H]
  | Ok _ = Ok _ => injection H as H
  end.

(** ** Lemmas on results *)
Section result_lemmas.
Context {E A B : Type}.

Lemma bind_Ok (m : result E A) (f : A -> result E B) (b : B) :
  mbind f m = Ok b <-> exists a, m = Ok a /\ f a = Ok b.
Proof.
  destruct m as [a| |]; simpl; split.
  1: by exists a.
  all: try done; intros (a' & Ha & Hf); congruence.
Qed.

Lemma bind_no_panic (m : result E A) (f : A -> result E B) :
  m <> Panic -> (forall a, m = Ok a -> f a <> Panic) -> mbind f m <> Panic.
Proof. destruct m; simpl; naive_solver. Qed.

Lemma ensure_no_panic (b : bool) (e : E) : ensure b e <> Panic.
Proof. by destruct b. Qed.

Lemma ensure_Ok (b : bool) (e : E) (u : unit) : ensure b e = Ok u <-> b = true.
Proof. destruct u, b; simpl; naive_solver. Qed.

Lemma ok_or_no_panic (o : option A) (e : E) : ok_or o e <> Panic.
Proof. by destruct o. Qed.
End result_lemmas.

#[export] Hint Resolve ensure_no_panic ok_or_no_panic : titlan.

(** ** Lemmas on lengths, slices and big-endian codecs *)
Lemma zlen_nil {A} : zlen (@nil A) = 0.
Proof. done. Qed.

Lemma zlen_cons {A} (x : A) l : zlen (x :: l) = 1 + zlen l.
Proof. unfold zlen. simpl. lia. Qed.

Lemma zlen_app {A} (l k : list A) : zlen (l ++ k) = zlen l + zlen k.
Proof. unfold zlen. rewrite length_app. lia. Qed.

Lemma zlen_nonneg {A} (l : list A) : 0 <= zlen l.
Proof. unfold zlen. lia. Qed.

Lemma zlen_replicate {A} n (x : A) : zlen (replicate n x) = Z.of_nat n.
Proof. unfold zlen. by rewrite length_replicate. Qed.

Lemma zlen_0_nil {A} (l : list A) : zlen l <= 0 -> l = [].
Proof. destruct l; [done|]. rewrite zlen_cons. pose proof (zlen_nonneg l). lia. Qed.

#[export] Hint Rewrite @zlen_nil @zlen_cons @zlen_app @zlen_replicate : zlen_rw.

(** Normalises every [zlen] and adds its sign. *)
Ltac zlen_simpl := autorewrite with zlen_rw in *.

Ltac zlen_pos :=
  repeat match goal with
  | |- context [zlen ?l] => lazymatch goal with
      | _ : 0 <= zlen l |- _ => fail | _ => pose proof (zlen_nonneg l) end
  | _ : context [zlen ?l] |- _ => lazymatch goal with
      | _ : 0 <= zlen l |- _ => fail | _ => pose proof (zlen_nonneg l) end
  end.

Ltac zlen_lia := zlen_simpl; zlen_pos; lia.

Lemma slice_Ok {E} (l : bytes) a b :
  0 <= a -> a <= b -> b <= zlen l ->
  @slice E l a b = Ok (take (Z.to_nat (b - a)) (drop (Z.to_nat a) l)).
Proof. intros. unfold slice. by rewrite !(proj2 (Z.leb_le _ _)) by lia. Qed.

Lemma slice_mid {E} (p m s : bytes) :
  @slice E (p ++ m ++ s) (zlen p) (zlen p + zlen m) = Ok m.
Proof.
  rewrite slice_Ok by zlen_lia. f_equal.
  replace (Z.to_nat (zlen p)) with (length p) by (unfold zlen; lia).
  rewrite drop_app_length.
  replace (Z.to_nat (zlen p + zlen m - zlen p)) with (length m) by (unfold zlen; lia).
  by rewrite take_app_length.
Qed.

Lemma slice_inv {E} (l : bytes) a b s :
  @slice E l a b = Ok s ->
  exists p q, l = p ++ s ++ q /\ zlen p = a /\ zlen s = b - a.
Proof.
  unfold slice. bool_case; [|done]. intros [= <-]. reflect_bools.
  exists (take (Z.to_nat a) l), (drop (Z.to_nat (b - a)) (drop (Z.to_nat a) l)).
  rewrite !take_drop. split; [done|].
  unfold zlen in *. rewrite !length_take, length_drop. lia.
Qed.

Lemma index_app_head {E} (p : bytes) x s :
  @index E (p ++ x :: s) (zlen p) = Ok x.
Proof.
  unfold index. rewrite (proj2 (Z.leb_le _ _)) by zlen_lia.
  rewrite (proj2 (Z.ltb_lt _ _)) by zlen_lia. simpl.
  replace (Z.to_nat (zlen p)) with (length p) by (unfold zlen; lia).
  by rewrite list_lookup_middle.
Qed.

Lemma index_no_panic {E} (l : bytes) i :
  0 <= i < zlen l -> exists b, @index E l i = Ok b.
Proof.
  intros [H1 H2]. unfold index.
  rewrite (proj2 (Z.leb_le _ _)), (proj2 (Z.ltb_lt _ _)) by lia. simpl.
  destruct (lookup_lt_is_Some_2 l (Z.to_nat i)) as [b Hb]; [unfold zlen in H2; lia|].
  exists b. by rewrite Hb.
Qed.

Lemma length_to_be n z : length (to_be n z) = n.
Proof. revert z. induction n; intros; simpl; [done|]. rewrite length_app, IHn. simpl. lia. Qed.

Lemma zlen_to_be n z : zlen (to_be n z) = Z.of_nat n.
Proof. unfold zlen. by rewrite length_to_be. Qed.

#[export] Hint Rewrite zlen_to_be : zlen_rw.

Lemma to_be_ok n z : bytes_ok (to_be n z).
Proof.
  revert z. induction n; intros; simpl; [constructor|].
  apply Forall_app. split; [apply IHn|]. constructor; [|constructor].
  unfold byte_ok. pose proof (Z.mod_pos_bound z 256). lia.
Qed.

Lemma from_be_snoc l b : from_be (l ++ [b]) = from_be l * 256 + b.
Proof. unfold from_be. by rewrite foldl_app. Qed.

Lemma from_to_be n z : 0 <= z < 256 ^ Z.of_nat n -> from_be (to_be n z) = z.
Proof.
  revert z. induction n as [|n IH]; intros z Hz.
  - change (256 ^ Z.of_nat 0) with 1 in Hz. simpl. unfold from_be. simpl. lia.
  - rewrite Nat2Z.inj_succ, Z.pow_succ_r in Hz by lia.
    simpl. rewrite from_be_snoc, IH.
    + pose proof (Z.div_mod z 256). lia.
    + split; [apply Z.div_pos; lia|]. apply Z.div_lt_upper_bound; lia.
Qed.

Lemma from_be_bound l : bytes_ok l -> 0 <= from_be l < 256 ^ zlen l.
Proof.
  induction l as [|b l IH] using rev_ind; intros Hok; [done|].
  apply Forall_app in Hok as [Hl Hb]. apply Forall_cons_1 in Hb as [Hb _].
  rewrite from_be_snoc, zlen_app. specialize (IH Hl). unfold byte_ok in Hb.
  replace (zlen [b]) with 1 by done.
  rewrite Z.pow_add_r, Z.pow_1_r by zlen_lia. lia.
Qed.

Lemma to_from_be l : bytes_ok l -> to_be (length l) (from_be l) = l.
Proof.
  induction l as [|b l IH] using rev_ind; intros Hok; [done|].
  apply Forall_app in Hok as [Hl Hb]. apply Forall_cons_1 in Hb as [Hb _]. unfold byte_ok in Hb.
  rewrite length_app, from_be_snoc. simpl. rewrite Nat.add_1_r. simpl.
  rewrite (Z.add_comm _ b), Z.div_add, Z.div_small, Z.add_0_l, Z.mod_add, Z.mod_small by lia.
  by rewrite IH.
Qed.

Lemma bytes_ok_app l k : bytes_ok (l ++ k) <-> bytes_ok l /\ bytes_ok k.
Proof. apply Forall_app. Qed.

Lemma bytes_ok_take n l : bytes_ok l -> bytes_ok (take n l).
Proof. apply Forall_take. Qed.

Lemma bytes_ok_drop n l : bytes_ok l -> bytes_ok (drop n l).
Proof. apply Forall_drop. Qed.

Lemma bytes_ok_replicate0 n : bytes_ok (replicate n 0).
Proof. apply Forall_replicate. unfold byte_ok. lia. Qed.

#[export] Hint Resolve to_be_ok bytes_ok_take bytes_ok_drop bytes_ok_replicate0 : titlan.

Lemma beq_refl l : beq l l = true.
Proof. by apply bool_decide_eq_true. Qed.

#[global] Arguments to_be : simpl never.
