(* ===== verification/Utf8.v ===== *)
(** The part of Rust's text model the sources use: [String::from_utf8]
    (well-formed UTF-8, Unicode table 3-7), and the [char] classes behind
    [str::trim] and [char::is_control]. *)

From S2P Require Import Prelude.

Definition between (lo hi b : Z) : bool := (lo <=? b) && (b <=? hi).

(** A continuation byte [10xxxxxx]. *)
Definition is_cont (b : Z) : bool := between 128 191 b.

(** Legal second bytes of a three- and a four-byte sequence. *)
Definition second3_ok (b0 b1 : Z) : bool :=
  if b0 =? 224 then between 160 191 b1
  else if b0 =? 237 then between 128 159 b1
  else is_cont b1.

Definition second4_ok (b0 b1 : Z) : bool :=
  if b0 =? 240 then between 144 191 b1
  else if b0 =? 244 then between 128 143 b1
  else is_cont b1.

(** Decodes a byte string into Unicode scalar values; [None] when it is not
    well-formed UTF-8. *)
Fixpoint utf8_decode (l : bytes) : option (list Z) :=
  match l with
  | [] => Some []
  | b0 :: l1 =>
    if between 0 127 b0 then cons b0 <$> utf8_decode l1
    else match l1 with
    | [] => None
    | b1 :: l2 =>
      if between 194 223 b0 then
        if is_cont b1
        then cons ((b0 - 192) * 64 + (b1 - 128)) <$> utf8_decode l2
        else None
      else match l2 with
      | [] => None
      | b2 :: l3 =>
        if between 224 239 b0 then
          if second3_ok b0 b1 && is_cont b2
          then cons ((b0 - 224) * 4096 + (b1 - 128) * 64 + (b2 - 128)) <$> utf8_decode l3
          else None
        else match l3 with
        | [] => None
        | b3 :: l4 =>
          if between 240 244 b0 then
            if second4_ok b0 b1 && is_cont b2 && is_cont b3
            then cons ((b0 - 240) * 262144 + (b1 - 128) * 4096
                       + (b2 - 128) * 64 + (b3 - 128)) <$> utf8_decode l4
            else None
          else None
        end
      end
    end
  end.

Definition utf8_valid (l : bytes) : bool := bool_decide (is_Some (utf8_decode l)).

(** [String::from_utf8]: the same bytes, now known to be text. *)
Definition from_utf8 (l : bytes) : option bytes := if utf8_valid l then Some l else None.

(** [char::is_whitespace]: the Unicode [White_Space] property. *)
Definition is_whitespace (c : Z) : bool :=
  between 9 13 c || (c =? 32) || (c =? 133) || (c =? 160) || (c =? 5760)
  || between 8192 8202 c || (c =? 8232) || (c =? 8233) || (c =? 8239)
  || (c =? 8287) || (c =? 12288).

(** [char::is_control]: general category [Cc]. *)
Definition is_control (c : Z) : bool := between 0 31 c || between 127 159 c.

Fixpoint trim_start (cs : list Z) : list Z :=
  match cs with
  | [] => []
  | c :: r => if is_whitespace c then trim_start r else cs
  end.

(** [str::trim] on the sequence of scalar values. *)
Definition trim (cs : list Z) : list Z := reverse (trim_start (reverse (trim_start cs))).

(** ** Facts *)

Lemma from_utf8_Some l l' : from_utf8 l = Some l' <-> l' = l /\ utf8_valid l = true.
Proof. unfold from_utf8. destruct (utf8_valid l); split; naive_solver. Qed.

Lemma utf8_decode_bytes_ok l cs : utf8_decode l = Some cs -> bytes_ok l.
Proof.
  revert cs. induction l as [l IH] using (induction_ltof1 _ length).
  intros cs. unfold ltof in IH.
  assert (Hr : forall (a b c : Z), between a b c = true -> 0 <= a -> b < 256 -> byte_ok c).
  { intros a b c. unfold between, byte_ok. intros. reflect_bools. lia. }
  assert (Hc : forall b, is_cont b = true -> byte_ok b).
  { intros b. unfold is_cont. eauto with lia. }
  destruct l as [|b0 l1]; simpl; [intros; constructor|].
  destruct (between 0 127 b0) eqn:E0.
  { destruct (utf8_decode l1) eqn:D; [|done]. intros _.
    constructor; [eapply Hr; eauto; lia|]. eapply IH; [simpl; lia|eassumption]. }
  destruct l1 as [|b1 l2]; [done|].
  destruct (between 194 223 b0) eqn:E1.
  { destruct (is_cont b1) eqn:C1; [|done].
    destruct (utf8_decode l2) eqn:D; [|done]. intros _.
    constructor; [eapply Hr; eauto; lia|]. constructor; [auto|].
    eapply IH; [simpl; lia|eassumption]. }
  destruct l2 as [|b2 l3]; [done|].
  destruct (between 224 239 b0) eqn:E2.
  { destruct (second3_ok b0 b1 && is_cont b2) eqn:C1; [|done]. reflect_bools.
    destruct (utf8_decode l3) eqn:D; [|done]. intros _.
    constructor; [eapply Hr; eauto; lia|]. constructor.
    { unfold second3_ok in *. repeat bool_case; eauto with lia. }
    constructor; [auto|]. eapply IH; [simpl; lia|eassumption]. }
  destruct l3 as [|b3 l4]; [done|].
  destruct (between 240 244 b0) eqn:E3; [|done].
  destruct (second4_ok b0 b1 && is_cont b2 && is_cont b3) eqn:C1; [|done]. reflect_bools.
  destruct (utf8_decode l4) eqn:D; [|done]. intros _.
  constructor; [eapply Hr; eauto; lia|]. constructor.
  { unfold second4_ok in *. repeat bool_case; eauto with lia. }
  constructor; [auto|]. constructor; [auto|]. eapply IH; [simpl; lia|eassumption].
Qed.

Lemma utf8_valid_bytes_ok l : utf8_valid l = true -> bytes_ok l.
Proof. intros [cs H]%bool_decide_eq_true. by eapply utf8_decode_bytes_ok. Qed.

(** Every ASCII byte string is text. *)
Lemma utf8_valid_ascii l : Forall (fun b => 0 <= b <= 127) l -> utf8_valid l = true.
Proof.
  intros H. apply bool_decide_eq_true. induction H as [|b l Hb _ [cs IH]]; simpl; [by eexists|].
  unfold between. rewrite (proj2 (Z.leb_le 0 b)), (proj2 (Z.leb_le b 127)), IH by lia.
  by eexists.
Qed.

(** [trim] ends at characters that are not whitespace. *)
Lemma trim_start_head cs c r : trim_start cs = c :: r -> is_whitespace c = false.
Proof.
  induction cs as [|a cs IH]; simpl; [done|].
  destruct (is_whitespace a) eqn:E; [done|]. by intros [= <- <-].
Qed.

Lemma trim_start_suffix cs : trim_start cs `suffix_of` cs.
Proof.
  induction cs as [|a cs IH]; simpl; [done|].
  destruct (is_whitespace a); [|done]. by apply suffix_cons_r.
Qed.

Lemma trim_start_fix cs c r : cs = c :: r -> is_whitespace c = false -> trim_start cs = cs.
Proof. intros -> H. simpl. by rewrite H. Qed.

(** [trim] is idempotent: its result has no whitespace at either end. *)
Lemma trim_idemp cs : trim (trim cs) = trim cs.
Proof.
  unfold trim. set (m := trim_start cs). set (k := trim_start (reverse m)).
  assert (Hk : trim_start k = k).
  { destruct k as [|c r] eqn:E; [done|]. apply (trim_start_fix _ c r); [done|].
    by apply (trim_start_head (reverse m) c r). }
  assert (Hs : trim_start (reverse k) = reverse k).
  { destruct (reverse k) as [|c r] eqn:E; [done|].
    destruct (trim_start_suffix (reverse m)) as [p Hp]. fold k in Hp.
    assert (Hm : m = reverse k ++ reverse p).
    { rewrite <- reverse_app, <- Hp. by rewrite reverse_involutive. }
    rewrite E in Hm. simpl in Hm.
    apply (trim_start_fix _ c r); [done|].
    by apply (trim_start_head cs c (r ++ reverse p)). }
  by rewrite Hs, reverse_involutive, Hk.
Qed.

Lemma trim_start_spaces ws cs : Forall (fun c => is_whitespace c = true) ws -> trim_start (ws ++ cs) = trim_start cs.
Proof. induction 1 as [|c ws Hc _ IH]; simpl; [done|]. by rewrite Hc. Qed.

Lemma trim_start_none cs : Forall (fun c => is_whitespace c = false) cs -> trim_start cs = cs.
Proof. intros [|c r Hc _]; [done|]. simpl. by rewrite Hc. Qed.

(** Whitespace after text without any is what [trim] takes off. *)
Lemma trim_end_spaces cs ws :
  Forall (fun c => is_whitespace c = false) cs -> Forall (fun c => is_whitespace c = true) ws ->
  trim (cs ++ ws) = cs.
Proof.
  intros Hc Hw. unfold trim. destruct cs as [|c r].
  - simpl. rewrite <- (app_nil_r ws), trim_start_spaces by done. done.
  - assert (H0 : is_whitespace c = false) by (by inversion Hc).
    rewrite (trim_start_fix ((c :: r) ++ ws) c (r ++ ws)) by done.
    rewrite reverse_app, trim_start_spaces by (by apply Forall_reverse).
    rewrite trim_start_none by (by apply Forall_reverse). apply reverse_involutive.
Qed.
