(* ===== verification/Errors.v ===== *)
(** Typed errors of the client core ([tezca-core/src/error.rs]), the
    payload-type registry they mention ([envelope/inner.rs]), and the
    state-and-error monad in which the client's stateful code is written. *)

From stdpp Require Import pretty.
From S2P Require Import Prelude.

(** The registry of inner-frame payload types. *)
Inductive PayloadType :=
  | Chat
  | Posture
  | Policy
  | Alert
  | PairAck
  | MailboxUpdate
  | RecoveryHello.

#[export] Instance PayloadType_eq_dec : EqDecision PayloadType.
Proof. solve_decision. Defined.

(** Which bound of an offer's validity window failed. *)
Inductive OfferExpiryDetail :=
  | Expired
  | NotYetValid.

(** [CoreError], with the source's variants and payloads. *)
Inductive CoreError :=
  | UnsupportedVersion (got : Z)
  | UnknownEnvelopeKind (got : Z)
  | ReservedMustBeZero
  | Malformed (what : string)
  | UnknownPayloadType (got : Z)
  | RecognizedButUnsupported (payload_type : PayloadType) (type_version : Z)
  | InvalidPadding
  | InvalidBucket (frame_len : Z)
  | PayloadTooLarge (len max : Z)
  | Replay
  | BadDbKey
  | Storage (detail : string)
  | InvalidLabel (why : string)
  | Network (detail : string)
  | PairingUnavailable
  | OfferExpired (issued_at ttl_s now : Z) (detail : OfferExpiryDetail)
  | OfferSignatureInvalid
  | ProofOfScanFailed
  | ConversationNeedsRepair
  | Signal (detail : string).

(** The texts of [#[error(..)]], with the derived names of [{:?}]. *)
Definition payload_type_debug (t : PayloadType) : string :=
  match t with
  | Chat => "Chat"
  | Posture => "Posture"
  | Policy => "Policy"
  | Alert => "Alert"
  | PairAck => "PairAck"
  | MailboxUpdate => "MailboxUpdate"
  | RecoveryHello => "RecoveryHello"
  end.

Definition expiry_debug (d : OfferExpiryDetail) : string :=
  match d with Expired => "Expired" | NotYetValid => "NotYetValid" end.

Definition display (e : CoreError) : string :=
  match e with
  | UnsupportedVersion got => "unsupported version " +:+ pretty got
  | UnknownEnvelopeKind got => "unknown envelope kind " +:+ pretty got
  | ReservedMustBeZero => "reserved envelope bytes must be zero in v1"
  | Malformed what => "malformed input: " +:+ what
  | UnknownPayloadType got => "unknown payload type " +:+ pretty got
  | RecognizedButUnsupported t v =>
    "recognized but unsupported payload " +:+ payload_type_debug t +:+ "/" +:+ pretty v
  | InvalidPadding => "invalid padding"
  | InvalidBucket n => "frame length " +:+ pretty n +:+ " is not a configured bucket"
  | PayloadTooLarge len max => "payload of " +:+ pretty len +:+ " bytes exceeds maximum " +:+ pretty max
  | Replay => "replayed message rejected"
  | BadDbKey => "database key rejected"
  | Storage d => "storage error: " +:+ d
  | InvalidLabel why => "invalid conversation label: " +:+ why
  | Network d => "network error: " +:+ d
  | PairingUnavailable => "pairing inbox unavailable (consumed or expired)"
  | OfferExpired i t n d =>
    "pairing offer outside validity (issued_at " +:+ pretty i +:+ ", ttl " +:+ pretty t +:+ " s, now "
    +:+ pretty n +:+ ", " +:+ expiry_debug d +:+ ")"
  | OfferSignatureInvalid => "pairing offer signature invalid"
  | ProofOfScanFailed => "proof-of-scan verification failed"
  | ConversationNeedsRepair => "conversation needs repair (recovery exhausted)"
  | Signal d => "protocol error: " +:+ d
  end%string.

(** [type Result<T> = std::result::Result<T, CoreError>] *)
Abbreviation Result := (result CoreError).

(** ** Code that reads and writes a state *)

(** A computation that returns or fails, and in both cases leaves a state:
    what was written before an error stays written. *)
Definition st (S A : Type) : Type := S -> Result A * S.

#[export] Instance st_ret {S} : MRet (st S) := fun A a s => (Ok a, s).

#[export] Instance st_bind {S} : MBind (st S) :=
  fun A B f m s => match m s with
                   | (Ok a, s') => f a s'
                   | (Err e, s') => (Err e, s')
                   | (Panic, s') => (Panic, s')
                   end.

(** A computation that does not touch the state. *)
Definition pure_r {S A} (r : Result A) : st S A := fun s => (r, s).

(** A computation that only reads the state. *)
Definition read_r {S A} (r : S -> Result A) : st S A := fun s => (r s, s).

(** An error as a value ([if let Ok(..)], [match], [let _ =]); panics go on. *)
Definition attempt {S A} (m : st S A) : st S (A + CoreError) :=
  fun s => match m s with
           | (Ok a, s') => (Ok (inl a), s')
           | (Err e, s') => (Ok (inr e), s')
           | (Panic, s') => (Panic, s')
           end.

(** [let _ = m;] *)
Definition ignore {S A} (m : st S A) : st S unit := _ ← attempt m; mret tt.

(** A computation on a part of a larger state. *)
Definition zoom {S T A} (get : T -> S) (put : T -> S -> T) (m : st S A) : st T A :=
  fun t => let '(r, s) := m (get t) in (r, put t s).

Lemma st_bind_Ok {S A B} (m : st S A) (f : A -> st S B) s s' b :
  mbind f m s = (Ok b, s') <-> exists a s1, m s = (Ok a, s1) /\ f a s1 = (Ok b, s').
Proof.
  unfold mbind, st_bind. destruct (m s) as [[a| |] s1]; split; try done.
  - eauto.
  - by intros (a' & s1' & [= <- <-] & ?).
  - by intros (a' & s1' & ? & ?).
  - by intros (a' & s1' & ? & ?).
Qed.

Lemma ignore_eq {S A} (m : st S A) s :
  ignore m s = match m s with (Panic, s') => (Panic, s') | (_, s') => (Ok tt, s') end.
Proof. unfold ignore, attempt, mbind, st_bind. by destruct (m s) as [[]]. Qed.

(** ** What a computation may do to its state *)

(** Whatever the outcome, the state before and after are related. *)
Definition always {S A} (R : S -> S -> Prop) (m : st S A) : Prop := forall s, R s (m s).2.

Section always.
Context {S : Type} (R : S -> S -> Prop) `{!PreOrder R}.

Lemma always_same {A} (m : st S A) : (forall s, (m s).2 = s) -> always R m.
Proof. intros Hm s. rewrite Hm. reflexivity. Qed.

Lemma always_bind {A B} (m : st S A) (f : A -> st S B) :
  always R m -> (forall a, always R (f a)) -> always R (mbind f m).
Proof.
  intros Hm Hf s. unfold mbind, st_bind. specialize (Hm s). destruct (m s) as [[a| |] s1]; try done.
  simpl in Hm. etransitivity; [exact Hm|apply Hf].
Qed.

Lemma always_attempt {A} (m : st S A) : always R m -> always R (attempt m).
Proof. intros Hm s. specialize (Hm s). unfold attempt. by destruct (m s) as [[]]. Qed.

Lemma always_ignore {A} (m : st S A) : always R m -> always R (ignore m).
Proof.
  intros Hm. apply always_bind; [by apply always_attempt|]. intros a. by apply always_same.
Qed.
End always.

(** ** Computations that return *)

Section total.
Context {S : Type} (I : S -> Prop).

(** Started where [I] holds: it does not panic, or it returns; [I] holds after. *)
Definition no_panic {A} (m : st S A) : Prop := forall s, I s -> (m s).1 <> Panic /\ I (m s).2.
Definition total {A} (m : st S A) : Prop := forall s, I s -> exists a s', m s = (Ok a, s') /\ I s'.

Lemma total_ret {A} (a : A) : total (mret a).
Proof. intros s Hs. by exists a, s. Qed.

Lemma total_bind {A B} (m : st S A) (f : A -> st S B) : total m -> (forall a, total (f a)) -> total (mbind f m).
Proof.
  intros Hm Hf s Hs. destruct (Hm s Hs) as (a & s1 & E & Hs1). unfold mbind, st_bind. rewrite E. by apply Hf.
Qed.

Lemma total_attempt {A} (m : st S A) : no_panic m -> total (attempt m).
Proof.
  intros Hm s Hs. destruct (Hm s Hs) as [Hp Hi]. unfold attempt.
  destruct (m s) as [[a|e|] s']; [by eexists _, _..|done].
Qed.

Lemma total_ignore {A} (m : st S A) : no_panic m -> total (ignore m).
Proof. intros Hm. apply total_bind; [by apply total_attempt|]. intros a. apply total_ret. Qed.

Lemma no_panic_bind {A B} (m : st S A) (f : A -> st S B) :
  no_panic m -> (forall a, no_panic (f a)) -> no_panic (mbind f m).
Proof.
  intros Hm Hf s Hs. destruct (Hm s Hs) as [Hp Hi]. unfold mbind, st_bind.
  destruct (m s) as [[a| |] s']; try done. by apply Hf.
Qed.

Lemma no_panic_ret {A} (a : A) : no_panic (mret a).
Proof. by intros s. Qed.

Lemma total_no_panic {A} (m : st S A) : total m -> no_panic m.
Proof. intros Hm s Hs. destruct (Hm s Hs) as (a & s' & -> & Hi). by split. Qed.
End total.

(** ** Computations that are safe *)

(** A result that is not a panic, with what holds of its value. *)
Definition outcome_ok {A} (Q : A -> Prop) (r : Result A) : Prop :=
  match r with Ok a => Q a | Err _ => True | Panic => False end.

Lemma outcome_bind {A B} (P : A -> Prop) (Q : B -> Prop) (r : Result A) (f : A -> Result B) :
  outcome_ok P r -> (forall a, P a -> outcome_ok Q (f a)) -> outcome_ok Q (mbind f r).
Proof. destruct r; simpl; auto. Qed.

Lemma outcome_any {A} (r : Result A) : r <> Panic -> outcome_ok (fun _ => True) r.
Proof. by destruct r. Qed.

Lemma outcome_mono {A} (P Q : A -> Prop) (r : Result A) :
  (forall a, P a -> Q a) -> outcome_ok P r -> outcome_ok Q r.
Proof. destruct r; simpl; auto. Qed.

Section safe.
Context {S : Type} (I : S -> Prop).

(** Started where [I] holds: no panic, [I] after, and [Q] of what is returned. *)
Definition safe {A} (Q : A -> Prop) (m : st S A) : Prop :=
  forall s, I s -> I (m s).2 /\ outcome_ok Q (m s).1.

Lemma safe_ret {A} (Q : A -> Prop) a : Q a -> safe Q (mret a).
Proof. by intros Ha s Hs. Qed.

Lemma safe_bind {A B} (P : A -> Prop) (Q : B -> Prop) (m : st S A) (f : A -> st S B) :
  safe P m -> (forall a, P a -> safe Q (f a)) -> safe Q (mbind f m).
Proof.
  intros Hm Hf s Hs. destruct (Hm s Hs) as [Hi Ho]. unfold mbind, st_bind.
  destruct (m s) as [[a| |] s']; simpl in *; [by apply Hf|done..].
Qed.

Lemma safe_pure {A} (Q : A -> Prop) (r : Result A) : outcome_ok Q r -> safe Q (pure_r r).
Proof. by intros Hr s Hs. Qed.

Lemma safe_read {A} (Q : A -> Prop) (f : S -> Result A) :
  (forall s, I s -> outcome_ok Q (f s)) -> safe Q (read_r f).
Proof. intros Hf s Hs. split; [done|by apply Hf]. Qed.

Lemma safe_mono {A} (P Q : A -> Prop) (m : st S A) : (forall a, P a -> Q a) -> safe P m -> safe Q m.
Proof. intros H Hm s Hs. destruct (Hm s Hs). split; [done|by eapply outcome_mono]. Qed.

(** The value of an attempt. *)
Definition either {A} (Q : A -> Prop) (x : A + CoreError) : Prop := match x with inl a => Q a | inr _ => True end.

Lemma safe_attempt {A} (Q : A -> Prop) (m : st S A) : safe Q m -> safe (either Q) (attempt m).
Proof. intros Hm s Hs. destruct (Hm s Hs). unfold attempt. by destruct (m s) as [[]]. Qed.

Lemma safe_ignore {A} (Q : A -> Prop) (m : st S A) : safe Q m -> safe (fun _ => True) (ignore m).
Proof. intros Hm. eapply safe_bind; [by apply safe_attempt|]. intros a _. by apply safe_ret. Qed.
End safe.
