(* ===== verification/Config.v ===== *)
(** Client configuration ([tezca-core/src/config.rs]): the frozen constants,
    transport timing, and padding profiles.  The profile's constructor sorts,
    deduplicates and validates; [is_bucket] is the binary search of the
    standard library, proved equal to membership. *)

From S2P Require Import Prelude Errors.

Definition DEFAULT_RELAY_URL : bytes := bstr "wss://relay.titlan.chat".

(** Pair-offer v3 validity constants. *)
Definition OFFER_DEFAULT_TTL_S : Z := 3600.
Definition MAX_OFFER_TTL_S : Z := 86400.
Definition FUTURE_SKEW_S : Z := 300.

(** Transport timing, in seconds. *)
Definition KEEPALIVE_INTERVAL_S : Z := 55.
Definition KEEPALIVE_GRACE_S : Z := 10.
Definition HTTP_CONNECT_TIMEOUT_S : Z := 10.
Definition HTTP_REQUEST_TIMEOUT_S : Z := 30.

Module KeepaliveTiming.
Record t := mk { interval : Z; grace : Z }.
Definition production : t := mk KEEPALIVE_INTERVAL_S KEEPALIVE_GRACE_S.
End KeepaliveTiming.

Module HttpTimeouts.
Record t := mk { connect : Z; request : Z }.
Definition production : t := mk HTTP_CONNECT_TIMEOUT_S HTTP_REQUEST_TIMEOUT_S.
End HttpTimeouts.

Module TransportTiming.
Record t := mk { keepalive : KeepaliveTiming.t; http : HttpTimeouts.t }.
Definition production : t := mk KeepaliveTiming.production HttpTimeouts.production.
End TransportTiming.

(** Inner-frame header length ([envelope/inner.rs]). *)
Definition INNER_HEADER_LEN : Z := 6.

(** [Vec::dedup]: removes consecutive repetitions. *)
Fixpoint dedup (l : list Z) : list Z :=
  match l with
  | x :: ((y :: _) as r) => if x =? y then dedup r else x :: dedup r
  | _ => l
  end.

(** The halving loop of [slice::binary_search]: while [size > 1], probe
    [base + size / 2] and keep the half that can hold [x].  Each round lowers
    [size] by at least one, so [length l] rounds suffice. *)
Fixpoint search_loop (fuel : nat) (l : list Z) (x : Z) (base size : nat) : nat :=
  match fuel with
  | O => base
  | S fuel' =>
    if (size <=? 1)%nat then base
    else
      let half := Nat.div size 2 in
      let mid := (base + half)%nat in
      let base' := if x <? default 0 (l !! mid) then base else mid in
      search_loop fuel' l x base' (size - half)%nat
  end.

(** [slice::binary_search(&x).is_ok()] *)
Definition binary_search_is_ok (l : list Z) (x : Z) : bool :=
  match l with
  | [] => false
  | _ => bool_decide (l !! search_loop (length l) l x 0%nat (length l) = Some x)
  end.

Module PaddingProfile.
Record t := mk { buckets : list Z }.

(** Sorts, deduplicates, and rejects an empty list or a bucket below the
    inner-frame header. *)
Definition new (bs : list Z) : Result t :=
  let bs := dedup (merge_sort Z.le bs) in
  match bs with
  | [] => Err (Malformed "invalid padding profile")
  | b :: _ =>
    if b <? INNER_HEADER_LEN then Err (Malformed "invalid padding profile")
    else Ok (mk bs)
  end.

Definition single (size : Z) : Result t := new [size].

(** [Self::new(vec![512, 2048, 8192]).expect(..)] *)
Definition default_profile : Result t :=
  match new [512; 2048; 8192] with Ok p => Ok p | _ => Panic end.

(** The smallest bucket that holds [frame_len] bytes. *)
Definition bucket_for (p : t) (frame_len : Z) : option Z :=
  snd <$> list_find (fun b => frame_len <= b) (buckets p).

Definition is_bucket (p : t) (len : Z) : bool := binary_search_is_ok (buckets p) len.

(** [self.buckets[self.buckets.len() - 1] - INNER_HEADER_LEN_U32] *)
Definition max_payload (p : t) : Result Z :=
  last_bucket ← expect (last (buckets p));
  expect (checked_sub last_bucket INNER_HEADER_LEN).

(** What [new] guarantees of a profile: ascending, without repetition,
    non-empty, every bucket a [u32] that holds the header. *)
Definition wf (p : t) : Prop :=
  buckets p <> [] /\ StronglySorted Z.lt (buckets p) /\
  Forall (fun b => INNER_HEADER_LEN <= b <= u32_max) (buckets p).
End PaddingProfile.

(** ** Sorting and deduplication *)

Lemma elem_of_dedup l x : x ∈ dedup l <-> x ∈ l.
Proof.
  induction l as [|a r IH]; [done|]. destruct r as [|b r]; [done|].
  change (dedup (a :: b :: r)) with (if a =? b then dedup (b :: r) else a :: dedup (b :: r)).
  destruct (Z.eqb_spec a b) as [->|]; set_solver.
Qed.

Lemma dedup_strict l : StronglySorted Z.le l -> StronglySorted Z.lt (dedup l).
Proof.
  induction l as [|a r IH]; [constructor|]. intros [Hs Hall]%StronglySorted_inv.
  destruct r as [|b r]; [repeat constructor|].
  change (dedup (a :: b :: r)) with (if a =? b then dedup (b :: r) else a :: dedup (b :: r)).
  destruct (Z.eqb_spec a b) as [->|Hne]; [auto|].
  constructor; [auto|]. apply Forall_forall. intros x Hx. rewrite elem_of_dedup in Hx.
  apply StronglySorted_inv in Hs as [_ Hb].
  pose proof (Forall_cons_1 _ _ _ Hall) as [Hab _].
  apply elem_of_cons in Hx as [->|Hx]; [lia|].
  pose proof (proj1 (Forall_forall _ _) Hb x Hx). lia.
Qed.

Lemma sorted_input l : StronglySorted Z.le (merge_sort Z.le l).
Proof. apply StronglySorted_merge_sort; apply _. Qed.

Lemma elem_of_merge_sort (l : list Z) x : x ∈ merge_sort Z.le l <-> x ∈ l.
Proof. by rewrite merge_sort_Permutation. Qed.

(** ** Binary search *)

Lemma strict_lookup_lt l (i j : nat) (a b : Z) :
  StronglySorted Z.lt l -> l !! i = Some a -> l !! j = Some b -> a < b -> (i < j)%nat.
Proof.
  intros Hs Hi Hj Hab. destruct (decide (j <= i)%nat) as [Hle|]; [|lia].
  exfalso. destruct (decide (i = j)) as [->|]; [naive_solver lia|].
  enough (b < a) by lia.
  clear Hab. revert i j Hi Hj Hle n. induction Hs as [|x l Hs IH Hx]; [done|].
  intros [|i] [|j] Hi Hj Hle Hne; simpl in *; try lia.
  - injection Hj as <-. rewrite Forall_forall in Hx. apply Hx.
    by eapply list_elem_of_lookup_2.
  - apply (IH i j); auto; lia.
Qed.

Lemma strict_lookup_inj l (i j : nat) (a : Z) :
  StronglySorted Z.lt l -> l !! i = Some a -> l !! j = Some a -> i = j.
Proof.
  intros Hs. revert i j. induction Hs as [|x l Hs IH Hx]; [done|].
  rewrite Forall_forall in Hx.
  intros [|i] [|j] Hi Hj; simpl in *; [done| | |by rewrite (IH i j)].
  - injection Hi as ->. apply list_elem_of_lookup_2 in Hj. specialize (Hx _ Hj). lia.
  - injection Hj as ->. apply list_elem_of_lookup_2 in Hi. specialize (Hx _ Hi). lia.
Qed.

(** The loop keeps the index of [x] inside the window [base, base + size). *)
Lemma search_loop_finds fuel l x k base size :
  StronglySorted Z.lt l -> l !! k = Some x ->
  (base <= k < base + size)%nat -> (base + size <= length l)%nat -> (size <= fuel)%nat ->
  search_loop fuel l x base size = k.
Proof.
  intros Hs Hk. revert base size.
  induction fuel as [|fuel IH]; intros base size Hb Hl Hf; cbn [search_loop]; [lia|].
  destruct (Nat.leb_spec size 1); [lia|].
  assert (Hh : (1 <= Nat.div size 2 < size)%nat).
  { split; [apply Nat.div_le_lower_bound; lia|apply Nat.div_lt; lia]. }
  destruct (lookup_lt_is_Some_2 l (base + size / 2)%nat) as [m Hm]; [lia|].
  rewrite Hm. cbn [default id]. destruct (Z.ltb_spec x m) as [Hlt|Hge].
  - pose proof (strict_lookup_lt l k _ x m Hs Hk Hm Hlt).
    assert (2 * (size / 2) <= size)%nat by (apply Nat.Div0.mul_div_le).
    apply IH; lia.
  - assert (base + size / 2 <= k)%nat.
    { destruct (decide (m = x)) as [->|].
      - rewrite (strict_lookup_inj l k (base + size / 2)%nat x); auto.
      - pose proof (strict_lookup_lt l _ k m x Hs Hm Hk). lia. }
    apply IH; lia.
Qed.

Lemma binary_search_spec l x :
  StronglySorted Z.lt l -> binary_search_is_ok l x = true <-> x ∈ l.
Proof.
  intros Hs. destruct l as [|a r]; [set_solver|]. unfold binary_search_is_ok.
  rewrite bool_decide_eq_true. split.
  - apply list_elem_of_lookup_2.
  - intros [k Hk]%list_elem_of_lookup_1.
    pose proof (lookup_lt_Some _ _ _ Hk).
    by rewrite (search_loop_finds _ _ _ k) by (auto with lia).
Qed.

(** ** Padding profiles *)
Module PaddingProfileFacts.
Import PaddingProfile.

Lemma new_buckets bs p :
  new bs = Ok p -> buckets p = dedup (merge_sort Z.le bs).
Proof. unfold new. destruct (dedup _) as [|b r]; [done|]. bool_case; naive_solver. Qed.

Lemma new_wf_lemma bs p : Forall in_u32 bs -> new bs = Ok p -> wf p.
Proof.
  intros Hu Hn. pose proof (new_buckets _ _ Hn) as Hb. unfold new in Hn.
  pose proof (dedup_strict _ (sorted_input bs)) as Hs. rewrite <- Hb in *.
  destruct (buckets p) as [|b r] eqn:E; [done|].
  destruct (Z.ltb_spec b INNER_HEADER_LEN) as [|Hge]; [done|].
  unfold wf. rewrite E. split_and!; [done|done|].
  apply Forall_forall. intros x Hx.
  assert (Hxi : x ∈ bs) by (by rewrite <- elem_of_merge_sort, <- elem_of_dedup, <- Hb).
  split; [|exact (proj2 (proj1 (Forall_forall _ _) Hu x Hxi))].
  apply StronglySorted_inv in Hs as [_ Hs]. rewrite Forall_forall in Hs.
  apply elem_of_cons in Hx as [->|Hx]; [lia|]. specialize (Hs _ Hx). lia.
Qed.

Lemma bucket_for_Some p n b :
  bucket_for p n = Some b ->
  b ∈ buckets p /\ n <= b /\
  (StronglySorted Z.lt (buckets p) -> forall b', b' ∈ buckets p -> n <= b' -> b <= b').
Proof.
  unfold bucket_for. intros H. apply fmap_Some in H as [[i b'] [Hf ->]].
  apply list_find_Some in Hf as (Hi & Hle & Hmin). simpl. split_and!.
  - by eapply list_elem_of_lookup_2.
  - done.
  - intros Hs c [j Hj]%list_elem_of_lookup_1 Hc.
    destruct (decide (c < b')) as [Hlt|]; [|lia].
    pose proof (strict_lookup_lt _ _ _ _ _ Hs Hj Hi Hlt). naive_solver.
Qed.

Lemma bucket_for_None p n :
  bucket_for p n = None <-> Forall (fun b => b < n) (buckets p).
Proof.
  unfold bucket_for. rewrite fmap_None, list_find_None.
  apply Forall_iff. intros. lia.
Qed.

Lemma is_bucket_spec p n : wf p -> is_bucket p n = true <-> n ∈ buckets p.
Proof. intros (_ & Hs & _). by apply binary_search_spec. Qed.

Lemma max_payload_Ok p :
  wf p -> exists b, last (buckets p) = Some b /\
    max_payload p = Ok (b - INNER_HEADER_LEN) /\ INNER_HEADER_LEN <= b <= u32_max /\
    forall b', b' ∈ buckets p -> b' <= b.
Proof.
  intros (Hne & Hs & Hall). unfold max_payload.
  destruct (last (buckets p)) as [b|] eqn:E; [|by apply last_None in E].
  exists b. apply last_Some in E as [l' El].
  assert (Hb : INNER_HEADER_LEN <= b <= u32_max).
  { rewrite Forall_forall in Hall. apply Hall. rewrite El. set_solver. }
  split_and!; [done| |lia|lia|].
  - simpl. unfold checked_sub. by rewrite (proj2 (Z.leb_le _ _)) by lia.
  - intros b'. rewrite El in Hs |- *. clear -Hs.
    induction l' as [|a l' IH]; simpl in *; [set_solver by lia|].
    apply StronglySorted_inv in Hs as [Hs Ha]. rewrite Forall_forall in Ha.
    intros [->|Hx]%elem_of_cons; [|by apply IH].
    pose proof (Ha b ltac:(set_solver)). lia.
Qed.
End PaddingProfileFacts.

(** ** Properties *)

(** Padding profiles.  A profile built from a list of 32-bit sizes has
    exactly those sizes as buckets (the binary search finds all and only
    them); a frame gets the smallest bucket that holds it, and none exactly
    when every size is too small; and the payload limit is the largest size
    less the header, without underflow. *)
Theorem profile_correct (bs : list Z) (p : PaddingProfile.t) :
  Forall in_u32 bs -> PaddingProfile.new bs = Ok p ->
  (forall n, PaddingProfile.is_bucket p n = true <-> n ∈ bs) /\
  (forall n b, PaddingProfile.bucket_for p n = Some b ->
     b ∈ bs /\ n <= b /\ forall b', b' ∈ bs -> n <= b' -> b <= b') /\
  (forall n, PaddingProfile.bucket_for p n = None <-> forall b, b ∈ bs -> b < n) /\
  exists m, PaddingProfile.max_payload p = Ok m /\ m + INNER_HEADER_LEN ∈ bs /\ 0 <= m /\
    forall b, b ∈ bs -> b <= m + INNER_HEADER_LEN.
Proof.
  intros Hu Hn. pose proof (PaddingProfileFacts.new_wf_lemma _ _ Hu Hn) as Hwf.
  assert (Hin : forall n, n ∈ PaddingProfile.buckets p <-> n ∈ bs).
  { intros n. by rewrite (PaddingProfileFacts.new_buckets _ _ Hn), elem_of_dedup, elem_of_merge_sort. }
  split_and!.
  - intros n. by rewrite PaddingProfileFacts.is_bucket_spec, Hin.
  - intros n b (H1 & H2 & H3)%PaddingProfileFacts.bucket_for_Some. rewrite Hin in H1.
    split_and!; [done|done|]. intros b' Hb'. apply H3; [apply Hwf|by rewrite Hin].
  - intros n. rewrite PaddingProfileFacts.bucket_for_None, Forall_forall. by setoid_rewrite Hin.
  - destruct (PaddingProfileFacts.max_payload_Ok _ Hwf) as (b & Hl & Hm & Hb & Hmax).
    exists (b - INNER_HEADER_LEN). rewrite Z.sub_add. split_and!; [done| |lia|].
    + rewrite <- Hin. apply last_Some in Hl as [l' ->]. set_solver.
    + intros b' Hb'. apply Hmax. by rewrite Hin.
Qed.

Lemma profile_correct_witness :
  exists m p, PaddingProfile.new [1024; 256; 1024; 64] = Ok p /\ PaddingProfile.max_payload p = Ok m /\
    m + INNER_HEADER_LEN ∈ [1024; 256; 1024; 64].
Proof.
  destruct (profile_correct [1024; 256; 1024; 64] (PaddingProfile.mk [64; 256; 1024]))
    as (_ & _ & _ & m & H1 & H2 & _).
  - unfold in_u32. by_compute.
  - vm_compute; reflexivity.
  - exists m, (PaddingProfile.mk [64; 256; 1024]). split; [vm_compute; reflexivity|]. split; [exact H1|exact H2].
Defined.
