(* ===== verification/Envelope.v ===== *)
(** The outer envelope ([tezca-core/src/envelope/mod.rs]) and the padded
    inner frame ([envelope/inner.rs]): encoders, strict parsers, and their
    round trips, canonicity, error classification and freedom from panics. *)

From S2P Require Import Prelude Utf8 Errors Config.

(** ** Outer envelope *)

Definition MAGIC : bytes := bstr "TZCA".
Definition VERSION : Z := 1.
Definition OUTER_HEADER_LEN : Z := 8.

Inductive EnvelopeKind :=
  | SessionSetup
  | Ratchet.

#[export] Instance EnvelopeKind_eq_dec : EqDecision EnvelopeKind.
Proof. solve_decision. Defined.

(** [kind as u8] *)
Definition envelope_kind_byte (k : EnvelopeKind) : Z :=
  match k with SessionSetup => 1 | Ratchet => 2 end.

(** [EnvelopeKind::try_from] *)
Definition envelope_kind_try_from (value : Z) : Result EnvelopeKind :=
  if value =? 1 then Ok SessionSetup
  else if value =? 2 then Ok Ratchet
  else Err (UnknownEnvelopeKind value).

Module Envelope.
Record t := mk { kind : EnvelopeKind; ciphertext : bytes }.

Definition encode (e : t) : bytes :=
  MAGIC ++ [VERSION] ++ [envelope_kind_byte (kind e)] ++ [0; 0] ++ ciphertext e.

Definition parse (bs : bytes) : Result t :=
  _ ← ensure (negb (zlen bs <=? OUTER_HEADER_LEN)) (Malformed "envelope too short");
  magic ← slice bs 0 4;
  _ ← ensure (beq magic MAGIC) (Malformed "bad envelope magic");
  v ← index bs 4;
  _ ← ensure (v =? VERSION) (UnsupportedVersion v);
  k ← index bs 5;
  kind ← envelope_kind_try_from k;
  r6 ← index bs 6;
  r7 ← index bs 7;
  _ ← ensure (negb (negb (r6 =? 0) || negb (r7 =? 0))) ReservedMustBeZero;
  ct ← slice bs OUTER_HEADER_LEN (zlen bs);
  Ok (mk kind ct).
End Envelope.

(** ** Inner frame *)

(** [payload_type as u8] *)
Definition payload_type_byte (t : PayloadType) : Z :=
  match t with
  | Chat => 1 | Posture => 2 | Policy => 3 | Alert => 4
  | PairAck => 5 | MailboxUpdate => 6 | RecoveryHello => 7
  end.

(** [PayloadType::try_from] *)
Definition payload_type_try_from (value : Z) : Result PayloadType :=
  match value with
  | 1 => Ok Chat
  | 2 => Ok Posture
  | 3 => Ok Policy
  | 4 => Ok Alert
  | 5 => Ok PairAck
  | 6 => Ok MailboxUpdate
  | 7 => Ok RecoveryHello
  | got => Err (UnknownPayloadType got)
  end.

(** [Vec::resize(n, 0)] *)
Definition resize_zero (l : bytes) (n : Z) : bytes :=
  take (Z.to_nat n) (l ++ replicate (Z.to_nat n - length l) 0).

Module InnerFrame.
Record t := mk { payload_type : PayloadType; type_version : Z; payload : bytes }.

Definition chat_v1 (text : bytes) : t := mk Chat 1 text.

Definition encode (f : t) (profile : PaddingProfile.t) : Result bytes :=
  len ← ok_or (try_from_max u32_max (zlen (payload f))) (Malformed "payload exceeds u32");
  max ← PaddingProfile.max_payload profile;
  _ ← ensure (negb (max <? len)) (PayloadTooLarge len max);
  frame_len ← expect (checked_add u32_max INNER_HEADER_LEN len);
  bucket ← ok_or (PaddingProfile.bucket_for profile frame_len)
                 (Malformed "no bucket fits frame");
  Ok (resize_zero
        ([payload_type_byte (payload_type f)] ++ [type_version f] ++ to_be 4 len ++ payload f)
        bucket).

Definition parse (bs : bytes) (profile : PaddingProfile.t) : Result t :=
  frame_len ← ok_or (try_from_max u32_max (zlen bs)) (Malformed "frame exceeds u32");
  _ ← ensure (PaddingProfile.is_bucket profile frame_len) (InvalidBucket frame_len);
  b0 ← index bs 0;
  payload_type ← payload_type_try_from b0;
  type_version ← index bs 1;
  len_bytes ← slice bs 2 6;
  let declared := from_be len_bytes in
  end_ ← ok_or (checked_add usize_max INNER_HEADER_LEN declared)
               (Malformed "payload length overflow");
  _ ← ensure (negb (zlen bs <? end_)) (Malformed "payload length exceeds frame");
  pad ← slice bs end_ (zlen bs);
  _ ← ensure (negb (existsb (fun b => negb (b =? 0)) pad)) InvalidPadding;
  payload ← slice bs INNER_HEADER_LEN end_;
  Ok (mk payload_type type_version payload).

Definition into_chat_v1 (f : t) : Result bytes :=
  match payload_type f with
  | Chat =>
    if type_version f =? 1
    then ok_or (from_utf8 (payload f)) (Malformed "chat payload is not valid UTF-8")
    else Err (RecognizedButUnsupported Chat (type_version f))
  | pt => Err (RecognizedButUnsupported pt (type_version f))
  end.
End InnerFrame.

(** A frame whose fields have the widths the struct declares. *)
Definition inner_frame_ok (f : InnerFrame.t) : Prop :=
  byte_ok (InnerFrame.type_version f) /\ bytes_ok (InnerFrame.payload f).

(** ** Lemmas on the outer envelope *)

Lemma envelope_kind_try_from_byte k : envelope_kind_try_from (envelope_kind_byte k) = Ok k.
Proof. by destruct k. Qed.

Lemma envelope_kind_try_from_inv v k :
  envelope_kind_try_from v = Ok k -> v = envelope_kind_byte k.
Proof. unfold envelope_kind_try_from. repeat bool_case; intros [= <-]; reflect_bools; done. Qed.

(** The parser on an input that is at least a header: one step per check of
    the source, in its order. *)
Lemma parse_header m0 m1 m2 m3 v k r6 r7 ct :
  ct <> [] ->
  Envelope.parse (m0 :: m1 :: m2 :: m3 :: v :: k :: r6 :: r7 :: ct) =
    (if beq [m0; m1; m2; m3] MAGIC
     then if v =? VERSION
          then kind ← envelope_kind_try_from k;
               if (r6 =? 0) && (r7 =? 0) then Ok (Envelope.mk kind ct)
               else Err ReservedMustBeZero
          else Err (UnsupportedVersion v)
     else Err (Malformed "bad envelope magic")).
Proof.
  intros Hct. unfold Envelope.parse.
  assert (Hpos : 0 < zlen ct) by (destruct ct; [done|zlen_lia]).
  rewrite (proj2 (Z.leb_gt _ _)) by (unfold OUTER_HEADER_LEN; zlen_lia). simpl.
  rewrite (slice_Ok _ 0 4) by zlen_lia. simpl.
  destruct (beq _ MAGIC); simpl; [|done].
  set (bs := m0 :: _).
  pose proof (index_app_head (E:=CoreError) [m0;m1;m2;m3] v (k::r6::r7::ct)) as I4.
  pose proof (index_app_head (E:=CoreError) [m0;m1;m2;m3;v] k (r6::r7::ct)) as I5.
  pose proof (index_app_head (E:=CoreError) [m0;m1;m2;m3;v;k] r6 (r7::ct)) as I6.
  pose proof (index_app_head (E:=CoreError) [m0;m1;m2;m3;v;k;r6] r7 ct) as I7.
  simpl app in I4, I5, I6, I7. fold bs in I4, I5, I6, I7.
  change (zlen [m0;m1;m2;m3]) with 4 in I4. change (zlen [m0;m1;m2;m3;v]) with 5 in I5.
  change (zlen [m0;m1;m2;m3;v;k]) with 6 in I6. change (zlen [m0;m1;m2;m3;v;k;r6]) with 7 in I7.
  rewrite I4. simpl. destruct (v =? VERSION); simpl; [|done].
  rewrite I5. simpl. destruct (envelope_kind_try_from k); simpl; [|done|done].
  rewrite I6, I7. simpl. rewrite negb_orb, !negb_involutive.
  destruct ((r6 =? 0) && (r7 =? 0)); simpl; [|done].
  pose proof (slice_mid (E:=CoreError) [m0;m1;m2;m3;v;k;r6;r7] ct []) as S8.
  rewrite app_nil_r in S8. simpl app in S8. fold bs in S8.
  change (zlen [m0;m1;m2;m3;v;k;r6;r7]) with OUTER_HEADER_LEN in S8.
  replace (OUTER_HEADER_LEN + zlen ct) with (zlen bs) in S8
    by (unfold bs, OUTER_HEADER_LEN; zlen_lia).
  by rewrite S8.
Qed.

Lemma parse_short bs : zlen bs <= OUTER_HEADER_LEN ->
  Envelope.parse bs = Err (Malformed "envelope too short").
Proof. intros H. unfold Envelope.parse. by rewrite (proj2 (Z.leb_le _ _)) by lia. Qed.

(** Every input is either too short or a header followed by a ciphertext. *)
Lemma envelope_cases (bs : bytes) :
  zlen bs <= OUTER_HEADER_LEN \/
  exists m0 m1 m2 m3 v k r6 r7 ct,
    bs = m0 :: m1 :: m2 :: m3 :: v :: k :: r6 :: r7 :: ct /\ ct <> [].
Proof.
  destruct (decide (zlen bs <= OUTER_HEADER_LEN)) as [|H]; [by left|right].
  unfold OUTER_HEADER_LEN, zlen in H.
  do 9 (destruct bs as [|? bs]; [simpl in H; lia|]). by repeat eexists.
Qed.

(** ** Lemmas on the inner frame *)

Lemma payload_type_try_from_byte t : payload_type_try_from (payload_type_byte t) = Ok t.
Proof. by destruct t. Qed.

Lemma payload_type_try_from_inv v t :
  payload_type_try_from v = Ok t -> v = payload_type_byte t.
Proof.
  unfold payload_type_try_from. repeat case_match; intros; simplify_eq; done.
Qed.

Lemma payload_type_no_panic v : payload_type_try_from v <> Panic.
Proof. unfold payload_type_try_from. by repeat case_match. Qed.

Lemma zlen_resize_zero l n : 0 <= n -> zlen (resize_zero l n) = n.
Proof.
  intros. unfold resize_zero, zlen. rewrite length_take, length_app, length_replicate. lia.
Qed.

Lemma resize_zero_grow l n :
  zlen l <= n -> resize_zero l n = l ++ replicate (Z.to_nat (n - zlen l)) 0.
Proof.
  intros H. unfold resize_zero. unfold zlen in *.
  rewrite take_ge by (rewrite length_app, length_replicate; lia).
  f_equal. f_equal. lia.
Qed.

Lemma existsb_zero_pad n : existsb (fun b => negb (b =? 0)) (replicate n 0) = false.
Proof. by induction n. Qed.

Lemma existsb_pad_false l :
  existsb (fun b => negb (b =? 0)) l = false -> l = replicate (length l) 0.
Proof.
  induction l as [|b l IH]; simpl; [done|]. intros [Hb Hl]%orb_false_elim.
  reflect_bools. subst. f_equal. auto.
Qed.

(** The parser on a frame split into its fields. *)
Lemma inner_parse_split profile ptb tv lb rest :
  length lb = 4%nat -> bytes_ok lb ->
  zlen (ptb :: tv :: lb ++ rest) <= u32_max ->
  InnerFrame.parse (ptb :: tv :: lb ++ rest) profile =
    (if PaddingProfile.is_bucket profile (6 + zlen rest)
     then pt ← payload_type_try_from ptb;
          if from_be lb <=? zlen rest
          then if existsb (fun b => negb (b =? 0)) (drop (Z.to_nat (from_be lb)) rest)
               then Err InvalidPadding
               else Ok (InnerFrame.mk pt tv (take (Z.to_nat (from_be lb)) rest))
          else Err (Malformed "payload length exceeds frame")
     else Err (InvalidBucket (6 + zlen rest))).
Proof.
  intros Hlb Hok Hlen. unfold InnerFrame.parse.
  set (bs := ptb :: tv :: lb ++ rest) in *.
  assert (Hz : zlen bs = 6 + zlen rest) by (unfold bs, zlen in *; simpl; rewrite length_app; lia).
  unfold try_from_max. rewrite (proj2 (Z.leb_le _ _)) by lia. simpl. rewrite Hz.
  destruct (PaddingProfile.is_bucket _ _); simpl; [|done].
  pose proof (index_app_head (E:=CoreError) [] ptb (tv :: lb ++ rest)) as I0.
  pose proof (index_app_head (E:=CoreError) [ptb] tv (lb ++ rest)) as I1.
  pose proof (slice_mid (E:=CoreError) [ptb; tv] lb rest) as S2.
  simpl app in I0, I1, S2. fold bs in I0, I1, S2.
  change (zlen [ptb]) with 1 in I1. change (zlen [ptb; tv]) with 2 in S2.
  replace (2 + zlen lb) with 6 in S2 by (unfold zlen; lia). change (zlen (@nil Z)) with 0 in I0.
  rewrite ?I0. simpl. destruct (payload_type_try_from ptb); simpl; [|done|done].
  rewrite ?I1. simpl. rewrite S2. simpl.
  pose proof (from_be_bound lb Hok) as Hb.
  replace (zlen lb) with 4 in Hb by (unfold zlen; lia).
  unfold checked_add, INNER_HEADER_LEN.
  rewrite (proj2 (Z.leb_le _ usize_max)) by (unfold usize_max; lia). simpl.
  destruct (Z.leb_spec (from_be lb) (zlen rest)) as [Hle|Hgt].
  2: by rewrite (proj2 (Z.ltb_lt _ _)) by lia.
  rewrite (proj2 (Z.ltb_ge _ _)) by lia. simpl.
  rewrite (slice_Ok bs (6 + from_be lb)) by lia. simpl.
  assert (Hd : forall n, 0 <= n -> drop (Z.to_nat (6 + n)) bs = drop (Z.to_nat n) rest).
  { intros n Hn. replace (Z.to_nat (6 + n)) with (S (S (length lb + Z.to_nat n)))%nat by lia.
    unfold bs. simpl. by rewrite <- drop_drop, drop_app_length. }
  rewrite Hd, take_ge by (try rewrite length_drop; unfold zlen in *; lia).
  destruct (existsb _ _); simpl; [done|].
  rewrite slice_Ok by lia. simpl.
  rewrite <- Hlb, drop_app_length.
  by replace (6 + from_be lb - 6) with (from_be lb) by lia.
Qed.

(** A well-formed profile never makes the encoder panic, and the encoder
    succeeds exactly up to the profile's maximum payload. *)
Lemma inner_encode_cases f profile :
  PaddingProfile.wf profile ->
  exists b, last (PaddingProfile.buckets profile) = Some b /\
  InnerFrame.encode f profile =
    (if u32_max <? zlen (InnerFrame.payload f) then Err (Malformed "payload exceeds u32")
     else if b - 6 <? zlen (InnerFrame.payload f)
     then Err (PayloadTooLarge (zlen (InnerFrame.payload f)) (b - 6))
     else match PaddingProfile.bucket_for profile (6 + zlen (InnerFrame.payload f)) with
          | Some k =>
            Ok (([payload_type_byte (InnerFrame.payload_type f)] ++ [InnerFrame.type_version f]
                 ++ to_be 4 (zlen (InnerFrame.payload f)) ++ InnerFrame.payload f)
                ++ replicate (Z.to_nat (k - (6 + zlen (InnerFrame.payload f)))) 0)
          | None => Err (Malformed "no bucket fits frame")
          end).
Proof.
  intros Hwf. destruct (PaddingProfileFacts.max_payload_Ok _ Hwf) as (b & Hl & Hmax & Hb & _).
  exists b. split; [done|]. unfold InnerFrame.encode, try_from_max.
  set (n := zlen (InnerFrame.payload f)).
  assert (0 <= n) by (unfold n; zlen_lia).
  destruct (Z.leb_spec n u32_max); rsimpl;
    [rewrite (proj2 (Z.ltb_ge _ _)) by lia|by rewrite (proj2 (Z.ltb_lt _ _)) by lia].
  rewrite Hmax. cbn [mbind result_bind]. unfold INNER_HEADER_LEN in *.
  destruct (Z.ltb_spec (b - 6) n); rsimpl; [done|].
  unfold checked_add. rewrite (proj2 (Z.leb_le _ _)) by lia. rsimpl.
  destruct (PaddingProfile.bucket_for profile (6 + n)) as [k|] eqn:Ek; rsimpl.
  - apply PaddingProfileFacts.bucket_for_Some in Ek as (_ & Hk & _).
    rewrite resize_zero_grow by (fold n; zlen_lia).
    autorewrite with zlen_rw. fold n. do 5 f_equal. lia.
  - done.
Qed.

(** The bucket search of the encoder always succeeds: the length check
    against [max_payload] already guarantees that the last bucket fits. *)
Lemma bucket_for_total profile b n :
  last (PaddingProfile.buckets profile) = Some b -> n <= b ->
  exists k, PaddingProfile.bucket_for profile n = Some k.
Proof.
  intros Hl Hn. destruct (PaddingProfile.bucket_for profile n) as [k|] eqn:Ek; [by exists k|].
  apply PaddingProfileFacts.bucket_for_None in Ek. rewrite Forall_forall in Ek.
  assert (Hbin : b ∈ PaddingProfile.buckets profile).
  { apply last_Some in Hl as [l' ->]. set_solver. }
  specialize (Ek b Hbin). lia.
Qed.

Lemma pair_zero r6 r7 : (r6 =? 0) && (r7 =? 0) = true -> r6 = 0 /\ r7 = 0.
Proof. intros. by reflect_bools. Qed.

(** The declared fields of a parsed frame, recovered from the bytes. *)
Lemma inner_bytes_split (bs : bytes) :
  6 <= zlen bs -> exists ptb tv lb rest, bs = ptb :: tv :: lb ++ rest /\ length lb = 4%nat.
Proof.
  intros H. unfold zlen in H.
  do 2 (destruct bs as [|? bs]; [simpl in H; lia|]).
  exists z, z0, (take 4 bs), (drop 4 bs). rewrite take_drop. split; [done|].
  rewrite length_take. simpl in H. lia.
Qed.

Lemma bucket_bounds profile n :
  PaddingProfile.wf profile -> n ∈ PaddingProfile.buckets profile ->
  INNER_HEADER_LEN <= n <= u32_max.
Proof. intros (_ & _ & Hall) Hn. by apply (proj1 (Forall_forall _ _) Hall). Qed.

Lemma inner_parse_short profile bs :
  PaddingProfile.wf profile -> zlen bs < 6 -> exists e, InnerFrame.parse bs profile = Err e.
Proof.
  intros Hwf Hs. unfold InnerFrame.parse, try_from_max.
  rewrite (proj2 (Z.leb_le _ _)) by (unfold u32_max; lia). rsimpl.
  destruct (PaddingProfile.is_bucket profile (zlen bs)) eqn:E; rsimpl; [|by eexists].
  apply PaddingProfileFacts.is_bucket_spec in E; [|done].
  apply bucket_bounds in E; [|done]. unfold INNER_HEADER_LEN in E. lia.
Qed.

Lemma inner_parse_huge profile bs :
  u32_max < zlen bs -> InnerFrame.parse bs profile = Err (Malformed "frame exceeds u32").
Proof.
  intros. unfold InnerFrame.parse, try_from_max. by rewrite (proj2 (Z.leb_gt _ _)) by lia.
Qed.

(** Case analysis of the inner parser, sharing the split above. *)
Lemma inner_parse_Ok_split profile bs f :
  PaddingProfile.wf profile -> bytes_ok bs -> InnerFrame.parse bs profile = Ok f ->
  exists lb rest, bs = payload_type_byte (InnerFrame.payload_type f)
                       :: InnerFrame.type_version f :: lb ++ rest /\
    length lb = 4%nat /\ bytes_ok lb /\ zlen bs ∈ PaddingProfile.buckets profile /\
    from_be lb <= zlen rest /\ InnerFrame.payload f = take (Z.to_nat (from_be lb)) rest /\
    drop (Z.to_nat (from_be lb)) rest = replicate (length (drop (Z.to_nat (from_be lb)) rest)) 0.
Proof.
  intros Hwf Hok Hp.
  destruct (decide (zlen bs < 6)) as [Hs|Hge].
  { destruct (inner_parse_short _ _ Hwf Hs) as [e He]. congruence. }
  destruct (decide (u32_max < zlen bs)) as [Hh|Hle].
  { rewrite inner_parse_huge in Hp by lia. done. }
  destruct (inner_bytes_split bs) as (ptb & tv & lb & rest & -> & Hl); [lia|].
  assert (Hlb : bytes_ok lb).
  { do 2 apply Forall_cons_1 in Hok as [_ Hok]. by apply bytes_ok_app in Hok as [? _]. }
  rewrite inner_parse_split in Hp by (auto; lia).
  destruct (PaddingProfile.is_bucket _ _) eqn:Eb; [|done].
  destruct (payload_type_try_from ptb) as [pt| |] eqn:Ept; rsimpl; try done.
  simpl in Hp. apply payload_type_try_from_inv in Ept as ->.
  destruct (Z.leb_spec (from_be lb) (zlen rest)); [|done].
  destruct (existsb _ _) eqn:Ex; [done|]. injection Hp as <-. simpl.
  apply existsb_pad_false in Ex. exists lb, rest. split_and!; try done.
  apply PaddingProfileFacts.is_bucket_spec in Eb; [|done].
  assert (zlen lb = 4) by (unfold zlen; lia).
  replace (zlen _) with (6 + zlen rest); [done|]. zlen_lia.
Qed.

(** A frame laid out field by field parses to those fields. *)
Lemma inner_parse_frame profile f n :
  PaddingProfile.wf profile ->
  let bs := payload_type_byte (InnerFrame.payload_type f) :: InnerFrame.type_version f ::
            to_be 4 (zlen (InnerFrame.payload f)) ++ InnerFrame.payload f ++ replicate n 0 in
  zlen bs ∈ PaddingProfile.buckets profile -> InnerFrame.parse bs profile = Ok f.
Proof.
  intros Hwf bs Hin. pose proof (bucket_bounds _ _ Hwf Hin) as Hb. unfold bs in *.
  set (p := InnerFrame.payload f) in *.
  assert (Hp : 0 <= zlen p < 256 ^ Z.of_nat 4).
  { autorewrite with zlen_rw in Hb. unfold u32_max in Hb. zlen_pos. lia. }
  rewrite inner_parse_split by (auto with titlan; try apply length_to_be; lia).
  rewrite from_to_be by done.
  assert (Hz : 6 + zlen (p ++ replicate n 0) = zlen (payload_type_byte (InnerFrame.payload_type f)
    :: InnerFrame.type_version f :: to_be 4 (zlen p) ++ p ++ replicate n 0)) by zlen_lia.
  rewrite Hz, (proj2 (PaddingProfileFacts.is_bucket_spec _ _ Hwf)) by done.
  rewrite payload_type_try_from_byte. rsimpl.
  rewrite (proj2 (Z.leb_le _ _)) by zlen_lia.
  replace (Z.to_nat (zlen p)) with (length p) by (unfold zlen; lia).
  rewrite drop_app_length, take_app_length, existsb_zero_pad. by destruct f.
Qed.

Lemma envelope_roundtrip e : Envelope.ciphertext e <> [] -> Envelope.parse (Envelope.encode e) = Ok e.
Proof.
  intros Hct. destruct e as [kind ct]. unfold Envelope.encode. simpl in *.
  rewrite parse_header by done. rewrite (envelope_kind_try_from_byte kind). done.
Qed.

Lemma inner_encode_parse profile f bs :
  PaddingProfile.wf profile -> InnerFrame.encode f profile = Ok bs ->
  InnerFrame.parse bs profile = Ok f /\ zlen bs ∈ PaddingProfile.buckets profile.
Proof.
  intros Hwf E. destruct (inner_encode_cases f profile Hwf) as (b & _ & Hc). rewrite E in Hc.
  destruct (_ <? _); [done|]. destruct (_ <? _); [done|].
  destruct (PaddingProfile.bucket_for _ _) as [k|] eqn:Ek; [|done].
  match type of Hc with Ok _ = Ok ?x => assert (bs = x) as -> by congruence end. clear Hc E.
  apply PaddingProfileFacts.bucket_for_Some in Ek as (Hin & Hle & _).
  rewrite <- !app_assoc. cbn [app].
  match goal with |- _ /\ zlen ?l ∈ _ => assert (Hz : zlen l = k) by zlen_lia end.
  split; [|by rewrite Hz]. apply inner_parse_frame; [done|]. by rewrite Hz.
Qed.

(** ** Properties *)

(** The outer envelope parser accepts exactly the canonical encodings of
    envelopes with a non-empty ciphertext: it returns [e] on a byte string if
    and only if the byte string is [encode e].  This is the round trip and the
    absence of alternative encodings in one statement. *)
Theorem envelope_parse_iff (bs : bytes) (e : Envelope.t) :
  Envelope.parse bs = Ok e <-> bs = Envelope.encode e /\ Envelope.ciphertext e <> [].
Proof.
  split.
  - intros H. destruct (envelope_cases bs) as [Hs|(m0&m1&m2&m3&v&k&r6&r7&ct&->&Hct)].
    { by rewrite parse_short in H. }
    rewrite parse_header in H by done.
    destruct (beq _ _) eqn:Em; [|done]. destruct (v =? VERSION) eqn:Ev; [|done].
    destruct (envelope_kind_try_from k) as [kd| |] eqn:Ek; simpl in H; [|done|done].
    destruct ((r6 =? 0) && (r7 =? 0)) eqn:Er; [|done]. injection H as <-.
    apply pair_zero in Er as [-> ->]. apply envelope_kind_try_from_inv in Ek as ->.
    reflect_bools. subst. unfold Envelope.encode. cbn. by injection Em as -> -> -> ->.
  - intros [-> Hct]. unfold Envelope.encode.
    change MAGIC with [84; 90; 67; 65]. cbn [app].
    rewrite parse_header by done. rewrite envelope_kind_try_from_byte. by destruct e.
Qed.

(** The inner-frame parser, on any byte string and any profile that
    [PaddingProfile::new] can build, accepts exactly the frames that are one
    configured bucket long and made of the type byte, the version byte, the
    big-endian payload length, the payload, and zero padding to the end. *)
Theorem inner_parse_iff (profile : PaddingProfile.t) (bs : bytes) (f : InnerFrame.t) :
  PaddingProfile.wf profile -> bytes_ok bs ->
  InnerFrame.parse bs profile = Ok f <->
  zlen bs ∈ PaddingProfile.buckets profile /\
  exists n, bs = payload_type_byte (InnerFrame.payload_type f) :: InnerFrame.type_version f ::
                 to_be 4 (zlen (InnerFrame.payload f)) ++ InnerFrame.payload f ++ replicate n 0.
Proof.
  intros Hwf Hok. split.
  - intros Hp.
    destruct (inner_parse_Ok_split _ _ _ Hwf Hok Hp) as (lb&rest&->&Hl&Hlb&Hin&Hle&Hpay&Hpad).
    split; [done|]. exists (length (drop (Z.to_nat (from_be lb)) rest)).
    rewrite <- Hpad. pose proof (from_be_bound lb Hlb).
    replace (zlen (InnerFrame.payload f)) with (from_be lb)
      by (rewrite Hpay; unfold zlen in *; rewrite length_take; lia).
    rewrite <- Hl at 1. rewrite to_from_be by done. by rewrite Hpay, take_drop.
  - intros (Hin & n & ->). by apply inner_parse_frame.
Qed.

Lemma inner_parse_iff_witness :
  InnerFrame.parse (1 :: 1 :: to_be 4 2 ++ [104; 105] ++ replicate 0 0) (PaddingProfile.mk [8])
    = Ok (InnerFrame.mk Chat 1 [104; 105]).
Proof.
  apply inner_parse_iff.
  - unfold PaddingProfile.wf; simpl; split_and!; [done|repeat constructor|].
    repeat constructor; unfold INNER_HEADER_LEN, u32_max; lia.
  - by_compute.
  - split; [apply list_elem_of_In; left; reflexivity|by exists 0%nat].
Defined.

(** C30: padding and bounds of the inner-frame encoder.  With a profile built
    by [PaddingProfile::new] the encoder never panics: a payload of at most
    the last bucket less the header is encoded into exactly the smallest
    bucket that holds it, and parses back to the same frame; a larger one is
    refused with its length and the limit, and one whose length is no [u32] is
    refused as such. *)
Theorem inner_encode_spec (profile : PaddingProfile.t) (f : InnerFrame.t) (b : Z) :
  PaddingProfile.wf profile -> inner_frame_ok f ->
  last (PaddingProfile.buckets profile) = Some b ->
  let n := zlen (InnerFrame.payload f) in
  (n <= b - INNER_HEADER_LEN ->
     exists bs, InnerFrame.encode f profile = Ok bs /\ InnerFrame.parse bs profile = Ok f /\
       zlen bs ∈ PaddingProfile.buckets profile /\ INNER_HEADER_LEN + n <= zlen bs /\
       forall b', b' ∈ PaddingProfile.buckets profile -> INNER_HEADER_LEN + n <= b' ->
                  zlen bs <= b') /\
  (b - INNER_HEADER_LEN < n <= u32_max ->
     InnerFrame.encode f profile = Err (PayloadTooLarge n (b - INNER_HEADER_LEN))) /\
  (u32_max < n -> InnerFrame.encode f profile = Err (Malformed "payload exceeds u32")) /\
  b - INNER_HEADER_LEN <= u32_max.
Proof.
  intros Hwf [Hv Hpok] Hl n. destruct (inner_encode_cases f profile Hwf) as (b' & Hl' & Henc).
  assert (b' = b) as -> by congruence. fold n in Henc.
  assert (Hbb : INNER_HEADER_LEN <= b <= u32_max).
  { apply (bucket_bounds profile); [done|]. apply last_Some in Hl as [l' ->]. set_solver. }
  unfold INNER_HEADER_LEN in *.
  assert (0 <= n) by (unfold n; zlen_lia).
  split_and!; [|intros ?; rewrite Henc, (proj2 (Z.ltb_ge _ _)), (proj2 (Z.ltb_lt _ _)) by lia; done
              |intros ?; rewrite Henc, (proj2 (Z.ltb_lt _ _)) by lia; done|lia].
  intros Hn. rewrite (proj2 (Z.ltb_ge _ _)), (proj2 (Z.ltb_ge _ _)) in Henc by lia.
  destruct (bucket_for_total profile b (6 + n) Hl) as [k Hk]; [lia|]. rewrite Hk in Henc.
  destruct (PaddingProfileFacts.bucket_for_Some _ _ _ Hk) as (Hin & Hge & Hmin).
  eexists. split; [exact Henc|]. set (bs := (_ ++ replicate _ 0)).
  assert (Hz : zlen bs = k) by (unfold bs; fold n; autorewrite with zlen_rw; fold n; lia).
  rewrite Hz. split_and!; [|done|done|].
  2: { intros. apply Hmin; [apply Hwf|done|done]. }
  unfold bs in *. rewrite <- !app_assoc in Hz |- *.
  apply inner_parse_frame; [done|]. cbn [app] in Hz.
  fold n. by rewrite Hz.
Qed.

Lemma inner_encode_spec_witness :
  exists bs, InnerFrame.encode (InnerFrame.chat_v1 [104; 105]) (PaddingProfile.mk [16; 32]) = Ok bs
    /\ zlen bs = 16.
Proof.
  destruct (inner_encode_spec (PaddingProfile.mk [16; 32]) (InnerFrame.chat_v1 [104; 105]) 32)
    as [H _].
  - unfold PaddingProfile.wf; simpl; split_and!; [done| |].
    + repeat constructor; lia.
    + repeat constructor; unfold INNER_HEADER_LEN, u32_max; lia.
  - split; [unfold byte_ok; simpl; lia|]. by_compute.
  - reflexivity.
  - destruct H as (bs & H1 & _ & _ & H2 & H3); [vm_compute; discriminate|].
    exists bs. split; [exact H1|].
    assert (zlen bs <= 16)
      by (apply H3; [apply list_elem_of_In; left; reflexivity|vm_compute; discriminate]).
    revert H1. vm_compute InnerFrame.encode. intros [= <-]. reflexivity.
Defined.

Lemma envelope_no_panic bs : Envelope.parse bs <> Panic.
Proof.
  destruct (envelope_cases bs) as [Hs|(m0&m1&m2&m3&v&k&r6&r7&ct&->&Hct)].
  { by rewrite parse_short. }
  rewrite parse_header by done. unfold envelope_kind_try_from.
  repeat (bool_case; simpl; try done).
Qed.

(** Neither wire parser panics on any byte string (the contract of their
    fuzz targets): every slice index, the fixed-width conversion and the
    length arithmetic stay in range. *)
Theorem parsers_never_panic (profile : PaddingProfile.t) (bs : bytes) :
  PaddingProfile.wf profile -> bytes_ok bs ->
  Envelope.parse bs <> Panic /\ InnerFrame.parse bs profile <> Panic.
Proof.
  intros Hwf Hok. split.
  - apply envelope_no_panic.
  - destruct (decide (zlen bs < 6)) as [Hs|Hge].
    { destruct (inner_parse_short _ _ Hwf Hs) as [e He]. by rewrite He. }
    destruct (decide (u32_max < zlen bs)); [by rewrite inner_parse_huge by lia|].
    destruct (inner_bytes_split bs) as (ptb & tv & lb & rest & -> & Hl); [lia|].
    rewrite inner_parse_split; [| done | | lia].
    2: { do 2 apply Forall_cons_1 in Hok as [_ Hok]. by apply bytes_ok_app in Hok as [? _]. }
    destruct (PaddingProfile.is_bucket _ _); [|done].
    pose proof (payload_type_no_panic ptb).
    destruct (payload_type_try_from ptb); simpl; [|done|done]. by repeat bool_case.
Qed.

Lemma parsers_never_panic_witness :
  Envelope.parse [84; 90] <> Panic /\ InnerFrame.parse [84; 90] (PaddingProfile.mk [8]) <> Panic.
Proof.
  apply parsers_never_panic.
  - unfold PaddingProfile.wf; simpl; split_and!; [done|repeat constructor|].
    repeat constructor; unfold INNER_HEADER_LEN, u32_max; lia.
  - by_compute.
Defined.
