(* ===== verification/Base64.v ===== *)
(** Unpadded base64url as both crates write it: the relay's mailbox-id
    encoder ([tezca-relay/src/wire.rs]) and the core's derived-mailbox
    encoder ([tezca-core/src/recovery.rs]).  The two are proved equal and
    injective, and every 32-byte string becomes 43 alphabet characters. *)

From S2P Require Import Prelude.

Definition B64URL : bytes :=
  bstr "ABCDEFGHIJKLMNOPQRSTUVWXYZabcdefghijklmnopqrstuvwxyz0123456789-_".

(** [slice::chunks(3)] *)
Fixpoint chunks3 (l : bytes) : list bytes :=
  match l with
  | [] => []
  | b0 :: b1 :: b2 :: r => [b0; b1; b2] :: chunks3 r
  | short => [short]
  end.

(** [(b0 << 16) | (b1 << 8) | b2], absent bytes read as zero. *)
Definition chunk_word (chunk : bytes) : Z :=
  let b0 := default 0 (chunk !! 0%nat) in
  let b1 := default 0 (chunk !! 1%nat) in
  let b2 := default 0 (chunk !! 2%nat) in
  Z.lor (Z.lor (Z.shiftl b0 16) (Z.shiftl b1 8)) b2.

(** [ALPHABET[i]]; the index is masked to six bits before use. *)
Definition b64_char (i : Z) : Z := default 0 (B64URL !! Z.to_nat i).

(** The body of the relay's encoding loop: [B64URL[(n >> k) as usize & 63]]. *)
Definition encode_chunk (chunk : bytes) : bytes :=
  let n := chunk_word chunk in
  [b64_char (Z.land (Z.shiftr n 18) 63); b64_char (Z.land (Z.shiftr n 12) 63)]
  ++ (if 1 <? zlen chunk then [b64_char (Z.land (Z.shiftr n 6) 63)] else [])
  ++ (if 2 <? zlen chunk then [b64_char (Z.land n 63)] else []).

(** The relay's [encode_mailbox_id]. *)
Definition encode_mailbox_id (bs : bytes) : bytes := concat (map encode_chunk (chunks3 bs)).

(** The core's [base64url_nopad]: the same table, [ALPHABET[(n >> k) & 0x3f]]. *)
Fixpoint base64url_nopad (bs : bytes) : bytes :=
  let chars chunk :=
    let n := chunk_word chunk in
    b64_char (Z.land (Z.shiftr n 18) 63) :: b64_char (Z.land (Z.shiftr n 12) 63) ::
    match chunk with
    | [_] => []
    | [_; _] => [b64_char (Z.land (Z.shiftr n 6) 63)]
    | _ => [b64_char (Z.land (Z.shiftr n 6) 63); b64_char (Z.land n 63)]
    end in
  match bs with
  | [] => []
  | b0 :: b1 :: b2 :: r => chars [b0; b1; b2] ++ base64url_nopad r
  | short => chars short
  end.

(** [mailbox_id_shape_ok]: 43 characters, all of the alphabet. *)
Definition mailbox_id_shape_ok (id : bytes) : bool :=
  (zlen id =? 43) && forallb (fun b => bool_decide (b ∈ B64URL)) id.

(** ** Bits as arithmetic *)

Lemma lor_shift_add a b k :
  0 <= k -> 0 <= b < 2 ^ k -> Z.lor (Z.shiftl a k) b = a * 2 ^ k + b.
Proof.
  intros Hk Hb.
  assert (Hdis : Z.land (Z.shiftl a k) b = 0).
  { apply Z.bits_inj'. intros n Hn. rewrite Z.land_spec, Z.bits_0.
    destruct (decide (n < k)) as [Hlt|Hge].
    - by rewrite Z.shiftl_spec_low.
    - replace b with (b mod 2 ^ k) by (apply Z.mod_small; lia).
      rewrite Z.mod_pow2_bits_high by lia. by rewrite andb_false_r. }
  rewrite <- Z.lxor_lor, <- Z.add_nocarry_lxor by done.
  by rewrite Z.shiftl_mul_pow2.
Qed.

Lemma chunk_word_arith b0 b1 b2 :
  byte_ok b1 -> byte_ok b2 ->
  Z.lor (Z.lor (Z.shiftl b0 16) (Z.shiftl b1 8)) b2 = b0 * 65536 + b1 * 256 + b2.
Proof.
  unfold byte_ok. intros H1 H2.
  rewrite (Z.shiftl_mul_pow2 b1 8), (lor_shift_add b0 (b1 * 2 ^ 8) 16) by lia.
  replace (b0 * 2 ^ 16 + b1 * 2 ^ 8) with (Z.shiftl (b0 * 256 + b1) 8)
    by (rewrite Z.shiftl_mul_pow2; lia).
  rewrite lor_shift_add; lia.
Qed.

(** A six-bit group. *)
Lemma group_arith n k : 0 <= k -> Z.land (Z.shiftr n k) 63 = n / 2 ^ k mod 64.
Proof.
  intros. rewrite Z.shiftr_div_pow2 by done.
  change 63 with (Z.ones 6). by rewrite Z.land_ones.
Qed.

Lemma group0_arith n : Z.land n 63 = n mod 64.
Proof. change 63 with (Z.ones 6). by rewrite Z.land_ones. Qed.

Lemma b64_char_inj i j :
  0 <= i < 64 -> 0 <= j < 64 -> b64_char i = b64_char j -> i = j.
Proof.
  intros Hi Hj. unfold b64_char.
  assert (Hnd : NoDup B64URL) by by_compute.
  destruct (lookup_lt_is_Some_2 B64URL (Z.to_nat i)) as [a Ha]; [simpl; lia|].
  destruct (lookup_lt_is_Some_2 B64URL (Z.to_nat j)) as [b Hb]; [simpl; lia|].
  rewrite Ha, Hb. simpl. intros ->.
  pose proof (NoDup_lookup _ _ _ _ Hnd Ha Hb). lia.
Qed.

Lemma b64_char_in i : 0 <= i < 64 -> b64_char i ∈ B64URL.
Proof.
  intros Hi. unfold b64_char.
  destruct (lookup_lt_is_Some_2 B64URL (Z.to_nat i)) as [a Ha]; [simpl; lia|].
  rewrite Ha. by eapply list_elem_of_lookup_2.
Qed.

(** ** The encoder chunk by chunk *)

Lemma encode_mailbox_id_cons3 b0 b1 b2 r :
  encode_mailbox_id (b0 :: b1 :: b2 :: r) = encode_chunk [b0; b1; b2] ++ encode_mailbox_id r.
Proof. done. Qed.

Lemma group_range n : 0 <= n mod 64 < 64.
Proof. apply Z.mod_pos_bound. lia. Qed.

Lemma encode_chunk_in chunk : Forall (fun c => c ∈ B64URL) (encode_chunk chunk).
Proof.
  unfold encode_chunk. rewrite !group_arith, group0_arith by lia.
  apply Forall_app; split; [|apply Forall_app; split].
  - constructor; [|constructor; [|constructor]]; apply b64_char_in, group_range.
  - bool_case; [constructor; [apply b64_char_in, group_range|]|]; constructor.
  - bool_case; [constructor; [apply b64_char_in, group_range|]|]; constructor.
Qed.

Lemma encode_mailbox_id_in bs : Forall (fun c => c ∈ B64URL) (encode_mailbox_id bs).
Proof.
  unfold encode_mailbox_id. apply Forall_concat, Forall_forall.
  intros c (x & -> & _)%list_elem_of_fmap. apply encode_chunk_in.
Qed.

(** Induction three bytes at a time. *)
Lemma chunks3_ind (P : bytes -> Prop) :
  P [] -> (forall a, P [a]) -> (forall a b, P [a; b]) ->
  (forall a b c r, P r -> P (a :: b :: c :: r)) -> forall l, P l.
Proof.
  intros H0 H1 H2 H3 l.
  induction l as [l IH] using (induction_ltof1 _ length).
  destruct l as [|a [|b [|c r]]]; auto.
  apply H3, IH. unfold ltof. simpl. lia.
Qed.

Lemma encode_mailbox_id_length bs :
  length (encode_mailbox_id bs) = ((4 * length bs + 2) / 3)%nat.
Proof.
  induction bs as [| | |a b c r IH] using chunks3_ind; [done..|].
  rewrite encode_mailbox_id_cons3, length_app, IH. simpl length.
  change (length (encode_chunk [a; b; c])) with 4%nat.
  replace (4 * S (S (S (length r))) + 2)%nat with (4 * length r + 2 + 4 * 3)%nat by lia.
  rewrite Nat.div_add by lia. lia.
Qed.

Lemma encode_chunk_inj a b :
  bytes_ok a -> bytes_ok b -> length a = length b -> (1 <= length a <= 3)%nat ->
  encode_chunk a = encode_chunk b -> a = b.
Proof.
  intros Ha Hb Hl Hn. unfold encode_chunk, chunk_word.
  assert (H0 : byte_ok 0) by (unfold byte_ok; lia).
  destruct a as [|a0 [|a1 [|a2 [|]]]], b as [|b0 [|b1 [|b2 [|]]]]; simpl in Hl, Hn; try lia;
    repeat (apply Forall_cons_1 in Ha as [? Ha]);
    repeat (apply Forall_cons_1 in Hb as [? Hb]);
    unfold zlen; cbn [length lookup list_lookup default id Z.of_nat Z.ltb Z.compare Pos.of_succ_nat
         Pos.succ Pos.compare Pos.compare_cont app];
    rewrite !chunk_word_arith, ?group_arith, ?group0_arith by (done || lia);
    intros Heq; injection Heq as; unfold byte_ok in *;
    repeat match goal with
    | E : b64_char _ = b64_char _ |- _ => apply b64_char_inj in E; try apply group_range
    end; repeat f_equal; Z.to_euclidean_division_equations; lia.
Qed.

Lemma encode_mailbox_id_inj a b :
  bytes_ok a -> bytes_ok b -> length a = length b ->
  encode_mailbox_id a = encode_mailbox_id b -> a = b.
Proof.
  revert b. induction a as [|a0|a0 a1|a0 a1 a2 r IH] using chunks3_ind; intros b Ha Hb Hl He.
  - by destruct b.
  - destruct b as [|b0 [|]]; try done. unfold encode_mailbox_id in He.
    cbn [chunks3 map concat] in He. rewrite !app_nil_r in He.
    apply encode_chunk_inj in He; auto; simpl; lia.
  - destruct b as [|b0 [|b1 [|]]]; try done. unfold encode_mailbox_id in He.
    cbn [chunks3 map concat] in He. rewrite !app_nil_r in He.
    apply encode_chunk_inj in He; auto; simpl; lia.
  - destruct b as [|b0 [|b1 [|b2 s]]]; try done.
    rewrite !encode_mailbox_id_cons3 in He.
    apply app_inj_1 in He as [He Hr]; [|done].
    apply (bytes_ok_app [a0; a1; a2] r) in Ha as [Ha Har].
    apply (bytes_ok_app [b0; b1; b2] s) in Hb as [Hb Hbs].
    apply encode_chunk_inj in He; auto; [|simpl; lia]. injection He as -> -> ->.
    do 3 f_equal. apply IH; auto. simpl in Hl. lia.
Qed.

Lemma base64url_nopad_eq bs : base64url_nopad bs = encode_mailbox_id bs.
Proof.
  induction bs as [| | |a b c r IH] using chunks3_ind; [done..|].
  rewrite encode_mailbox_id_cons3, <- IH. done.
Qed.

(** The shape check as a proposition. *)
Lemma shape_ok_spec id :
  mailbox_id_shape_ok id = true <-> length id = 43%nat /\ Forall (fun c => c ∈ B64URL) id.
Proof.
  unfold mailbox_id_shape_ok, zlen. rewrite andb_true_iff, Z.eqb_eq.
  assert (H : forallb (fun b => bool_decide (b ∈ B64URL)) id = true <->
              Forall (fun c => c ∈ B64URL) id).
  { rewrite forallb_forall, Forall_forall.
    split; intros Hf x Hx; specialize (Hf x).
    - rewrite list_elem_of_In in Hx. specialize (Hf Hx). by apply bool_decide_eq_true in Hf.
    - rewrite <- list_elem_of_In in Hx. apply bool_decide_eq_true. auto. }
  rewrite H. split; intros [? ?]; split; auto; lia.
Qed.

Lemma encoded_shape_ok bs :
  length bs = 32%nat -> mailbox_id_shape_ok (encode_mailbox_id bs) = true.
Proof.
  intros H. apply shape_ok_spec. split; [by rewrite encode_mailbox_id_length, H|].
  apply encode_mailbox_id_in.
Qed.
