(* ===== verification/RelayWire.v ===== *)
(** The relay's parsers of client-controlled bytes
    ([tezca-relay/src/wire.rs]): the blind deposit check, the ack frame, and
    the delivery frame that the core's subscription parses back
    ([tezca-core/src/relay_client/ws.rs]). *)

From S2P Require Import Prelude Errors Base64 Envelope.

(** Relay code has no error channel of its own: a run returns or panics. *)
Abbreviation run := (result Empty_set).

Definition RELAY_MAGIC : bytes := bstr "TZCA".
Definition RELAY_VERSION : Z := 1.
Definition MIN_ENVELOPE : Z := 9.

(** [blob.len() >= MIN && &blob[..4] == MAGIC && blob[4] == VERSION] *)
Definition deposit_admissible (blob : bytes) : run bool :=
  if MIN_ENVELOPE <=? zlen blob then
    magic ← slice blob 0 4;
    if beq magic RELAY_MAGIC then
      v ← index blob 4;
      Ok (v =? RELAY_VERSION)
    else Ok false
  else Ok false.

(** [0x02 || message_id(16)], or [None]. *)
Definition parse_ack_frame (frame : bytes) : run (option bytes) :=
  if negb (zlen frame =? 17) then Ok None
  else
    b0 ← index frame 0;
    if negb (b0 =? 2) then Ok None
    else id ← slice frame 1 17; Ok (Some id).

(** [0x01 || message_id(16) || envelope] *)
Definition delivery_frame (message_id envelope : bytes) : bytes :=
  [1] ++ message_id ++ envelope.

(** ** Lemmas *)

Lemma deposit_admissible_eq blob :
  deposit_admissible blob =
  Ok ((MIN_ENVELOPE <=? zlen blob) && beq (take 4 blob) RELAY_MAGIC
      && bool_decide (blob !! 4%nat = Some RELAY_VERSION)).
Proof.
  unfold deposit_admissible. destruct (Z.leb_spec MIN_ENVELOPE (zlen blob)) as [H|]; [|done].
  unfold MIN_ENVELOPE in H. rewrite (slice_Ok blob 0 4) by lia. rsimpl.
  change (Z.to_nat (4 - 0)) with 4%nat. change (Z.to_nat 0) with 0%nat. rewrite drop_0.
  destruct (beq (take 4 blob) RELAY_MAGIC); [|done].
  unfold index. rewrite (proj2 (Z.ltb_lt _ _)) by lia. simpl.
  destruct (lookup_lt_is_Some_2 blob 4%nat) as [v Hv]; [unfold zlen in H; lia|].
  change (Z.to_nat 4) with 4%nat. rewrite Hv. simpl. f_equal.
  destruct (Z.eqb_spec v RELAY_VERSION) as [->|Hne].
  - symmetry. by apply bool_decide_eq_true.
  - symmetry. apply bool_decide_eq_false. congruence.
Qed.

Lemma parse_ack_frame_build id :
  length id = 16%nat -> parse_ack_frame ([2] ++ id) = Ok (Some id).
Proof.
  intros H. unfold parse_ack_frame.
  rewrite (proj2 (Z.eqb_eq _ _)) by (unfold zlen; simpl; lia). rsimpl.
  change (@index Empty_set ([2] ++ id) 0) with (@index Empty_set ([] ++ 2 :: id) (zlen (@nil Z))).
  rewrite index_app_head. rsimpl. simpl negb.
  pose proof (slice_mid (E:=Empty_set) [2] id []) as Hs. rewrite app_nil_r in Hs.
  change (zlen [2]) with 1 in Hs.
  replace (1 + zlen id) with 17 in Hs by (unfold zlen; lia). cbv iota. rewrite Hs. done.
Qed.

Lemma parse_ack_frame_inv frame o :
  parse_ack_frame frame = Ok o ->
  match o with
  | Some id => frame = [2] ++ id /\ length id = 16%nat
  | None => length frame <> 17%nat \/ frame !! 0%nat <> Some 2
  end.
Proof.
  unfold parse_ack_frame. destruct (Z.eqb_spec (zlen frame) 17) as [Hl|Hl]; simpl negb; cbv iota.
  2: { intros [= <-]. left. intros H. apply Hl. unfold zlen. lia. }
  destruct frame as [|b0 id]; [done|].
  change (@index Empty_set (b0 :: id) 0) with (@index Empty_set ([] ++ b0 :: id) (zlen (@nil Z))).
  rewrite index_app_head. rsimpl. destruct (Z.eqb_spec b0 2) as [->|Hb]; simpl negb; cbv iota.
  2: { intros [= <-]. right. simpl. congruence. }
  assert (Hid : length id = 16%nat) by (unfold zlen in Hl; simpl in Hl; lia).
  pose proof (slice_mid (E:=Empty_set) [2] id []) as Hs. rewrite app_nil_r in Hs.
  change (zlen [2]) with 1 in Hs. change ([2] ++ id) with (2 :: id) in Hs.
  replace (1 + zlen id) with 17 in Hs by (unfold zlen; lia). rewrite Hs. rsimpl.
  by intros [= <-].
Qed.

Lemma parse_ack_frame_total frame : exists o, parse_ack_frame frame = Ok o.
Proof.
  unfold parse_ack_frame. destruct (Z.eqb_spec (zlen frame) 17) as [Hl|]; simpl; [|by eexists].
  destruct (index_no_panic (E:=Empty_set) frame 0) as [b ->]; [lia|]. rsimpl.
  destruct (b =? 2); simpl; [|by eexists].
  rewrite (slice_Ok frame 1 17) by lia. by eexists.
Qed.
