(* ===== verification/RelayConfig.v ===== *)
(** The relay's flag-based configuration ([tezca-relay/src/config.rs]).
    Durations are in nanoseconds.  [SocketAddr::from_str] is a parameter: the
    loop only distinguishes whether it succeeds. *)

From S2P Require Import Prelude.

Definition from_secs (s : Z) : Z := s * 1000000000.

Module Config.
Record t := mk {
  listen : bytes;
  plain_http : bool;
  tls_cert : option bytes;
  tls_key : option bytes;
  ttl : Z;
  sweep : Z;
  max_blob_bytes : Z;
  mailbox_max_messages : Z;
  mailbox_max_bytes : Z;
  max_mailboxes : Z;
  rate_create_per_min : Z;
  rate_put_per_min_source : Z;
  rate_deposit_per_min_source : Z;
  rate_deposit_per_min_mailbox : Z;
  rate_ws_per_min_mailbox : Z;
  limiter_idle : Z;
  limiter_max_sources : Z
}.

Definition default : t := {|
  listen := bstr "127.0.0.1:8443";
  plain_http := false;
  tls_cert := None;
  tls_key := None;
  ttl := from_secs (336 * 3600);
  sweep := from_secs 3600;
  max_blob_bytes := 16 * 1024;
  mailbox_max_messages := 1000;
  mailbox_max_bytes := 4 * 1024 * 1024;
  max_mailboxes := 100000;
  rate_create_per_min := 10;
  rate_put_per_min_source := 30;
  rate_deposit_per_min_source := 60;
  rate_deposit_per_min_mailbox := 120;
  rate_ws_per_min_mailbox := 6;
  limiter_idle := from_secs (10 * 60);
  limiter_max_sources := 65536
|}.

(** [uN::from_str]: an optional [+], then decimal digits. *)
Fixpoint digits (m acc : Z) (s : bytes) : result bytes Z :=
  match s with
  | [] => Ok acc
  | c :: r =>
    if (48 <=? c) && (c <=? 57) then
      let acc' := acc * 10 + (c - 48) in
      if m <? acc' then Err (bstr "number too large to fit in target type")
      else digits m acc' r
    else Err (bstr "invalid digit found in string")
  end.

Definition from_str (m : Z) (s : bytes) : result bytes Z :=
  match s with
  | [] => Err (bstr "cannot parse integer from empty string")
  | [c] => if (c =? 43) || (c =? 45) then Err (bstr "invalid digit found in string")
           else digits m 0 s
  | c :: r => if c =? 43 then digits m 0 r else digits m 0 s
  end.

(** [parse_num]: [s.parse().map_err(|e| format!("{flag}: {e}"))] *)
Definition parse_num (m : Z) (flag s : bytes) : result bytes Z :=
  map_err (fun e => flag ++ bstr ": " ++ e) (from_str m s).

Section parse.
(** [SocketAddr::from_str]: the parsed address or the error text. *)
Variable parse_addr : bytes -> result bytes bytes.

Definition set_listen (c : t) (v : bytes) : t :=
  let '(mk _ p tc tk tl sw mb mm my mx r1 r2 r3 r4 r5 li lm) := c in
  mk v p tc tk tl sw mb mm my mx r1 r2 r3 r4 r5 li lm.
Definition set_plain_http (c : t) : t :=
  let '(mk l _ tc tk tl sw mb mm my mx r1 r2 r3 r4 r5 li lm) := c in
  mk l true tc tk tl sw mb mm my mx r1 r2 r3 r4 r5 li lm.
Definition set_tls_cert (c : t) (v : bytes) : t :=
  let '(mk l p _ tk tl sw mb mm my mx r1 r2 r3 r4 r5 li lm) := c in
  mk l p (Some v) tk tl sw mb mm my mx r1 r2 r3 r4 r5 li lm.
Definition set_tls_key (c : t) (v : bytes) : t :=
  let '(mk l p tc _ tl sw mb mm my mx r1 r2 r3 r4 r5 li lm) := c in
  mk l p tc (Some v) tl sw mb mm my mx r1 r2 r3 r4 r5 li lm.

(** The numeric flags: which field, its maximum, and the assignment. *)
Definition set_num (c : t) (flag : bytes) (n : Z) : t :=
  let '(mk l p tc tk tl sw mb mm my mx r1 r2 r3 r4 r5 li lm) := c in
  if beq flag (bstr "--ttl-secs") then mk l p tc tk (from_secs n) sw mb mm my mx r1 r2 r3 r4 r5 li lm
  else if beq flag (bstr "--sweep-secs") then mk l p tc tk tl (from_secs n) mb mm my mx r1 r2 r3 r4 r5 li lm
  else if beq flag (bstr "--max-blob-bytes") then mk l p tc tk tl sw n mm my mx r1 r2 r3 r4 r5 li lm
  else if beq flag (bstr "--mailbox-max-messages") then mk l p tc tk tl sw mb n my mx r1 r2 r3 r4 r5 li lm
  else if beq flag (bstr "--mailbox-max-bytes") then mk l p tc tk tl sw mb mm n mx r1 r2 r3 r4 r5 li lm
  else if beq flag (bstr "--max-mailboxes") then mk l p tc tk tl sw mb mm my n r1 r2 r3 r4 r5 li lm
  else if beq flag (bstr "--rate-create-per-min") then mk l p tc tk tl sw mb mm my mx n r2 r3 r4 r5 li lm
  else if beq flag (bstr "--rate-put-per-min-source") then mk l p tc tk tl sw mb mm my mx r1 n r3 r4 r5 li lm
  else if beq flag (bstr "--rate-deposit-per-min-source") then mk l p tc tk tl sw mb mm my mx r1 r2 n r4 r5 li lm
  else if beq flag (bstr "--rate-deposit-per-min-mailbox") then mk l p tc tk tl sw mb mm my mx r1 r2 r3 n r5 li lm
  else mk l p tc tk tl sw mb mm my mx r1 r2 r3 r4 n li lm.

(** [u64] seconds, [usize] sizes, [u32] rates. *)
Definition num_flag_max (flag : bytes) : option Z :=
  if beq flag (bstr "--ttl-secs") || beq flag (bstr "--sweep-secs") then Some u64_max
  else if beq flag (bstr "--max-blob-bytes") || beq flag (bstr "--mailbox-max-messages")
       || beq flag (bstr "--mailbox-max-bytes") || beq flag (bstr "--max-mailboxes")
  then Some usize_max
  else if beq flag (bstr "--rate-create-per-min") || beq flag (bstr "--rate-put-per-min-source")
       || beq flag (bstr "--rate-deposit-per-min-source")
       || beq flag (bstr "--rate-deposit-per-min-mailbox")
       || beq flag (bstr "--rate-ws-per-min-mailbox")
  then Some u32_max
  else None.

(** [args.next().ok_or_else(|| format!("missing value for {name}"))] is
    the [[]] branch of each value flag. *)
Fixpoint parse_loop (args : list bytes) (cfg : t) : result bytes t :=
  match args with
  | [] => Ok cfg
  | flag :: rest =>
    let missing := Err (bstr "missing value for " ++ flag) in
    if beq flag (bstr "--listen") then
      match rest with
      | [] => missing
      | v :: rest' =>
        a ← map_err (fun e => bstr "--listen: " ++ e) (parse_addr v);
        parse_loop rest' (set_listen cfg a)
      end
    else if beq flag (bstr "--plain-http") then parse_loop rest (set_plain_http cfg)
    else if beq flag (bstr "--tls-cert") then
      match rest with [] => missing | v :: rest' => parse_loop rest' (set_tls_cert cfg v) end
    else if beq flag (bstr "--tls-key") then
      match rest with [] => missing | v :: rest' => parse_loop rest' (set_tls_key cfg v) end
    else match num_flag_max flag with
    | Some m =>
      match rest with
      | [] => missing
      | v :: rest' => n ← parse_num m flag v; parse_loop rest' (set_num cfg flag n)
      end
    | None => Err (bstr "unknown flag: " ++ flag)
    end
  end.

Definition parse (args : list bytes) : result bytes t :=
  cfg ← parse_loop args default;
  _ ← ensure (negb (negb (plain_http cfg)
                    && (bool_decide (tls_cert cfg = None) || bool_decide (tls_key cfg = None))))
             (bstr "TLS is required: pass --tls-cert and --tls-key, or --plain-http");
  Ok cfg.
End parse.

(** The widths of the configured fields. *)
Definition ok (c : t) : Prop :=
  0 <= ttl c /\ 0 <= sweep c /\
  0 <= max_blob_bytes c <= usize_max /\ 0 <= mailbox_max_messages c <= usize_max /\
  0 <= mailbox_max_bytes c <= usize_max /\ 0 <= max_mailboxes c <= usize_max /\
  in_u32 (rate_create_per_min c) /\ in_u32 (rate_put_per_min_source c) /\
  in_u32 (rate_deposit_per_min_source c) /\ in_u32 (rate_deposit_per_min_mailbox c) /\
  in_u32 (rate_ws_per_min_mailbox c) /\
  limiter_idle c = limiter_idle default /\ limiter_max_sources c = limiter_max_sources default.
End Config.

(** ** Lemmas *)

Lemma digits_range m acc s n :
  Config.digits m acc s = Ok n -> 0 <= acc <= m -> 0 <= n <= m.
Proof.
  revert acc. induction s as [|c r IH]; simpl; intros acc; [naive_solver|].
  repeat bool_case; try done. intros Hd Ha. reflect_bools. eapply IH; [done|]. lia.
Qed.

Lemma parse_num_range m flag s n :
  0 <= m -> Config.parse_num m flag s = Ok n -> 0 <= n <= m.
Proof.
  intros Hm. unfold Config.parse_num, Config.from_str.
  assert (H : forall s, map_err (fun e => flag ++ bstr ": " ++ e) (Config.digits m 0 s) = Ok n ->
                        0 <= n <= m).
  { intros s'. destruct (Config.digits m 0 s') eqn:E; rsimpl; try done.
    intros [= <-]. eapply digits_range; [done|lia]. }
  destruct s as [|c [|d r]]; [done| |]; bool_case; try done; apply H.
Qed.

Lemma set_num_ok c flag n m :
  Config.ok c -> Config.num_flag_max flag = Some m -> 0 <= n <= m -> Config.ok (Config.set_num c flag n).
Proof.
  destruct c. unfold Config.set_num. intros Hok Hm Hn.
  repeat match goal with
  | |- context [if beq flag ?f then _ else _] =>
      let E := fresh "E" in destruct (beq flag f) eqn:E;
      [apply bool_decide_eq_true in E; subst flag; vm_compute in Hm; injection Hm as <-;
       unfold Config.ok, from_secs in *; simpl in *; unfold in_u32, usize_max, u32_max in *;
       intuition lia|]
  end.
  unfold Config.num_flag_max in Hm.
  repeat match goal with E : beq flag _ = false |- _ => rewrite E in Hm; clear E end.
  simpl in Hm. destruct (beq flag _); [|done]. injection Hm as <-.
  unfold Config.ok in *; simpl in *; unfold in_u32 in *; intuition lia.
Qed.

Lemma parse_loop_ok pa args cfg cfg' :
  Config.ok cfg -> Config.parse_loop pa args cfg = Ok cfg' -> Config.ok cfg'.
Proof.
  revert cfg. induction args as [args IH] using (induction_ltof1 _ length).
  unfold ltof in IH. intros cfg Hok. destruct args as [|flag rest]; simpl; [naive_solver|].
  assert (Hl : forall c, Config.ok c -> forall v, Config.ok (Config.set_listen c v)) by (by intros []).
  assert (Hp : forall c, Config.ok c -> Config.ok (Config.set_plain_http c)) by (by intros []).
  assert (Hc : forall c, Config.ok c -> forall v, Config.ok (Config.set_tls_cert c v)) by (by intros []).
  assert (Hk : forall c, Config.ok c -> forall v, Config.ok (Config.set_tls_key c v)) by (by intros []).
  bool_case.
  { destruct rest as [|v rest']; [done|].
    destruct (pa v) as [a| |]; simpl; [|done|done]. apply IH; simpl; auto with lia. }
  bool_case; [apply IH; simpl; auto with lia|].
  bool_case. { destruct rest as [|v rest']; [done|]. apply IH; simpl; auto with lia. }
  bool_case. { destruct rest as [|v rest']; [done|]. apply IH; simpl; auto with lia. }
  destruct (Config.num_flag_max flag) as [m|] eqn:Em; [|done].
  destruct rest as [|v rest']; [done|].
  destruct (Config.parse_num m flag v) as [n| |] eqn:En; simpl; [|done|done].
  apply IH; [simpl; lia|]. apply (set_num_ok _ _ _ m); auto.
  eapply parse_num_range; [|done].
  revert Em. unfold Config.num_flag_max. repeat bool_case; intros [= <-];
    unfold u64_max, usize_max, u32_max; lia.
Qed.

Lemma parse_loop_no_panic pa args cfg :
  (forall v, pa v <> Panic) -> Config.parse_loop pa args cfg <> Panic.
Proof.
  intros Hpa. revert cfg. induction args as [args IH] using (induction_ltof1 _ length).
  unfold ltof in IH. intros cfg. destruct args as [|flag rest]; simpl; [done|].
  assert (Hd : forall m acc s, Config.digits m acc s <> Panic).
  { intros m acc s. revert acc. induction s as [|c s IHs]; intros acc; simpl; [done|].
    repeat bool_case; done || apply IHs. }
  bool_case.
  { destruct rest as [|v rest']; [done|]. specialize (Hpa v).
    destruct (pa v) as [a| |]; simpl; [|done|done]. apply IH; simpl; lia. }
  bool_case; [apply IH; simpl; lia|].
  bool_case. { destruct rest as [|v rest']; [done|]. apply IH; simpl; lia. }
  bool_case. { destruct rest as [|v rest']; [done|]. apply IH; simpl; lia. }
  destruct (Config.num_flag_max flag) as [m|]; [|done].
  destruct rest as [|v rest']; [done|].
  destruct (Config.parse_num m flag v) as [n| |] eqn:En; simpl; [apply IH; simpl; lia|done|].
  exfalso. revert En. unfold Config.parse_num, Config.from_str.
  assert (Hm : forall s, map_err (fun e => flag ++ bstr ": " ++ e) (Config.digits m 0 s) <> Panic).
  { intros s. specialize (Hd m 0 s). by destruct (Config.digits m 0 s). }
  destruct v as [|c [|d r]]; [done| |]; bool_case; try done; apply Hm.
Qed.

(** ** Properties *)

(** Relay configuration.  For any argument list, parsing does not panic
    (when address parsing does not), and a configuration it returns has every
    field in its width, the limiter constants at their defaults, and TLS
    material unless plain HTTP was asked for. *)
Theorem relay_config_correct (parse_addr : bytes -> result bytes bytes) (args : list bytes) :
  (forall v, parse_addr v <> Panic) ->
  Config.parse parse_addr args <> Panic /\
  forall cfg, Config.parse parse_addr args = Ok cfg ->
    Config.ok cfg /\
    (Config.plain_http cfg = true \/ (is_Some (Config.tls_cert cfg) /\ is_Some (Config.tls_key cfg))).
Proof.
  intros Hpa. unfold Config.parse. split.
  - apply bind_no_panic; [by apply parse_loop_no_panic|]. intros cfg _.
    apply bind_no_panic; [apply ensure_no_panic|done].
  - intros cfg (c & Hc & H)%bind_Ok. apply bind_Ok in H as ([] & He%ensure_Ok & [= <-]).
    split.
    + eapply parse_loop_ok; [|done]. unfold Config.ok, in_u32. vm_compute. split_and!; congruence.
    + reflect_bools. destruct He as [He|He]; reflect_bools; [by left|right].
      split; [destruct (Config.tls_cert c)|destruct (Config.tls_key c)]; by eauto || done.
Qed.

Lemma relay_config_correct_witness :
  exists cfg, Config.parse (fun v => Ok v) [bstr "--plain-http"; bstr "--ttl-secs"; bstr "60"] = Ok cfg /\
    Config.ok cfg.
Proof.
  destruct (relay_config_correct (fun v => Ok v) [bstr "--plain-http"; bstr "--ttl-secs"; bstr "60"])
    as [_ H]; [discriminate|].
  eexists. split; [vm_compute; reflexivity|]. apply H. vm_compute; reflexivity.
Defined.
