(* ===== verification/RelayLimits.v ===== *)
(** The relay's two rate limiters ([tezca-relay/src/limits.rs]).  Clock
    readings are explicit: a request carries the wall-clock minute seen when
    an entry is created, the minute and the monotonic instant (ns) seen by
    [Window::admit_request], and the instant of the saturation sweep.  The per-boot
    keyed hash of a source address is a field of the limiter.  A wall-clock
    reading is the whole seconds (or minutes) since the epoch that
    [duration_since(UNIX_EPOCH)] yields; a system clock before the epoch, where
    the two readers panic, is outside the model. *)

From S2P Require Import Prelude RelayConfig RelayWire.

(** [Instant::duration_since] saturates at zero. *)
Definition duration_since (now earlier : Z) : Z := Z.max 0 (now - earlier).

(** Seconds until the current fixed window rolls over; [unix_secs] is the
    reading, after the epoch. *)
Definition retry_after_secs (unix_secs : Z) : Z := 60 - unix_secs mod 60.

Definition current_minute (unix_secs : Z) : Z := unix_secs / 60.

(** The clock as one request reads it. *)
Record Clock := mkClock {
  insert_minute : Z;   (* current_minute() in or_insert_with *)
  admit_minute : Z;    (* current_minute() in Window::admit_request *)
  sweep_instant : Z;   (* Instant::now() before the saturation retain *)
  instant : Z          (* Instant::now() in Window::admit_request *)
}.

Module Window.
Record t := mk { minute : Z; counts : list Z; touched : Z }.

Definition fresh (minute now : Z) : t := mk minute [0; 0; 0] now.

(** Rolls the window over when the minute changed, stamps it, and counts
    the request when the slot is below its limit. *)
Definition admit_request (w : t) (slot : nat) (limit : Z) (clk : Clock) : run (bool * t) :=
  let w := if minute w =? admit_minute clk then w else fresh (admit_minute clk) (instant clk) in
  let w := mk (minute w) (counts w) (instant clk) in
  count ← expect (counts w !! slot);
  if limit <=? count then Ok (false, w)
  else
    count' ← expect (checked_add u32_max count 1);
    Ok (true, mk (minute w) (<[slot := count']> (counts w)) (touched w)).

Definition ok (w : t) : Prop := length (counts w) = 3%nat /\ Forall in_u32 (counts w).
End Window.

Inductive IpAddr :=
  | V4 (octets : bytes)
  | V6 (octets : bytes).

(** The request classes of a source and of a mailbox, with their slots. *)
Inductive source_class := SrcCreate | SrcDeposit | SrcPut.
Inductive box_class := BoxDeposit | BoxWs.

#[export] Instance source_class_eq_dec : EqDecision source_class.
Proof. solve_decision. Defined.
#[export] Instance box_class_eq_dec : EqDecision box_class.
Proof. solve_decision. Defined.

Module SourceLimiter.
Record t := mk {
  hasher : bytes -> Z;
  map : gmap Z Window.t;
  create_limit : Z;
  put_limit : Z;
  deposit_limit : Z;
  idle : Z;
  max_entries : Z
}.

Definition new (hasher : bytes -> Z) (cfg : Config.t) : t :=
  mk hasher ∅ (Config.rate_create_per_min cfg) (Config.rate_put_per_min_source cfg)
     (Config.rate_deposit_per_min_source cfg) (Config.limiter_idle cfg)
     (Config.limiter_max_sources cfg).

(** IPv6 sources are coarsened to their /64 before hashing. *)
Definition key (l : t) (ip : IpAddr) : Z :=
  let coarse := match ip with V4 o => o | V6 o => take 8 o end in
  hasher l coarse.

Definition with_map (l : t) (m : gmap Z Window.t) : t :=
  mk (hasher l) m (create_limit l) (put_limit l) (deposit_limit l) (idle l) (max_entries l).

Definition retain_live (now idle : Z) (m : gmap Z Window.t) : gmap Z Window.t :=
  filter (fun kw => duration_since now (Window.touched kw.2) < idle) m.

(** [map.len() >= self.max_entries && !map.contains_key(&key)] *)
Definition saturated (l : t) (k : Z) : bool :=
  (max_entries l <=? Z.of_nat (size (map l))) && bool_decide (map l !! k = None).

(** The map after the saturation sweep, when one runs. *)
Definition make_room (l : t) (k : Z) (clk : Clock) : gmap Z Window.t :=
  if saturated l k then retain_live (sweep_instant clk) (idle l) (map l) else map l.

Definition admit_request (l : t) (ip : IpAddr) (slot : nat) (limit : Z) (clk : Clock)
    : run (bool * t) :=
  if limit =? 0 then Ok (false, l)
  else
    let k := key l ip in
    let m := make_room l k clk in
    if saturated l k && (max_entries l <=? Z.of_nat (size m)) then Ok (false, with_map l m)
    else
      let w := default (Window.fresh (insert_minute clk) (instant clk)) (m !! k) in
      '(b, w') ← Window.admit_request w slot limit clk;
      Ok (b, with_map l (<[k := w']> m)).

Definition admit_create (l : t) (ip : IpAddr) (clk : Clock) := admit_request l ip 0%nat (create_limit l) clk.
Definition admit_put (l : t) (ip : IpAddr) (clk : Clock) := admit_request l ip 2%nat (put_limit l) clk.
Definition admit_deposit (l : t) (ip : IpAddr) (clk : Clock) := admit_request l ip 1%nat (deposit_limit l) clk.

Definition prune (l : t) (now : Z) : t := with_map l (retain_live now (idle l) (map l)).

Definition ok (l : t) : Prop := map_Forall (fun _ w => Window.ok w) (map l).
End SourceLimiter.

Module BoxLimiter.
Record t := mk { map : gmap bytes Window.t; deposit_limit : Z; ws_limit : Z; idle : Z }.

Definition new (cfg : Config.t) : t :=
  mk ∅ (Config.rate_deposit_per_min_mailbox cfg) (Config.rate_ws_per_min_mailbox cfg)
     (Config.limiter_idle cfg).

Definition with_map (l : t) (m : gmap bytes Window.t) : t :=
  mk m (deposit_limit l) (ws_limit l) (idle l).

Definition admit_request (l : t) (mailbox : bytes) (slot : nat) (limit : Z) (clk : Clock)
    : run (bool * t) :=
  if limit =? 0 then Ok (false, l)
  else
    let w := default (Window.fresh (insert_minute clk) (instant clk)) (map l !! mailbox) in
    '(b, w') ← Window.admit_request w slot limit clk;
    Ok (b, with_map l (<[mailbox := w']> (map l))).

Definition admit_deposit (l : t) (mailbox : bytes) (clk : Clock) :=
  admit_request l mailbox 0%nat (deposit_limit l) clk.
Definition admit_ws (l : t) (mailbox : bytes) (clk : Clock) :=
  admit_request l mailbox 1%nat (ws_limit l) clk.

Definition prune (l : t) (now : Z) : t :=
  with_map l (filter (fun kw => duration_since now (Window.touched kw.2) < idle l) (map l)).

Definition forget (l : t) (mailbox : bytes) : t := with_map l (delete mailbox (map l)).

Definition ok (l : t) : Prop := map_Forall (fun _ w => Window.ok w) (map l).
End BoxLimiter.

(** A source's request of one class, and a history of them. *)
Definition source_admit (l : SourceLimiter.t) (c : source_class) (ip : IpAddr) (clk : Clock) :=
  match c with
  | SrcCreate => SourceLimiter.admit_create l ip clk
  | SrcDeposit => SourceLimiter.admit_deposit l ip clk
  | SrcPut => SourceLimiter.admit_put l ip clk
  end.

Definition source_limit (l : SourceLimiter.t) (c : source_class) : Z :=
  match c with
  | SrcCreate => SourceLimiter.create_limit l
  | SrcDeposit => SourceLimiter.deposit_limit l
  | SrcPut => SourceLimiter.put_limit l
  end.

Definition source_slot (c : source_class) : nat :=
  match c with SrcCreate => 0%nat | SrcDeposit => 1%nat | SrcPut => 2%nat end.

(** Requests and prunes in the order the limiter's mutex serialises them. *)
Inductive source_event :=
  | SrcRequest (c : source_class) (ip : IpAddr) (clk : Clock)
  | SrcPrune (now : Z).

Fixpoint source_run (l : SourceLimiter.t) (evs : list source_event)
    : run (list bool * SourceLimiter.t) :=
  match evs with
  | [] => Ok ([], l)
  | SrcRequest c ip clk :: r =>
    '(b, l1) ← source_admit l c ip clk;
    '(bs, l2) ← source_run l1 r;
    Ok (b :: bs, l2)
  | SrcPrune now :: r =>
    '(bs, l2) ← source_run (SourceLimiter.prune l now) r;
    Ok (false :: bs, l2)
  end.

(** How many requests of class [c] by the source key [k] a history admits. *)
Fixpoint admitted (l : SourceLimiter.t) (c : source_class) (k : Z)
    (evs : list source_event) (out : list bool) : Z :=
  match evs, out with
  | SrcRequest c' ip _ :: r, b :: bs =>
    (if b && bool_decide (c' = c /\ SourceLimiter.key l ip = k) then 1 else 0)
    + admitted l c k r bs
  | _ :: r, _ :: bs => admitted l c k r bs
  | _, _ => 0
  end.

(** ** Windows *)

Lemma window_admit_spec w slot limit clk :
  Window.ok w -> (slot < 3)%nat -> in_u32 limit ->
  exists b w', Window.admit_request w slot limit clk = Ok (b, w') /\ Window.ok w' /\
    Window.minute w' = admit_minute clk /\ Window.touched w' = instant clk /\
    forall s, (s < 3)%nat -> exists c c',
      (if Window.minute w =? admit_minute clk then Window.counts w !! s else Some 0) = Some c /\
      Window.counts w' !! s = Some c' /\
      c' = (if b && bool_decide (s = slot) then c + 1 else c) /\
      (s = slot -> b = negb (limit <=? c)).
Proof.
  intros [Hl Hu] Hs Hlim. unfold Window.admit_request.
  set (w0 := if _ =? _ then w else _).
  assert (Hw0 : length (Window.counts w0) = 3%nat /\ Forall in_u32 (Window.counts w0)).
  { unfold w0. destruct (_ =? _); [done|]. split; [done|]. simpl.
    repeat constructor; unfold u32_max; lia. }
  assert (Hm0 : Window.minute w0 = admit_minute clk).
  { unfold w0. destruct (Z.eqb_spec (Window.minute w) (admit_minute clk)); done. }
  assert (Hc0 : forall s, (s < 3)%nat ->
    (if Window.minute w =? admit_minute clk then Window.counts w !! s else Some 0)
    = Window.counts w0 !! s).
  { intros s Hs3. unfold w0. destruct (_ =? _); [done|]. simpl.
    by destruct s as [|[|[|]]]; [..|lia]. }
  clearbody w0. destruct Hw0 as [Hl0 Hu0]. simpl.
  destruct (lookup_lt_is_Some_2 (Window.counts w0) slot) as [c Hc]; [lia|].
  rewrite Hc. simpl.
  pose proof (proj1 (Forall_lookup _ _) Hu0 _ _ Hc) as Hcu. unfold in_u32 in *.
  destruct (Z.leb_spec limit c) as [Hle|Hgt].
  - exists false. eexists. split; [done|]. simpl. split_and!; try done.
    intros s Hs3. destruct (lookup_lt_is_Some_2 (Window.counts w0) s) as [d Hd]; [lia|].
    exists d, d. rewrite Hc0 by done. split_and!; try done.
    intros ->. assert (d = c) as -> by congruence.
    by rewrite (proj2 (Z.leb_le _ _)).
  - unfold checked_add. rewrite (proj2 (Z.leb_le _ _)) by lia. simpl.
    exists true. eexists. split; [done|]. simpl. split; [|split_and!; try done].
    + split; simpl; [by rewrite length_insert|]. apply Forall_insert; [done|]. unfold in_u32. lia.
    + intros s Hs3. rewrite Hc0 by done.
      destruct (lookup_lt_is_Some_2 (Window.counts w0) s) as [d Hd]; [lia|].
      destruct (decide (s = slot)) as [->|Hne].
      * assert (d = c) as -> by congruence. exists c, (c + 1).
        rewrite bool_decide_eq_true_2, list_lookup_insert_eq by (done || lia).
        split_and!; try done. intros _. by rewrite (proj2 (Z.leb_gt _ _)).
      * exists d, d. rewrite bool_decide_eq_false_2, list_lookup_insert_ne by done.
        by split_and!.
Qed.

Lemma fresh_ok m now : Window.ok (Window.fresh m now).
Proof. split; [done|]. simpl. repeat constructor; unfold u32_max; lia. Qed.

#[export] Hint Resolve fresh_ok : titlan.

(** ** Limiter invariants *)

Lemma retain_live_ok now idle (m : gmap Z Window.t) :
  map_Forall (fun _ w => Window.ok w) m ->
  map_Forall (fun _ w => Window.ok w) (SourceLimiter.retain_live now idle m).
Proof. intros H k w [Hw _]%map_lookup_filter_Some. by apply (H k). Qed.

Lemma default_ok {K} `{Countable K} (m : gmap K Window.t) k mi now :
  map_Forall (fun _ w => Window.ok w) m -> Window.ok (default (Window.fresh mi now) (m !! k)).
Proof. intros Hm. destruct (m !! k) eqn:E; simpl; [by apply (Hm k)|apply fresh_ok]. Qed.

Lemma box_admit_ok l id slot limit clk :
  BoxLimiter.ok l -> (slot < 3)%nat -> in_u32 limit ->
  exists b l', BoxLimiter.admit_request l id slot limit clk = Ok (b, l') /\ BoxLimiter.ok l' /\
    BoxLimiter.deposit_limit l' = BoxLimiter.deposit_limit l /\
    BoxLimiter.ws_limit l' = BoxLimiter.ws_limit l /\ BoxLimiter.idle l' = BoxLimiter.idle l.
Proof.
  intros Hok Hs Hl. unfold BoxLimiter.admit_request. destruct (limit =? 0); [by exists false, l|].
  set (w := default _ _).
  assert (Hw : Window.ok w) by (by apply default_ok).
  destruct (window_admit_spec w slot limit clk Hw Hs Hl) as (b & w' & -> & Hw' & _).
  simpl. exists b. eexists. split; [done|]. split_and!; try done.
  by apply map_Forall_insert_2.
Qed.

Lemma make_room_ok l k clk :
  SourceLimiter.ok l -> map_Forall (fun _ w => Window.ok w) (SourceLimiter.make_room l k clk).
Proof. intros. unfold SourceLimiter.make_room. bool_case; [by apply retain_live_ok|done]. Qed.

(** The two ways a source request ends: shed, or counted in its window. *)
Lemma source_admit_cases l ip slot limit clk :
  SourceLimiter.ok l -> (slot < 3)%nat -> in_u32 limit ->
  let k := SourceLimiter.key l ip in
  let m := SourceLimiter.make_room l k clk in
  SourceLimiter.admit_request l ip slot limit clk = Ok (false, l) \/
  SourceLimiter.admit_request l ip slot limit clk = Ok (false, SourceLimiter.with_map l m) \/
  exists b w', SourceLimiter.admit_request l ip slot limit clk
               = Ok (b, SourceLimiter.with_map l (<[k := w']> m)) /\
    Window.admit_request (default (Window.fresh (insert_minute clk) (instant clk)) (m !! k)) slot limit clk
    = Ok (b, w') /\ Window.ok w'.
Proof.
  intros Hok Hs Hl k m. unfold SourceLimiter.admit_request. destruct (limit =? 0); [by left|]. right.
  fold k m. destruct (_ && _)%bool; [by left|]. right.
  set (w := default _ _).
  assert (Hw : Window.ok w) by (by apply default_ok, make_room_ok).
  destruct (window_admit_spec w slot limit clk Hw Hs Hl) as (b & w' & E & Hw' & _).
  exists b, w'. by rewrite E.
Qed.

Lemma source_admit_ok l ip slot limit clk :
  SourceLimiter.ok l -> (slot < 3)%nat -> in_u32 limit ->
  exists b l', SourceLimiter.admit_request l ip slot limit clk = Ok (b, l') /\ SourceLimiter.ok l' /\
    exists m, l' = SourceLimiter.with_map l m.
Proof.
  intros Hok Hs Hl.
  destruct (source_admit_cases l ip slot limit clk Hok Hs Hl)
    as [E|[E|(b & w' & E & _ & Hw')]]; rewrite E.
  - exists false, l. split_and!; try done. exists (SourceLimiter.map l). by destruct l.
  - exists false. eexists. split; [done|]. split; [by apply make_room_ok|by eexists].
  - exists b. eexists. split; [done|].
    split; [by apply map_Forall_insert_2; [|apply make_room_ok]|by eexists].
Qed.

Lemma source_class_admit_eq l c ip clk :
  source_admit l c ip clk
  = SourceLimiter.admit_request l ip (source_slot c) (source_limit l c) clk.
Proof. by destruct c. Qed.

Lemma source_slot_lt c : (source_slot c < 3)%nat.
Proof. destruct c; simpl; lia. Qed.

(** ** The rate bound *)

(** Every event of the history happens in minute [m], and every instant in a
    span shorter than the idle expiry, counted from [t0]. *)
Definition event_in_minute (m t0 idle : Z) (e : source_event) : Prop :=
  match e with
  | SrcRequest _ _ clk =>
    admit_minute clk = m /\ t0 <= instant clk < t0 + idle /\ sweep_instant clk < t0 + idle
  | SrcPrune now => now < t0 + idle
  end.

Definition limits_u32 (l : SourceLimiter.t) : Prop :=
  in_u32 (SourceLimiter.create_limit l) /\ in_u32 (SourceLimiter.put_limit l) /\
  in_u32 (SourceLimiter.deposit_limit l).

(** [n] admissions so far are all accounted for in the window of the key. *)
Definition accounted (l : SourceLimiter.t) (c : source_class) (k m t0 n : Z) : Prop :=
  n = 0 \/ exists w cnt, SourceLimiter.map l !! k = Some w /\ Window.minute w = m /\
    t0 <= Window.touched w /\ Window.counts w !! source_slot c = Some cnt /\
    n <= cnt <= source_limit l c.

Lemma source_limit_with_map l m c :
  source_limit (SourceLimiter.with_map l m) c = source_limit l c.
Proof. by destruct c. Qed.

(** Counting admissions depends on the hash only. *)
Lemma admitted_with_map l m c k evs out :
  admitted (SourceLimiter.with_map l m) c k evs out = admitted l c k evs out.
Proof.
  revert out. induction evs as [|e evs IH]; intros [|b bs]; simpl; auto.
  destruct e; [|auto]. by rewrite IH.
Qed.

Lemma accounted_retain l c k m t0 n now :
  0 < SourceLimiter.idle l -> now < t0 + SourceLimiter.idle l ->
  accounted l c k m t0 n ->
  accounted (SourceLimiter.with_map l
    (SourceLimiter.retain_live now (SourceLimiter.idle l) (SourceLimiter.map l))) c k m t0 n.
Proof.
  intros Hi Hn [->|(w & cnt & Hw & Hm & Ht & Hc & Hb)]; [by left|right].
  exists w, cnt. rewrite source_limit_with_map. split; [|done].
  simpl. apply map_lookup_filter_Some. split; [done|].
  simpl. unfold duration_since. lia.
Qed.

Lemma accounted_make_room l c k k' m t0 n clk :
  0 < SourceLimiter.idle l -> sweep_instant clk < t0 + SourceLimiter.idle l ->
  accounted l c k m t0 n ->
  accounted (SourceLimiter.with_map l (SourceLimiter.make_room l k' clk)) c k m t0 n.
Proof.
  intros. unfold SourceLimiter.make_room. bool_case; [by apply accounted_retain|].
  by destruct l.
Qed.

Lemma accounted_admit l c c' k k' m t0 n clk b w' :
  limits_u32 l -> SourceLimiter.ok l -> admit_minute clk = m -> t0 <= instant clk ->
  accounted l c k m t0 n ->
  Window.admit_request (default (Window.fresh (insert_minute clk) (instant clk))
    (SourceLimiter.map l !! k')) (source_slot c') (source_limit l c') clk = Ok (b, w') ->
  accounted (SourceLimiter.with_map l (<[k' := w']> (SourceLimiter.map l))) c k m t0
    (n + if b && bool_decide (c' = c /\ k' = k) then 1 else 0).
Proof.
  intros (L1 & L2 & L3) Hok Hm Ht Hacc Hadm. set (w := default _ _) in Hadm.
  assert (Hw : Window.ok w) by (by apply default_ok).
  assert (Hlim : in_u32 (source_limit l c')) by (by destruct c').
  destruct (window_admit_spec w _ _ clk Hw (source_slot_lt c') Hlim)
    as (b0 & w0 & E & Hw0 & Hm0 & Ht0 & Hcnt).
  rewrite E in Hadm. injection Hadm as -> ->.
  destruct (decide (k' = k)) as [->|Hne].
  2: { rewrite bool_decide_eq_false_2, andb_false_r, Z.add_0_r by naive_solver.
       destruct Hacc as [->|(v & cnt & Hv & ?)]; [by left|right].
       exists v, cnt. simpl. by rewrite lookup_insert_ne, source_limit_with_map. }
  destruct (Hcnt (source_slot c) (source_slot_lt c)) as (d & d' & Hd & Hd' & Heq & Hb).
  assert (Hn : n = 0 \/ n <= d <= source_limit l c).
  { destruct Hacc as [->|(v & cnt & Hv & Hvm & Hvt & Hvc & Hvb)]; [by left|right].
    unfold w in Hd. rewrite Hv in Hd. simpl in Hd.
    rewrite (proj2 (Z.eqb_eq _ _)) in Hd by congruence. naive_solver. }
  assert (Hsc : bool_decide (source_slot c = source_slot c') = bool_decide (c' = c /\ k = k)).
  { apply bool_decide_ext. by destruct c, c'; simpl; naive_solver. }
  rewrite Hsc in Heq.
  destruct (b && bool_decide (c' = c /\ k = k)) eqn:Eb.
  - right. apply andb_prop in Eb as [-> [-> _]%bool_decide_eq_true].
    specialize (Hb eq_refl). exists w', d'. simpl. rewrite lookup_insert_eq.
    apply eq_sym, negb_true_iff, Z.leb_gt in Hb. split_and!; try done; try lia.
    + assert (0 <= d); [|lia].
      destruct (Window.minute w =? admit_minute clk); [|naive_solver lia].
      pose proof (proj1 (Forall_lookup _ _) (proj2 Hw) _ _ Hd) as [? _]. done.
    + rewrite source_limit_with_map. lia.
  - rewrite Z.add_0_r. destruct Hn as [->|Hn]; [by left|right].
    exists w', d'. simpl. rewrite lookup_insert_eq. split_and!; try done; try lia.
    rewrite source_limit_with_map. lia.
Qed.

Lemma source_run_accounted l c k m t0 evs n out l' :
  limits_u32 l -> SourceLimiter.ok l -> 0 < SourceLimiter.idle l ->
  Forall (event_in_minute m t0 (SourceLimiter.idle l)) evs ->
  accounted l c k m t0 n -> source_run l evs = Ok (out, l') ->
  accounted l' c k m t0 (n + admitted l c k evs out) /\
  source_limit l' c = source_limit l c.
Proof.
  intros Hlim Hok Hidle Hev. revert l n out Hlim Hok Hidle Hev.
  induction evs as [|e evs IH]; intros l n out Hlim Hok Hidle Hev Hacc Hrun; simpl in Hrun.
  { injection Hrun as <- <-. simpl. by rewrite Z.add_0_r. }
  apply Forall_cons_1 in Hev as [He Hev]. destruct e as [c' ip clk|now].
  - rewrite source_class_admit_eq in Hrun.
    assert (Hl' : in_u32 (source_limit l c')) by (destruct Hlim as (?&?&?); by destruct c').
    destruct He as (Em & Et & Es).
    assert (Hgo : forall b l1, SourceLimiter.ok l1 -> (exists mm, l1 = SourceLimiter.with_map l mm) ->
      accounted l1 c k m t0
        (n + if b && bool_decide (c' = c /\ SourceLimiter.key l ip = k) then 1 else 0) ->
      ('(bs, l2) ← source_run l1 evs; Ok (b :: bs, l2)) = Ok (out, l') ->
      accounted l' c k m t0 (n + admitted l c k (SrcRequest c' ip clk :: evs) out) /\
      source_limit l' c = source_limit l c).
    { intros b l1 Hok1 [mm ->] Hacc1 Hr. clear Hrun.
      destruct (source_run _ evs) as [[bs l2]| |] eqn:Er; simpl in Hr; [|done|done].
      injection Hr as <- <-. eapply IH in Er; eauto. simpl in Er |- *.
      rewrite admitted_with_map, source_limit_with_map in Er. by rewrite Z.add_assoc. }
    destruct (source_admit_cases l ip (source_slot c') (source_limit l c') clk Hok
                (source_slot_lt c') Hl') as [E|[E|(b & w' & E & Ea & Hw')]];
      rewrite E in Hrun; simpl in Hrun.
    + apply Hgo in Hrun; [done|done| |].
      * exists (SourceLimiter.map l). by destruct l.
      * simpl. by rewrite Z.add_0_r.
    + apply Hgo in Hrun; [done|by apply make_room_ok|by eexists|].
      simpl. rewrite Z.add_0_r. by apply accounted_make_room.
    + apply Hgo in Hrun; [done|by apply map_Forall_insert_2; [|apply make_room_ok]|by eexists|].
      pose proof (accounted_make_room l c k (SourceLimiter.key l ip) m t0 n clk Hidle Es Hacc) as Ha.
      refine (accounted_admit (SourceLimiter.with_map l _) c c' k _ m t0 n clk b w' _ _ Em _ Ha _);
        [done|by apply make_room_ok|lia|by rewrite source_limit_with_map].
  - simpl in He.
    destruct (source_run _ evs) as [[bs l2]| |] eqn:Er; simpl in Hrun; [|done|done].
    injection Hrun as <- <-. eapply IH in Er; eauto.
    + unfold SourceLimiter.prune in Er. by rewrite admitted_with_map, source_limit_with_map in Er.
    + by apply retain_live_ok.
    + by apply accounted_retain.
Qed.

(** ** Properties *)

(** C19: rate limiting.  In a history of requests and prunes that stays in one
    wall-clock minute and in a span shorter than the limiter's idle expiry,
    the limiter admits at most the configured number of requests of each
    class from one source key, whatever other sources do, however often the
    limiter saturates and prunes, and whatever state it started in. *)
Theorem source_rate_bound (l : SourceLimiter.t) (c : source_class) (k m t0 : Z)
    (evs : list source_event) (out : list bool) (l' : SourceLimiter.t) :
  limits_u32 l -> SourceLimiter.ok l -> 0 < SourceLimiter.idle l ->
  Forall (event_in_minute m t0 (SourceLimiter.idle l)) evs ->
  source_run l evs = Ok (out, l') ->
  admitted l c k evs out <= source_limit l c.
Proof.
  intros Hlim Hok Hidle Hev Hrun.
  destruct (source_run_accounted l c k m t0 evs 0 out l') as [Hacc Heq]; auto; [by left|].
  rewrite Z.add_0_l in Hacc. destruct Hacc as [->|(w & cnt & _ & _ & _ & _ & Hb)].
  - destruct Hlim as ((?&?)&(?&?)&(?&?)). by destruct c.
  - lia.
Qed.

Lemma source_rate_bound_witness :
  let l := SourceLimiter.new (fun b => from_be b) Config.default in
  let clk := mkClock 7 7 5 5 in
  let evs := [SrcRequest SrcCreate (V4 [10; 0; 0; 1]) clk; SrcPrune 6;
              SrcRequest SrcCreate (V4 [10; 0; 0; 1]) clk] in
  exists out l', source_run l evs = Ok (out, l') /\
    admitted l SrcCreate (from_be [10; 0; 0; 1]) evs out <= 10.
Proof.
  intros l clk evs. eexists _, _. split; [vm_compute; reflexivity|].
  eapply (source_rate_bound l SrcCreate (from_be [10; 0; 0; 1]) 7 0 evs).
  - repeat split; vm_compute; discriminate.
  - apply map_Forall_empty.
  - vm_compute; reflexivity.
  - repeat constructor; vm_compute; congruence.
  - vm_compute; reflexivity.
Defined.
