(* ===== verification/RelayState.v ===== *)
(** The relay's in-memory state ([tezca-relay/src/state.rs]): mailboxes,
    creation at a random and at a chosen id, and the TTL sweep.  Instants are
    nanoseconds of the monotonic clock and enter as arguments; random draws
    enter as arguments; a notify sender is the identity of its channel. *)

From S2P Require Import Prelude Base64 RelayWire RelayConfig RelayLimits.

Module QueuedMsg.
Record t := mk { id : bytes; data : bytes; deposited_at : Z }.
End QueuedMsg.

Module Mailbox.
Record t := mk {
  queue : list QueuedMsg.t;
  queued_bytes : Z;
  last_activity : option Z;
  notify : option nat
}.

(** [Mailbox { last_activity: Some(now), ..Mailbox::default() }] *)
Definition fresh (now : Z) : t := mk [] 0 (Some now) None.
End Mailbox.

(** The loop at the front of a queue: pops expired messages and sums their
    lengths ([dropped] is a [usize], so the sum is checked). *)
Fixpoint pop_expired (now ttl : Z) (q : list QueuedMsg.t) (dropped : Z)
    : run (Z * list QueuedMsg.t) :=
  match q with
  | [] => Ok (dropped, [])
  | front :: r =>
    if ttl <? duration_since now (QueuedMsg.deposited_at front) then
      dropped' ← expect (checked_add usize_max dropped (zlen (QueuedMsg.data front)));
      pop_expired now ttl r dropped'
    else Ok (dropped, q)
  end.

(** The closure of [boxes.retain]: the bytes dropped, the mailbox after the
    pops, and whether it stays. *)
Definition sweep_mailbox (now ttl : Z) (mb : Mailbox.t) : run (Z * Mailbox.t * bool) :=
  '(dropped, q) ← pop_expired now ttl (Mailbox.queue mb) 0;
  qb ← (if 0 <? dropped then expect (checked_sub (Mailbox.queued_bytes mb) dropped)
        else Ok (Mailbox.queued_bytes mb));
  let keep := match Mailbox.last_activity mb with
              | Some at_ => duration_since now at_ <=? ttl
              | None => true
              end in
  Ok (dropped, Mailbox.mk q qb (Mailbox.last_activity mb) (Mailbox.notify mb), keep).

Module AppState.
Record t := mk {
  cfg : Config.t;
  boxes : gmap bytes Mailbox.t;
  global_bytes : Z;
  src_limiter : SourceLimiter.t;
  box_limiter : BoxLimiter.t
}.

Definition new (hasher : bytes -> Z) (cfg : Config.t) : t :=
  mk cfg ∅ 0 (SourceLimiter.new hasher cfg) (BoxLimiter.new cfg).

Definition with_boxes (s : t) (b : gmap bytes Mailbox.t) : t :=
  mk (cfg s) b (global_bytes s) (src_limiter s) (box_limiter s).
Definition with_global (s : t) (g : Z) : t :=
  mk (cfg s) (boxes s) g (src_limiter s) (box_limiter s).
Definition with_src (s : t) (l : SourceLimiter.t) : t :=
  mk (cfg s) (boxes s) (global_bytes s) l (box_limiter s).
Definition with_box_limiter (s : t) (l : BoxLimiter.t) : t :=
  mk (cfg s) (boxes s) (global_bytes s) (src_limiter s) l.

(** [fetch_add] and [fetch_sub] wrap around. *)
Definition fetch_add (s : t) (n : Z) : t :=
  with_global s (wrapping_add usize_max (global_bytes s) n).
Definition fetch_sub (s : t) (n : Z) : t :=
  with_global s (wrapping_sub usize_max (global_bytes s) n).

(** The retry loop over fresh 256-bit draws; [None] when the given draws
    are used up before an unused id came. *)
Fixpoint create_loop (s : t) (draws : list bytes) (now : Z) : option (bytes * t) :=
  match draws with
  | [] => None
  | raw :: rest =>
    let id := encode_mailbox_id raw in
    if bool_decide (boxes s !! id = None)
    then Some (id, with_boxes s (<[id := Mailbox.fresh now]> (boxes s)))
    else create_loop s rest now
  end.

(** [Some (None, _)]: at the mailbox cap. *)
Definition create_mailbox (s : t) (draws : list bytes) (now : Z) : option (option bytes * t) :=
  if Config.max_mailboxes (cfg s) <=? Z.of_nat (size (boxes s)) then Some (None, s)
  else '(id, s') ← create_loop s draws now; Some (Some id, s').

Definition put_mailbox (s : t) (id : bytes) (now : Z) : bool * t :=
  if Config.max_mailboxes (cfg s) <=? Z.of_nat (size (boxes s)) then (false, s)
  else
    (true, match boxes s !! id with
           | Some _ => s
           | None => with_boxes s (<[id := Mailbox.fresh now]> (boxes s))
           end).

(** One entry of [boxes.retain], with the global counter it updates. *)
Definition sweep_entry (now : Z) (s : t) (id : bytes) (mb : Mailbox.t) : run t :=
  swept ← sweep_mailbox now (Config.ttl (cfg s)) mb;
  let '(dropped, mb', keep) := (swept : Z * Mailbox.t * bool) in
  let s := if 0 <? dropped then fetch_sub s dropped else s in
  Ok (with_boxes s (if keep then <[id := mb']> (boxes s) else delete id (boxes s))).

Fixpoint retain (now : Z) (entries : list (bytes * Mailbox.t)) (s : t) : run t :=
  match entries with
  | [] => Ok s
  | (id, mb) :: rest => s' ← sweep_entry now s id mb; retain now rest s'
  end.

(** The whole sweep: mailboxes, then both limiters.  The hash map is
    visited in the order [map_to_list] gives; the result does not depend on
    it, since every entry is rewritten on its own. *)
Definition sweep (s : t) (now : Z) : run t :=
  s' ← retain now (map_to_list (boxes s)) s;
  let s' := with_src s' (SourceLimiter.prune (src_limiter s') now) in
  Ok (with_box_limiter s' (BoxLimiter.prune (box_limiter s') now)).
End AppState.

(** ** What the state maintains *)

(** Bytes held by a queue. *)
Fixpoint qbytes (q : list QueuedMsg.t) : Z :=
  match q with [] => 0 | m :: r => zlen (QueuedMsg.data m) + qbytes r end.

(** A mailbox at clock [now]: exact byte accounting within the quota, message
    count within the quota, deposits in time order, and none later than the
    last activity. *)
Definition mailbox_ok (cfg : Config.t) (now : Z) (mb : Mailbox.t) : Prop :=
  Mailbox.queued_bytes mb = qbytes (Mailbox.queue mb) /\
  Mailbox.queued_bytes mb <= Config.mailbox_max_bytes cfg /\
  zlen (Mailbox.queue mb) <= Config.mailbox_max_messages cfg /\
  exists a, Mailbox.last_activity mb = Some a /\ a <= now /\
    StronglySorted (fun m m' => QueuedMsg.deposited_at m <= QueuedMsg.deposited_at m')
                   (Mailbox.queue mb) /\
    Forall (fun m => QueuedMsg.deposited_at m <= a) (Mailbox.queue mb).

(** Bytes held by all mailboxes. *)
Definition boxes_bytes (m : gmap bytes Mailbox.t) : Z :=
  map_fold (fun _ mb acc => Mailbox.queued_bytes mb + acc) 0 m.

(** The configuration a relay runs with: widths, and room above the quota for
    one more body. *)
Definition cfg_ok (c : Config.t) : Prop :=
  Config.ok c /\ Config.mailbox_max_bytes c + Config.max_blob_bytes c <= usize_max.

(** The state invariant at clock [now] with [p] bytes already removed from a
    mailbox but not yet subtracted from the global counter. *)
Record Inv (p now : Z) (s : AppState.t) : Prop := {
  inv_cfg : cfg_ok (AppState.cfg s);
  inv_boxes : map_Forall (fun _ mb => mailbox_ok (AppState.cfg s) now mb) (AppState.boxes s);
  inv_global : AppState.global_bytes s
               = (boxes_bytes (AppState.boxes s) + p) mod (usize_max + 1);
  inv_cap : Z.of_nat (size (AppState.boxes s)) <= Config.max_mailboxes (AppState.cfg s);
  inv_src : SourceLimiter.ok (AppState.src_limiter s) /\ limits_u32 (AppState.src_limiter s);
  inv_box : BoxLimiter.ok (AppState.box_limiter s) /\
            in_u32 (BoxLimiter.deposit_limit (AppState.box_limiter s)) /\
            in_u32 (BoxLimiter.ws_limit (AppState.box_limiter s))
}.

(** ** Lemmas on queues and byte sums *)

Lemma qbytes_nonneg q : 0 <= qbytes q.
Proof. induction q; simpl; [lia|]. zlen_lia. Qed.

Lemma qbytes_app q r : qbytes (q ++ r) = qbytes q + qbytes r.
Proof. induction q; simpl; lia. Qed.

Lemma boxes_bytes_empty : boxes_bytes ∅ = 0.
Proof. apply map_fold_empty. Qed.

Lemma boxes_bytes_insert m id mb :
  m !! id = None -> boxes_bytes (<[id := mb]> m) = Mailbox.queued_bytes mb + boxes_bytes m.
Proof. intros H. unfold boxes_bytes. rewrite map_fold_insert_L; [done| |done]. intros. lia. Qed.

Lemma boxes_bytes_delete m id mb :
  m !! id = Some mb -> boxes_bytes m = Mailbox.queued_bytes mb + boxes_bytes (delete id m).
Proof.
  intros H. rewrite <- (insert_delete_id m id mb H) at 1.
  by rewrite boxes_bytes_insert by apply lookup_delete_eq.
Qed.

Lemma boxes_bytes_update m id mb mb' :
  m !! id = Some mb ->
  boxes_bytes (<[id := mb']> m)
  = boxes_bytes m - Mailbox.queued_bytes mb + Mailbox.queued_bytes mb'.
Proof.
  intros H. rewrite <- insert_delete_eq, boxes_bytes_insert by apply lookup_delete_eq.
  rewrite (boxes_bytes_delete m id mb H). lia.
Qed.

Lemma mailbox_ok_mono cfg now now' mb :
  now <= now' -> mailbox_ok cfg now mb -> mailbox_ok cfg now' mb.
Proof. intros Hle (H1 & H2 & H3 & a & H4 & H5 & H6). split_and!; auto. exists a. split_and!; naive_solver lia. Qed.

Lemma Inv_mono p now now' s : now <= now' -> Inv p now s -> Inv p now' s.
Proof.
  intros Hle [? Hb ? ? ? ?]. split; auto.
  intros id mb Hid. eapply mailbox_ok_mono; [done|]. by apply (Hb id).
Qed.

Lemma fresh_mailbox_ok cfg now now' : Config.ok cfg -> now <= now' ->
  mailbox_ok cfg now' (Mailbox.fresh now).
Proof.
  intros (_ & _ & _ & H1 & H2 & _) Hle. unfold mailbox_ok. simpl. split_and!; try done; try lia.
  - rewrite zlen_nil. lia.
  - exists now. split_and!; try done; constructor.
Qed.

(** ** Changing one mailbox *)

(** Replacing a mailbox moves the difference of its byte count between the
    sum and the pending amount. *)
Lemma Inv_update p now s id mb mb' :
  Inv p now s -> AppState.boxes s !! id = Some mb -> mailbox_ok (AppState.cfg s) now mb' ->
  Inv (p + (Mailbox.queued_bytes mb - Mailbox.queued_bytes mb')) now
      (AppState.with_boxes s (<[id := mb']> (AppState.boxes s))).
Proof.
  intros [Hc Hb Hg Hcap Hs Hx] Hid Hok. split; simpl; auto.
  - by apply map_Forall_insert_2.
  - rewrite Hg, (boxes_bytes_update _ _ _ _ Hid). f_equal. lia.
  - rewrite map_size_insert_Some; [done|by eexists].
Qed.

Lemma Inv_delete p now s id mb :
  Inv p now s -> AppState.boxes s !! id = Some mb ->
  Inv (p + Mailbox.queued_bytes mb) now
      (AppState.with_boxes s (delete id (AppState.boxes s))).
Proof.
  intros [Hc Hb Hg Hcap Hs Hx] Hid. split; simpl; auto.
  - by apply map_Forall_delete.
  - rewrite Hg, (boxes_bytes_delete _ _ _ Hid). f_equal. lia.
  - rewrite map_size_delete_Some by (by eexists). lia.
Qed.

Lemma Inv_insert p now s id :
  Inv p now s -> AppState.boxes s !! id = None ->
  Z.of_nat (size (AppState.boxes s)) < Config.max_mailboxes (AppState.cfg s) ->
  Inv p now (AppState.with_boxes s (<[id := Mailbox.fresh now]> (AppState.boxes s))).
Proof.
  intros [Hc Hb Hg Hcap Hs Hx] Hid Hlt. split; simpl; auto.
  - apply map_Forall_insert_2; [|done]. apply fresh_mailbox_ok; [apply Hc|lia].
  - by rewrite boxes_bytes_insert.
  - rewrite map_size_insert_None by done. lia.
Qed.

(** [fetch_sub] settles pending bytes, [fetch_add] the opposite. *)
Lemma Inv_fetch_sub p now s n : Inv p now s -> Inv (p - n) now (AppState.fetch_sub s n).
Proof.
  intros [Hc Hb Hg Hcap Hs Hx]. split; simpl; auto.
  rewrite Hg. unfold wrapping_sub. rewrite Zminus_mod_idemp_l. f_equal. lia.
Qed.

Lemma Inv_fetch_add p now s n : Inv p now s -> Inv (p + n) now (AppState.fetch_add s n).
Proof.
  intros [Hc Hb Hg Hcap Hs Hx]. split; simpl; auto.
  rewrite Hg. unfold wrapping_add. rewrite Zplus_mod_idemp_l. f_equal. lia.
Qed.

Lemma Inv_with_src p now s l :
  Inv p now s -> SourceLimiter.ok l -> limits_u32 l -> Inv p now (AppState.with_src s l).
Proof. intros [? ? ? ? ? ?] ? ?. by split. Qed.

Lemma Inv_with_box_limiter p now s l :
  Inv p now s -> BoxLimiter.ok l -> in_u32 (BoxLimiter.deposit_limit l) ->
  in_u32 (BoxLimiter.ws_limit l) -> Inv p now (AppState.with_box_limiter s l).
Proof. intros [? ? ? ? ? ?] ? ? ?. by split. Qed.

(** ** The sweep *)

Lemma pop_expired_spec now ttl q d :
  0 <= d -> d + qbytes q <= usize_max ->
  exists k, pop_expired now ttl q d = Ok (d + qbytes (take k q), drop k q) /\
    Forall (fun m => ttl < duration_since now (QueuedMsg.deposited_at m)) (take k q) /\
    match drop k q with
    | [] => True
    | m :: _ => duration_since now (QueuedMsg.deposited_at m) <= ttl
    end.
Proof.
  revert d. induction q as [|m q IH]; intros d Hd Hs; simpl.
  { exists 0%nat. simpl. by rewrite Z.add_0_r. }
  simpl in Hs. pose proof (qbytes_nonneg q).
  destruct (Z.ltb_spec ttl (duration_since now (QueuedMsg.deposited_at m))) as [Hlt|Hge].
  - unfold checked_add. rewrite (proj2 (Z.leb_le _ _)) by lia. simpl.
    destruct (IH (d + zlen (QueuedMsg.data m))) as (k & -> & Hf & Hm); [zlen_lia|lia|].
    exists (S k). simpl. split_and!; [f_equal; f_equal; lia|by constructor|done].
  - exists 0%nat. simpl. split_and!; [by rewrite Z.add_0_r|constructor|lia].
Qed.

Lemma qbytes_take_drop k q : qbytes (take k q) + qbytes (drop k q) = qbytes q.
Proof. rewrite <- qbytes_app. by rewrite take_drop. Qed.

Lemma StronglySorted_drop {A} (R : A -> A -> Prop) k l :
  StronglySorted R l -> StronglySorted R (drop k l).
Proof.
  revert k. induction l as [|x l IH]; intros [|k] H; simpl; auto.
  apply StronglySorted_inv in H as [H _]. auto.
Qed.

Lemma sorted_head_bound (q : list QueuedMsg.t) now ttl m r :
  StronglySorted (fun m m' => QueuedMsg.deposited_at m <= QueuedMsg.deposited_at m') q ->
  q = m :: r -> duration_since now (QueuedMsg.deposited_at m) <= ttl ->
  Forall (fun m => duration_since now (QueuedMsg.deposited_at m) <= ttl) q.
Proof.
  intros Hs -> Hm. apply StronglySorted_inv in Hs as [_ Hs]. constructor; [done|].
  eapply Forall_impl; [exact Hs|]. simpl. unfold duration_since in *. intros; lia.
Qed.

(** What the closure of [retain] does to a well-formed mailbox: it cannot
    underflow, it keeps a suffix of the queue with no expired message, and it
    drops the mailbox only when nothing is queued any more. *)
Lemma sweep_mailbox_spec cfg clock now mb :
  Config.ok cfg -> mailbox_ok cfg clock mb -> clock <= now \/ now <= clock ->
  exists dropped mb' keep k,
    sweep_mailbox now (Config.ttl cfg) mb = Ok (dropped, mb', keep) /\
    0 <= dropped /\ mailbox_ok cfg clock mb' /\
    Mailbox.queued_bytes mb = dropped + Mailbox.queued_bytes mb' /\
    Mailbox.queue mb' = drop k (Mailbox.queue mb) /\
    Forall (fun m => Config.ttl cfg < duration_since now (QueuedMsg.deposited_at m))
           (take k (Mailbox.queue mb)) /\
    Forall (fun m => duration_since now (QueuedMsg.deposited_at m) <= Config.ttl cfg)
           (Mailbox.queue mb') /\
    (keep = false -> Mailbox.queue mb' = []) /\
    Mailbox.last_activity mb' = Mailbox.last_activity mb /\
    Mailbox.notify mb' = Mailbox.notify mb.
Proof.
  intros Hc (Hqb & Hmax & Hn & a & Ha & Hac & Hsort & Hall) _.
  pose proof Hc as (_ & _ & _ & _ & Hmb & _).
  destruct (pop_expired_spec now (Config.ttl cfg) (Mailbox.queue mb) 0) as (k & Hp & Hf & Hm);
    [lia|lia|].
  unfold sweep_mailbox. rewrite Hp, Z.add_0_l. rsimpl.
  pose proof (qbytes_take_drop k (Mailbox.queue mb)) as Hsum.
  pose proof (qbytes_nonneg (take k (Mailbox.queue mb))).
  pose proof (qbytes_nonneg (drop k (Mailbox.queue mb))).
  set (d := qbytes (take k _)) in *.
  assert (Hqb' : (if 0 <? d then expect (checked_sub (Mailbox.queued_bytes mb) d)
                  else Ok (Mailbox.queued_bytes mb))
                 = @Ok Empty_set Z (qbytes (drop k (Mailbox.queue mb)))).
  { destruct (Z.ltb_spec 0 d); [|f_equal; lia].
    unfold checked_sub. rewrite (proj2 (Z.leb_le _ _)) by lia. simpl. f_equal. lia. }
  rewrite Hqb'. rsimpl. rewrite Ha.
  assert (Hsk : StronglySorted (fun m m' => QueuedMsg.deposited_at m <= QueuedMsg.deposited_at m')
                  (drop k (Mailbox.queue mb))) by (by apply StronglySorted_drop).
  assert (Hlive : Forall (fun m => duration_since now (QueuedMsg.deposited_at m) <= Config.ttl cfg)
                    (drop k (Mailbox.queue mb))).
  { destruct (drop k (Mailbox.queue mb)) as [|m r] eqn:E; [constructor|].
    eapply sorted_head_bound; eauto. }
  eexists d, _, _, k. split; [done|]. simpl. split_and!; try done; try lia.
  - unfold mailbox_ok. simpl. split_and!; try done; try lia.
    + unfold zlen in *. rewrite length_drop. lia.
    + exists a. split_and!; try done. by apply Forall_drop.
  - intros Hk. apply Z.leb_gt in Hk.
    destruct (drop k (Mailbox.queue mb)) as [|m r] eqn:E; [done|exfalso].
    apply Forall_cons_1 in Hlive as [Hm1 _].
    apply (Forall_drop _ k) in Hall. rewrite E in Hall. apply Forall_cons_1 in Hall as [Hm2 _].
    unfold duration_since in *. lia.
Qed.

(** What a sweep may do to a mailbox: remove it when everything in it has
    expired, or leave exactly its live messages, in order. *)
Definition is_live (now ttl : Z) (m : QueuedMsg.t) : bool :=
  duration_since now (QueuedMsg.deposited_at m) <=? ttl.

Definition swept_box (now ttl : Z) (mb : Mailbox.t) (o : option Mailbox.t) : Prop :=
  match o with
  | Some mb' => Mailbox.queue mb' = List.filter (is_live now ttl) (Mailbox.queue mb) /\
                Mailbox.last_activity mb' = Mailbox.last_activity mb /\
                Mailbox.notify mb' = Mailbox.notify mb
  | None => List.filter (is_live now ttl) (Mailbox.queue mb) = []
  end.

Lemma filter_all_live now ttl q :
  Forall (fun m => duration_since now (QueuedMsg.deposited_at m) <= ttl) q ->
  List.filter (is_live now ttl) q = q.
Proof.
  induction 1 as [|m q Hm Hq IH]; simpl; [done|].
  unfold is_live at 1. by rewrite (proj2 (Z.leb_le _ _)), IH by done.
Qed.

Lemma filter_none_live now ttl q :
  Forall (fun m => ttl < duration_since now (QueuedMsg.deposited_at m)) q ->
  List.filter (is_live now ttl) q = [].
Proof.
  induction 1 as [|m q Hm Hq IH]; simpl; [done|].
  unfold is_live at 1. by rewrite (proj2 (Z.leb_gt _ _)) by lia.
Qed.

Lemma sweep_entry_Inv p clock now s id mb :
  Inv p clock s -> AppState.boxes s !! id = Some mb ->
  exists s', AppState.sweep_entry now s id mb = Ok s' /\ Inv p clock s' /\
    AppState.cfg s' = AppState.cfg s /\
    (forall id', id' <> id -> AppState.boxes s' !! id' = AppState.boxes s !! id') /\
    swept_box now (Config.ttl (AppState.cfg s)) mb (AppState.boxes s' !! id).
Proof.
  intros HI Hid. pose proof (inv_boxes _ _ _ HI id mb Hid) as Hmb. simpl in Hmb.
  destruct (sweep_mailbox_spec (AppState.cfg s) clock now mb)
    as (d & mb' & keep & k & E & Hd & Hok & Hsum & Hq & Hexp & Hlive & Hkeep & Hla & Hno);
    [apply HI|done|lia|].
  assert (Hfil : List.filter (is_live now (Config.ttl (AppState.cfg s))) (Mailbox.queue mb)
                 = Mailbox.queue mb').
  { rewrite <- (take_drop k (Mailbox.queue mb)), List.filter_app, filter_none_live by done.
    rewrite <- Hq. by apply filter_all_live. }
  unfold AppState.sweep_entry. rewrite E. simpl.
  set (s1 := if 0 <? d then AppState.fetch_sub s d else s).
  assert (HI1 : Inv (p - d) clock s1).
  { unfold s1. destruct (Z.ltb_spec 0 d); [by apply Inv_fetch_sub|].
    replace (p - d) with p by lia. done. }
  assert (Hs1 : AppState.boxes s1 = AppState.boxes s /\ AppState.cfg s1 = AppState.cfg s)
    by (unfold s1; by destruct (0 <? d)).
  destruct Hs1 as [Hb1 Hc1]. eexists. split; [done|].
  destruct keep; simpl; rewrite Hb1.
  - split_and!; [|done| |rewrite lookup_insert_eq; by split_and!].
    + replace p with (p - d + (Mailbox.queued_bytes mb - Mailbox.queued_bytes mb')) by lia.
      rewrite <- Hb1. eapply Inv_update; [done|by rewrite Hb1|by rewrite Hc1].
    + intros. by rewrite lookup_insert_ne.
  - split_and!; [|done| |rewrite lookup_delete_eq; simpl; rewrite Hfil; auto].
    + assert (Hz : Mailbox.queued_bytes mb' = 0).
      { destruct Hok as (-> & _). by rewrite Hkeep. }
      replace p with (p - d + Mailbox.queued_bytes mb) by lia.
      rewrite <- Hb1. eapply Inv_delete; [done|by rewrite Hb1].
    + intros. by rewrite lookup_delete_ne.
Qed.

Lemma retain_Inv p clock now entries s :
  Inv p clock s -> NoDup entries.*1 ->
  (forall id mb, (id, mb) ∈ entries -> AppState.boxes s !! id = Some mb) ->
  exists s', AppState.retain now entries s = Ok s' /\ Inv p clock s' /\
    AppState.cfg s' = AppState.cfg s /\
    (forall id, id ∉ entries.*1 -> AppState.boxes s' !! id = AppState.boxes s !! id) /\
    (forall id mb, (id, mb) ∈ entries ->
       swept_box now (Config.ttl (AppState.cfg s)) mb (AppState.boxes s' !! id)).
Proof.
  revert s. induction entries as [|[id mb] r IH]; intros s HI Hnd Hin; simpl.
  { exists s. split_and!; try done. intros ? ? Hnil. by apply elem_of_nil in Hnil. }
  apply NoDup_cons in Hnd as [Hni Hnd].
  destruct (sweep_entry_Inv p clock now s id mb HI) as (s1 & E1 & HI1 & Hc1 & Ho1 & Hl1);
    [apply Hin; set_solver|].
  rewrite E1. simpl. destruct (IH s1 HI1 Hnd) as (s2 & E2 & HI2 & Hc2 & Ho2 & Hl2).
  { intros id' mb' Hin'. rewrite Ho1; [apply Hin; set_solver|].
    intros ->. apply Hni. apply list_elem_of_fmap. by exists (id, mb'). }
  exists s2. rewrite E2, Hc2, Hc1. split_and!; try done.
  - intros id' Hni'. simpl in Hni'. rewrite Ho2, Ho1; set_solver.
  - intros id' mb' [[= -> ->]|Hin']%elem_of_cons.
    + by rewrite Ho2.
    + rewrite <- Hc1. by apply Hl2.
Qed.

Lemma prune_source_ok l now :
  SourceLimiter.ok l -> SourceLimiter.ok (SourceLimiter.prune l now).
Proof. apply retain_live_ok. Qed.

Lemma prune_box_ok l now : BoxLimiter.ok l -> BoxLimiter.ok (BoxLimiter.prune l now).
Proof. intros H k w [Hw _]%map_lookup_filter_Some. by apply (H k). Qed.

Lemma sweep_Inv p clock now s :
  Inv p clock s ->
  exists s', AppState.sweep s now = Ok s' /\ Inv p clock s' /\
    AppState.cfg s' = AppState.cfg s /\
    (forall id, AppState.boxes s !! id = None -> AppState.boxes s' !! id = None) /\
    (forall id mb, AppState.boxes s !! id = Some mb ->
       swept_box now (Config.ttl (AppState.cfg s)) mb (AppState.boxes s' !! id)).
Proof.
  intros HI. unfold AppState.sweep.
  destruct (retain_Inv p clock now (map_to_list (AppState.boxes s)) s HI) as
    (s1 & E & HI1 & Hc & Ho & Hl).
  { apply NoDup_fst_map_to_list. }
  { intros id mb. by rewrite elem_of_map_to_list. }
  rewrite E. simpl. eexists. split; [done|]. split_and!; [|done| |].
  - apply Inv_with_box_limiter; [|apply prune_box_ok, HI1|apply HI1|apply HI1].
    apply Inv_with_src; [done|apply prune_source_ok, HI1|apply HI1].
  - intros id Hid. simpl. rewrite Ho; [done|].
    intros [[id' mb] [-> Hin]]%list_elem_of_fmap. apply elem_of_map_to_list in Hin.
    simpl in Hid. congruence.
  - intros id mb Hid. simpl. apply Hl. by apply elem_of_map_to_list.
Qed.

(** ** Creation *)

Lemma create_loop_spec s draws now id s' :
  AppState.create_loop s draws now = Some (id, s') ->
  AppState.boxes s !! id = None /\
  s' = AppState.with_boxes s (<[id := Mailbox.fresh now]> (AppState.boxes s)) /\
  exists raw, raw ∈ draws /\ id = encode_mailbox_id raw.
Proof.
  induction draws as [|raw r IH]; simpl; [done|]. bool_case.
  - intros [= <- <-]. reflect_bools. split_and!; try done. exists raw. set_solver.
  - intros H. destruct (IH H) as (? & ? & raw' & ? & ?). split_and!; try done.
    exists raw'. set_solver.
Qed.

Lemma create_loop_None s draws now :
  AppState.create_loop s draws now = None ->
  forall raw, raw ∈ draws -> encode_mailbox_id raw ∈ dom (AppState.boxes s).
Proof.
  induction draws as [|raw r IH]; simpl; intros H raw' Hin; [by apply elem_of_nil in Hin|].
  bool_case; [done|]. apply elem_of_cons in Hin as [->|Hin]; [|auto].
  reflect_bools. apply elem_of_dom. destruct (AppState.boxes s !! _); [by eexists|done].
Qed.

Lemma create_mailbox_Inv p now s draws o s' :
  Inv p now s -> AppState.create_mailbox s draws now = Some (o, s') -> Inv p now s'.
Proof.
  intros HI. unfold AppState.create_mailbox. destruct (Z.leb_spec
    (Config.max_mailboxes (AppState.cfg s)) (Z.of_nat (size (AppState.boxes s)))) as [|Hlt].
  { by intros [= <- <-]. }
  destruct (AppState.create_loop s draws now) as [[id s1]|] eqn:E; simpl; [|done].
  intros [= <- <-]. apply create_loop_spec in E as (Hn & -> & _). by apply Inv_insert.
Qed.

Lemma put_mailbox_Inv p now s id :
  Inv p now s -> Inv p now (AppState.put_mailbox s id now).2.
Proof.
  intros HI. unfold AppState.put_mailbox. destruct (Z.leb_spec
    (Config.max_mailboxes (AppState.cfg s)) (Z.of_nat (size (AppState.boxes s)))) as [|Hlt];
    [done|]. simpl. destruct (AppState.boxes s !! id) eqn:E; [done|]. by apply Inv_insert.
Qed.

Lemma Inv_new hasher cfg now : cfg_ok cfg -> Inv 0 now (AppState.new hasher cfg).
Proof.
  intros Hc. pose proof Hc as ((_ & _ & _ & _ & _ & Hm & H1 & H2 & H3 & H4 & H5 & _) & _).
  split; simpl.
  1: done. 1: apply map_Forall_empty. 1: by rewrite boxes_bytes_empty.
  - rewrite map_size_empty. lia.
  - split; [apply map_Forall_empty|]. by split_and!.
  - split; [apply map_Forall_empty|]. by split.
Qed.

Lemma cfg_ok_default : cfg_ok Config.default.
Proof.
  unfold cfg_ok, Config.ok, in_u32. vm_compute. split_and!; congruence.
Qed.

#[export] Hint Resolve Inv_new cfg_ok_default : titlan.

(** Distinct draws that are all taken need as many mailboxes. *)
Lemma create_loop_progress s draws now :
  NoDup draws -> Forall (fun raw => bytes_ok raw /\ length raw = 32%nat) draws ->
  (size (AppState.boxes s) < length draws)%nat ->
  is_Some (AppState.create_loop s draws now).
Proof.
  intros Hnd Hok Hlt. destruct (AppState.create_loop s draws now) eqn:E; [by eexists|exfalso].
  pose proof (create_loop_None _ _ _ E) as Hin.
  assert (Hnd' : NoDup (encode_mailbox_id <$> draws)).
  { clear - Hnd Hok. induction Hnd as [|x l Hx Hl IH]; [constructor|].
    apply Forall_cons in Hok as [[Hxb Hxl] Hok]. rewrite fmap_cons. constructor; [|by apply IH].
    intros (y & Heq & Hy)%list_elem_of_fmap.
    pose proof (proj1 (Forall_forall _ _) Hok y Hy) as [Hyb Hyl].
    apply encode_mailbox_id_inj in Heq; [by subst|done|done|congruence]. }
  assert (Hsub : list_to_set (encode_mailbox_id <$> draws) ⊆ dom (AppState.boxes s)).
  { intros x Hx%elem_of_list_to_set. apply list_elem_of_fmap in Hx as (y & -> & Hy). auto. }
  apply subseteq_size in Hsub. rewrite size_list_to_set, length_fmap, size_dom in Hsub by done. lia.
Qed.

(** A small state for witnesses: one mailbox with two messages. *)
Definition demo_box : Mailbox.t :=
  Mailbox.mk [QueuedMsg.mk (replicate 16 1) (bstr "TZCA....x") 5;
              QueuedMsg.mk (replicate 16 2) (bstr "TZCA....y") 90] 18 (Some 90) None.

Definition demo_state : AppState.t :=
  AppState.fetch_add
    (AppState.with_boxes (AppState.new from_be Config.default) {[ bstr "box" := demo_box ]}) 18.

Lemma demo_Inv : Inv 0 100 demo_state.
Proof.
  split; [exact cfg_ok_default| |vm_compute; reflexivity|vm_compute; congruence| |].
  - apply map_Forall_singleton. unfold mailbox_ok, demo_box.
    split_and!; try (vm_compute; congruence). exists 90. split_and!; try (vm_compute; congruence).
    + repeat constructor; simpl; lia.
    + repeat constructor; simpl; lia.
  - split; [apply map_Forall_empty|]. repeat split; vm_compute; congruence.
  - split; [apply map_Forall_empty|]. repeat split; vm_compute; congruence.
Qed.

#[export] Hint Resolve demo_Inv : titlan.

(** ** Properties *)

(** C17: the TTL sweep.  From a state that satisfies the invariant the sweep
    returns (no underflow, no panic under the lock), keeps the invariant and
    with it the exact global byte count, creates no mailbox, and leaves in
    every mailbox exactly the messages whose age is within the TTL, in order;
    a mailbox it removes held no live message. *)
Theorem sweep_correct (p clock now : Z) (s : AppState.t) :
  Inv p clock s ->
  exists s', AppState.sweep s now = Ok s' /\ Inv p clock s' /\
    (forall id, AppState.boxes s !! id = None -> AppState.boxes s' !! id = None) /\
    (forall id mb, AppState.boxes s !! id = Some mb ->
       swept_box now (Config.ttl (AppState.cfg s)) mb (AppState.boxes s' !! id)).
Proof. intros HI. destruct (sweep_Inv p clock now s HI) as (s' & ? & ? & _ & ? & ?). eauto. Qed.

Lemma sweep_correct_witness :
  exists s', AppState.sweep demo_state (Config.ttl Config.default + 50) = Ok s' /\
    AppState.global_bytes s' = 9.
Proof.
  destruct (sweep_correct 0 100 (Config.ttl Config.default + 50) demo_state demo_Inv)
    as (s' & E & _). exists s'. split; [exact E|].
  vm_compute in E. injection E as <-. reflexivity.
Defined.

(** C29: creation terminates.  Below the mailbox cap, any run of distinct
    32-byte draws longer than the number of mailboxes contains one that the
    retry loop accepts; the mailbox it creates is new, is empty, has an id of
    the shape the other endpoints accept, and no other mailbox changes. *)
Theorem create_mailbox_terminates (p now : Z) (s : AppState.t) (draws : list bytes) :
  Inv p now s ->
  Z.of_nat (size (AppState.boxes s)) < Config.max_mailboxes (AppState.cfg s) ->
  NoDup draws -> Forall (fun raw => bytes_ok raw /\ length raw = 32%nat) draws ->
  (size (AppState.boxes s) < length draws)%nat ->
  exists id s', AppState.create_mailbox s draws now = Some (Some id, s') /\
    AppState.boxes s !! id = None /\ mailbox_id_shape_ok id = true /\
    AppState.boxes s' = <[id := Mailbox.fresh now]> (AppState.boxes s) /\ Inv p now s'.
Proof.
  intros HI Hlt Hnd Hok Hlen.
  destruct (create_loop_progress s draws now Hnd Hok Hlen) as [[id s'] E].
  pose proof (create_loop_spec _ _ _ _ _ E) as (Hn & -> & raw & Hraw & ->).
  assert (Ec : AppState.create_mailbox s draws now
               = Some (Some (encode_mailbox_id raw), AppState.with_boxes s
                    (<[encode_mailbox_id raw := Mailbox.fresh now]> (AppState.boxes s)))).
  { unfold AppState.create_mailbox. rewrite (proj2 (Z.leb_gt _ _)) by done. by rewrite E. }
  eexists _, _. split; [exact Ec|]. split_and!; try done.
  - apply encoded_shape_ok; by apply (proj1 (Forall_forall _ _) Hok).
  - by eapply create_mailbox_Inv.
Qed.

Lemma create_mailbox_terminates_witness :
  exists id s', AppState.create_mailbox demo_state [replicate 32 0; replicate 32 7] 100
                = Some (Some id, s').
Proof.
  destruct (create_mailbox_terminates 0 100 demo_state [replicate 32 0; replicate 32 7] demo_Inv)
    as (id & s' & E & _).
  - vm_compute; reflexivity.
  - by_compute.
  - by_compute.
  - vm_compute. lia.
  - exists id, s'. exact E.
Defined.
