(* ===== verification/RelayApi.v ===== *)
(** The relay's HTTP and WebSocket handlers ([tezca-relay/src/api.rs]) as
    functions of the shared state.  Each handler is written as the sequence of
    lock regions the source executes; [RelayConc] interleaves those regions.
    The clock readings and random bytes a handler draws are one [Env]. *)

From stdpp Require Import pretty.
From S2P Require Import Prelude Base64 RelayWire RelayConfig RelayLimits RelayState.

Module Response.
Record t := mk { status : Z; retry_after : option bytes; content_type : option bytes; body : bytes }.
(** [StatusCode::X.into_response()]: no headers of ours, an empty body. *)
Definition plain (status : Z) : t := mk status None None [].
End Response.

Record Env := mkEnv {
  src_clk : Clock;          (* the source limiter's readings *)
  box_clk : Clock;          (* the mailbox limiter's readings *)
  unix_secs : Z;            (* the wall clock of a Retry-After header *)
  msg_id : bytes;           (* 16 bytes of the OS generator *)
  deposited_now : Z;        (* Instant::now() of the queued message *)
  activity_now : Z          (* Instant::now() of last_activity *)
}.

(** [HeaderValue::from_str]: visible ASCII, blanks and bytes above 127. *)
Definition header_value_from_str (b : bytes) : option bytes :=
  if forallb (fun c => ((32 <=? c) && negb (c =? 127)) || (c =? 9)) b then Some b else None.

Definition healthz : Response.t :=
  Response.mk 200 None (Some (bstr "text/plain; charset=utf-8")) (bstr "ok").

Definition too_many_requests (unix_secs : Z) : run Response.t :=
  v ← expect (header_value_from_str (bstr (pretty (retry_after_secs unix_secs))));
  Ok (Response.mk 429 (Some v) None []).

Definition not_found : Response.t := Response.plain 404.

(** [format!("{{\"mailbox_id\":\"{id}\"}}")] *)
Definition created_json (id : bytes) : bytes :=
  [123; 34] ++ bstr "mailbox_id" ++ [34; 58; 34] ++ id ++ [34; 125].

(** [None]: the given draws were used up before an unused id came. *)
Definition create_mailbox (s : AppState.t) (ip : IpAddr) (e : Env) (draws : list bytes) (now : Z)
    : run (option Response.t * AppState.t) :=
  '(admitted, l) ← SourceLimiter.admit_create (AppState.src_limiter s) ip (src_clk e);
  let s := AppState.with_src s l in
  if negb admitted then r ← too_many_requests (unix_secs e); Ok (Some r, s)
  else
    match AppState.create_mailbox s draws now with
    | None => Ok (None, s)
    | Some (Some id, s) =>
      Ok (Some (Response.mk 201 None (Some (bstr "application/json")) (created_json id)), s)
    | Some (None, s) => Ok (Some (Response.plain 503), s)
    end.

(** The part of [deposit] that runs under the lock of the mailbox table; the
    middle component is the channel that [notify.send] wakes. *)
Definition deposit_locked (s : AppState.t) (id body : bytes) (e : Env)
    : run (Response.t * option nat * AppState.t) :=
  match AppState.boxes s !! id with
  | None => Ok (not_found, None, s)
  | Some mb =>
    '(admitted, l) ← BoxLimiter.admit_deposit (AppState.box_limiter s) id (box_clk e);
    let s := AppState.with_box_limiter s l in
    if negb admitted then r ← too_many_requests (unix_secs e); Ok (r, None, s)
    else
      full ← (if Config.mailbox_max_messages (AppState.cfg s) <=? zlen (Mailbox.queue mb)
              then Ok true
              else total ← expect (checked_add usize_max (Mailbox.queued_bytes mb) (zlen body));
                   Ok (Config.mailbox_max_bytes (AppState.cfg s) <? total));
      if (full : bool) then Ok (Response.plain 507, None, s)
      else
        queued_bytes ← expect (checked_add usize_max (Mailbox.queued_bytes mb) (zlen body));
        let s := AppState.fetch_add s (zlen body) in
        let msg := QueuedMsg.mk (msg_id e) body (deposited_now e) in
        let mb' := Mailbox.mk (Mailbox.queue mb ++ [msg]) queued_bytes (Some (activity_now e))
                              (Mailbox.notify mb) in
        Ok (Response.plain 202, Mailbox.notify mb,
            AppState.with_boxes s (<[id := mb']> (AppState.boxes s)))
  end.

Definition deposit (s : AppState.t) (ip : IpAddr) (id body : bytes) (e : Env)
    : run (Response.t * option nat * AppState.t) :=
  if negb (mailbox_id_shape_ok id) then Ok (not_found, None, s)
  else
    '(admitted, l) ← SourceLimiter.admit_deposit (AppState.src_limiter s) ip (src_clk e);
    let s := AppState.with_src s l in
    if negb admitted then r ← too_many_requests (unix_secs e); Ok (r, None, s)
    else
      admissible ← deposit_admissible body;
      if negb admissible then Ok (Response.plain 400, None, s)
      else deposit_locked s id body e.

Definition put_mailbox (s : AppState.t) (ip : IpAddr) (id : bytes) (e : Env)
    : run (Response.t * AppState.t) :=
  if negb (mailbox_id_shape_ok id) then Ok (Response.plain 400, s)
  else
    '(admitted, l) ← SourceLimiter.admit_put (AppState.src_limiter s) ip (src_clk e);
    let s := AppState.with_src s l in
    if negb admitted then r ← too_many_requests (unix_secs e); Ok (r, s)
    else
      let '(ok, s) := AppState.put_mailbox s id (activity_now e) in
      Ok (Response.plain (if ok then 201 else 503), s).

(** The removal under the table lock; the counter and the limiter entry
    follow outside it. *)
Definition delete_locked (s : AppState.t) (id : bytes) : option Mailbox.t * AppState.t :=
  (AppState.boxes s !! id, AppState.with_boxes s (delete id (AppState.boxes s))).

Definition forget_box (s : AppState.t) (id : bytes) : AppState.t :=
  AppState.with_box_limiter s (BoxLimiter.forget (AppState.box_limiter s) id).

Definition delete_mailbox (s : AppState.t) (id : bytes) : Response.t * AppState.t :=
  let s :=
    if mailbox_id_shape_ok id then
      let '(removed, s) := delete_locked s id in
      match removed with
      | Some mb => forget_box (AppState.fetch_sub s (Mailbox.queued_bytes mb)) id
      | None => s
      end
    else s in
  (Response.plain 204, s).

(** [None]: the connection is upgraded and [deliver] takes over. *)
Definition subscribe (s : AppState.t) (id : bytes) (e : Env)
    : run (option Response.t * AppState.t) :=
  if negb (mailbox_id_shape_ok id) then Ok (Some not_found, s)
  else if bool_decide (AppState.boxes s !! id = None) then Ok (Some not_found, s)
  else
    '(admitted, l) ← BoxLimiter.admit_ws (AppState.box_limiter s) id (box_clk e);
    let s := AppState.with_box_limiter s l in
    if negb admitted then r ← too_many_requests (unix_secs e); Ok (Some r, s)
    else Ok (None, s).

(** [Iterator::position] and [VecDeque::remove]. *)
Fixpoint position {A} (f : A -> bool) (l : list A) : option nat :=
  match l with
  | [] => None
  | x :: r => if f x then Some 0%nat else S <$> position f r
  end.

Definition remove_at {A} (pos : nat) (l : list A) : option (A * list A) :=
  x ← l !! pos; Some (x, take pos l ++ drop (S pos) l).

Definition handle_ack (s : AppState.t) (id data : bytes) (now : Z) : run (bool * AppState.t) :=
  o ← parse_ack_frame data;
  match (o : option bytes) with
  | None => Ok (false, s)
  | Some acked =>
    match AppState.boxes s !! id with
    | None => Ok (true, s)
    | Some mb =>
      match position (fun m => beq (QueuedMsg.id m) acked) (Mailbox.queue mb) with
      | None => Ok (true, s)
      | Some pos =>
        removed ← expect (remove_at pos (Mailbox.queue mb));
        let '(m, q) := (removed : QueuedMsg.t * list QueuedMsg.t) in
        qb ← expect (checked_sub (Mailbox.queued_bytes mb) (zlen (QueuedMsg.data m)));
        let s := AppState.fetch_sub s (zlen (QueuedMsg.data m)) in
        let mb' := Mailbox.mk q qb (Some now) (Mailbox.notify mb) in
        Ok (true, AppState.with_boxes s (<[id := mb']> (AppState.boxes s)))
      end
    end
  end.

(** ** The lock regions of [deliver] *)

(** Registration: [false] when the mailbox is gone. *)
Definition deliver_register (s : AppState.t) (id : bytes) (tx : nat) (now : Z)
    : bool * AppState.t :=
  match AppState.boxes s !! id with
  | None => (false, s)
  | Some mb =>
    let mb' := Mailbox.mk (Mailbox.queue mb) (Mailbox.queued_bytes mb) (Some now) (Some tx) in
    (true, AppState.with_boxes s (<[id := mb']> (AppState.boxes s)))
  end.

(** Collecting the frames not yet sent on this connection: [None] when the
    mailbox is gone or another subscriber has replaced this one. *)
Definition deliver_collect (s : AppState.t) (id : bytes) (tx : nat) (sent : gset bytes)
    : option (list bytes) :=
  mb ← AppState.boxes s !! id;
  if bool_decide (Mailbox.notify mb = Some tx)
  then Some ((fun m => delivery_frame (QueuedMsg.id m) (QueuedMsg.data m)) <$>
             List.filter (fun m => negb (bool_decide (QueuedMsg.id m ∈ sent))) (Mailbox.queue mb))
  else None.

(** [msg_id.copy_from_slice(&frame[1..17])] *)
Definition frame_msg_id (frame : bytes) : run bytes := slice frame 1 17.

(** ** The router *)

Inductive Request :=
  | GetHealthz
  | PostMailboxes (ip : IpAddr) (draws : list bytes)
  | PostMessage (ip : IpAddr) (id body : bytes)
  | PutMailbox (ip : IpAddr) (id : bytes)
  | DeleteMailbox (id : bytes)
  | GetWs (id : bytes).

Section router.
(** axum's reply to a body over [DefaultBodyLimit::max(max_blob)]. *)
Variable payload_too_large : Response.t.

(** [None] in place of a response: an upgraded socket, or draws used up. *)
Definition router (s : AppState.t) (r : Request) (e : Env)
    : run (option Response.t * option nat * AppState.t) :=
  match r with
  | GetHealthz => Ok (Some healthz, None, s)
  | PostMailboxes ip draws =>
    '(o, s) ← create_mailbox s ip e draws (activity_now e); Ok (o, None, s)
  | PostMessage ip id body =>
    if Config.max_blob_bytes (AppState.cfg s) <? zlen body
    then Ok (Some payload_too_large, None, s)
    else x ← deposit s ip id body e;
         let '(resp, wake, s) := (x : Response.t * option nat * AppState.t) in
         Ok (Some resp, wake, s)
  | PutMailbox ip id => '(resp, s) ← put_mailbox s ip id e; Ok (Some resp, None, s)
  | DeleteMailbox id => let '(resp, s) := delete_mailbox s id in Ok (Some resp, None, s)
  | GetWs id => '(o, s) ← subscribe s id e; Ok (o, None, s)
  end.
End router.

(** ** Limiter steps keep the invariant *)

Lemma retry_after_range u : 1 <= retry_after_secs u <= 60.
Proof. unfold retry_after_secs. pose proof (Z.mod_pos_bound u 60). lia. Qed.

(** The header value of a 429 is always well formed: its [expect] holds. *)
Lemma too_many_requests_Ok u :
  exists v, too_many_requests u = Ok (Response.mk 429 (Some v) None []).
Proof.
  unfold too_many_requests. pose proof (retry_after_range u) as Hr.
  assert (Hall : Forall (fun n => is_Some (header_value_from_str (bstr (pretty n)))) (seqZ 1 60))
    by by_compute.
  destruct (proj1 (Forall_forall _ _) Hall (retry_after_secs u)) as [v ->];
    [apply elem_of_seqZ; lia|]. by exists v.
Qed.

Lemma source_step p now s c ip clk :
  Inv p now s ->
  exists b l, source_admit (AppState.src_limiter s) c ip clk = Ok (b, l) /\
    Inv p now (AppState.with_src s l).
Proof.
  intros HI. destruct (inv_src _ _ _ HI) as [Hok Hlim]. rewrite source_class_admit_eq.
  assert (Hl : in_u32 (source_limit (AppState.src_limiter s) c))
    by (destruct Hlim as (?&?&?); by destruct c).
  destruct (source_admit_ok (AppState.src_limiter s) ip _ _ clk Hok (source_slot_lt c) Hl)
    as (b & l & -> & Hokl & m & ->).
  exists b. eexists. split; [done|]. by apply Inv_with_src.
Qed.

Lemma box_step p now s id slot limit clk :
  Inv p now s -> (slot < 3)%nat -> in_u32 limit ->
  exists b l, BoxLimiter.admit_request (AppState.box_limiter s) id slot limit clk = Ok (b, l) /\
    Inv p now (AppState.with_box_limiter s l).
Proof.
  intros HI Hs Hl. destruct (inv_box _ _ _ HI) as (Hok & Hd & Hw).
  destruct (box_admit_ok (AppState.box_limiter s) id slot limit clk Hok Hs Hl)
    as (b & l & -> & Hokl & Ed & Ew & _).
  exists b, l. split; [done|]. apply Inv_with_box_limiter; try done; congruence.
Qed.

(** ** Deposits *)

Lemma StronglySorted_snoc {A} (R : A -> A -> Prop) l x :
  StronglySorted R l -> Forall (fun y => R y x) l -> StronglySorted R (l ++ [x]).
Proof.
  induction 1 as [|y l Hs IH Hy]; intros Hf; simpl; [repeat constructor|].
  apply Forall_cons in Hf as [Hyx Hf]. constructor; [by apply IH|].
  apply Forall_app. split; [done|]. by repeat constructor.
Qed.

Lemma mailbox_ok_push cfg now d a mb m :
  mailbox_ok cfg now mb -> now <= d <= a -> QueuedMsg.deposited_at m = d ->
  zlen (Mailbox.queue mb) < Config.mailbox_max_messages cfg ->
  Mailbox.queued_bytes mb + zlen (QueuedMsg.data m) <= Config.mailbox_max_bytes cfg ->
  mailbox_ok cfg a (Mailbox.mk (Mailbox.queue mb ++ [m])
    (Mailbox.queued_bytes mb + zlen (QueuedMsg.data m)) (Some a) (Mailbox.notify mb)).
Proof.
  intros (Hq & Hb & Hn & a0 & Ha & Hle & Hs & Hf) Hd Hm Hcount Hbytes.
  unfold mailbox_ok. simpl. split_and!; try done.
  - rewrite qbytes_app, Hq. simpl. lia.
  - zlen_lia.
  - exists a. split_and!; [done|lia| |].
    + apply StronglySorted_snoc; [done|]. eapply Forall_impl; [exact Hf|]. simpl. lia.
    + apply Forall_app. split; [|repeat constructor; lia].
      eapply Forall_impl; [exact Hf|]. simpl. lia.
Qed.

(** The mailbox after an accepted deposit. *)
Definition deposited (body : bytes) (e : Env) (mb : Mailbox.t) : Mailbox.t :=
  Mailbox.mk (Mailbox.queue mb ++ [QueuedMsg.mk (msg_id e) body (deposited_now e)])
             (Mailbox.queued_bytes mb + zlen body) (Some (activity_now e)) (Mailbox.notify mb).

(** What a deposit may do to the mailboxes and the counter. *)
Definition deposit_effect (s s' : AppState.t) (id body : bytes) (e : Env)
    (r : Response.t) (wake : option nat) : Prop :=
  (Response.status r = 202 /\
   exists mb, AppState.boxes s !! id = Some mb /\ wake = Mailbox.notify mb /\
     AppState.boxes s' = <[id := deposited body e mb]> (AppState.boxes s) /\
     zlen (Mailbox.queue mb) < Config.mailbox_max_messages (AppState.cfg s) /\
     Mailbox.queued_bytes mb + zlen body <= Config.mailbox_max_bytes (AppState.cfg s)) \/
  (Response.status r ∈ [404; 429; 400; 507] /\ Response.body r = [] /\ wake = None /\
   AppState.boxes s' = AppState.boxes s /\ AppState.global_bytes s' = AppState.global_bytes s).

Lemma deposit_locked_spec p now s id body e :
  Inv p now s -> zlen body <= Config.max_blob_bytes (AppState.cfg s) ->
  now <= deposited_now e <= activity_now e ->
  exists r wake s', deposit_locked s id body e = Ok (r, wake, s') /\
    Inv p (activity_now e) s' /\ AppState.cfg s' = AppState.cfg s /\
    deposit_effect s s' id body e r wake /\
    (AppState.boxes s !! id = None -> r = not_found).
Proof.
  intros HI Hlen Hnow. unfold deposit_locked.
  assert (HIa : Inv p (activity_now e) s) by (eapply Inv_mono; [|done]; lia).
  destruct (AppState.boxes s !! id) as [mb|] eqn:Hid.
  2: { eexists _, _, _. split; [done|]. split_and!; [done|done| |done].
       right. split_and!; try done. set_solver. }
  destruct (box_step p now s id 0%nat (BoxLimiter.deposit_limit (AppState.box_limiter s)) (box_clk e))
    as (b & l & E & HIl); [done|lia|apply HI|].
  unfold BoxLimiter.admit_deposit. rewrite E. rsimpl.
  assert (HIla : Inv p (activity_now e) (AppState.with_box_limiter s l))
    by (eapply Inv_mono; [|done]; lia).
  destruct b; rsimpl.
  2: { destruct (too_many_requests_Ok (unix_secs e)) as [v ->]. rsimpl.
       eexists _, _, _. split; [done|]. split_and!; [done|done| |done].
       right. split_and!; try done. simpl. set_solver. }
  pose proof (inv_boxes _ _ _ HI id mb Hid) as Hmb. simpl in Hmb.
  pose proof Hmb as (Hq & Hb & Hn & _).
  pose proof (proj2 (inv_cfg _ _ _ HI)) as Hroom.
  pose proof (proj1 (inv_cfg _ _ _ HI)) as (_ & _ & _ & _ & Hmax & _).
  simpl AppState.cfg.
  assert (Hadd : checked_add usize_max (Mailbox.queued_bytes mb) (zlen body)
                 = Some (Mailbox.queued_bytes mb + zlen body)).
  { unfold checked_add. by rewrite (proj2 (Z.leb_le _ _)) by lia. }
  rewrite Hadd. rsimpl.
  set (full := if _ <=? _ then _ else _).
  assert (Hfull : full = Ok ((Config.mailbox_max_messages (AppState.cfg s) <=? zlen (Mailbox.queue mb))
     || (Config.mailbox_max_bytes (AppState.cfg s) <? Mailbox.queued_bytes mb + zlen body))).
  { unfold full. by destruct (_ <=? zlen _). }
  rewrite Hfull. rsimpl. destruct (_ || _) eqn:Ef; rsimpl.
  - eexists _, _, _. split; [done|]. split_and!; [done|done| |done].
    right. split_and!; try done. simpl. set_solver.
  - reflect_bools. eexists _, _, _. split; [done|]. split_and!; [|done| |done].
    + pose proof (mailbox_ok_push (AppState.cfg s) now _ _ mb
        (QueuedMsg.mk (msg_id e) body (deposited_now e)) Hmb Hnow eq_refl ltac:(lia) ltac:(simpl; lia)) as Hok'.
      pose proof (Inv_fetch_add p _ _ (zlen body) HIla) as HI2.
      eapply (Inv_update _ _ _ id mb) in HI2; [|exact Hid|exact Hok']. simpl in HI2.
      match type of HI2 with Inv ?q _ _ => replace q with p in HI2 by lia end. exact HI2.
    + left. split; [done|]. exists mb. by split_and!; try lia.
Qed.

Lemma deposit_ok p now s ip id body e :
  Inv p now s -> zlen body <= Config.max_blob_bytes (AppState.cfg s) ->
  now <= deposited_now e <= activity_now e ->
  exists r wake s', deposit s ip id body e = Ok (r, wake, s') /\
    Inv p (activity_now e) s' /\ deposit_effect s s' id body e r wake /\
    (Response.status r = 202 -> mailbox_id_shape_ok id = true /\
       deposit_admissible body = Ok true).
Proof.
  intros HI Hlen Hnow. unfold deposit.
  assert (HIa : Inv p (activity_now e) s) by (eapply Inv_mono; [|done]; lia).
  assert (Hrej : forall st s', st ∈ [404; 429; 400; 507] -> Inv p (activity_now e) s' ->
    AppState.boxes s' = AppState.boxes s -> AppState.global_bytes s' = AppState.global_bytes s ->
    forall v, exists r wake s'', @Ok Empty_set _ (Response.mk st v None [], @None nat, s') = Ok (r, wake, s'') /\
    Inv p (activity_now e) s'' /\ deposit_effect s s'' id body e r wake /\
    (Response.status r = 202 -> mailbox_id_shape_ok id = true /\
       deposit_admissible body = Ok true)).
  { intros st s' Hst HI' Hb Hg v. eexists _, _, _. split; [done|]. split_and!; [done| |].
    - right. by split_and!.
    - simpl. intros ->. set_solver. }
  destruct (mailbox_id_shape_ok id) eqn:Es; rsimpl; [|apply Hrej; [set_solver|done..]].
  destruct (source_step p now s SrcDeposit ip (src_clk e) HI) as (b & l & E & HIl).
  simpl in E. rewrite E. rsimpl.
  assert (HIla : Inv p (activity_now e) (AppState.with_src s l)) by (eapply Inv_mono; [|done]; lia).
  destruct b; rsimpl.
  2: { destruct (too_many_requests_Ok (unix_secs e)) as [v ->]. rsimpl.
       apply Hrej; [set_solver|done..]. }
  assert (exists adm, deposit_admissible body = Ok adm) as [adm Hadm]
    by (rewrite deposit_admissible_eq; by eexists).
  rewrite Hadm in Hrej |- *. rsimpl. destruct adm; rsimpl; [|apply Hrej; [set_solver|done..]].
  destruct (deposit_locked_spec p now (AppState.with_src s l) id body e HIl Hlen Hnow)
    as (r & w & s' & -> & HI' & _ & Heff & _).
  eexists _, _, _. split; [done|]. by split_and!.
Qed.

(** ** Acknowledgements *)

Definition box_queue (s : AppState.t) (id : bytes) : option (list QueuedMsg.t) :=
  Mailbox.queue <$> AppState.boxes s !! id.

Definition box_notify (s : AppState.t) (id : bytes) : option (option nat) :=
  Mailbox.notify <$> AppState.boxes s !! id.

(** The queue without its first message of id [acked]. *)
Fixpoint remove_first (acked : bytes) (q : list QueuedMsg.t) : list QueuedMsg.t :=
  match q with
  | [] => []
  | m :: r => if beq (QueuedMsg.id m) acked then r else m :: remove_first acked r
  end.

Lemma position_None_remove acked q :
  position (fun m => beq (QueuedMsg.id m) acked) q = None -> remove_first acked q = q.
Proof.
  induction q as [|m q IH]; simpl; [done|]. destruct (beq _ _); [done|].
  destruct (position _ q); simpl; [done|]. intros _. by rewrite IH.
Qed.

Lemma position_Some_remove acked q pos :
  position (fun m => beq (QueuedMsg.id m) acked) q = Some pos ->
  exists m, remove_at pos q = Some (m, remove_first acked q) /\ QueuedMsg.id m = acked /\
    qbytes q = zlen (QueuedMsg.data m) + qbytes (remove_first acked q).
Proof.
  revert pos. induction q as [|m q IH]; intros pos; simpl; [done|].
  destruct (beq (QueuedMsg.id m) acked) eqn:E.
  { intros [= <-]. reflect_bools. exists m. split_and!; try done. }
  destruct (position _ q) as [pos'|] eqn:Ep; simpl; [|done]. intros [= <-].
  destruct (IH pos' eq_refl) as (m' & Hr & Hid & Hs). unfold remove_at in *. simpl.
  destruct (q !! pos') as [x|]; simpl in *; [|done]. injection Hr as -> Hr.
  exists m'. rewrite Hr. split_and!; try done. simpl. lia.
Qed.

Lemma remove_first_sublist acked q : sublist (remove_first acked q) q.
Proof.
  induction q as [|m q IH]; simpl; [constructor|].
  destruct (beq _ _); [by apply sublist_cons|by apply sublist_skip].
Qed.

Lemma sublist_Forall {A} (P : A -> Prop) l k : sublist l k -> Forall P k -> Forall P l.
Proof. induction 1; rewrite ?Forall_cons; naive_solver. Qed.

Lemma sublist_StronglySorted {A} (R : A -> A -> Prop) l k :
  sublist l k -> StronglySorted R k -> StronglySorted R l.
Proof.
  induction 1 as [|x l k Hs IH|x l k Hs IH]; intros H; [done| |].
  - apply StronglySorted_inv in H as [H Hf]. constructor; [auto|]. by eapply sublist_Forall.
  - apply StronglySorted_inv in H as [H _]. auto.
Qed.

Lemma mailbox_ok_ack cfg now t mb acked m :
  mailbox_ok cfg now mb -> now <= t ->
  qbytes (Mailbox.queue mb)
    = zlen (QueuedMsg.data m) + qbytes (remove_first acked (Mailbox.queue mb)) ->
  mailbox_ok cfg t (Mailbox.mk (remove_first acked (Mailbox.queue mb))
    (Mailbox.queued_bytes mb - zlen (QueuedMsg.data m)) (Some t) (Mailbox.notify mb)).
Proof.
  intros (Hq & Hb & Hn & a & Ha & Hle & Hs & Hf) Ht Hsum.
  pose proof (remove_first_sublist acked (Mailbox.queue mb)) as Hsub.
  pose proof (sublist_length _ _ Hsub). pose proof (zlen_nonneg (QueuedMsg.data m)).
  unfold mailbox_ok. simpl. unfold zlen in *. split_and!; try lia.
  exists t. split_and!; [done|lia|by eapply sublist_StronglySorted|].
  eapply sublist_Forall; [done|]. eapply Forall_impl; [exact Hf|]. simpl. lia.
Qed.

Lemma handle_ack_ok p now s id data t :
  Inv p now s -> now <= t ->
  exists b s', handle_ack s id data t = Ok (b, s') /\ Inv p t s' /\
    (forall id', box_notify s' id' = box_notify s id') /\
    match parse_ack_frame data with
    | Ok (Some acked) => b = true /\
        forall id', box_queue s' id' =
          if bool_decide (id' = id) then remove_first acked <$> box_queue s id'
          else box_queue s id'
    | _ => b = false /\ s' = s
    end.
Proof.
  intros HI Ht. assert (HIt : Inv p t s) by (by eapply Inv_mono).
  unfold handle_ack. destruct (parse_ack_frame_total data) as [[acked|] ->]; rsimpl.
  2: { by exists false, s. }
  exists true. unfold box_queue, box_notify.
  destruct (AppState.boxes s !! id) as [mb|] eqn:Hid.
  2: { exists s. split_and!; try done. intros id'. bool_case; [|done].
       reflect_bools. subst. by rewrite Hid. }
  destruct (position _ _) as [pos|] eqn:Ep.
  2: { exists s. split_and!; try done. intros id'. bool_case; [|done].
       reflect_bools. subst. rewrite Hid. simpl. by rewrite position_None_remove. }
  destruct (position_Some_remove _ _ _ Ep) as (m & -> & Hm & Hsum). rsimpl.
  pose proof (inv_boxes _ _ _ HI id mb Hid) as Hmb. simpl in Hmb.
  pose proof (qbytes_nonneg (remove_first acked (Mailbox.queue mb))).
  pose proof (proj1 Hmb) as Hq.
  unfold checked_sub. rewrite (proj2 (Z.leb_le _ _)) by lia. rsimpl.
  eexists. split; [done|]. split_and!; try done.
  - pose proof (mailbox_ok_ack (AppState.cfg s) now t mb acked m Hmb Ht Hsum) as Hok.
    pose proof (Inv_fetch_sub p t s (zlen (QueuedMsg.data m)) HIt) as HI2.
    eapply (Inv_update _ _ _ id mb) in HI2; [|exact Hid|exact Hok]. simpl in HI2.
    match type of HI2 with Inv ?q _ _ => replace q with p in HI2 by lia end. exact HI2.
  - intros id'. simpl. destruct (decide (id' = id)) as [->|Hne].
    + by rewrite lookup_insert_eq, Hid.
    + by rewrite lookup_insert_ne.
  - intros id'. simpl. destruct (decide (id' = id)) as [->|Hne].
    + by rewrite bool_decide_eq_true_2, lookup_insert_eq, Hid.
    + by rewrite bool_decide_eq_false_2, lookup_insert_ne.
Qed.

(** ** The other handlers keep the invariant *)

Lemma create_handler_ok p now s ip e draws :
  Inv p now s -> now <= activity_now e ->
  exists o s', create_mailbox s ip e draws (activity_now e) = Ok (o, s') /\
    Inv p (activity_now e) s'.
Proof.
  intros HI Ht. unfold create_mailbox.
  destruct (source_step p (activity_now e) s SrcCreate ip (src_clk e)) as (b & l & E & HIl);
    [by eapply Inv_mono|]. simpl in E. rewrite E. rsimpl. destruct b; rsimpl.
  2: { destruct (too_many_requests_Ok (unix_secs e)) as [v ->]. rsimpl. eauto. }
  destruct (AppState.create_mailbox _ _ _) as [[[id|] s']|] eqn:Ec; [| |by eauto].
  - eexists _, _. split; [done|]. by eapply create_mailbox_Inv.
  - eexists _, _. split; [done|]. by eapply create_mailbox_Inv.
Qed.

Lemma put_handler_ok p now s ip id e :
  Inv p now s -> now <= activity_now e ->
  exists r s', put_mailbox s ip id e = Ok (r, s') /\ Inv p (activity_now e) s'.
Proof.
  intros HI Ht. assert (HIa : Inv p (activity_now e) s) by (by eapply Inv_mono).
  unfold put_mailbox. destruct (mailbox_id_shape_ok id); rsimpl; [|by eauto].
  destruct (source_step p (activity_now e) s SrcPut ip (src_clk e)) as (b & l & E & HIl); [done|].
  simpl in E. rewrite E. rsimpl. destruct b; rsimpl.
  2: { destruct (too_many_requests_Ok (unix_secs e)) as [v ->]. rsimpl. eauto. }
  pose proof (put_mailbox_Inv p (activity_now e) _ id HIl) as HIp.
  destruct (AppState.put_mailbox _ _ _) as [ok s']. by eauto.
Qed.

Lemma forget_Inv p now s id : Inv p now s -> Inv p now (forget_box s id).
Proof.
  intros HI. pose proof (inv_box _ _ _ HI) as (Hok & ? & ?).
  apply Inv_with_box_limiter; try done. intros k w Hw.
  simpl in Hw. apply lookup_delete_Some in Hw as [_ Hw]. by apply (Hok k).
Qed.

Lemma delete_handler_ok p now s id :
  Inv p now s -> Inv p now (delete_mailbox s id).2.
Proof.
  intros HI. unfold delete_mailbox. destruct (mailbox_id_shape_ok id); simpl; [|done].
  destruct (AppState.boxes s !! id) as [mb|] eqn:Hid.
  - apply forget_Inv. replace p with (p + Mailbox.queued_bytes mb - Mailbox.queued_bytes mb) by lia.
    apply Inv_fetch_sub. by apply Inv_delete.
  - rewrite delete_id by done. by destruct s.
Qed.

Lemma subscribe_ok p now s id e :
  Inv p now s ->
  exists o s', subscribe s id e = Ok (o, s') /\ Inv p now s' /\
    AppState.boxes s' = AppState.boxes s /\ AppState.cfg s' = AppState.cfg s.
Proof.
  intros HI. unfold subscribe. destruct (mailbox_id_shape_ok id); rsimpl; [|by eauto 6].
  bool_case; [by eauto 6|].
  destruct (box_step p now s id 1%nat (BoxLimiter.ws_limit (AppState.box_limiter s)) (box_clk e))
    as (b & l & E' & HIl); [done|lia|apply HI|].
  unfold BoxLimiter.admit_ws. rewrite E'. rsimpl. destruct b; rsimpl; [by eauto 6|].
  destruct (too_many_requests_Ok (unix_secs e)) as [v ->]. rsimpl. by eauto 6.
Qed.

Lemma register_ok p now s id tx t :
  Inv p now s -> now <= t -> Inv p t (deliver_register s id tx t).2.
Proof.
  intros HI Ht. assert (HIt : Inv p t s) by (by eapply Inv_mono).
  unfold deliver_register. destruct (AppState.boxes s !! id) as [mb|] eqn:Hid; [|done]. simpl.
  pose proof (inv_boxes _ _ _ HI id mb Hid) as (Hq & Hb & Hn & a & Ha & Hle & Hs & Hf).
  replace p with (p + (Mailbox.queued_bytes mb - Mailbox.queued_bytes mb)) by lia.
  eapply (Inv_update p t s id mb (Mailbox.mk _ (Mailbox.queued_bytes mb) _ _)); [done|done|].
  unfold mailbox_ok. simpl. split_and!; try done. exists t. split_and!; try done; try lia.
  eapply Forall_impl; [exact Hf|]. simpl. lia.
Qed.

(** ** Properties *)

(** A valid mailbox id and a message for the witnesses. *)
Definition demo_id : bytes := encode_mailbox_id (replicate 32 9).

Definition demo_clk : Clock := mkClock 7 7 100 100.

Definition demo_env : Env := mkEnv demo_clk demo_clk 425 (replicate 16 3) 110 120.

Definition demo_blob : bytes := bstr "TZCA" ++ [1; 1; 0; 0; 0].

Definition demo_relay : AppState.t :=
  (AppState.put_mailbox (AppState.new from_be Config.default) demo_id 100).2.

Lemma demo_relay_Inv : Inv 0 100 demo_relay.
Proof. apply put_mailbox_Inv, Inv_new, cfg_ok_default. Qed.

(** No request can break the relay.  From any state that satisfies the
    invariant (exact byte accounting, quotas, the mailbox cap, window counters
    in range) every request routed to a handler returns without a panic, so
    the table lock is never poisoned, and the state it leaves satisfies the
    invariant again. *)
Theorem router_preserves (too_large : Response.t) (p now : Z) (s : AppState.t)
    (r : Request) (e : Env) :
  Inv p now s -> now <= deposited_now e <= activity_now e ->
  exists o wake s', router too_large s r e = Ok (o, wake, s') /\ Inv p (activity_now e) s'.
Proof.
  intros HI Hnow. assert (HIa : Inv p (activity_now e) s) by (eapply Inv_mono; [|done]; lia).
  destruct r as [|ip draws|ip id body|ip id|id|id]; simpl.
  - eauto.
  - destruct (create_handler_ok p now s ip e draws) as (o & s' & -> & ?); [done|lia|]. rsimpl. eauto.
  - destruct (Z.ltb_spec (Config.max_blob_bytes (AppState.cfg s)) (zlen body)); [by eauto|].
    destruct (deposit_ok p now s ip id body e) as (o & w & s' & -> & ? & _); [done|lia|done|].
    rsimpl. eauto.
  - destruct (put_handler_ok p now s ip id e) as (o & s' & -> & ?); [done|lia|]. rsimpl. eauto.
  - eexists _, _, _. split; [done|]. by apply (delete_handler_ok p (activity_now e) s id).
  - destruct (subscribe_ok p (activity_now e) s id e) as (o & s' & -> & ? & _); [done|]. rsimpl. eauto.
Qed.

Lemma router_preserves_witness :
  exists wake s', router (Response.plain 413) demo_relay
      (PostMessage (V4 [10; 0; 0; 1]) demo_id demo_blob) demo_env
    = Ok (Some (Response.plain 202), wake, s') /\ Inv 0 120 s'.
Proof.
  destruct (router_preserves (Response.plain 413) 0 100 demo_relay
    (PostMessage (V4 [10; 0; 0; 1]) demo_id demo_blob) demo_env demo_relay_Inv)
    as (o & wake & s' & E & HI); [vm_compute; intuition congruence|].
  exists wake, s'. split; [|exact HI].
  assert (Ho : (fun x => x.1.1) <$> router (Response.plain 413) demo_relay
      (PostMessage (V4 [10; 0; 0; 1]) demo_id demo_blob) demo_env
    = Ok (Some (Response.plain 202))) by (vm_compute; reflexivity).
  rewrite E in Ho |- *. injection Ho as ->. reflexivity.
Defined.

(** C3: what a deposit does.  A body within the blob limit is answered 202
    only when the id and the envelope header are well formed and the mailbox
    exists with room under both quotas, and then exactly that message is
    appended to exactly that mailbox, whose subscriber (if any) is woken;
    every other outcome is an empty 400, 404, 429 or 507 that leaves all
    mailboxes and the byte counter unchanged. *)
Theorem deposit_functional (p now : Z) (s : AppState.t) (ip : IpAddr) (id body : bytes) (e : Env) :
  Inv p now s -> zlen body <= Config.max_blob_bytes (AppState.cfg s) ->
  now <= deposited_now e <= activity_now e ->
  exists r wake s', deposit s ip id body e = Ok (r, wake, s') /\
    deposit_effect s s' id body e r wake /\
    (Response.status r = 202 -> mailbox_id_shape_ok id = true /\
       deposit_admissible body = Ok true).
Proof.
  intros HI Hlen Hnow.
  destruct (deposit_ok p now s ip id body e HI Hlen Hnow) as (r & w & s' & E & _ & H1 & H2).
  exists r, w, s'. by split_and!.
Qed.

Lemma deposit_functional_witness :
  exists r wake s', deposit demo_relay (V4 [10; 0; 0; 1]) demo_id demo_blob demo_env
    = Ok (r, wake, s') /\ Response.status r = 202 /\
    deposit_effect demo_relay s' demo_id demo_blob demo_env r wake.
Proof.
  destruct (deposit_functional 0 100 demo_relay (V4 [10; 0; 0; 1]) demo_id demo_blob demo_env
    demo_relay_Inv) as (r & wake & s' & E & Heff & _);
    [vm_compute; congruence|vm_compute; intuition congruence|].
  exists r, wake, s'. split; [exact E|]. split; [|exact Heff].
  assert (Hr : (fun x => x.1.1) <$> deposit demo_relay (V4 [10; 0; 0; 1]) demo_id demo_blob demo_env
    = Ok (Response.plain 202)) by (vm_compute; reflexivity).
  rewrite E in Hr. injection Hr as ->. reflexivity.
Defined.

(** C18: acknowledgements.  A frame [0x02 || id] removes the first queued
    message with that id from the subscriber's own mailbox and nothing else
    (an id that is not queued removes nothing); any other frame changes
    nothing and is reported as no ack.  Byte accounting stays exact. *)
Theorem ack_removes_exactly (p now t : Z) (s : AppState.t) (id data : bytes) :
  Inv p now s -> now <= t ->
  exists b s', handle_ack s id data t = Ok (b, s') /\ Inv p t s' /\
    match parse_ack_frame data with
    | Ok (Some acked) => b = true /\
        forall id', box_queue s' id' =
          if bool_decide (id' = id) then remove_first acked <$> box_queue s id'
          else box_queue s id'
    | _ => b = false /\ s' = s
    end.
Proof.
  intros HI Ht. destruct (handle_ack_ok p now s id data t HI Ht) as (b & s' & ? & ? & _ & ?).
  eauto.
Qed.

Lemma ack_removes_exactly_witness :
  exists s', handle_ack demo_state (bstr "box") ([2] ++ replicate 16 1) 130 = Ok (true, s') /\
    box_queue s' (bstr "box") = Some [QueuedMsg.mk (replicate 16 2) (bstr "TZCA....y") 90].
Proof.
  destruct (ack_removes_exactly 0 100 130 demo_state (bstr "box") ([2] ++ replicate 16 1) demo_Inv)
    as (b & s' & E & _ & Hb & Hq); [lia|].
  exists s'. rewrite Hq. split; [rewrite E, Hb; reflexivity|vm_compute; reflexivity].
Defined.

(** C20: no existence oracle.  PUT answers the same bytes on any two states
    that agree on the configuration, the source limiter and the number of
    mailboxes, whether the id exists or not; DELETE answers the same bytes on
    any two states and ids.  A deposit to a missing mailbox answers the same
    bytes for every well-formed id: 429 when the source is over its limit, else
    400 when the header is not admissible, else 404.  A malformed id is answered
    404 before either check, so it is told from a missing one exactly where the
    other answer is 429 or 400.  A subscription to a missing or malformed id is
    the same 404 in every case. *)
Theorem no_existence_oracle (s1 s2 : AppState.t) (ip : IpAddr) (id id' body : bytes) (e : Env) :
  AppState.cfg s1 = AppState.cfg s2 -> AppState.src_limiter s1 = AppState.src_limiter s2 ->
  size (AppState.boxes s1) = size (AppState.boxes s2) ->
  fst <$> put_mailbox s1 ip id e = fst <$> put_mailbox s2 ip id e /\
  (delete_mailbox s1 id).1 = (delete_mailbox s2 id').1 /\
  (AppState.boxes s1 !! id = None -> AppState.boxes s2 !! id' = None ->
   mailbox_id_shape_ok id = true -> mailbox_id_shape_ok id' = true ->
   (fun x => x.1.1) <$> deposit s1 ip id body e = (fun x => x.1.1) <$> deposit s2 ip id' body e /\
   forall admitted l admissible,
     SourceLimiter.admit_deposit (AppState.src_limiter s1) ip (src_clk e) = Ok (admitted, l) ->
     deposit_admissible body = Ok admissible ->
     exists r, deposit s1 ip id body e = Ok (r, None, AppState.with_src s1 l) /\
       if admitted then r = if (admissible : bool) then not_found else Response.plain 400
       else Response.status r = 429) /\
  (mailbox_id_shape_ok id = false -> deposit s1 ip id body e = Ok (not_found, None, s1)) /\
  (mailbox_id_shape_ok id = false \/ AppState.boxes s1 !! id = None ->
   subscribe s1 id e = Ok (Some not_found, s1)).
Proof.
  intros Hc Hs Hn. split_and!.
  - unfold put_mailbox. destruct (mailbox_id_shape_ok id); [|done]. rsimpl. rewrite <- Hs.
    destruct (SourceLimiter.admit_put _ _ _) as [[b l]| |]; [|done|done]. rsimpl.
    destruct b; rsimpl.
    + unfold AppState.put_mailbox. simpl. rewrite <- Hc, <- Hn. by destruct (_ <=? _).
    + by destruct (too_many_requests _).
  - done.
  - intros H1 H2 Hsh Hsh'. unfold deposit. rewrite Hsh, Hsh', <- Hs. rsimpl.
    destruct (SourceLimiter.admit_deposit _ _ _) as [[b l]| |]; [|done|done]. rsimpl.
    destruct (too_many_requests_Ok (unix_secs e)) as [v ->].
    split.
    + destruct b; rsimpl; [|done]. destruct (deposit_admissible body) as [[]| |]; rsimpl; try done.
      unfold deposit_locked. simpl. by rewrite H1, H2.
    + intros b' l' a [= <- <-] Ha. rewrite Ha. destruct b; rsimpl; [|by eexists].
      exists (if a then not_found else Response.plain 400). split; [|done]. destruct a; rsimpl; [|done].
      unfold deposit_locked. simpl. by rewrite H1.
  - intros Hsh. unfold deposit. by rewrite Hsh.
  - unfold subscribe. intros [->|Hm]; [done|]. rewrite Hm. by destruct (mailbox_id_shape_ok id).
Qed.

(** A second relay without the mailbox; the blob's header is not admissible, so
    a missing id is answered 400 and a malformed one 404. *)
Lemma no_existence_oracle_witness :
  let other := (AppState.put_mailbox (AppState.new from_be Config.default) (bstr "x") 100).2 in
  fst <$> put_mailbox demo_relay (V4 [10; 0; 0; 1]) demo_id demo_env
  = fst <$> put_mailbox other (V4 [10; 0; 0; 1]) demo_id demo_env /\
  (fun x => Response.status x.1.1) <$> deposit other (V4 [10; 0; 0; 1]) demo_id [1] demo_env = Ok 400 /\
  (fun x => Response.status x.1.1) <$> deposit other (V4 [10; 0; 0; 1]) (bstr "short") [1] demo_env = Ok 404.
Proof.
  intros other. split.
  - apply (no_existence_oracle demo_relay other (V4 [10; 0; 0; 1]) demo_id demo_id [] demo_env);
      vm_compute; reflexivity.
  - destruct (no_existence_oracle other other (V4 [10; 0; 0; 1]) (bstr "short") demo_id [1] demo_env)
      as (_ & _ & _ & Hm & _); [reflexivity..|].
    split; [vm_compute; reflexivity|]. rewrite Hm; vm_compute; reflexivity.
Defined.
