(* ===== verification/RelayConc.v ===== *)
(** The relay as a concurrent system: requests, sweeps and delivery loops
    whose lock regions interleave in any order.  A task is the point its
    handler has reached between two regions; a connection is a running
    [deliver] loop ([tezca-relay/src/api.rs]).  Every region is atomic: the
    mailbox-table lock covers all it does to mailboxes, and the limiter locks
    and the byte counter are only touched by single operations. *)

From S2P Require Import Prelude Base64 RelayWire RelayConfig RelayLimits RelayState RelayApi.

(** ** Tasks *)

Inductive task :=
  | TCreate (ip : IpAddr) (draws : list bytes)
  | TCreateLocked (draws : list bytes)
  | TDeposit (ip : IpAddr) (id body : bytes)
  | TDepositLocked (id body : bytes)
  | TPut (ip : IpAddr) (id : bytes)
  | TPutLocked (id : bytes)
  | TDelete (id : bytes)
  | TDeleteSub (n : Z) (id : bytes)
  | TForget (id : bytes)
  | TSubscribe (id : bytes)
  | TSubscribeLimit (id : bytes)
  | TUpgrade (id : bytes)
  | TSweep
  | TSweepRetain (now : Z)
  | TPruneSrc (now : Z)
  | TPruneBox (now : Z).

(** The points at which a request or the sweeper starts. *)
Definition initial (t : task) : bool :=
  match t with
  | TCreate _ _ | TDeposit _ _ _ | TPut _ _ | TDelete _ | TSubscribe _ | TSweep => true
  | _ => false
  end.

(** What one region leaves: the points still to run, a response, the channel
    it wakes, the state. *)
Record outcome := mkOut {
  next : list task;
  resp : option Response.t;
  wake : option nat;
  state : AppState.t
}.

(** A limiter's verdict: go on at [k], or answer 429. *)
Definition gate (admitted : bool) (s : AppState.t) (e : Env) (k : task) : run outcome :=
  if admitted then Ok (mkOut [k] None None s)
  else r ← too_many_requests (unix_secs e); Ok (mkOut [] (Some r) None s).

#[global] Arguments gate : simpl never.

Definition exec (too_large : Response.t) (t : task) (s : AppState.t) (e : Env) : run outcome :=
  match t with
  | TCreate ip draws =>
    '(b, l) ← SourceLimiter.admit_create (AppState.src_limiter s) ip (src_clk e);
    gate b (AppState.with_src s l) e (TCreateLocked draws)
  | TCreateLocked draws =>
    match AppState.create_mailbox s draws (activity_now e) with
    | None => Ok (mkOut [] None None s)
    | Some (Some id, s) =>
      Ok (mkOut [] (Some (Response.mk 201 None (Some (bstr "application/json")) (created_json id)))
                None s)
    | Some (None, s) => Ok (mkOut [] (Some (Response.plain 503)) None s)
    end
  | TDeposit ip id body =>
    if Config.max_blob_bytes (AppState.cfg s) <? zlen body then Ok (mkOut [] (Some too_large) None s)
    else if negb (mailbox_id_shape_ok id) then Ok (mkOut [] (Some not_found) None s)
    else
      '(b, l) ← SourceLimiter.admit_deposit (AppState.src_limiter s) ip (src_clk e);
      let s := AppState.with_src s l in
      if negb b then gate false s e (TDepositLocked id body)
      else
        ok ← deposit_admissible body;
        if negb ok then Ok (mkOut [] (Some (Response.plain 400)) None s)
        else Ok (mkOut [TDepositLocked id body] None None s)
  | TDepositLocked id body =>
    x ← deposit_locked s id body e;
    let '(r, w, s) := (x : Response.t * option nat * AppState.t) in
    Ok (mkOut [] (Some r) w s)
  | TPut ip id =>
    if negb (mailbox_id_shape_ok id) then Ok (mkOut [] (Some (Response.plain 400)) None s)
    else
      '(b, l) ← SourceLimiter.admit_put (AppState.src_limiter s) ip (src_clk e);
      gate b (AppState.with_src s l) e (TPutLocked id)
  | TPutLocked id =>
    let '(ok, s) := AppState.put_mailbox s id (activity_now e) in
    Ok (mkOut [] (Some (Response.plain (if ok then 201 else 503))) None s)
  | TDelete id =>
    if mailbox_id_shape_ok id then
      let '(removed, s) := delete_locked s id in
      match removed with
      | Some mb => Ok (mkOut [TDeleteSub (Mailbox.queued_bytes mb) id] None None s)
      | None => Ok (mkOut [] (Some (Response.plain 204)) None s)
      end
    else Ok (mkOut [] (Some (Response.plain 204)) None s)
  | TDeleteSub n id => Ok (mkOut [TForget id] None None (AppState.fetch_sub s n))
  | TForget id => Ok (mkOut [] (Some (Response.plain 204)) None (forget_box s id))
  | TSubscribe id =>
    if negb (mailbox_id_shape_ok id) then Ok (mkOut [] (Some not_found) None s)
    else if bool_decide (AppState.boxes s !! id = None) then Ok (mkOut [] (Some not_found) None s)
    else Ok (mkOut [TSubscribeLimit id] None None s)
  | TSubscribeLimit id =>
    '(b, l) ← BoxLimiter.admit_ws (AppState.box_limiter s) id (box_clk e);
    gate b (AppState.with_box_limiter s l) e (TUpgrade id)
  | TUpgrade id => Ok (mkOut [] None None s)
  | TSweep => Ok (mkOut [TSweepRetain (activity_now e)] None None s)
  | TSweepRetain now =>
    s' ← AppState.retain now (map_to_list (AppState.boxes s)) s;
    Ok (mkOut [TPruneSrc now] None None s')
  | TPruneSrc now =>
    Ok (mkOut [TPruneBox now] None None
              (AppState.with_src s (SourceLimiter.prune (AppState.src_limiter s) now)))
  | TPruneBox now =>
    Ok (mkOut [] None None
              (AppState.with_box_limiter s (BoxLimiter.prune (AppState.box_limiter s) now)))
  end.

(** ** Delivery loops *)

(** What [socket.recv()] can produce. *)
Inductive Incoming :=
  | InBinary (data : bytes)
  | InClose
  | InOther            (* ping, pong, text *)
  | InErr
  | InNone.

(** Where a [deliver] loop stands. *)
Inductive phase :=
  | PRegister
  | PCollect (sent : gset bytes)
  | PSend (frames : list bytes) (sent : gset bytes)
  | PSelect (sent : gset bytes)
  | PDrain (sent : gset bytes).

Inductive conn_event :=
  | EvRun              (* the loop's own next action *)
  | EvSent             (* the socket took the frame *)
  | EvSendErr
  | EvWake             (* [rx.recv()] *)
  | EvIn (m : Incoming).

Module Conn.
Record t := mk {
  box : bytes;
  unread : nat;             (* wakes waiting in the channel *)
  ph : phase;
  out : list bytes          (* the frames the socket took *)
}.
Definition at_ (c : t) (p : phase) : t := mk (box c) (unread c) p (out c).
End Conn.

(** One action of a loop with channel [tx]: [None] when the event cannot
    happen there, [Some (Ok (None, _))] when the loop ends.  The loop keeps its
    own sender alive, so [rx.recv()] waits on an empty channel. *)
Definition conn_exec (s : AppState.t) (tx : nat) (c : Conn.t) (ev : conn_event) (now : Z)
    : option (run (option Conn.t * AppState.t)) :=
  let go p s := Some (Ok (Some (Conn.at_ c p), s)) in
  let stop := Some (Ok (None, s)) in
  match Conn.ph c, ev with
  | PRegister, EvRun =>
    let '(ok, s') := deliver_register s (Conn.box c) tx now in
    if (ok : bool) then go (PCollect ∅) s' else stop
  | PCollect sent, EvRun =>
    match deliver_collect s (Conn.box c) tx sent with
    | Some frames => go (PSend frames sent) s
    | None => stop
    end
  | PSend [] sent, EvRun => go (PSelect sent) s
  | PSend (f :: fs) sent, EvSent =>
    Some (mid ← frame_msg_id f;
          Ok (Some (Conn.mk (Conn.box c) (Conn.unread c) (PSend fs ({[mid]} ∪ sent))
                            (Conn.out c ++ [f])), s))
  | PSend (f :: fs) sent, EvSendErr => Some (mid ← frame_msg_id f; Ok (None, s))
  | PSelect sent, EvWake =>
    match Conn.unread c with
    | O => None
    | S n => Some (Ok (Some (Conn.mk (Conn.box c) n (PCollect sent) (Conn.out c)), s))
    end
  | PSelect sent, EvIn (InBinary d) =>
    Some ('(_, s') ← handle_ack s (Conn.box c) d now; Ok (Some (Conn.at_ c (PDrain sent)), s'))
  | PSelect sent, EvIn InOther => go (PCollect sent) s
  | PSelect sent, EvIn (InClose | InErr | InNone) => stop
  | PDrain sent, EvIn (InBinary d) =>
    Some ('(_, s') ← handle_ack s (Conn.box c) d now; Ok (Some (Conn.at_ c (PDrain sent)), s'))
  | PDrain sent, EvIn InClose => stop
  | PDrain sent, EvIn InOther => go (PDrain sent) s
  | PDrain sent, EvIn (InErr | InNone) => go (PCollect sent) s
  | PDrain sent, EvRun => go (PCollect sent) s
  | _, _ => None
  end.

(** ** The whole process *)

Module Server.
Record t := mk {
  app : AppState.t;
  poisoned : bool;
  clock : Z;
  conns : gmap nat Conn.t;      (* by channel; a loop that ended is gone *)
  next_chan : nat;
  tasks : list task
}.

Definition init (hasher : bytes -> Z) (cfg : Config.t) : t :=
  mk (AppState.new hasher cfg) false 0 ∅ 0%nat [].
End Server.

(** [notify.send(())]: one more wake for a live receiver, nothing otherwise. *)
Definition send_wake (w : option nat) (m : gmap nat Conn.t) : gmap nat Conn.t :=
  match w with
  | Some tx => alter (fun c => Conn.mk (Conn.box c) (S (Conn.unread c)) (Conn.ph c) (Conn.out c)) tx m
  | None => m
  end.

(** A socket opens its loop with a fresh channel. *)
Definition open_conns (t : task) (n : nat) (m : gmap nat Conn.t) : nat * gmap nat Conn.t :=
  match t with
  | TUpgrade id => (S n, <[n := Conn.mk id 0%nat PRegister []]> m)
  | _ => (n, m)
  end.

(** The readings of a region come after the clock, in program order. *)
Definition env_ok (clock : Z) (e : Env) : Prop :=
  clock <= deposited_now e <= activity_now e /\ length (msg_id e) = 16%nat.

Section steps.
Variable too_large : Response.t.

Inductive step : Server.t -> Server.t -> Prop :=
  | step_spawn a po ck cs n ts t :
      initial t = true ->
      step (Server.mk a po ck cs n ts) (Server.mk a po ck cs n (t :: ts))
  | step_task a ck cs n ts1 t ts2 e o n' cs' :
      env_ok ck e -> exec too_large t a e = Ok o ->
      open_conns t n (send_wake (wake o) cs) = (n', cs') ->
      step (Server.mk a false ck cs n (ts1 ++ t :: ts2))
           (Server.mk (state o) false (activity_now e) cs' n' (ts1 ++ next o ++ ts2))
  | step_task_panic a ck cs n ts1 t ts2 e :
      env_ok ck e -> exec too_large t a e = Panic ->
      step (Server.mk a false ck cs n (ts1 ++ t :: ts2))
           (Server.mk a true ck cs n (ts1 ++ ts2))
  | step_conn a ck cs n ts tx c ev now o a' :
      cs !! tx = Some c -> ck <= now -> conn_exec a tx c ev now = Some (Ok (o, a')) ->
      step (Server.mk a false ck cs n ts)
           (Server.mk a' false now (match o with Some c' => <[tx := c']> cs | None => delete tx cs end)
                      n ts)
  | step_conn_panic a ck cs n ts tx c ev now :
      cs !! tx = Some c -> ck <= now -> conn_exec a tx c ev now = Some Panic ->
      step (Server.mk a false ck cs n ts) (Server.mk a true ck (delete tx cs) n ts).

Inductive reachable (hasher : bytes -> Z) (cfg : Config.t) : Server.t -> Prop :=
  | reachable_init : reachable hasher cfg (Server.init hasher cfg)
  | reachable_step s s' : reachable hasher cfg s -> step s s' -> reachable hasher cfg s'.
End steps.

(** ** What every region guarantees *)

(** Bytes a task still has to subtract from the counter. *)
Definition owed (t : task) : Z := match t with TDeleteSub n _ => n | _ => 0 end.

Fixpoint owed_all (ts : list task) : Z :=
  match ts with [] => 0 | t :: r => owed t + owed_all r end.

(** A deposit past its admission check is within the blob limit. *)
Definition task_ok (cfg : Config.t) (t : task) : Prop :=
  match t with TDepositLocked _ body => zlen body <= Config.max_blob_bytes cfg | _ => True end.

Definition ids16 (s : AppState.t) : Prop :=
  map_Forall (fun _ mb => Forall (fun m => length (QueuedMsg.id m) = 16%nat) (Mailbox.queue mb))
             (AppState.boxes s).

(** Seen by a subscriber with channel [tx] (in [P]): a mailbox registered to
    it after the region was registered to it before and gained no message,
    unless the region woke the channel. *)
Definition quiet (P : nat -> Prop) (s s' : AppState.t) (w : option nat) : Prop :=
  forall id mb' tx, P tx -> AppState.boxes s' !! id = Some mb' -> Mailbox.notify mb' = Some tx ->
    exists id0 mb, AppState.boxes s !! id0 = Some mb /\ Mailbox.notify mb = Some tx /\
      (w = Some tx \/ (id0 = id /\ Mailbox.queue mb' ⊆ Mailbox.queue mb)).

Definition region_ok (p now : Z) (P : nat -> Prop) (s s' : AppState.t) (w : option nat) : Prop :=
  Inv p now s' /\ ids16 s' /\ AppState.cfg s' = AppState.cfg s /\ quiet P s s' w.

Lemma quiet_same P s s' w : AppState.boxes s' = AppState.boxes s -> quiet P s s' w.
Proof. intros E id mb tx _ H Hn. rewrite E in H. exists id, mb. split_and!; try done. by right. Qed.

Lemma region_same p now P s s' w :
  Inv p now s' -> ids16 s -> AppState.cfg s' = AppState.cfg s ->
  AppState.boxes s' = AppState.boxes s -> region_ok p now P s s' w.
Proof.
  intros HI H16 Hc Hb. split_and!; try done; [|by apply quiet_same]. unfold ids16. by rewrite Hb.
Qed.

(** Replacing one mailbox by one with no new message and the same channel. *)
Lemma region_update p now P s s' w id mb mb' :
  Inv p now s' -> ids16 s -> AppState.cfg s' = AppState.cfg s ->
  AppState.boxes s !! id = Some mb -> AppState.boxes s' = <[id := mb']> (AppState.boxes s) ->
  Forall (fun m => length (QueuedMsg.id m) = 16%nat) (Mailbox.queue mb') ->
  (forall tx, P tx -> Mailbox.notify mb' = Some tx ->
     Mailbox.notify mb = Some tx /\ (w = Some tx \/ Mailbox.queue mb' ⊆ Mailbox.queue mb)) ->
  region_ok p now P s s' w.
Proof.
  intros HI H16 Hc Hid Hb Hf Hq. split_and!; try done.
  - unfold ids16. rewrite Hb. by apply map_Forall_insert_2.
  - intros id' mb1 tx HP H Hn. rewrite Hb in H.
    apply lookup_insert_Some in H as [[<- <-]|[Hne H]].
    + destruct (Hq tx HP Hn) as [? [?|?]]; exists id, mb; naive_solver.
    + exists id', mb1. split_and!; try done. by right.
Qed.

Lemma region_insert_fresh p now P s id t w :
  let s' := AppState.with_boxes s (<[id := Mailbox.fresh t]> (AppState.boxes s)) in
  Inv p now s' -> ids16 s -> region_ok p now P s s' w.
Proof.
  intros s' HI H16. split_and!; try done.
  - apply map_Forall_insert_2; [constructor|done].
  - intros id' mb' tx _ H Hn. simpl in H.
    apply lookup_insert_Some in H as [[<- <-]|[Hne H]]; [done|].
    exists id', mb'. split_and!; try done. by right.
Qed.

Lemma region_delete p now P s s' w id :
  Inv p now s' -> ids16 s -> AppState.cfg s' = AppState.cfg s ->
  AppState.boxes s' = delete id (AppState.boxes s) -> region_ok p now P s s' w.
Proof.
  intros HI H16 Hc Hb. split_and!; try done.
  - unfold ids16. rewrite Hb. by apply map_Forall_delete.
  - intros id' mb' tx _ H Hn. rewrite Hb in H. apply lookup_delete_Some in H as [_ H].
    exists id', mb'. split_and!; try done. by right.
Qed.

(** ** Regions of requests and of the sweep *)

Section regions.
Variables (too_large : Response.t) (p now : Z) (s : AppState.t) (e : Env).
Hypotheses (H16 : ids16 s) (He : env_ok now e).

(** A region returns, and leaves [p] plus what its successors owe. *)
Definition exec_result (m : run outcome) : Prop :=
  exists o, m = Ok o /\
    region_ok (owed_all (next o) + p) (activity_now e) (fun _ => True) s (state o) (wake o) /\
    Forall (task_ok (AppState.cfg s)) (next o).

Lemma env_now : now <= activity_now e.
Proof. destruct He as [? _]. lia. Qed.

Lemma exec_done r w s' :
  region_ok p (activity_now e) (fun _ => True) s s' w ->
  exec_result (Ok (mkOut [] r w s')).
Proof. intros H. eexists. split; [done|]. by split; [|constructor]. Qed.

Lemma exec_next k s' :
  task_ok (AppState.cfg s) k ->
  region_ok (owed k + p) (activity_now e) (fun _ => True) s s' None ->
  exec_result (Ok (mkOut [k] None None s')).
Proof.
  intros Hk H. eexists. split; [done|]. simpl. rewrite Z.add_0_r.
  split; [done|by repeat constructor].
Qed.

Lemma exec_gate b s' k :
  task_ok (AppState.cfg s) k -> owed k = 0 ->
  region_ok p (activity_now e) (fun _ => True) s s' None ->
  exec_result (gate b s' e k).
Proof.
  intros Hk Ho H. unfold gate. destruct b.
  - apply exec_next; [done|by rewrite Ho].
  - destruct (too_many_requests_Ok (unix_secs e)) as [v ->]. rsimpl. by apply exec_done.
Qed.

Lemma exec_gate_src b l k :
  Inv p now (AppState.with_src s l) -> task_ok (AppState.cfg s) k -> owed k = 0 ->
  exec_result (gate b (AppState.with_src s l) e k).
Proof.
  intros HI Hk Ho. apply exec_gate; [done|done|].
  apply region_same; [eapply Inv_mono; [apply env_now|done]|done..].
Qed.

Lemma exec_deposit_ok ip id body :
  Inv p now s -> exec_result (exec too_large (TDeposit ip id body) s e).
Proof.
  intros HI. pose proof (Inv_mono p _ _ s env_now HI) as HIa. simpl.
  destruct (Z.ltb_spec (Config.max_blob_bytes (AppState.cfg s)) (zlen body)).
  { by apply exec_done, region_same. }
  destruct (mailbox_id_shape_ok id); rsimpl; [|by apply exec_done, region_same].
  destruct (source_step p now s SrcDeposit ip (src_clk e) HI) as (b & l & E & HIl).
  simpl in E. rewrite E. rsimpl. destruct b; rsimpl; [|by apply exec_gate_src].
  rewrite deposit_admissible_eq. rsimpl.
  pose proof (Inv_mono p _ _ _ env_now HIl).
  destruct (_ && _); rsimpl; [by apply exec_next; [|apply region_same]|].
  by apply exec_done, region_same.
Qed.

Lemma exec_deposit_locked_ok id body :
  Inv p now s -> zlen body <= Config.max_blob_bytes (AppState.cfg s) ->
  exec_result (exec too_large (TDepositLocked id body) s e).
Proof.
  intros HI Hlen. simpl. destruct He as [Hnow Hmid].
  destruct (deposit_locked_spec p now s id body e HI Hlen Hnow)
    as (r & w & s' & E & HI' & Hc & Heff & _). rewrite E. rsimpl. apply exec_done.
  destruct Heff as [(_ & mb & Hid & -> & Hb & _)|(_ & _ & -> & Hb & _)];
    [|by apply region_same].
  eapply region_update; [done|done|done|exact Hid|exact Hb| |].
  - simpl. apply Forall_app. split; [by apply (H16 id)|]. by repeat constructor.
  - simpl. intros tx _ Hn. split; [done|]. by left.
Qed.

Lemma exec_create_ok draws :
  Inv p now s -> exec_result (exec too_large (TCreateLocked draws) s e).
Proof.
  intros HI. pose proof (Inv_mono p _ _ s env_now HI) as HIa. simpl.
  destruct (AppState.create_mailbox s draws (activity_now e)) as [[o s']|] eqn:E;
    [|by apply exec_done, region_same].
  pose proof (create_mailbox_Inv _ _ _ _ _ _ HIa E) as HI'. revert E.
  unfold AppState.create_mailbox. destruct (_ <=? _).
  { intros [= <- <-]. by apply exec_done, region_same. }
  destruct (AppState.create_loop s draws (activity_now e)) as [[id s1]|] eqn:E; simpl; [|done].
  intros [= <- <-]. apply create_loop_spec in E as (Hn & -> & _).
  apply exec_done. by apply region_insert_fresh.
Qed.

Lemma exec_put_ok id : Inv p now s -> exec_result (exec too_large (TPutLocked id) s e).
Proof.
  intros HI. pose proof (Inv_mono p _ _ s env_now HI) as HIa. simpl.
  pose proof (put_mailbox_Inv p _ s id HIa) as HI'.
  unfold AppState.put_mailbox in *. destruct (_ <=? _); [by apply exec_done, region_same|].
  simpl in HI'. apply exec_done. destruct (AppState.boxes s !! id); [by apply region_same|].
  by apply region_insert_fresh.
Qed.

Lemma exec_retain_ok t : Inv p now s -> exec_result (exec too_large (TSweepRetain t) s e).
Proof.
  intros HI. pose proof (Inv_mono p _ _ s env_now HI) as HIa. simpl.
  destruct (retain_Inv p _ t (map_to_list (AppState.boxes s)) s HIa)
    as (s' & E & HI' & Hc & Ho & Hs).
  { apply NoDup_fst_map_to_list. }
  { intros id mb. by rewrite elem_of_map_to_list. }
  rewrite E. rsimpl. apply exec_next; [done|].
  assert (Hq : forall id mb', AppState.boxes s' !! id = Some mb' -> exists mb,
    AppState.boxes s !! id = Some mb /\ Mailbox.notify mb' = Mailbox.notify mb /\
    Mailbox.queue mb' ⊆ Mailbox.queue mb).
  { intros id mb' Hid. destruct (AppState.boxes s !! id) as [mb|] eqn:Hs0.
    - apply elem_of_map_to_list, Hs in Hs0. rewrite Hid in Hs0.
      destruct Hs0 as (Hq & _ & Hn). exists mb. split_and!; try done. rewrite Hq.
      intros m Hm. apply list_elem_of_In, filter_In in Hm as [Hm _]. by apply list_elem_of_In.
    - exfalso. rewrite Ho in Hid; [congruence|].
      intros [[id' mb] [-> Hin]]%list_elem_of_fmap. apply elem_of_map_to_list in Hin.
      simpl in Hs0. congruence. }
  split_and!; try done.
  - intros id mb' Hid. destruct (Hq id mb' Hid) as (mb & Hmb & _ & Hsub).
    apply Forall_forall. intros m Hm. apply Hsub in Hm. simpl in *.
    by apply (proj1 (Forall_forall _ _) (H16 id mb Hmb)).
  - intros id mb' tx _ Hid Hn. destruct (Hq id mb' Hid) as (mb & Hmb & Hnn & Hsub).
    exists id, mb. split_and!; try done; [congruence|]. by right.
Qed.
End regions.

(** Every region returns and keeps the invariant with its debts settled. *)
Lemma exec_ok too_large p now s e t :
  Inv (owed t + p) now s -> ids16 s -> env_ok now e -> task_ok (AppState.cfg s) t ->
  exec_result p s e (exec too_large t s e).
Proof.
  intros HI H16 He Ht. pose proof (env_now now e He) as Hle.
  destruct t; simpl in HI; try (rewrite Z.add_0_l in HI);
    try (pose proof (Inv_mono p _ _ s Hle HI) as HIa).
  - simpl. destruct (source_step p now s SrcCreate ip (src_clk e) HI) as (b & l & E & HIl).
    simpl in E. rewrite E. rsimpl. by eapply exec_gate_src.
  - by eapply exec_create_ok.
  - by eapply exec_deposit_ok.
  - by eapply exec_deposit_locked_ok.
  - simpl. destruct (mailbox_id_shape_ok id); rsimpl; [|by apply exec_done, region_same].
    destruct (source_step p now s SrcPut ip (src_clk e) HI) as (b & l & E & HIl).
    simpl in E. rewrite E. rsimpl. by eapply exec_gate_src.
  - by eapply exec_put_ok.
  - simpl. destruct (mailbox_id_shape_ok id); [|by apply exec_done, region_same].
    destruct (AppState.boxes s !! id) as [mb|] eqn:Hid.
    + apply exec_next; [done|]. simpl. eapply (region_delete _ _ _ _ _ _ id); try done.
      rewrite Z.add_comm. by apply Inv_delete.
    + apply exec_done. eapply (region_delete _ _ _ _ _ _ id); try done.
      rewrite delete_id by done. by destruct s.
  - simpl. apply exec_next; [done|]. apply region_same; try done. simpl.
    replace p with (n + p - n) by lia. apply Inv_fetch_sub. by eapply Inv_mono.
  - simpl. apply exec_done, region_same; try done. by apply forget_Inv.
  - simpl. destruct (mailbox_id_shape_ok id); rsimpl; [|by apply exec_done, region_same].
    destruct (bool_decide _); [by apply exec_done, region_same|].
    by apply exec_next; [|apply region_same].
  - simpl. destruct (box_step p _ s id 1%nat (BoxLimiter.ws_limit (AppState.box_limiter s))
      (box_clk e) HIa) as (b & l & E & HIl); [lia|apply HI|].
    unfold BoxLimiter.admit_ws. rewrite E. rsimpl. apply exec_gate; [done|done|].
    by apply region_same.
  - by apply exec_done, region_same.
  - by apply exec_next; [|apply region_same].
  - by eapply exec_retain_ok.
  - simpl. apply exec_next; [done|]. apply region_same; try done.
    apply Inv_with_src; [done|apply prune_source_ok, HIa|apply HIa].
  - simpl. apply exec_done, region_same; try done.
    apply Inv_with_box_limiter; [done|apply prune_box_ok, HIa|apply HIa|apply HIa].
Qed.

(** ** Delivery loops *)

(** The message id a frame carries. *)
Definition fid (f : bytes) : bytes := take 16 (drop 1 f).

(** While the loop is the registered subscriber and no wake is waiting, every
    queued message has its id in [known]. *)
Definition covered (s : AppState.t) (tx : nat) (c : Conn.t) (known : gset bytes) : Prop :=
  forall mb, AppState.boxes s !! Conn.box c = Some mb -> Mailbox.notify mb = Some tx ->
    Conn.unread c = 0%nat -> forall m, m ∈ Mailbox.queue mb -> QueuedMsg.id m ∈ known.

(** The [sent] set is exactly the ids of the frames the socket took. *)
Definition sent_is (c : Conn.t) (sent : gset bytes) : Prop :=
  sent = list_to_set (fid <$> Conn.out c).

Definition conn_ok (s : AppState.t) (tx : nat) (c : Conn.t) : Prop :=
  match Conn.ph c with
  | PRegister => Conn.out c = [] /\
      forall id mb, AppState.boxes s !! id = Some mb -> Mailbox.notify mb <> Some tx
  | PCollect sent | PDrain sent => sent_is c sent
  | PSend frames sent => sent_is c sent /\ Forall (fun f => frame_msg_id f = Ok (fid f)) frames /\
      covered s tx c (list_to_set (fid <$> frames) ∪ sent)
  | PSelect sent => sent_is c sent /\ covered s tx c sent
  end.

Definition woken (w : option nat) (tx : nat) (c : Conn.t) : Conn.t :=
  if bool_decide (w = Some tx)
  then Conn.mk (Conn.box c) (S (Conn.unread c)) (Conn.ph c) (Conn.out c) else c.

Lemma send_wake_lookup w cs tx : send_wake w cs !! tx = woken w tx <$> cs !! tx.
Proof.
  unfold woken. destruct w as [k|]; simpl.
  - rewrite lookup_alter. case_decide; subst.
    + rewrite bool_decide_eq_true_2 by done. done.
    + rewrite bool_decide_eq_false_2 by congruence. by destruct (cs !! tx).
  - by destruct (cs !! tx).
Qed.

Lemma covered_quiet P s s' w tx c known :
  P tx -> quiet P s s' w -> covered s tx c known -> covered s' tx (woken w tx c) known.
Proof.
  intros HP Hq Hc mb' Hid Hn Hu m Hm. unfold woken in *.
  destruct (bool_decide (w = Some tx)) eqn:E; simpl in *; [done|]. reflect_bools.
  destruct (Hq _ _ _ HP Hid Hn) as (id0 & mb & Hmb & Hmn & [?|[-> Hsub]]); [done|].
  eapply Hc; eauto.
Qed.

Lemma conn_ok_quiet P s s' w tx c :
  P tx -> quiet P s s' w -> conn_ok s tx c -> conn_ok s' tx (woken w tx c).
Proof.
  intros HP Hq. unfold conn_ok.
  assert (Hph : Conn.ph (woken w tx c) = Conn.ph c) by (unfold woken; by bool_case).
  assert (Hout : Conn.out (woken w tx c) = Conn.out c) by (unfold woken; by bool_case).
  unfold sent_is. rewrite Hph, Hout. destruct (Conn.ph c); try done.
  - intros [Ho Hn]. split; [done|]. intros id mb' Hid Hno.
    destruct (Hq _ _ _ HP Hid Hno) as (id0 & mb & Hmb & Hmn & _). by apply (Hn id0 mb).
  - intros (? & ? & ?). split_and!; try done. by eapply covered_quiet.
  - intros (? & ?). split_and!; try done. by eapply covered_quiet.
Qed.

Lemma frame_build m :
  length (QueuedMsg.id m) = 16%nat ->
  let f := delivery_frame (QueuedMsg.id m) (QueuedMsg.data m) in
  frame_msg_id f = Ok (fid f) /\ fid f = QueuedMsg.id m.
Proof.
  intros H f. assert (Hf : fid f = QueuedMsg.id m).
  { unfold f, fid, delivery_frame. simpl. rewrite <- H. rewrite drop_0. by rewrite take_app_length. }
  split; [|done]. rewrite Hf. unfold frame_msg_id, f, delivery_frame.
  pose proof (slice_mid (E:=Empty_set) [1] (QueuedMsg.id m) (QueuedMsg.data m)) as Hs.
  change (zlen [1]) with 1 in Hs. unfold zlen in Hs. by rewrite H in Hs.
Qed.

Lemma collect_spec s id tx sent frames :
  ids16 s -> deliver_collect s id tx sent = Some frames ->
  exists mb, AppState.boxes s !! id = Some mb /\ Mailbox.notify mb = Some tx /\
    Forall (fun f => frame_msg_id f = Ok (fid f)) frames /\
    (forall m, m ∈ Mailbox.queue mb -> QueuedMsg.id m ∈ (list_to_set (fid <$> frames) ∪ sent : gset bytes)).
Proof.
  intros H16. unfold deliver_collect. destruct (AppState.boxes s !! id) as [mb|] eqn:Hid; [|done].
  simpl. bool_case; [|done]. intros [= <-]. reflect_bools. exists mb.
  pose proof (proj1 (Forall_forall _ _) (H16 id mb Hid)) as Hl. split_and!; try done.
  - apply Forall_fmap, Forall_forall. intros m Hm. simpl.
    apply list_elem_of_In, filter_In in Hm as [Hm _]. apply frame_build, Hl.
    by apply list_elem_of_In.
  - intros m Hm. destruct (decide (QueuedMsg.id m ∈ sent)) as [|Hns]; [set_solver|].
    apply elem_of_union_l, elem_of_list_to_set. rewrite <- list_fmap_compose.
    apply list_elem_of_fmap. exists m. split; [simpl; symmetry; by apply frame_build, Hl|].
    apply list_elem_of_In, filter_In. split; [by apply list_elem_of_In|].
    by rewrite bool_decide_eq_false_2.
Qed.

Lemma remove_first_subseteq acked q : remove_first acked q ⊆ q.
Proof.
  intros m Hm. induction q as [|x q IH]; simpl in Hm; [done|].
  destruct (beq _ _); set_solver.
Qed.

(** An ack is quiet for every subscriber. *)
Lemma handle_ack_region p ck s id d now P :
  Inv p ck s -> ids16 s -> ck <= now ->
  exists b s', handle_ack s id d now = Ok (b, s') /\ region_ok p now P s s' None.
Proof.
  intros HI H16 Hle. destruct (handle_ack_ok p ck s id d now HI Hle) as (b & s' & E & HI' & Hn & Hq).
  exists b, s'. split; [done|].
  assert (Hall : AppState.cfg s' = AppState.cfg s /\ forall id' mb', AppState.boxes s' !! id' = Some mb' ->
    exists mb, AppState.boxes s !! id' = Some mb /\ Mailbox.notify mb' = Mailbox.notify mb /\
      Mailbox.queue mb' ⊆ Mailbox.queue mb).
  { split.
    { revert E. unfold handle_ack. destruct (parse_ack_frame d) as [[a|]| |]; rsimpl; try done;
        [|by intros [= <- <-]]. destruct (AppState.boxes s !! id); [|by intros [= <- <-]].
      destruct (position _ _); [|by intros [= <- <-]].
      destruct (remove_at _ _) as [[m q]|]; rsimpl; [|done].
      destruct (checked_sub _ _); rsimpl; [|done]. by intros [= <- <-]. }
    intros id' mb' Hid. specialize (Hn id'). unfold box_notify in Hn. rewrite Hid in Hn.
    destruct (AppState.boxes s !! id') as [mb|] eqn:Hs; [|done]. simpl in Hn.
    exists mb. split_and!; [done|congruence|].
    destruct (parse_ack_frame d) as [[a|]| |]; [|destruct Hq as [_ ->]; naive_solver..].
    destruct Hq as [_ Hq]. specialize (Hq id'). unfold box_queue in Hq. rewrite Hid, Hs in Hq.
    simpl in Hq. destruct (bool_decide _); injection Hq as ->; [apply remove_first_subseteq|done]. }
  destruct Hall as [Hc Hall]. split_and!; try done.
  - intros id' mb' Hid. destruct (Hall _ _ Hid) as (mb & Hmb & _ & Hsub).
    apply Forall_forall. intros m Hm. apply Hsub in Hm.
    by apply (proj1 (Forall_forall _ _) (H16 id' mb Hmb)).
  - intros id' mb' tx _ Hid Hno. destruct (Hall _ _ Hid) as (mb & Hmb & Hnn & Hsub).
    exists id', mb. split_and!; try done; [congruence|]. by right.
Qed.

(** Every action of a loop returns, keeps its own contract, and is quiet for
    every other subscriber. *)
Lemma conn_exec_ok p ck s tx c ev now r :
  Inv p ck s -> ids16 s -> conn_ok s tx c -> ck <= now ->
  conn_exec s tx c ev now = Some r ->
  exists o s', r = Ok (o, s') /\ region_ok p now (fun tx' => tx' <> tx) s s' None /\
    match o with Some c' => conn_ok s' tx c' | None => True end.
Proof.
  intros HI H16 Hok Hle. pose proof (Inv_mono p _ _ s Hle HI) as HIn.
  assert (Hsame : region_ok p now (fun tx' => tx' <> tx) s s None) by (by apply region_same).
  unfold conn_exec, conn_ok in *. destruct (Conn.ph c) as [|sent|[|f fs] sent|sent|sent] eqn:Hph;
    destruct ev as [| | | |[d| | | |]]; try done.
  - unfold deliver_register.
    pose proof (register_ok p ck s (Conn.box c) tx now HI Hle) as HIr. unfold deliver_register in HIr.
    destruct (AppState.boxes s !! Conn.box c) as [mb|] eqn:Hid; intros [= <-]; [|by eauto].
    eexists _, _. split; [done|]. destruct Hok as [Ho Hn]. split.
    + eapply region_update; [done|done|done|exact Hid|done|by apply (H16 _ _ Hid)|].
      simpl. intros tx' Hne [= ->]. done.
    + simpl. unfold sent_is. simpl. by rewrite Ho.
  - destruct (deliver_collect _ _ _ _) as [frames|] eqn:Ec; intros [= <-]; [|by eauto].
    eexists _, _. split; [done|]. split; [done|]. simpl.
    destruct (collect_spec _ _ _ _ _ H16 Ec) as (mb & Hid & Hn & Hf & Hall).
    split_and!; [done|done|]. intros mb' Hid' _ _ m Hm. simpl in Hid'.
    assert (mb' = mb) as -> by congruence. by apply Hall.
  - intros [= <-]. eexists _, _. split; [done|]. split; [done|]. simpl.
    destruct Hok as (Hs & _ & Hc). split; [done|].
    intros mb Hid Hn Hu m Hm. specialize (Hc mb Hid Hn Hu m Hm). set_solver.
  - destruct Hok as (Hs & Hf & Hc). apply Forall_cons in Hf as [Hf Hfs]. rewrite Hf. rsimpl.
    intros [= <-]. eexists _, _. split; [done|]. split; [done|]. simpl. split_and!; [|done|].
    + unfold sent_is in *. simpl. rewrite fmap_app, list_to_set_app_L. simpl. rewrite Hs. set_solver.
    + intros mb Hid Hn Hu m Hm. specialize (Hc mb Hid Hn Hu m Hm). set_solver.
  - destruct Hok as (Hs & Hf & Hc). apply Forall_cons in Hf as [Hf Hfs]. rewrite Hf. rsimpl.
    intros [= <-]. by eauto.
  - destruct (Conn.unread c); [done|]. intros [= <-]. eexists _, _. split; [done|].
    split; [done|]. simpl. apply Hok.
  - intros [= <-]. destruct (handle_ack_region p ck s (Conn.box c) d now
      (fun tx' => tx' <> tx) HI H16 Hle) as (b & s' & -> & Hr). rsimpl.
    eexists _, _. split; [done|]. split; [done|]. apply Hok.
  - intros [= <-]. by eauto.
  - intros [= <-]. eexists _, _. split; [done|]. split; [done|]. apply Hok.
  - intros [= <-]. by eauto.
  - intros [= <-]. by eauto.
  - intros [= <-]. by eauto.
  - intros [= <-]. destruct (handle_ack_region p ck s (Conn.box c) d now
      (fun tx' => tx' <> tx) HI H16 Hle) as (b & s' & -> & Hr). rsimpl.
    eexists _, _. split; [done|]. split; [done|]. apply Hok.
  - intros [= <-]. by eauto.
  - intros [= <-]. by eauto.
  - intros [= <-]. by eauto.
  - intros [= <-]. by eauto.
Qed.

(** ** The invariant of the process *)

Record SInv (s : Server.t) : Prop := {
  sinv_lock : Server.poisoned s = false;
  sinv_app : Inv (owed_all (Server.tasks s)) (Server.clock s) (Server.app s);
  sinv_ids : ids16 (Server.app s);
  sinv_tasks : Forall (task_ok (AppState.cfg (Server.app s))) (Server.tasks s);
  sinv_conns : forall tx c, Server.conns s !! tx = Some c ->
    (tx < Server.next_chan s)%nat /\ conn_ok (Server.app s) tx c;
  sinv_chans : forall id mb tx, AppState.boxes (Server.app s) !! id = Some mb ->
    Mailbox.notify mb = Some tx -> (tx < Server.next_chan s)%nat
}.

Lemma owed_all_app ts us : owed_all (ts ++ us) = owed_all ts + owed_all us.
Proof. induction ts; simpl; lia. Qed.

Lemma quiet_chans P s s' w n :
  quiet P s s' w -> (forall tx, ~ P tx -> (tx < n)%nat) ->
  (forall tx, Decision (P tx)) ->
  (forall id mb tx, AppState.boxes s !! id = Some mb -> Mailbox.notify mb = Some tx -> (tx < n)%nat) ->
  forall id mb tx, AppState.boxes s' !! id = Some mb -> Mailbox.notify mb = Some tx -> (tx < n)%nat.
Proof.
  intros Hq HnP HdP H id mb' tx Hid Hn. destruct (decide (P tx)) as [HP|HP]; [|by apply HnP].
  destruct (Hq _ _ _ HP Hid Hn) as (id0 & mb & ? & ? & _). by eapply H.
Qed.

Lemma SInv_task too_large a ck cs n ts1 t ts2 e o n' cs' :
  SInv (Server.mk a false ck cs n (ts1 ++ t :: ts2)) ->
  env_ok ck e -> exec too_large t a e = Ok o ->
  open_conns t n (send_wake (wake o) cs) = (n', cs') ->
  SInv (Server.mk (state o) false (activity_now e) cs' n' (ts1 ++ next o ++ ts2)).
Proof.
  intros [_ HI H16 Ht Hcs Hch] He Ho Hopen. simpl in *.
  apply Forall_app in Ht as [Ht1 [Htt Ht2]%Forall_cons].
  destruct (exec_ok too_large (owed_all ts1 + owed_all ts2) ck a e t) as (o' & E & Hr & Hnx); auto.
  { rewrite owed_all_app in HI. simpl in HI.
    replace (owed t + (owed_all ts1 + owed_all ts2)) with
      (owed_all ts1 + (owed t + owed_all ts2)) by lia. done. }
  assert (o' = o) as -> by congruence. destruct Hr as (HI' & H16' & Hc & Hq).
  assert (Hch' := quiet_chans _ _ _ _ n Hq ltac:(naive_solver) ltac:(apply _) Hch).
  assert (Hle : (n <= n')%nat) by (destruct t; simpl in Hopen; injection Hopen as <- _; lia).
  split; simpl; [done| |done| | |].
  - rewrite !owed_all_app. match type of HI' with Inv ?q _ _ => replace q with
      (owed_all ts1 + (owed_all (next o) + owed_all ts2)) in HI' by lia end. done.
  - rewrite Hc. by repeat (apply Forall_app; split).
  - assert (Hold : forall tx c, send_wake (wake o) cs !! tx = Some c ->
      (tx < n')%nat /\ conn_ok (state o) tx c).
    { intros tx c Hx. rewrite send_wake_lookup in Hx.
      destruct (cs !! tx) as [c0|] eqn:Hc0; [|done]. injection Hx as <-.
      destruct (Hcs tx c0 Hc0) as [Hlt Hok0]. split; [lia|].
      by apply (conn_ok_quiet (fun _ => True) a). }
    destruct t; simpl in Hopen; injection Hopen as <- <-; try done.
    intros tx c Hx. apply lookup_insert_Some in Hx as [[<- <-]|[_ Hx]]; [|by apply Hold].
    split; [lia|]. split; [done|]. intros id' mb Hid Hn. specialize (Hch' _ _ _ Hid Hn). lia.
  - intros id mb tx Hid Hn. specialize (Hch' _ _ _ Hid Hn). lia.
Qed.

Lemma SInv_conn a ck cs n ts tx c ev now o a' :
  SInv (Server.mk a false ck cs n ts) ->
  cs !! tx = Some c -> ck <= now -> conn_exec a tx c ev now = Some (Ok (o, a')) ->
  SInv (Server.mk a' false now (match o with Some c' => <[tx := c']> cs | None => delete tx cs end)
                  n ts).
Proof.
  intros [_ HI H16 Ht Hcs Hch] Hc Hle E. simpl in *.
  destruct (Hcs tx c Hc) as [Hlt Hok].
  destruct (conn_exec_ok _ _ _ _ _ _ _ _ HI H16 Hok Hle E) as (o' & s' & [= <- <-] & Hr & Ho).
  destruct Hr as (HI' & H16' & Hcfg & Hq).
  assert (Hch' := quiet_chans _ _ _ _ n Hq ltac:(intros tx' Hn'; destruct (decide (tx' = tx)); naive_solver)
                    ltac:(apply _) Hch).
  assert (Hother : forall tx' c', tx' <> tx -> cs !! tx' = Some c' ->
    (tx' < n)%nat /\ conn_ok a' tx' c').
  { intros tx' c' Hne Hx. destruct (Hcs tx' c' Hx) as [? Hok']. split; [done|].
    by apply (conn_ok_quiet _ _ _ None tx' c' Hne Hq). }
  split; simpl; [done|done|done|by rewrite Hcfg| |done].
  intros tx' c' Hx. destruct o as [c1|].
  - apply lookup_insert_Some in Hx as [[<- <-]|[Hne Hx]]; [done|]. by apply Hother.
  - apply lookup_delete_Some in Hx as [Hne Hx]. by apply Hother.
Qed.

Lemma SInv_step too_large s s' : SInv s -> step too_large s s' -> SInv s'.
Proof.
  intros HS Hst. destruct Hst as [a po ck cs n ts t Hi| | a ck cs n ts1 t ts2 e He Hp| |
                                  a ck cs n ts tx c ev now Hc Hle Hp].
  - destruct HS as [? ? ? ? ? ?]. split; simpl in *; auto.
    + by destruct t.
    + constructor; [by destruct t|done].
  - by eapply SInv_task.
  - exfalso. destruct HS as [_ HI H16 Ht _ _]. simpl in *.
    apply Forall_app in Ht as [_ [Htt _]%Forall_cons].
    destruct (exec_ok too_large (owed_all ts1 + owed_all ts2) ck a e t) as (o' & E & _); auto;
      [|congruence].
    rewrite owed_all_app in HI. simpl in HI.
    by replace (owed t + (owed_all ts1 + owed_all ts2)) with
      (owed_all ts1 + (owed t + owed_all ts2)) by lia.
  - by eapply SInv_conn.
  - exfalso. destruct HS as [_ HI H16 _ Hcs _]. simpl in *. destruct (Hcs tx c Hc) as [_ Hok].
    by destruct (conn_exec_ok _ _ _ _ _ _ _ _ HI H16 Hok Hle Hp) as (o' & s' & [=] & _).
Qed.

Lemma SInv_reachable too_large hasher cfg s :
  cfg_ok cfg -> reachable too_large hasher cfg s -> SInv s.
Proof.
  intros Hc. induction 1 as [|s s' _ IH Hst]; [|by eapply SInv_step].
  split; simpl; try done.
  by apply Inv_new.
Qed.

(** Nothing changes the configuration. *)
Lemma cfg_step too_large s s' :
  SInv s -> step too_large s s' -> AppState.cfg (Server.app s') = AppState.cfg (Server.app s).
Proof.
  intros [_ HI H16 Ht Hcs _] Hst.
  destruct Hst as [|a ck cs n ts1 t ts2 e o n' cs' He Ho _| |a ck cs n ts tx c ev now o a' Hc Hle E|]; try done; simpl in *.
  - apply Forall_app in Ht as [_ [Htt _]%Forall_cons].
    destruct (exec_ok too_large (owed_all ts1 + owed_all ts2) ck a e t) as (o' & E & (_ & _ & Hr & _) & _); auto;
      [|by assert (o' = o) as -> by congruence].
    rewrite owed_all_app in HI. simpl in HI.
    by replace (owed t + (owed_all ts1 + owed_all ts2)) with (owed_all ts1 + (owed t + owed_all ts2)) by lia.
  - destruct (Hcs tx c Hc) as [_ Hok].
    by destruct (conn_exec_ok _ _ _ _ _ _ _ _ HI H16 Hok Hle E) as (o' & s' & [= <- <-] & (_ & _ & Hr & _) & _).
Qed.

Lemma cfg_reachable too_large hasher cfg s :
  cfg_ok cfg -> reachable too_large hasher cfg s -> AppState.cfg (Server.app s) = cfg.
Proof.
  intros Hc. induction 1 as [|s s' Hr IH Hst]; [done|]. rewrite <- IH.
  eapply cfg_step; [|exact Hst]. by eapply SInv_reachable.
Qed.

(** ** One request alone, one subscriber alone *)

(** The regions of a request back to back, with the same readings. *)
Fixpoint run_solo (too_large : Response.t) (fuel : nat) (t : task) (s : AppState.t) (e : Env)
    : run (option Response.t * option nat * AppState.t) :=
  match fuel with
  | O => Ok (None, None, s)
  | S f =>
    o ← exec too_large t s e;
    match next o with
    | [] => Ok (resp o, wake o, state o)
    | k :: _ => run_solo too_large f k (state o) e
    end
  end.

Definition task_of (r : Request) : option task :=
  match r with
  | GetHealthz => None
  | PostMailboxes ip draws => Some (TCreate ip draws)
  | PostMessage ip id body => Some (TDeposit ip id body)
  | PutMailbox ip id => Some (TPut ip id)
  | DeleteMailbox id => Some (TDelete id)
  | GetWs id => Some (TSubscribe id)
  end.

(** A loop that runs by itself with a socket that takes every frame, up to
    the [select]. *)
Fixpoint drive (fuel : nat) (s : AppState.t) (tx : nat) (c : Conn.t) (now : Z)
    : option (run (option Conn.t * AppState.t)) :=
  match fuel with
  | O => Some (Ok (Some c, s))
  | S f =>
    let ev := match Conn.ph c with PSend (_ :: _) _ => EvSent | _ => EvRun end in
    match conn_exec s tx c ev now with
    | Some (Ok (Some c', s')) => drive f s' tx c' now
    | r => r
    end
  end.

Lemma drive_S f s tx c now :
  drive (S f) s tx c now
  = match conn_exec s tx c (match Conn.ph c with PSend (_ :: _) _ => EvSent | _ => EvRun end) now with
    | Some (Ok (Some c', s')) => drive f s' tx c' now
    | r => r
    end.
Proof. done. Qed.

Lemma drive_send s tx now : forall frames c sent,
  Conn.ph c = PSend frames sent -> Forall (fun f => frame_msg_id f = Ok (fid f)) frames ->
  drive (S (length frames)) s tx c now
  = Some (Ok (Some (Conn.mk (Conn.box c) (Conn.unread c)
                      (PSelect (list_to_set (fid <$> frames) ∪ sent)) (Conn.out c ++ frames)), s)).
Proof.
  induction frames as [|f fs IH]; intros c sent Hph Hf.
  - cbn [length drive]. rewrite Hph. unfold conn_exec. rewrite Hph. unfold Conn.at_. simpl.
    by rewrite union_empty_l_L, app_nil_r.
  - apply Forall_cons in Hf as [Hf Hfs]. cbn [length]. rewrite drive_S, Hph.
    unfold conn_exec at 1. rewrite Hph, Hf. rsimpl.
    set (c' := Conn.mk _ _ _ _). rewrite (IH c' ({[fid f]} ∪ sent)) by done.
    unfold c'. simpl. rewrite <- app_assoc. simpl.
    assert (list_to_set (fid <$> fs) ∪ ({[fid f]} ∪ sent) = {[fid f]} ∪ list_to_set (fid <$> fs) ∪ sent) as ->
      by set_solver. done.
Qed.

(** The frames on a socket carry the ids their slices name. *)
Definition out_ok (c : Conn.t) : Prop :=
  Forall (fun f => frame_msg_id f = Ok (fid f)) (Conn.out c).

Lemma conn_exec_out s tx c ev now c' s' :
  conn_ok s tx c -> out_ok c -> conn_exec s tx c ev now = Some (Ok (Some c', s')) -> out_ok c'.
Proof.
  unfold out_ok, conn_exec, conn_ok. intros Hok Ho.
  destruct (Conn.ph c) as [|sent|[|f fs] sent|sent|sent] eqn:Hph;
    destruct ev as [| | | |[d| | | |]]; try done; try (intros [= <- <-]; done).
  - destruct (deliver_register _ _ _ _) as [[] s1]; [|done]. by intros [= <- <-].
  - destruct (deliver_collect _ _ _ _); [|done]. by intros [= <- <-].
  - destruct Hok as (_ & Hf & _). apply Forall_cons in Hf as [Hf _]. rewrite Hf. rsimpl.
    intros [= <- <-]. simpl. apply Forall_app. split; [done|]. by repeat constructor.
  - destruct (frame_msg_id f); rsimpl; done.
  - destruct (Conn.unread c); [done|]. by intros [= <- <-].
  - destruct (handle_ack _ _ _ _) as [[b s1]| |]; rsimpl; [|done|done]. by intros [= <- <-].
  - destruct (handle_ack _ _ _ _) as [[b s1]| |]; rsimpl; [|done|done]. by intros [= <- <-].
Qed.

Lemma out_frames_reachable too_large hasher cfg s tx c :
  cfg_ok cfg -> reachable too_large hasher cfg s -> Server.conns s !! tx = Some c -> out_ok c.
Proof.
  intros Hc Hr. revert tx c. induction Hr as [|s s' Hr IH Hst]; intros tx c; [done|].
  pose proof (SInv_reachable _ _ _ _ Hc Hr) as HS.
  destruct Hst as [| a ck cs n ts1 t ts2 e o n' cs' He Ho Hop| |
                   a ck cs n ts tx' c' ev now o a' Hc' Hle E|]; simpl in *; try exact (IH tx c).
  - assert (Hw : forall tx c, send_wake (wake o) cs !! tx = Some c -> out_ok c).
    { intros tx0 c0. rewrite send_wake_lookup. destruct (cs !! tx0) as [c1|] eqn:E1; [|done].
      intros [= <-]. specialize (IH _ _ E1). unfold woken. by destruct (bool_decide _). }
    destruct t; simpl in Hop; injection Hop as <- <-; try exact (Hw tx c).
    intros [[<- <-]|[_ Hx]]%lookup_insert_Some; [constructor|by eapply Hw].
  - destruct o as [c1|].
    + intros [[<- <-]|[_ Hx]]%lookup_insert_Some; [|by eapply IH].
      eapply conn_exec_out; [|by eapply IH|exact E]. by apply (sinv_conns _ HS).
    + intros [_ Hx]%lookup_delete_Some. by eapply IH.
  - intros [_ Hx]%lookup_delete_Some. by eapply IH.
Qed.

(** ** Executable schedules *)

Inductive action :=
  | ASpawn (t : task)
  | ARun (i : nat) (e : Env)
  | AConn (tx : nat) (ev : conn_event) (now : Z).

#[export] Instance env_ok_dec ck e : Decision (env_ok ck e).
Proof. unfold env_ok. apply _. Defined.

Definition perform (too_large : Response.t) (s : Server.t) (a : action) : option Server.t :=
  if Server.poisoned s then None else
  match a with
  | ASpawn t =>
    if initial t then Some (Server.mk (Server.app s) false (Server.clock s) (Server.conns s)
                              (Server.next_chan s) (t :: Server.tasks s)) else None
  | ARun i e =>
    t ← Server.tasks s !! i;
    if bool_decide (env_ok (Server.clock s) e) then
      match exec too_large t (Server.app s) e with
      | Ok o =>
        let '(n, cs) := open_conns t (Server.next_chan s) (send_wake (wake o) (Server.conns s)) in
        Some (Server.mk (state o) false (activity_now e) cs n
                (take i (Server.tasks s) ++ next o ++ drop (S i) (Server.tasks s)))
      | _ => None
      end
    else None
  | AConn tx ev now =>
    c ← Server.conns s !! tx;
    if Server.clock s <=? now then
      match conn_exec (Server.app s) tx c ev now with
      | Some (Ok (o, a')) =>
        Some (Server.mk a' false now
          (match o with Some c' => <[tx := c']> (Server.conns s) | None => delete tx (Server.conns s) end)
          (Server.next_chan s) (Server.tasks s))
      | _ => None
      end
    else None
  end.

Fixpoint play (too_large : Response.t) (acts : list action) (s : Server.t) : option Server.t :=
  match acts with
  | [] => Some s
  | a :: r => s' ← perform too_large s a; play too_large r s'
  end.

Lemma perform_step too_large s a s' :
  perform too_large s a = Some s' -> step too_large s s'.
Proof.
  destruct s as [ap po ck cs n ts]. unfold perform. simpl. destruct po; [done|]. destruct a as [t|i e|tx ev now].
  - destruct (initial t) eqn:E; [|done]. intros [= <-]. by apply step_spawn.
  - destruct (ts !! i) as [t|] eqn:Ht; simpl; [|done]. bool_case; [|done]. reflect_bools.
    destruct (exec too_large t ap e) as [o| |] eqn:Eo; [|done|done].
    destruct (open_conns _ _ _) as [n' cs'] eqn:Ec. intros [= <-].
    rewrite <- (take_drop_middle ts i t Ht) at 1. by eapply step_task.
  - destruct (cs !! tx) as [c|] eqn:Hc; simpl; [|done]. bool_case; [|done]. reflect_bools.
    destruct (conn_exec ap tx c ev now) as [[[o a']| |]|] eqn:Eo; try done.
    intros [= <-]. by eapply step_conn.
Qed.

Lemma play_reachable too_large hasher cfg acts s s' :
  reachable too_large hasher cfg s -> play too_large acts s = Some s' ->
  reachable too_large hasher cfg s'.
Proof.
  revert s. induction acts as [|a r IH]; simpl; intros s Hr; [by intros [= <-]|].
  destruct (perform too_large s a) as [s1|] eqn:E; simpl; [|done].
  apply IH. eapply reachable_step; [done|]. by eapply perform_step.
Qed.

(** A mailbox, a waiting subscriber, a deposit, and the wake it causes. *)
Definition demo_script : list action :=
  let e := demo_env in
  let e' := mkEnv demo_clk demo_clk 425 (replicate 16 3) 140 140 in
  [ASpawn (TPut (V4 [10; 0; 0; 1]) demo_id); ARun 0 e; ARun 0 (mkEnv demo_clk demo_clk 425 (replicate 16 3) 120 120);
   ASpawn (TSubscribe demo_id); ARun 0 e'; ARun 0 e'; ARun 0 e';
   AConn 0 EvRun 150; AConn 0 EvRun 150; AConn 0 EvRun 150;
   ASpawn (TDeposit (V4 [10; 0; 0; 1]) demo_id demo_blob);
   ARun 0 (mkEnv demo_clk demo_clk 425 (replicate 16 3) 160 160);
   ARun 0 (mkEnv demo_clk demo_clk 425 (replicate 16 3) 160 170);
   AConn 0 EvWake 180; AConn 0 EvRun 180; AConn 0 EvSent 180; AConn 0 EvRun 180].

Lemma demo_play :
  exists s, play (Response.plain 413) demo_script (Server.init from_be Config.default) = Some s /\
    reachable (Response.plain 413) from_be Config.default s /\
    exists c sent mb m, Server.conns s !! 0%nat = Some c /\ Conn.ph c = PSelect sent /\
      Conn.box c = demo_id /\ Conn.unread c = 0%nat /\
      AppState.boxes (Server.app s) !! demo_id = Some mb /\ Mailbox.notify mb = Some 0%nat /\
      m ∈ Mailbox.queue mb.
Proof.
  set (chk := fun s => match Server.conns s !! 0%nat, AppState.boxes (Server.app s) !! demo_id with
    | Some c, Some mb => match Conn.ph c, Mailbox.queue mb with
        | PSelect _, _ :: _ => beq (Conn.box c) demo_id && (Conn.unread c =? 0)%nat
                               && bool_decide (Mailbox.notify mb = Some 0%nat)
        | _, _ => false end
    | _, _ => false end).
  assert (H : (chk <$> play (Response.plain 413) demo_script (Server.init from_be Config.default))
              = Some true) by (vm_compute; reflexivity).
  destruct (play _ _ _) as [s|] eqn:E; [|done]. exists s. split; [done|]. split.
  { eapply play_reachable; [apply reachable_init|exact E]. }
  injection H as H. unfold chk in H. clear E.
  destruct (Server.conns s !! 0%nat) as [c|]; [|done].
  destruct (AppState.boxes (Server.app s) !! demo_id) as [mb|]; [|done].
  destruct (Conn.ph c) as [| | |sent|] eqn:Hp; try done.
  destruct (Mailbox.queue mb) as [|m q] eqn:Hq; [done|].
  reflect_bools. exists c, sent, mb, m. split_and!; try done.
  - by apply Nat.eqb_eq.
  - rewrite Hq. set_solver.
Qed.

Lemma collect_fresh s id tx mb :
  AppState.boxes s !! id = Some mb -> Mailbox.notify mb = Some tx ->
  deliver_collect s id tx ∅
  = Some ((fun m => delivery_frame (QueuedMsg.id m) (QueuedMsg.data m)) <$> Mailbox.queue mb).
Proof.
  intros Hid Hn. unfold deliver_collect. rewrite Hid. simpl.
  rewrite bool_decide_eq_true_2 by done. do 2 f_equal.
  apply forallb_filter_id, forallb_forall. intros m _.
  by rewrite bool_decide_eq_false_2 by set_solver.
Qed.

Lemma drive_replay (s : AppState.t) (id : bytes) (tx : nat) (mb : Mailbox.t) (now : Z) :
  ids16 s -> AppState.boxes s !! id = Some mb ->
  exists sent s',
    drive (3 + length (Mailbox.queue mb)) s tx (Conn.mk id 0%nat PRegister []) now
    = Some (Ok (Some (Conn.mk id 0%nat (PSelect sent)
        ((fun m => delivery_frame (QueuedMsg.id m) (QueuedMsg.data m)) <$> Mailbox.queue mb)), s')) /\
    box_queue s' id = Some (Mailbox.queue mb) /\ box_notify s' id = Some (Some tx) /\
    s' = (deliver_register s id tx now).2.
Proof.
  intros H16 Hid. change (3 + ?n)%nat with (S (S (S n))). rewrite drive_S.
  unfold conn_exec at 1. simpl Conn.ph. cbv iota. unfold deliver_register. simpl Conn.box.
  rewrite Hid. cbv beta iota zeta.
  set (mb' := Mailbox.mk _ _ _ _). set (s' := AppState.with_boxes _ _).
  assert (Hid' : AppState.boxes s' !! id = Some mb') by apply lookup_insert_eq.
  rewrite drive_S. unfold conn_exec at 1. simpl Conn.ph. cbv iota. simpl Conn.box.
  rewrite (collect_fresh s' id tx mb' Hid' eq_refl). simpl Mailbox.queue. cbv iota.
  set (frames := _ <$> _). replace (length (Mailbox.queue mb)) with (length frames)
    by apply length_fmap.
  rewrite (drive_send s' tx now frames _ ∅); [|done|].
  - eexists _, _. split; [done|]. unfold box_queue, box_notify. by rewrite Hid'.
  - apply Forall_fmap, Forall_forall. intros m Hm. apply frame_build.
    by apply (proj1 (Forall_forall _ _) (H16 id mb Hid)).
Qed.

(** ** Properties *)

(** C1: the relay under any interleaving.  In every reachable state of the
    process, whatever requests, sweeps, subscribers and socket events
    interleaved, the table lock is not poisoned (no task ever panicked), the
    global byte counter equals the bytes of all mailboxes plus what running
    deletions still have to subtract, the mailbox cap holds, and every mailbox
    accounts for its bytes exactly and within both quotas. *)
Theorem relay_invariant (too_large : Response.t) (hasher : bytes -> Z) (cfg : Config.t) (s : Server.t) :
  cfg_ok cfg -> reachable too_large hasher cfg s ->
  Server.poisoned s = false /\
  AppState.global_bytes (Server.app s)
  = (boxes_bytes (AppState.boxes (Server.app s)) + owed_all (Server.tasks s)) mod (usize_max + 1) /\
  Z.of_nat (size (AppState.boxes (Server.app s)))
    <= Config.max_mailboxes (AppState.cfg (Server.app s)) /\
  map_Forall (fun _ mb => mailbox_ok (AppState.cfg (Server.app s)) (Server.clock s) mb)
             (AppState.boxes (Server.app s)).
Proof.
  intros Hc Hr. destruct (SInv_reachable _ _ _ _ Hc Hr) as [? [? ? ? ? ? ?] ? ? ? ?].
  by split_and!.
Qed.

Lemma relay_invariant_witness :
  exists s, play (Response.plain 413) demo_script (Server.init from_be Config.default) = Some s /\
    Server.poisoned s = false.
Proof.
  destruct demo_play as (s & E & Hr & _). exists s. split; [exact E|].
  apply (relay_invariant (Response.plain 413) from_be Config.default s cfg_ok_default Hr).
Defined.

(** C2: no lost wakeup.  In every reachable state, a subscriber that waits in
    its [select] with an empty channel and is still the registered one has
    already been sent a frame with the id of every message queued in its
    mailbox: a deposit that races with collection, sending or acks never
    leaves a message waiting until the next deposit. *)
Theorem no_lost_wakeup (too_large : Response.t) (hasher : bytes -> Z) (cfg : Config.t)
    (s : Server.t) (tx : nat) (c : Conn.t) (sent : gset bytes) (mb : Mailbox.t) :
  cfg_ok cfg -> reachable too_large hasher cfg s ->
  Server.conns s !! tx = Some c -> Conn.ph c = PSelect sent -> Conn.unread c = 0%nat ->
  AppState.boxes (Server.app s) !! Conn.box c = Some mb -> Mailbox.notify mb = Some tx ->
  forall m, m ∈ Mailbox.queue mb -> exists f, f ∈ Conn.out c /\ frame_msg_id f = Ok (QueuedMsg.id m).
Proof.
  intros Hc Hr Htx Hph Hu Hid Hn m Hm.
  destruct (SInv_reachable _ _ _ _ Hc Hr) as [_ _ _ _ Hcs _].
  destruct (Hcs tx c Htx) as [_ Hok]. pose proof (out_frames_reachable _ _ _ _ _ _ Hc Hr Htx) as Hf.
  unfold conn_ok in Hok. rewrite Hph in Hok. destruct Hok as [Hs Hcov].
  specialize (Hcov mb Hid Hn Hu m Hm). rewrite Hs in Hcov.
  apply elem_of_list_to_set, list_elem_of_fmap in Hcov as (f & -> & Hin).
  exists f. split; [done|]. by apply (proj1 (Forall_forall _ _) Hf).
Qed.

Lemma no_lost_wakeup_witness :
  exists s c mb m, play (Response.plain 413) demo_script (Server.init from_be Config.default) = Some s /\
    AppState.boxes (Server.app s) !! demo_id = Some mb /\ m ∈ Mailbox.queue mb /\
    exists f, f ∈ Conn.out c /\ frame_msg_id f = Ok (QueuedMsg.id m).
Proof.
  destruct demo_play as (s & E & Hr & c & sent & mb & m & Hc & Hp & Hb & Hu & Hid & Hn & Hm).
  exists s, c, mb, m. split; [exact E|]. split; [exact Hid|]. split; [exact Hm|].
  refine (no_lost_wakeup (Response.plain 413) from_be Config.default s 0 c sent mb
           cfg_ok_default Hr Hc Hp Hu _ Hn m Hm).
  rewrite Hb. exact Hid.
Defined.

(** Replay on subscribe.  A new subscriber of a mailbox is registered and,
    as long as the socket takes its frames, is sent every queued message once,
    oldest first, before it first waits; nothing is removed from the queue. *)
Theorem subscriber_replay (s : AppState.t) (id : bytes) (tx : nat) (mb : Mailbox.t) (now : Z) :
  ids16 s -> AppState.boxes s !! id = Some mb ->
  exists sent s',
    drive (3 + length (Mailbox.queue mb)) s tx (Conn.mk id 0%nat PRegister []) now
    = Some (Ok (Some (Conn.mk id 0%nat (PSelect sent)
        ((fun m => delivery_frame (QueuedMsg.id m) (QueuedMsg.data m)) <$> Mailbox.queue mb)), s')) /\
    box_queue s' id = Some (Mailbox.queue mb) /\ box_notify s' id = Some (Some tx).
Proof.
  intros H16 Hid. destruct (drive_replay s id tx mb now H16 Hid) as (sent & s' & ? & ? & ? & _). eauto.
Qed.

Lemma subscriber_replay_witness :
  exists sent s',
    drive 5 demo_state 3%nat (Conn.mk (bstr "box") 0%nat PRegister []) 130
    = Some (Ok (Some (Conn.mk (bstr "box") 0%nat (PSelect sent)
        ((fun m => delivery_frame (QueuedMsg.id m) (QueuedMsg.data m)) <$> Mailbox.queue demo_box)), s')).
Proof.
  destruct (subscriber_replay demo_state (bstr "box") 3 demo_box 130) as (sent & s' & E & _).
  - apply map_Forall_singleton. repeat constructor.
  - reflexivity.
  - exists sent, s'. exact E.
Defined.

(** The regions are the handlers.  Run back to back with no interference,
    the lock regions of a request are exactly its handler: the same response,
    the same woken channel and the same state (at most three regions, then
    the upgrade). *)
Lemma regions_compose (too_large : Response.t) (s : AppState.t) (r : Request) (e : Env) :
  match task_of r with
  | Some t => run_solo too_large 3 t s e = router too_large s r e
  | None => router too_large s r e = Ok (Some healthz, None, s)
  end.
Proof.
  destruct r as [|ip draws|ip id body|ip id|id|id]; cbn [task_of]; [done|..]; unfold router.
  - unfold create_mailbox. cbn [run_solo exec].
    destruct (SourceLimiter.admit_create _ _ _) as [[[] l]| |]; rsimpl; try done.
    + unfold gate. cbn. by destruct (AppState.create_mailbox _ _ _) as [[[] ?]|].
    + unfold gate. by destruct (too_many_requests _).
  - cbn [run_solo exec]. destruct (_ <? _); [done|]. unfold deposit.
    destruct (mailbox_id_shape_ok id); rsimpl; [|done].
    destruct (SourceLimiter.admit_deposit _ _ _) as [[[] l]| |]; rsimpl; try done.
    + destruct (deposit_admissible body) as [[]| |]; rsimpl; try done. cbn.
      by destruct (deposit_locked _ _ _ _) as [[[] ?]| |].
    + unfold gate. by destruct (too_many_requests _).
  - unfold put_mailbox. cbn [run_solo exec]. destruct (mailbox_id_shape_ok id); rsimpl; [|done].
    destruct (SourceLimiter.admit_put _ _ _) as [[[] l]| |]; rsimpl; try done.
    + unfold gate. cbn. by destruct (AppState.put_mailbox _ _ _) as [[] ?].
    + unfold gate. by destruct (too_many_requests _).
  - unfold delete_mailbox. cbn [run_solo exec delete_locked].
    destruct (mailbox_id_shape_ok id); [|done]. by destruct (AppState.boxes s !! id).
  - unfold subscribe. cbn [run_solo exec]. destruct (mailbox_id_shape_ok id); rsimpl; [|done].
    destruct (bool_decide _); [done|]. cbn.
    destruct (BoxLimiter.admit_ws _ _ _) as [[[] l]| |]; rsimpl; try done.
    unfold gate. by destruct (too_many_requests _).
Qed.
