(* ===== verification/RelayMain.v ===== *)
(** How the relay process starts ([tezca-relay/src/main.rs], [hardening.rs]):
    flags, process limits, the shared state, the sweep task, the one line
    printed, and the transport.  The runtime, the sockets and the certificate
    files are the class [Host]. *)

From S2P Require Import Prelude RelayConfig RelayLimits RelayState RelayApi RelayConc.

(** What starting needs of the host: address parsing, and which of the calls
    that can fail succeed.  [interval_starts]: [tokio::time::interval] with
    this period (in nanoseconds) does not panic. *)
Class Host := {
  parse_addr : bytes -> result bytes bytes;
  keyed_hash : bytes -> Z;
  runtime_builds : bool;
  interval_starts : Z -> bool;
  provider_installs : bool;
  pem_loads : bytes -> bytes -> bool;
  serves : bytes -> bool
}.

(** The calls of [hardening::apply]; their results are dropped. *)
Inductive SysCall :=
  | SetCoreLimit (current maximum : option Z)
  | SetNotDumpable
  | LockMemory (current future : bool).

Definition hardening_apply : list SysCall :=
  [SetCoreLimit (Some 0) (Some 0); SetNotDumpable; LockMemory true true].

(** [core_limit_is_zero] on what [getrlimit] returns. *)
Definition core_limit_is_zero (current maximum : option Z) : bool :=
  bool_decide (current = Some 0) && bool_decide (maximum = Some 0).

Inductive Transport :=
  | PlainHttp
  | TlsHttp (cert key : bytes) (alpn_protocols : list bytes).

Module Process.
Record t := mk {
  hardened : list SysCall;
  stderr : list bytes;
  server : Server.t;
  sweeping : bool;             (* the sweep task is alive *)
  listen : bytes;
  transport : Transport
}.
End Process.

(** How [main] goes on: it exits with a code and what it printed, panics
    before it serves, or serves. *)
Inductive Outcome :=
  | Exited (code : Z) (stderr : list bytes)
  | Panicked (what : string)
  | Serving (p : Process.t).

Section main.
Context `{Host}.

(** The transport of a configuration, or the [expect] that fails. *)
Definition make_transport (cfg : Config.t) : result string Transport :=
  if Config.plain_http cfg then
    _ ← ensure (serves (Config.listen cfg)) "serve (plain)"%string;
    Ok PlainHttp
  else
    cert ← ok_or (Config.tls_cert cfg) "checked in Config::parse"%string;
    key ← ok_or (Config.tls_key cfg) "checked in Config::parse"%string;
    _ ← ensure provider_installs "install ring crypto provider"%string;
    _ ← ensure (pem_loads cert key) "load TLS certificate/key"%string;
    _ ← ensure (serves (Config.listen cfg)) "serve (tls)"%string;
    Ok (TlsHttp cert key [bstr "http/1.1"]).

(** The sweep task makes its interval itself: a panic there ends that task
    and nothing else. *)
Definition serve (cfg : Config.t) : Outcome :=
  match make_transport cfg with
  | Ok tr =>
    Serving (Process.mk hardening_apply [bstr "tezca-relay listening"] (Server.init keyed_hash cfg)
               (interval_starts (Config.sweep cfg)) (Config.listen cfg) tr)
  | Err what => Panicked what
  | Panic => Panicked ""
  end.

Definition main (args : list bytes) : Outcome :=
  match Config.parse parse_addr args with
  | Ok cfg => if runtime_builds then serve cfg else Panicked "tokio runtime"
  | Err err => Exited 2 [bstr "tezca-relay: " ++ err]
  | Panic => Panicked "flags"
  end.
End main.

(** ** Properties *)

(** What a host can refuse a configuration, and the text of the [expect]. *)
Definition refuses `{Host} (cfg : Config.t) (what : string) : Prop :=
  runtime_builds = false /\ what = "tokio runtime"%string \/
  if Config.plain_http cfg then serves (Config.listen cfg) = false /\ what = "serve (plain)"%string
  else exists cert key, Config.tls_cert cfg = Some cert /\ Config.tls_key cfg = Some key /\
    (provider_installs = false /\ what = "install ring crypto provider"%string \/
     pem_loads cert key = false /\ what = "load TLS certificate/key"%string \/
     serves (Config.listen cfg) = false /\ what = "serve (tls)"%string).

(** Within the limits of the command line: no lock is poisoned, and the
    number of mailboxes, of messages in each and of bytes in each are bounded. *)
Definition within_limits (cfg : Config.t) (s : Server.t) : Prop :=
  Server.poisoned s = false /\
  Z.of_nat (size (AppState.boxes (Server.app s))) <= Config.max_mailboxes cfg /\
  map_Forall (fun _ mb => zlen (Mailbox.queue mb) <= Config.mailbox_max_messages cfg /\
                          qbytes (Mailbox.queue mb) <= Config.mailbox_max_bytes cfg)
             (AppState.boxes (Server.app s)).

Lemma reachable_within too_large hasher cfg s :
  cfg_ok cfg -> reachable too_large hasher cfg s -> within_limits cfg s.
Proof.
  intros Hc Hr. pose proof (cfg_reachable _ _ _ _ Hc Hr) as Hcfg.
  destruct (SInv_reachable _ _ _ _ Hc Hr) as [Hp [_ Hb _ Hn _ _] _ _ _ _]. rewrite Hcfg in *.
  split_and!; [done|done|]. eapply map_Forall_impl; [exact Hb|]. intros id mb (-> & ? & ? & _). done.
Qed.


(** A host on which everything succeeds. *)
#[local] Instance demo_host : Host := {|
  parse_addr v := Ok v;
  keyed_hash _ := 0;
  runtime_builds := true;
  interval_starts p := negb (p =? 0);
  provider_installs := true;
  pem_loads _ _ := true;
  serves _ := true
|}.

