(* ===== verification/Cursor.v ===== *)
(** The read cursor of the pairing parsers ([tezca-core/src/pairing.rs],
    [struct Cursor]): a state-and-error monad over a byte string and a
    position, with the two facts every parser built from it needs: what it
    reads when the bytes are there ([reads]), and what it must have read when
    it returns ([yields], which also excludes panics). *)

From S2P Require Import Prelude Errors Utf8.

Module Cursor.
Record t := mk { data : bytes; pos : Z }.
End Cursor.

Definition parser (A : Type) : Type := Cursor.t -> Result (A * Cursor.t).

#[export] Instance parser_ret : MRet parser := fun A a c => Ok (a, c).

#[export] Instance parser_bind : MBind parser :=
  fun A B k p c => match p c with
                   | Ok (a, c') => k a c'
                   | Err e => Err e
                   | Panic => Panic
                   end.

(** A fallible computation that does not touch the cursor. *)
Definition lift {A} (r : Result A) : parser A :=
  fun c => match r with Ok a => Ok (a, c) | Err e => Err e | Panic => Panic end.

(** [Cursor::take] *)
Definition take_n (n : Z) : parser bytes := fun c =>
  stop ← ok_or (checked_add usize_max (Cursor.pos c) n) (Malformed "bundle length overflow");
  if zlen (Cursor.data c) <? stop then Err (Malformed "truncated pairing bundle")
  else s ← slice (Cursor.data c) (Cursor.pos c) stop; Ok (s, Cursor.mk (Cursor.data c) stop).

(** [slice.try_into().expect(..)] into an array of [n] bytes. *)
Definition to_array (n : Z) (b : bytes) : Result bytes := if zlen b =? n then Ok b else Panic.

(** [u8], [u16], [u32] and [u64] of the cursor: [n] big-endian bytes. *)
Definition uint (n : Z) : parser Z :=
  b ← take_n n; a ← lift (to_array n b); mret (from_be a).

Definition u8 : parser Z := b ← take_n 1; lift (index b 0).
Definition u16 : parser Z := uint 2.
Definition u32 : parser Z := uint 4.
Definition u64 : parser Z := uint 8.

Definition bytes_field : parser bytes := len ← u16; take_n len.

(** [c.take(n)?.try_into().expect(..)] *)
Definition array_field (n : Z) : parser bytes := b ← take_n n; lift (to_array n b).

Definition utf8 (b : bytes) : Result bytes := ok_or (from_utf8 b) (Malformed "field is not UTF-8").

(** [if c.pos != bytes.len() { return Err(..) }] *)
Definition finish (why : string) : parser unit := fun c =>
  if Cursor.pos c =? zlen (Cursor.data c) then Ok (tt, c) else Err (Malformed why).

(** Runs a parser over a whole byte string. *)
Definition run_cursor {A} (p : parser A) (b : bytes) : Result A :=
  '(a, _) ← p (Cursor.mk b 0); Ok a.

#[global] Arguments take_n : simpl never.
#[global] Arguments uint : simpl never.
#[global] Arguments u8 : simpl never.
#[global] Arguments u16 : simpl never.
#[global] Arguments u32 : simpl never.
#[global] Arguments u64 : simpl never.
#[global] Arguments bytes_field : simpl never.
#[global] Arguments array_field : simpl never.

(** ** What a parser reads and what it yields *)

(** At [w] followed by anything, [p] returns [a] and stands after [w]. *)
Definition reads {A} (p : parser A) (w : bytes) (a : A) : Prop :=
  forall pre post, zlen (pre ++ w ++ post) <= usize_max ->
    p (Cursor.mk (pre ++ w ++ post) (zlen pre))
    = Ok (a, Cursor.mk (pre ++ w ++ post) (zlen pre + zlen w)).

(** Started in range, [p] does not panic, and when it returns [a] it has read
    some [w] with [F a w]. *)
Definition yields {A} (p : parser A) (F : A -> bytes -> Prop) : Prop :=
  forall pre rest, bytes_ok rest ->
    match p (Cursor.mk (pre ++ rest) (zlen pre)) with
    | Ok (a, c') => exists w post, rest = w ++ post /\
        c' = Cursor.mk (pre ++ rest) (zlen pre + zlen w) /\ F a w
    | Err _ => True
    | Panic => False
    end.

Lemma reads_bind {A B} (p : parser A) (k : A -> parser B) w1 w2 a b :
  reads p w1 a -> reads (k a) w2 b -> reads (mbind k p) (w1 ++ w2) b.
Proof.
  intros H1 H2 pre post Hl. unfold mbind, parser_bind.
  rewrite <- (app_assoc w1) in *. rewrite (H1 pre (w2 ++ post)) by done.
  specialize (H2 (pre ++ w1) post). rewrite <- app_assoc, (zlen_app pre w1) in H2.
  rewrite H2 by done. rewrite zlen_app. do 3 f_equal. lia.
Qed.

Lemma reads_lift {A} (r : Result A) a : r = Ok a -> reads (lift r) [] a.
Proof. intros -> pre post Hl. simpl. rewrite zlen_nil, Z.add_0_r. done. Qed.

Lemma reads_ret {A} (a : A) : reads (mret a) [] a.
Proof. intros pre post Hl. unfold mret, parser_ret. by rewrite zlen_nil, Z.add_0_r. Qed.

(** A step that reads nothing. *)
Lemma reads_bind_nil {A B} (p : parser A) (k : A -> parser B) w a b :
  reads p [] a -> reads (k a) w b -> reads (mbind k p) w b.
Proof. intros H1 H2. by apply (reads_bind p k [] w a b). Qed.

Lemma reads_take w : reads (take_n (zlen w)) w w.
Proof.
  intros pre post Hl. unfold take_n. simpl Cursor.pos. simpl Cursor.data.
  assert (zlen pre + zlen w <= zlen (pre ++ w ++ post)) by zlen_lia.
  unfold checked_add. rewrite (proj2 (Z.leb_le _ _)) by lia. rsimpl.
  rewrite (proj2 (Z.ltb_ge _ _)) by lia. rewrite slice_mid. done.
Qed.

Lemma reads_uint n v :
  0 <= v < 256 ^ Z.of_nat n -> reads (uint (Z.of_nat n)) (to_be n v) v.
Proof.
  intros Hv. unfold uint. rewrite <- (app_nil_r (to_be n v)).
  eapply reads_bind.
  { rewrite <- (zlen_to_be n v) at 1. apply reads_take. }
  eapply reads_bind_nil.
  { apply reads_lift. unfold to_array. by rewrite zlen_to_be, Z.eqb_refl. }
  rewrite <- (from_to_be n v Hv) at 2. apply reads_ret.
Qed.

Lemma reads_u8 b : reads u8 [b] b.
Proof.
  unfold u8. change [b] with ([b] ++ []). eapply reads_bind.
  { apply (reads_take [b]). }
  by apply reads_lift.
Qed.

Lemma reads_u32 v : in_u32 v -> reads u32 (to_be 4 v) v.
Proof. intros [? ?]. apply (reads_uint 4). unfold u32_max in *. lia. Qed.

Lemma reads_u64 v : in_u64 v -> reads u64 (to_be 8 v) v.
Proof. intros [? ?]. apply (reads_uint 8). unfold u64_max in *. lia. Qed.

Lemma reads_field w : zlen w <= u16_max -> reads bytes_field (to_be 2 (zlen w) ++ w) w.
Proof.
  intros H. unfold bytes_field. eapply reads_bind; [|apply reads_take].
  apply (reads_uint 2). unfold u16_max in H. zlen_pos. lia.
Qed.

Lemma reads_array n w : zlen w = n -> reads (array_field n) w w.
Proof.
  intros <-. unfold array_field. rewrite <- (app_nil_r w) at 2. eapply reads_bind.
  { apply reads_take. }
  apply reads_lift. unfold to_array. by rewrite Z.eqb_refl.
Qed.

Lemma reads_take_eq n w : zlen w = n -> reads (take_n n) w w.
Proof. intros <-. apply reads_take. Qed.

(** Running over the whole string when [finish] ends the parser. *)
Lemma run_reads {A B} (p : parser A) (k : A -> B) why w a :
  reads p w a -> zlen w <= usize_max ->
  run_cursor (x ← p; _ ← finish why; mret (k x)) w = Ok (k a).
Proof.
  intros H Hl. unfold run_cursor, mbind at 2, parser_bind.
  specialize (H [] []). simpl in H. rewrite app_nil_r in H.
  change (zlen (@nil Z)) with 0 in H. rewrite H by done.
  unfold mbind at 2, parser_bind, finish. simpl Cursor.pos. simpl Cursor.data.
  rewrite Z.add_0_l, Z.eqb_refl. done.
Qed.

(** ** Composing [yields] *)

Lemma yields_bind {A B} (p : parser A) (k : A -> parser B) F G :
  yields p F -> (forall a w, F a w -> yields (k a) (fun b w' => G b (w ++ w'))) ->
  yields (mbind k p) G.
Proof.
  intros H1 H2 pre rest Hok. unfold mbind, parser_bind. specialize (H1 pre rest Hok).
  destruct (p _) as [[a c']| |]; [|done|done].
  destruct H1 as (w & post & -> & -> & HF). apply bytes_ok_app in Hok as [_ Hpost].
  specialize (H2 a w HF (pre ++ w) post Hpost). rewrite <- app_assoc, (zlen_app pre w) in H2.
  destruct (k a _) as [[b c'']| |]; [|done|done].
  destruct H2 as (w' & post' & -> & -> & HG). exists (w ++ w'), post'.
  rewrite <- app_assoc, zlen_app. split_and!; try done. by rewrite Z.add_assoc.
Qed.

Lemma yields_weaken {A} (p : parser A) (F G : A -> bytes -> Prop) :
  yields p F -> (forall a w, F a w -> G a w) -> yields p G.
Proof.
  intros H HG pre rest Hok. specialize (H pre rest Hok). destruct (p _) as [[a c']| |]; try done.
  destruct H as (w & post & ? & ? & ?). exists w, post. auto.
Qed.

Lemma yields_ret {A} (a : A) F : F a [] -> yields (mret a) F.
Proof.
  intros H pre rest _. exists [], rest. rewrite zlen_nil, Z.add_0_r. by split_and!.
Qed.

Lemma yields_lift {A} (r : Result A) F :
  r <> Panic -> (forall a, r = Ok a -> F a []) -> yields (lift r) F.
Proof.
  intros Hp H pre rest _. unfold lift. destruct r as [a| |]; try done.
  exists [], rest. rewrite zlen_nil, Z.add_0_r. by split_and!; try apply H.
Qed.

(** [if bad { return Err(e) }] inside a parser. *)
Lemma yields_guard {A} (b : bool) e (p : parser A) F :
  (b = true -> yields p F) -> yields (_ ← lift (ensure b e); p) F.
Proof. intros H pre rest Hok. destruct b; simpl; [|done]. by apply H. Qed.

Lemma yields_take n : 0 <= n -> yields (take_n n) (fun a w => a = w /\ bytes_ok w /\ zlen w = n).
Proof.
  intros Hn pre rest Hok. unfold take_n. simpl Cursor.pos. simpl Cursor.data.
  destruct (checked_add _ _ _) as [stop|] eqn:E; rsimpl; [|done].
  unfold checked_add in E. destruct (_ <=? usize_max); [|done]. injection E as <-.
  destruct (Z.ltb_spec (zlen (pre ++ rest)) (zlen pre + n)) as [|Hle]; [done|].
  rewrite slice_Ok by zlen_lia. rsimpl.
  replace (Z.to_nat (zlen pre)) with (length pre) by (unfold zlen; lia).
  rewrite drop_app_length. replace (zlen pre + n - zlen pre) with n by lia.
  exists (take (Z.to_nat n) rest), (drop (Z.to_nat n) rest).
  assert (zlen (take (Z.to_nat n) rest) = n).
  { zlen_simpl. unfold zlen in *. rewrite length_take. lia. }
  split_and!; try done; [by rewrite take_drop|congruence|by apply bytes_ok_take].
Qed.

Lemma yields_array n :
  0 <= n -> yields (array_field n) (fun a w => a = w /\ bytes_ok w /\ zlen w = n).
Proof.
  intros Hn. unfold array_field. eapply yields_bind; [by apply yields_take|].
  simpl. intros a w (-> & Hok & Hl). unfold to_array.
  apply yields_lift; rewrite (proj2 (Z.eqb_eq _ _) Hl); [done|].
  intros ? [= <-]. by rewrite app_nil_r.
Qed.

Lemma yields_uint n :
  yields (uint (Z.of_nat n)) (fun v w => w = to_be n v /\ 0 <= v < 256 ^ Z.of_nat n).
Proof.
  unfold uint. eapply yields_bind; [apply yields_take; lia|].
  simpl. intros a w (-> & Hok & Hl).
  eapply yields_bind; [apply (yields_lift _ (fun a' w' => a' = w /\ w' = []))|].
  - unfold to_array. by rewrite (proj2 (Z.eqb_eq _ _) Hl).
  - unfold to_array. rewrite (proj2 (Z.eqb_eq _ _) Hl). by intros ? [= <-].
  - simpl. intros ? ? [-> ->]. apply yields_ret. rewrite !app_nil_r.
    pose proof (from_be_bound w Hok) as Hb. rewrite Hl in Hb. split; [|done].
    pose proof (to_from_be w Hok) as Ht. replace (length w) with n in Ht; [done|].
    unfold zlen in Hl. lia.
Qed.

Lemma yields_u8 : yields u8 (fun v w => w = [v] /\ byte_ok v).
Proof.
  unfold u8. eapply yields_bind; [apply yields_take; lia|].
  simpl. intros a w (-> & Hok & Hl). destruct w as [|b [|]]; [done| |zlen_lia].
  apply yields_lift; [done|]. intros x [= <-]. apply Forall_cons in Hok as [? _]. done.
Qed.

Lemma yields_field :
  yields bytes_field (fun a w => w = to_be 2 (zlen a) ++ a /\ bytes_ok a /\ zlen a <= u16_max).
Proof.
  unfold bytes_field. eapply yields_bind; [apply (yields_uint 2)|].
  simpl. intros len w (-> & Hb). eapply yields_weaken; [apply yields_take; lia|].
  simpl. intros a w (-> & Hok & <-). split_and!; try done. unfold u16_max. lia.
Qed.

Lemma yields_u32 : yields u32 (fun v w => w = to_be 4 v /\ in_u32 v).
Proof.
  eapply yields_weaken; [apply (yields_uint 4)|]. simpl. intros a w [-> H].
  split; [done|]. unfold in_u32, u32_max. lia.
Qed.

Lemma yields_u64 : yields u64 (fun v w => w = to_be 8 v /\ in_u64 v).
Proof.
  eapply yields_weaken; [apply (yields_uint 8)|]. simpl. intros a w [-> H].
  split; [done|]. unfold in_u64, u64_max. lia.
Qed.

Lemma yields_utf8 b F :
  (forall a, from_utf8 b = Some a -> F a []) -> yields (lift (utf8 b)) F.
Proof.
  intros H. apply yields_lift; unfold utf8; destruct (from_utf8 b); simpl; try done.
  intros a [= <-]. by apply H.
Qed.

(** A parser that ends with [finish] accepts exactly whole words. *)
Lemma run_yields {A B} (p : parser A) (k : A -> B) why F b :
  yields p F -> bytes_ok b ->
  match run_cursor (x ← p; _ ← finish why; mret (k x)) b with
  | Ok r => exists a, r = k a /\ F a b
  | Err _ => True
  | Panic => False
  end.
Proof.
  intros H Hok. specialize (H [] b Hok). simpl in H. rewrite zlen_nil in H.
  unfold run_cursor, mbind at 2, parser_bind.
  destruct (p _) as [[a c']| |]; [|done|done].
  destruct H as (w & post & -> & -> & HF). unfold mbind at 2, parser_bind, finish.
  simpl Cursor.pos. simpl Cursor.data.
  destruct (Z.eqb_spec (0 + zlen w) (zlen (w ++ post))) as [E|]; [|done].
  rewrite zlen_app in E. rewrite (zlen_0_nil post) in * by lia. rewrite app_nil_r.
  simpl. by exists a.
Qed.

#[export] Hint Resolve reads_u8 reads_u32 reads_u64 reads_field reads_array reads_take_eq
  reads_ret : titlan.

(** With both facts a whole-string run is characterised. *)
Lemma run_iff {A B} (p : parser A) (k : A -> B) why F b r :
  yields p F -> (forall a w, F a w -> reads p w a) -> bytes_ok b -> zlen b <= usize_max ->
  run_cursor (x ← p; _ ← finish why; mret (k x)) b = Ok r <-> exists a, r = k a /\ F a b.
Proof.
  intros Hy Hr Hok Hl. split.
  - intros E. pose proof (run_yields p k why F b Hy Hok) as H. by rewrite E in H.
  - intros (a & -> & HF). apply run_reads; auto.
Qed.

Lemma run_no_panic {A B} (p : parser A) (k : A -> B) why F b :
  yields p F -> bytes_ok b -> run_cursor (x ← p; _ ← finish why; mret (k x)) b <> Panic.
Proof. intros Hy Hok E. pose proof (run_yields p k why F b Hy Hok) as H. by rewrite E in H. Qed.
