(* ===== verification/Pairing.v ===== *)
(** Pairing payloads ([tezca-core/src/pairing.rs]): the key bundle, the signed
    offer with its validity window, the proof of scan, and the pair-ack and
    mailbox-update control payloads.  The library's primitives are arguments:
    the MAC, the signature, its verification and key decoding. *)

From S2P Require Import Prelude Errors Utf8 Config Cursor.

Definition FORMAT_VERSION : Z := 1.
Definition ABSENT_ID : Z := 4294967295.
Definition CONTROL_VERSION : Z := 1.
Definition MAILBOX_ID_LEN : Z := 43.
Definition PAIRING_SECRET_LEN : Z := 32.
Definition RECOVERY_CONTRIB_LEN : Z := 32.
Definition PAIR_ACK_V2 : Z := 2.
Definition MAILBOX_UPDATE_V1 : Z := 1.
Definition MAILBOX_UPDATE_V2 : Z := 2.
Definition MAILBOX_UPDATE_V3 : Z := 3.
Definition OFFER_VERSION_V3 : Z := 3.
Definition OFFER_SIG_LEN : Z := 64.

(** Appends a length-prefixed field; panics over 65535 bytes. *)
Definition put_bytes (out b : bytes) : Result bytes :=
  len ← expect (try_from_max u16_max (zlen b));
  Ok (out ++ to_be 2 len ++ b).

(** ** Key bundle *)

Module BundleData.
Record t := mk {
  address_name : bytes;
  registration_id : Z;
  device_id : Z;
  identity_key : bytes;
  signed_prekey_id : Z;
  signed_prekey_pub : bytes;
  signed_prekey_sig : bytes;
  kyber_prekey_id : Z;
  kyber_prekey_pub : bytes;
  kyber_prekey_sig : bytes;
  onetime_prekey : option (Z * bytes)
}.
End BundleData.

Definition serialize (d : BundleData.t) : Result bytes :=
  let out := [FORMAT_VERSION] in
  out ← put_bytes out (BundleData.address_name d);
  let out := out ++ to_be 4 (BundleData.registration_id d) in
  let out := out ++ to_be 4 (BundleData.device_id d) in
  out ← put_bytes out (BundleData.identity_key d);
  let out := out ++ to_be 4 (BundleData.signed_prekey_id d) in
  out ← put_bytes out (BundleData.signed_prekey_pub d);
  out ← put_bytes out (BundleData.signed_prekey_sig d);
  let out := out ++ to_be 4 (BundleData.kyber_prekey_id d) in
  out ← put_bytes out (BundleData.kyber_prekey_pub d);
  out ← put_bytes out (BundleData.kyber_prekey_sig d);
  match BundleData.onetime_prekey d with
  | Some (id, key) => put_bytes (out ++ to_be 4 id) key
  | None => put_bytes (out ++ to_be 4 ABSENT_ID) []
  end.

(** The reads of [parse] up to the trailing-bytes check: all fields, and the
    raw one-time prekey. *)
Definition bundle_fields : parser (BundleData.t * (Z * bytes)) :=
  version ← u8;
  _ ← lift (ensure (version =? FORMAT_VERSION) (Malformed "unknown pairing bundle version"));
  raw ← bytes_field;
  address_name ← lift (ok_or (from_utf8 raw) (Malformed "bundle address is not UTF-8"));
  registration_id ← u32;
  device_id ← u32;
  _ ← lift (ensure (device_id =? 1) (Malformed "unsupported device id in v1"));
  identity_key ← bytes_field;
  signed_prekey_id ← u32;
  signed_prekey_pub ← bytes_field;
  signed_prekey_sig ← bytes_field;
  kyber_prekey_id ← u32;
  kyber_prekey_pub ← bytes_field;
  kyber_prekey_sig ← bytes_field;
  _ ← lift (ensure (negb (zlen kyber_prekey_pub =? 0)) (Malformed "bundle lacks post-quantum prekey"));
  onetime_id ← u32;
  onetime_pub ← bytes_field;
  mret (BundleData.mk address_name registration_id device_id identity_key signed_prekey_id
          signed_prekey_pub signed_prekey_sig kyber_prekey_id kyber_prekey_pub kyber_prekey_sig None,
        (onetime_id, onetime_pub)).

Definition with_onetime (d : BundleData.t) (o : option (Z * bytes)) : BundleData.t :=
  BundleData.mk (BundleData.address_name d) (BundleData.registration_id d) (BundleData.device_id d)
    (BundleData.identity_key d) (BundleData.signed_prekey_id d) (BundleData.signed_prekey_pub d)
    (BundleData.signed_prekey_sig d) (BundleData.kyber_prekey_id d) (BundleData.kyber_prekey_pub d)
    (BundleData.kyber_prekey_sig d) o.

(** An id of [ABSENT_ID] means no one-time prekey, whatever bytes follow. *)
Definition finish_bundle (x : BundleData.t * (Z * bytes)) : BundleData.t :=
  let '(d, (id, key)) := x in
  with_onetime d (if id =? ABSENT_ID then None else Some (id, key)).

Definition parse (b : bytes) : Result BundleData.t :=
  run_cursor (x ← bundle_fields; _ ← finish "trailing bytes in pairing bundle";
              mret (finish_bundle x)) b.

(** ** Mailbox updates *)

Definition encode_routing (version : Z) (relay_url inbox_id : bytes) : Result bytes :=
  out ← put_bytes [version] relay_url; Ok (out ++ inbox_id).

Definition encode_mailbox_update := encode_routing CONTROL_VERSION.
Definition encode_mailbox_update_v3 := encode_routing MAILBOX_UPDATE_V3.

(** [c.u8()? != version], then the relay URL and the inbox id. *)
Definition routing_fields (version : Z) (why : string) : parser (bytes * bytes) :=
  v ← u8;
  _ ← lift (ensure (v =? version) (Malformed why));
  url ← bytes_field;
  relay_url ← lift (utf8 url);
  id ← take_n MAILBOX_ID_LEN;
  inbox_id ← lift (utf8 id);
  mret (relay_url, inbox_id).

Definition parse_mailbox_update (b : bytes) : Result (bytes * bytes) :=
  run_cursor (x ← routing_fields CONTROL_VERSION "unknown mailbox-update version";
              _ ← finish "trailing bytes in mailbox-update/1"; mret x) b.

Definition parse_mailbox_update_v3 (b : bytes) : Result (bytes * bytes) :=
  run_cursor (x ← routing_fields MAILBOX_UPDATE_V3 "unknown mailbox-update version";
              _ ← finish "trailing bytes in mailbox-update/3"; mret x) b.

Definition encode_mailbox_update_v2 (relay_url inbox_id root_contribution : bytes) : Result bytes :=
  out ← put_bytes [MAILBOX_UPDATE_V2] relay_url; Ok (out ++ inbox_id ++ root_contribution).

Definition mailbox_update_v2_fields : parser (bytes * bytes * bytes) :=
  '(relay_url, inbox_id) ← routing_fields MAILBOX_UPDATE_V2 "unknown mailbox-update version";
  contribution ← array_field RECOVERY_CONTRIB_LEN;
  mret (relay_url, inbox_id, contribution).

Definition parse_mailbox_update_v2 (b : bytes) : Result (bytes * bytes * bytes) :=
  run_cursor (x ← mailbox_update_v2_fields;
              _ ← finish "trailing bytes in mailbox-update/2"; mret x) b.

(** ** Pairing offers *)

Module OfferV3.
Record t := mk {
  bundle : bytes;
  relay_url : bytes;
  pairing_inbox_id : bytes;
  pairing_secret : bytes;
  issued_at : Z;
  ttl_s : Z
}.
End OfferV3.

(** The serialized prefix that the signature covers. *)
Definition offer_prefix (o : OfferV3.t) : Result bytes :=
  out ← put_bytes [OFFER_VERSION_V3] (OfferV3.bundle o);
  out ← put_bytes out (OfferV3.relay_url o);
  Ok (out ++ OfferV3.pairing_inbox_id o ++ OfferV3.pairing_secret o
      ++ to_be 8 (OfferV3.issued_at o) ++ to_be 4 (OfferV3.ttl_s o)).

Definition offer_fields : parser OfferV3.t :=
  version ← u8;
  _ ← lift (ensure (version =? OFFER_VERSION_V3) (UnsupportedVersion version));
  bundle ← bytes_field;
  url ← bytes_field;
  relay_url ← lift (utf8 url);
  id ← take_n MAILBOX_ID_LEN;
  pairing_inbox_id ← lift (utf8 id);
  pairing_secret ← array_field PAIRING_SECRET_LEN;
  issued_at ← u64;
  ttl_s ← u32;
  _ ← take_n OFFER_SIG_LEN;
  mret (OfferV3.mk bundle relay_url pairing_inbox_id pairing_secret issued_at ttl_s).

Definition parse_offer_v3_structure (b : bytes) : Result OfferV3.t :=
  run_cursor (x ← offer_fields; _ ← finish "trailing bytes in pairing offer"; mret x) b.

(** [OfferValidity] is the pair of the two fields. *)
Definition peek_offer_validity (b : bytes) : Result (Z * Z) :=
  o ← parse_offer_v3_structure b; Ok (OfferV3.issued_at o, OfferV3.ttl_s o).

Section signatures.
Context {PrivateKey PublicKey : Type}.
(** [PrivateKey::calculate_signature], [PublicKey::deserialize] and
    [PublicKey::verify_signature] of the Signal library. *)
Variable calculate_signature : PrivateKey -> bytes -> Result bytes.
Variable deserialize : bytes -> Result PublicKey.
Variable verify_signature : PublicKey -> bytes -> bytes -> bool.

Definition encode_pairing_offer_v3 (o : OfferV3.t) (identity_private : PrivateKey) : Result bytes :=
  out ← offer_prefix o;
  sig ← calculate_signature identity_private out;
  _ ← ensure (zlen sig =? OFFER_SIG_LEN) (Signal "unexpected offer signature length");
  Ok (out ++ sig).

(** [bytes.split_at(mid)]: panics past the end. *)
Definition split_at (b : bytes) (mid : Z) : Result (bytes * bytes) :=
  l ← slice b 0 mid; r ← slice b mid (zlen b); Ok (l, r).

Definition parse_pairing_offer_v3 (b : bytes) (now : Z) : Result OfferV3.t :=
  offer ← parse_offer_v3_structure b;
  bundle_data ← parse (OfferV3.bundle offer);
  identity_key ← deserialize (BundleData.identity_key bundle_data);
  mid ← expect (checked_sub (zlen b) OFFER_SIG_LEN);
  '(prefix, sig) ← split_at b mid;
  _ ← ensure (verify_signature identity_key prefix sig) OfferSignatureInvalid;
  _ ← ensure (negb ((OfferV3.ttl_s offer =? 0) || (MAX_OFFER_TTL_S <? OfferV3.ttl_s offer)))
             (Malformed "offer ttl_s out of range");
  _ ← ensure (OfferV3.issued_at offer <=? saturating_add u64_max now FUTURE_SKEW_S)
             (OfferExpired (OfferV3.issued_at offer) (OfferV3.ttl_s offer) now NotYetValid);
  _ ← ensure (now <? saturating_add u64_max (OfferV3.issued_at offer) (OfferV3.ttl_s offer))
             (OfferExpired (OfferV3.issued_at offer) (OfferV3.ttl_s offer) now Expired);
  Ok offer.
End signatures.

(** ** Proof of scan and pair-ack *)

Module PairAckV2.
Record t := mk {
  responder_bundle : bytes;
  relay_url : bytes;
  inbox_id : bytes;
  root_contribution : bytes;
  proof : bytes
}.
End PairAckV2.

Definition pair_ack_fields : parser PairAckV2.t :=
  v ← u8;
  _ ← lift (ensure (v =? PAIR_ACK_V2) (Malformed "unknown pair-ack version"));
  responder_bundle ← bytes_field;
  url ← bytes_field;
  relay_url ← lift (utf8 url);
  id ← take_n MAILBOX_ID_LEN;
  inbox_id ← lift (utf8 id);
  root_contribution ← array_field RECOVERY_CONTRIB_LEN;
  proof ← array_field 32;
  mret (PairAckV2.mk responder_bundle relay_url inbox_id root_contribution proof).

Definition parse_pair_ack_v2 (b : bytes) : Result PairAckV2.t :=
  run_cursor (x ← pair_ack_fields; _ ← finish "trailing bytes in pair-ack/2"; mret x) b.

Section mac.
(** [CryptographicMac] with HmacSha256: key, data, digest. *)
Variable mac_finalize : bytes -> bytes -> bytes.

(** [arr.copy_from_slice(&out[..32])] *)
Definition hmac_sha256 (key data : bytes) : Result bytes := slice (mac_finalize key data) 0 32.

Definition compute_proof_of_scan (pairing_secret responder_bundle root_contribution : bytes)
    : Result bytes :=
  hmac_sha256 pairing_secret (responder_bundle ++ root_contribution).

(** The constant-time comparison decides equality. *)
Definition verify_proof_of_scan (pairing_secret responder_bundle root_contribution mac : bytes)
    : Result unit :=
  expected ← compute_proof_of_scan pairing_secret responder_bundle root_contribution;
  ensure (beq expected mac) ProofOfScanFailed.

Definition encode_pair_ack_v2
    (responder_bundle relay_url inbox_id root_contribution pairing_secret : bytes) : Result bytes :=
  proof ← compute_proof_of_scan pairing_secret responder_bundle root_contribution;
  out ← put_bytes [PAIR_ACK_V2] responder_bundle;
  out ← put_bytes out relay_url;
  Ok (out ++ inbox_id ++ root_contribution ++ proof).
End mac.

(** ** Wire forms *)

Definition field (b : bytes) : bytes := to_be 2 (zlen b) ++ b.

Definition field_ok (b : bytes) : Prop := bytes_ok b /\ zlen b <= u16_max.

Definition text_ok (b : bytes) : Prop := utf8_valid b = true /\ zlen b <= u16_max.

(** The wire form of a bundle with a raw one-time prekey [(id, key)]. *)
Definition bundle_wire (d : BundleData.t) (id : Z) (key : bytes) : bytes :=
  [FORMAT_VERSION] ++ field (BundleData.address_name d)
  ++ to_be 4 (BundleData.registration_id d) ++ to_be 4 (BundleData.device_id d)
  ++ field (BundleData.identity_key d)
  ++ to_be 4 (BundleData.signed_prekey_id d)
  ++ field (BundleData.signed_prekey_pub d) ++ field (BundleData.signed_prekey_sig d)
  ++ to_be 4 (BundleData.kyber_prekey_id d)
  ++ field (BundleData.kyber_prekey_pub d) ++ field (BundleData.kyber_prekey_sig d)
  ++ to_be 4 id ++ field key.

(** A bundle of protocol v1 with a post-quantum prekey. *)
Definition bundle_core_ok (d : BundleData.t) : Prop :=
  text_ok (BundleData.address_name d) /\ in_u32 (BundleData.registration_id d) /\
  BundleData.device_id d = 1 /\ field_ok (BundleData.identity_key d) /\
  in_u32 (BundleData.signed_prekey_id d) /\ field_ok (BundleData.signed_prekey_pub d) /\
  field_ok (BundleData.signed_prekey_sig d) /\ in_u32 (BundleData.kyber_prekey_id d) /\
  field_ok (BundleData.kyber_prekey_pub d) /\ BundleData.kyber_prekey_pub d <> [] /\
  field_ok (BundleData.kyber_prekey_sig d).

Definition bundle_ok (d : BundleData.t) : Prop :=
  bundle_core_ok d /\
  match BundleData.onetime_prekey d with
  | Some (id, key) => in_u32 id /\ id <> ABSENT_ID /\ field_ok key
  | None => True
  end.

Definition raw_onetime (d : BundleData.t) : Z * bytes :=
  default (ABSENT_ID, []) (BundleData.onetime_prekey d).

Definition offer_wire (o : OfferV3.t) : bytes :=
  [OFFER_VERSION_V3] ++ field (OfferV3.bundle o) ++ field (OfferV3.relay_url o)
  ++ OfferV3.pairing_inbox_id o ++ OfferV3.pairing_secret o
  ++ to_be 8 (OfferV3.issued_at o) ++ to_be 4 (OfferV3.ttl_s o).

Definition inbox_ok (id : bytes) : Prop := utf8_valid id = true /\ zlen id = MAILBOX_ID_LEN.

Definition offer_ok (o : OfferV3.t) : Prop :=
  field_ok (OfferV3.bundle o) /\ text_ok (OfferV3.relay_url o) /\
  inbox_ok (OfferV3.pairing_inbox_id o) /\
  bytes_ok (OfferV3.pairing_secret o) /\ zlen (OfferV3.pairing_secret o) = PAIRING_SECRET_LEN /\
  in_u64 (OfferV3.issued_at o) /\ in_u32 (OfferV3.ttl_s o).

Definition routing_wire (version : Z) (url inbox : bytes) : bytes := [version] ++ field url ++ inbox.

Definition pair_ack_wire (a : PairAckV2.t) : bytes :=
  [PAIR_ACK_V2] ++ field (PairAckV2.responder_bundle a) ++ field (PairAckV2.relay_url a)
  ++ PairAckV2.inbox_id a ++ PairAckV2.root_contribution a ++ PairAckV2.proof a.

Definition array32_ok (b : bytes) : Prop := bytes_ok b /\ zlen b = 32.

Definition pair_ack_ok (a : PairAckV2.t) : Prop :=
  field_ok (PairAckV2.responder_bundle a) /\ text_ok (PairAckV2.relay_url a) /\
  inbox_ok (PairAckV2.inbox_id a) /\ array32_ok (PairAckV2.root_contribution a) /\
  array32_ok (PairAckV2.proof a).

(** ** Parsers accept exactly their wire forms *)

Lemma put_bytes_Ok out b : zlen b <= u16_max -> put_bytes out b = Ok (out ++ field b).
Proof.
  intros H. unfold put_bytes, try_from_max. rewrite (proj2 (Z.leb_le _ _)) by done. done.
Qed.

Lemma reads_utf8 b : utf8_valid b = true -> reads (lift (utf8 b)) [] b.
Proof. intros H. apply reads_lift. unfold utf8, from_utf8. by rewrite H. Qed.

Lemma reads_ensure (c : bool) e : c = true -> reads (lift (ensure c e)) [] tt.
Proof. intros ->. by apply reads_lift. Qed.

Lemma zlen_field b : zlen (field b) = 2 + zlen b.
Proof. unfold field. zlen_lia. Qed.

Lemma reads_field_wire b : zlen b <= u16_max -> reads bytes_field (field b) b.
Proof. apply reads_field. Qed.

#[export] Hint Rewrite zlen_field : zlen_rw.
#[export] Hint Resolve reads_utf8 reads_ensure reads_field_wire : titlan.

(** One read of a parser against the next piece of its wire form. *)
Ltac rd := eapply reads_bind; [solve [eauto with titlan]|cbv beta].
Ltac rd0 := eapply reads_bind_nil; [solve [eauto with titlan]|cbv beta].

Lemma reads_bundle d id key :
  bundle_core_ok d -> in_u32 id -> field_ok key ->
  reads bundle_fields (bundle_wire d id key) (with_onetime d None, (id, key)).
Proof.
  intros ([Hn1 Hn2] & Hr & Hd & [_ Hi] & Hs & [_ Hsp] & [_ Hss] & Hk & [_ Hkp] & Hne & [_ Hks]) Hid [_ Hkey].
  assert (Hdev : in_u32 (BundleData.device_id d)) by (rewrite Hd; unfold in_u32, u32_max; lia).
  unfold bundle_fields, bundle_wire. rd. rd0. rd.
  eapply reads_bind_nil; [apply reads_lift; unfold from_utf8; by rewrite Hn1|cbv beta].
  rd. rd. eapply reads_bind_nil; [apply reads_ensure; by rewrite Hd|].
  rd. rd. rd. rd. rd. rd. rd. eapply reads_bind_nil.
  { apply reads_ensure. apply negb_true_iff, Z.eqb_neq. intros H0. apply Hne, zlen_0_nil. lia. }
  rd. rewrite <- (app_nil_r (field key)). rd. apply reads_ret.
Qed.

Lemma reads_routing version why url inbox :
  text_ok url -> inbox_ok inbox ->
  reads (routing_fields version why) (routing_wire version url inbox) (url, inbox).
Proof.
  intros [Hu1 Hu2] [Hi1 Hi2]. unfold routing_fields, routing_wire.
  rd. eapply reads_bind_nil; [apply reads_ensure, Z.eqb_refl|]. rd. rd0.
  rewrite <- (app_nil_r inbox) at 1. rd. rd0. apply reads_ret.
Qed.

(** The lengths and encodings the reader of an offer relies on. *)
Definition offer_shape (o : OfferV3.t) : Prop :=
  zlen (OfferV3.bundle o) <= u16_max /\ text_ok (OfferV3.relay_url o) /\
  inbox_ok (OfferV3.pairing_inbox_id o) /\ zlen (OfferV3.pairing_secret o) = PAIRING_SECRET_LEN /\
  in_u64 (OfferV3.issued_at o) /\ in_u32 (OfferV3.ttl_s o).

Lemma offer_ok_shape o : offer_ok o -> offer_shape o.
Proof. by intros ([_ ?] & ? & ? & _ & ? & ? & ?). Qed.

Lemma reads_offer o sig :
  offer_shape o -> zlen sig = OFFER_SIG_LEN -> reads offer_fields (offer_wire o ++ sig) o.
Proof.
  intros (Hb & [Hu1 Hu2] & [Hi1 Hi2] & Hpl & Hia & Htt) Hsig.
  unfold offer_fields, offer_wire. rewrite <- !app_assoc.
  rd. rd0. rd. rd. rd0. rd. rd0. rd. rd. rd. rewrite <- (app_nil_r sig). rd.
  destruct o. apply reads_ret.
Qed.

(** The lengths and encodings the reader relies on. *)
Definition pair_ack_shape (a : PairAckV2.t) : Prop :=
  zlen (PairAckV2.responder_bundle a) <= u16_max /\ text_ok (PairAckV2.relay_url a) /\
  inbox_ok (PairAckV2.inbox_id a) /\ zlen (PairAckV2.root_contribution a) = 32 /\
  zlen (PairAckV2.proof a) = 32.

Lemma pair_ack_ok_shape a : pair_ack_ok a -> pair_ack_shape a.
Proof. by intros ([_ ?] & ? & ? & [_ ?] & [_ ?]). Qed.

Lemma reads_pair_ack a : pair_ack_shape a -> reads pair_ack_fields (pair_ack_wire a) a.
Proof.
  intros (Hb & [Hu1 Hu2] & [Hi1 Hi2] & Hcl & Hpl).
  unfold pair_ack_fields, pair_ack_wire.
  rd. rd0. rd. rd. rd0. rd. rd0. rd. rewrite <- (app_nil_r (PairAckV2.proof a)). rd.
  destruct a. apply reads_ret.
Qed.

Lemma yields_from_utf8 b e :
  yields (lift (ok_or (from_utf8 b) e)) (fun a w => a = b /\ utf8_valid b = true /\ w = []).
Proof.
  apply yields_lift; destruct (from_utf8 b) eqn:E; simpl; try done.
  intros a [= <-]. apply from_utf8_Some in E as [-> E]. done.
Qed.

Lemma yields_field_wire : yields bytes_field (fun a w => w = field a /\ field_ok a).
Proof. eapply yields_weaken; [apply yields_field|]. simpl. intros a w (-> & ? & ?). by split. Qed.

Lemma yields_take_len n : 0 <= n -> yields (take_n n) (fun a w => w = a /\ bytes_ok a /\ zlen a = n).
Proof. intros H. eapply yields_weaken; [by apply yields_take|]. simpl. naive_solver. Qed.

Lemma yields_array_len n :
  0 <= n -> yields (array_field n) (fun a w => w = a /\ bytes_ok a /\ zlen a = n).
Proof. intros H. eapply yields_weaken; [by apply yields_array|]. simpl. naive_solver. Qed.

#[export] Hint Resolve yields_u8 yields_u32 yields_u64 yields_field_wire yields_from_utf8 : titlan.

(** One read of a parser, with what it says of the bytes read. *)
Ltac yd :=
  eapply yields_bind;
  [first [apply yields_take_len; done | apply yields_array_len; done
         | apply yields_from_utf8 | solve [eauto with titlan]]
  |cbv beta; intros ? ? ?; destruct_and?; subst].
Ltac yg := apply yields_guard; intros ?; reflect_bools; subst.
Ltac yret := apply yields_ret; rewrite ?app_nil_r.

Lemma yields_bundle :
  yields bundle_fields (fun x w =>
    w = bundle_wire x.1 x.2.1 x.2.2 /\ bundle_core_ok x.1 /\
    BundleData.onetime_prekey x.1 = None /\ in_u32 x.2.1 /\ field_ok x.2.2).
Proof.
  unfold bundle_fields. yd. yg. yd. yd. yd. yd. yg. yd. yd. yd. yd. yd. yd. yd. yg. yd. yd.
  yret. unfold bundle_wire, bundle_core_ok, text_ok. simpl.
  split_and!; try done; try (by match goal with H : field_ok _ |- _ => apply H end).
  intros ->. done.
Qed.

Lemma yields_routing version why :
  yields (routing_fields version why) (fun x w =>
    w = routing_wire version x.1 x.2 /\ text_ok x.1 /\ inbox_ok x.2).
Proof.
  unfold routing_fields. yd. yg. yd. yd. yd. yd. yret. unfold routing_wire, text_ok, inbox_ok.
  simpl. split_and!; try done. by match goal with H : field_ok _ |- _ => apply H end.
Qed.

Lemma yields_offer :
  yields offer_fields (fun o w => exists sig,
    w = offer_wire o ++ sig /\ offer_ok o /\ zlen sig = OFFER_SIG_LEN).
Proof.
  unfold offer_fields. yd. yg. yd. yd. yd. yd. yd. yd. yd. yd.
  eapply yields_bind; [by apply yields_take_len|]. cbv beta. intros sig ? (-> & Hsig & Hl).
  yret. exists sig. unfold offer_wire, offer_ok, text_ok, inbox_ok.
  cbn [OfferV3.bundle OfferV3.relay_url OfferV3.pairing_inbox_id OfferV3.pairing_secret
       OfferV3.issued_at OfferV3.ttl_s].
  rewrite <- !app_assoc. split_and!; try done.
  by match goal with H : field_ok ?u |- zlen ?u <= _ => apply H end.
Qed.

Lemma yields_pair_ack :
  yields pair_ack_fields (fun a w => w = pair_ack_wire a /\ pair_ack_ok a).
Proof.
  unfold pair_ack_fields. yd. yg. yd. yd. yd. yd. yd. yd. yd. yret.
  unfold pair_ack_wire, pair_ack_ok, text_ok, inbox_ok, array32_ok. simpl. split_and!; try done.
  by match goal with H : field_ok ?u |- zlen ?u <= _ => apply H end.
Qed.

Lemma yields_mailbox_update_v2 :
  yields mailbox_update_v2_fields (fun x w =>
    w = routing_wire MAILBOX_UPDATE_V2 x.1.1 x.1.2 ++ x.2 /\ text_ok x.1.1 /\ inbox_ok x.1.2 /\
    array32_ok x.2).
Proof.
  unfold mailbox_update_v2_fields. eapply yields_bind; [apply yields_routing|].
  cbv beta. intros [u i] ? (-> & ? & ?). yd. yret. by split_and!.
Qed.

Lemma reads_mailbox_update_v2 u i c :
  text_ok u -> inbox_ok i -> zlen c = 32 ->
  reads mailbox_update_v2_fields (routing_wire MAILBOX_UPDATE_V2 u i ++ c) (u, i, c).
Proof.
  intros Hu Hi Hl. unfold mailbox_update_v2_fields.
  eapply reads_bind; [by apply reads_routing|cbv beta iota].
  rewrite <- (app_nil_r c) at 1. rd. apply reads_ret.
Qed.

Lemma bundle_iff b d :
  bytes_ok b -> zlen b <= usize_max ->
  parse b = Ok d <-> bundle_core_ok d /\ exists id key, b = bundle_wire d id key /\
    in_u32 id /\ field_ok key /\
    BundleData.onetime_prekey d = if id =? ABSENT_ID then None else Some (id, key).
Proof.
  intros Hok Hl. unfold parse. rewrite (run_iff _ _ _ _ b d yields_bundle); [|..|done|done].
  - split.
    + intros ([d0 [id key]] & -> & Hw & Hc & Hn & Hid & Hkey). simpl in *.
      split; [done|]. by exists id, key.
    + intros (Hc & id & key & -> & Hid & Hkey & Ho).
      exists (with_onetime d None, (id, key)). simpl. split_and!; try done.
      destruct d. simpl in *. unfold with_onetime. simpl. by rewrite Ho.
  - intros [d0 [id key]] w (-> & Hc & Hn & Hid & Hkey). simpl in *.
    pose proof (reads_bundle d0 id key Hc Hid Hkey) as H.
    replace (with_onetime d0 None) with d0 in H; [done|]. destruct d0. simpl in Hn. by subst.
Qed.

Lemma serialize_Ok d :
  bundle_core_ok d -> zlen (raw_onetime d).2 <= u16_max ->
  serialize d = Ok (bundle_wire d (raw_onetime d).1 (raw_onetime d).2).
Proof.
  intros ([_ ?] & _ & _ & [_ ?] & _ & [_ ?] & [_ ?] & _ & [_ ?] & _ & [_ ?]) Hk.
  unfold serialize, bundle_wire, raw_onetime in *.
  repeat (rewrite put_bytes_Ok by done; rsimpl).
  destruct (BundleData.onetime_prekey d) as [[id key]|]; simpl default in *;
    rewrite ?put_bytes_Ok by done; by rewrite <- !app_assoc.
Qed.

Lemma bytes_ok_field b : field_ok b -> bytes_ok (field b).
Proof. intros [? _]. apply bytes_ok_app. auto with titlan. Qed.

Lemma text_ok_field b : text_ok b -> field_ok b.
Proof. intros [H ?]. split; [by apply utf8_valid_bytes_ok|done]. Qed.

Lemma bundle_wire_ok d id key :
  bundle_core_ok d -> field_ok key ->
  bytes_ok (bundle_wire d id key) /\ zlen (bundle_wire d id key) <= usize_max.
Proof.
  intros (Hn%text_ok_field & _ & _ & ? & _ & ? & ? & _ & ? & _ & ?) Hkey. split.
  - unfold bundle_wire. rewrite !bytes_ok_app. split_and!; auto using bytes_ok_field with titlan.
    repeat constructor; unfold FORMAT_VERSION; lia.
  - unfold bundle_wire, field_ok, u16_max, usize_max in *. zlen_simpl. lia.
Qed.

Lemma offer_wire_ok o :
  offer_ok o -> bytes_ok (offer_wire o) /\ zlen (offer_wire o) + OFFER_SIG_LEN <= usize_max.
Proof.
  intros (Hb & Hu%text_ok_field & [Hi Hil] & Hp & Hpl & _ & _). split.
  - unfold offer_wire. rewrite !bytes_ok_app. apply utf8_valid_bytes_ok in Hi.
    split_and!; auto using bytes_ok_field with titlan.
    repeat constructor; unfold OFFER_VERSION_V3; lia.
  - unfold offer_wire, field_ok, u16_max, usize_max, OFFER_SIG_LEN, MAILBOX_ID_LEN,
      PAIRING_SECRET_LEN in *. zlen_simpl. lia.
Qed.

Lemma offer_structure_iff b o :
  bytes_ok b -> zlen b <= usize_max ->
  parse_offer_v3_structure b = Ok o <->
  exists sig, b = offer_wire o ++ sig /\ offer_ok o /\ zlen sig = OFFER_SIG_LEN.
Proof.
  intros Hok Hl. unfold parse_offer_v3_structure.
  pose proof (run_iff _ (fun x => x) "trailing bytes in pairing offer" _ b o yields_offer) as H.
  rewrite H; [|intros a w (sig & -> & ? & ?); apply reads_offer; [by apply offer_ok_shape|done]|done|done].
  split; [intros (a & -> & Hs)|intros Hs]; eauto.
Qed.

Lemma offer_prefix_Ok o : offer_ok o -> offer_prefix o = Ok (offer_wire o).
Proof.
  intros ([_ ?] & [_ ?] & _). unfold offer_prefix. rewrite put_bytes_Ok by done. rsimpl.
  rewrite put_bytes_Ok by done. rsimpl. unfold offer_wire. by rewrite <- !app_assoc.
Qed.

Lemma split_signature p sig :
  zlen sig = OFFER_SIG_LEN ->
  checked_sub (zlen (p ++ sig)) OFFER_SIG_LEN = Some (zlen p) /\
  split_at (p ++ sig) (zlen p) = Ok (p, sig).
Proof.
  intros Hs. split.
  - unfold checked_sub. rewrite (proj2 (Z.leb_le _ _)) by zlen_lia. f_equal. zlen_lia.
  - unfold split_at.
    pose proof (slice_mid (E:=CoreError) [] p sig) as H1. simpl in H1.
    rewrite zlen_nil, Z.add_0_l in H1. rewrite H1. rsimpl.
    pose proof (slice_mid (E:=CoreError) p sig []) as H2. rewrite app_nil_r in H2.
    rewrite zlen_app, H2. done.
Qed.

Lemma text_url_bytes u : text_ok u -> bytes_ok (field u).
Proof. intros H. by apply bytes_ok_field, text_ok_field. Qed.

Lemma encode_routing_iff version u i b :
  text_ok u -> encode_routing version u i = Ok b <-> b = routing_wire version u i.
Proof.
  intros [_ H]. unfold encode_routing. rewrite put_bytes_Ok by done. rsimpl.
  unfold routing_wire. rewrite <- app_assoc. split; [by intros [= <-]|by intros ->].
Qed.

Lemma routing_parse_iff version why trail b u i :
  bytes_ok b -> zlen b <= usize_max ->
  run_cursor (x ← routing_fields version why; _ ← finish trail; mret x) b = Ok (u, i) <->
  text_ok u /\ inbox_ok i /\ encode_routing version u i = Ok b.
Proof.
  intros Hok Hl.
  pose proof (run_iff _ (fun x => x) trail _ b (u, i) (yields_routing version why)) as H.
  rewrite H; [|intros [u' i'] w (-> & ? & ?); by apply reads_routing|done|done].
  split.
  - intros (a & <- & -> & Hu & Hi). split_and!; try done. by apply encode_routing_iff.
  - intros (Hu & Hi & Hb). apply encode_routing_iff in Hb; [|done]. by exists (u, i).
Qed.

Lemma hmac_len mf key d m : hmac_sha256 mf key d = Ok m -> zlen m = 32.
Proof. unfold hmac_sha256. intros (p & q & _ & _ & H)%slice_inv. lia. Qed.

Lemma put_bytes_inv out b out' : put_bytes out b = Ok out' -> zlen b <= u16_max /\ out' = out ++ field b.
Proof.
  unfold put_bytes. intros (len & Hl & [= <-])%bind_Ok. revert Hl. unfold try_from_max.
  destruct (_ <=? _) eqn:E; simpl; [|done]. reflect_bools. intros [= <-]. by split.
Qed.

Lemma zlen_pair_ack_wire a :
  pair_ack_shape a -> zlen (pair_ack_wire a) <= usize_max.
Proof.
  intros (? & [_ ?] & [_ ?] & ? & ?). unfold pair_ack_wire. zlen_simpl.
  unfold u16_max, usize_max, MAILBOX_ID_LEN in *. lia.
Qed.

(** A pair-ack that was encoded is read back with a proof that verifies. *)
Lemma pair_ack_read_back mac bundle url inbox c secret b :
  encode_pair_ack_v2 mac bundle url inbox c secret = Ok b ->
  utf8_valid url = true -> inbox_ok inbox -> zlen c = 32 ->
  exists proof, parse_pair_ack_v2 b = Ok (PairAckV2.mk bundle url inbox c proof) /\
    verify_proof_of_scan mac secret bundle c proof = Ok tt.
Proof.
  unfold encode_pair_ack_v2, verify_proof_of_scan, compute_proof_of_scan.
  intros (proof & Hp & (o1 & (Hb & ->)%put_bytes_inv & (o2 & (Hu & ->)%put_bytes_inv & [= <-])%bind_Ok)%bind_Ok)%bind_Ok Hutf Hi Hc.
  exists proof. rewrite Hp. rsimpl. rewrite beq_refl. split; [|done].
  set (a := PairAckV2.mk bundle url inbox c proof).
  assert (Ha : pair_ack_shape a) by (repeat split; [done|done|done|apply Hi|apply Hi|done|by eapply hmac_len]).
  unfold parse_pair_ack_v2. rewrite <- !app_assoc.
  change (_ :: _) with (pair_ack_wire a).
  apply (run_reads _ (fun x => x)); [by apply reads_pair_ack|by apply zlen_pair_ack_wire].
Qed.

Lemma pair_ack_parse_iff b a :
  bytes_ok b -> zlen b <= usize_max -> parse_pair_ack_v2 b = Ok a <-> pair_ack_ok a /\ b = pair_ack_wire a.
Proof.
  intros Hok Hl. unfold parse_pair_ack_v2.
  pose proof (run_iff _ (fun x => x) "trailing bytes in pair-ack/2" _ b a yields_pair_ack) as H.
  rewrite H; [|intros a' w (-> & ?); by apply reads_pair_ack, pair_ack_ok_shape|done|done].
  split; [intros (x & <- & ? & ?); done|]. intros [? ?]. by exists a.
Qed.

(** The encoder writes the wire form of its fields and the proof they get. *)
Lemma pair_ack_encode_wire mac secret a :
  compute_proof_of_scan mac secret (PairAckV2.responder_bundle a) (PairAckV2.root_contribution a)
    = Ok (PairAckV2.proof a) -> pair_ack_ok a ->
  encode_pair_ack_v2 mac (PairAckV2.responder_bundle a) (PairAckV2.relay_url a) (PairAckV2.inbox_id a)
    (PairAckV2.root_contribution a) secret = Ok (pair_ack_wire a).
Proof.
  intros Hp ([_ Hb] & [_ Hu] & _). unfold encode_pair_ack_v2. rewrite Hp. rsimpl.
  rewrite put_bytes_Ok by done. rsimpl. rewrite put_bytes_Ok by done. rsimpl.
  unfold pair_ack_wire. by rewrite <- !app_assoc.
Qed.

Lemma handoff_read_back url inbox c b :
  encode_mailbox_update_v2 url inbox c = Ok b ->
  utf8_valid url = true -> inbox_ok inbox -> zlen c = 32 ->
  parse_mailbox_update_v2 b = Ok (url, inbox, c).
Proof.
  unfold encode_mailbox_update_v2. intros (o & (Hl & ->)%put_bytes_inv & [= <-])%bind_Ok Hu Hi Hc.
  unfold parse_mailbox_update_v2. rewrite (app_assoc url).
  change (_ :: _) with (routing_wire MAILBOX_UPDATE_V2 url inbox ++ c).
  apply (run_reads _ (fun x => x)); [by apply reads_mailbox_update_v2|].
  destruct Hi as [_ Hi]. unfold routing_wire. zlen_simpl.
  unfold u16_max, usize_max, MAILBOX_ID_LEN in *. lia.
Qed.

(** What a decoder accepts of an encoded offer is that offer. *)
Lemma offer_read_back {PrivateKey PublicKey} (sign : PrivateKey -> bytes -> Result bytes)
    (deserialize : bytes -> Result PublicKey) verify o key b now o' :
  encode_pairing_offer_v3 sign o key = Ok b ->
  utf8_valid (OfferV3.relay_url o) = true -> inbox_ok (OfferV3.pairing_inbox_id o) ->
  zlen (OfferV3.pairing_secret o) = PAIRING_SECRET_LEN -> in_u64 (OfferV3.issued_at o) -> in_u32 (OfferV3.ttl_s o) ->
  parse_pairing_offer_v3 deserialize verify b now = Ok o' -> o' = o.
Proof.
  unfold encode_pairing_offer_v3, offer_prefix.
  intros (w & (o1 & (Hb & ->)%put_bytes_inv & (o2 & (Hu & ->)%put_bytes_inv & [= <-])%bind_Ok)%bind_Ok
    & (sig & _ & ([] & Hs%ensure_Ok & [= <-])%bind_Ok)%bind_Ok)%bind_Ok Hutf Hi Hl Hia Htt.
  reflect_bools. unfold parse_pairing_offer_v3. intros (x & Hx & E)%bind_Ok.
  assert (x = o) as ->.
  { assert (Hr : parse_offer_v3_structure (offer_wire o ++ sig) = Ok o).
    { apply (run_reads _ (fun x => x)); [by apply reads_offer|]. destruct Hi as [_ Hi]. unfold offer_wire. zlen_simpl.
      unfold u16_max, usize_max, MAILBOX_ID_LEN, OFFER_SIG_LEN, PAIRING_SECRET_LEN in *. lia. }
    unfold offer_wire in Hr. rewrite <- ?app_assoc in Hr. rewrite <- ?app_assoc in Hx. simpl in Hr, Hx. congruence. }
  repeat (apply bind_Ok in E as (? & _ & E);
    try match type of E with (let '(_, _) := ?p in _) = _ => destruct p end). by injection E.
Qed.

Lemma bundle_serialize_parse d :
  bundle_ok d -> exists b, serialize d = Ok b /\ parse b = Ok d.
Proof.
  intros [Hc Ho].
  assert (Hraw : in_u32 (raw_onetime d).1 /\ field_ok (raw_onetime d).2 /\
    BundleData.onetime_prekey d = if (raw_onetime d).1 =? ABSENT_ID then None else Some (raw_onetime d)).
  { unfold raw_onetime. destruct (BundleData.onetime_prekey d) as [[id key]|]; simpl.
    - destruct Ho as (? & Hne & ?). by rewrite (proj2 (Z.eqb_neq _ _) Hne).
    - unfold in_u32, field_ok. by_compute. }
  destruct Hraw as (H1 & H2 & H3). eexists. split; [by apply serialize_Ok; [|apply H2]|].
  destruct (bundle_wire_ok d (raw_onetime d).1 (raw_onetime d).2 Hc H2) as [Hb Hl].
  apply bundle_iff; [done|done|]. split; [done|].
  exists (raw_onetime d).1, (raw_onetime d).2. split_and!; try done. by destruct (raw_onetime d).
Qed.

(** ** Properties *)

Definition demo_bundle : BundleData.t :=
  BundleData.mk (bstr "alice") 7 1 [5; 1; 2; 3] 9 [5; 4] [8; 8] 11 [8; 1; 1] [9] (Some (3, [5; 6])).

Lemma demo_bundle_ok : bundle_ok demo_bundle.
Proof. unfold bundle_ok, bundle_core_ok, text_ok, field_ok, in_u32. by_compute. Qed.

(** What the bundle parser accepts.  On any byte string it does not
    panic, and it returns [d] exactly when the bytes are the wire form of [d]
    with nothing after them, [d] has device id 1 and a non-empty post-quantum
    key, and the one-time prekey is the raw pair unless its id is the absent
    marker (then the bytes that follow the marker are dropped). *)
Theorem bundle_parse_exact (b : bytes) (d : BundleData.t) :
  bytes_ok b -> zlen b <= usize_max ->
  parse b <> Panic /\
  (parse b = Ok d <-> bundle_core_ok d /\ exists id key, b = bundle_wire d id key /\
     in_u32 id /\ field_ok key /\
     BundleData.onetime_prekey d = if id =? ABSENT_ID then None else Some (id, key)).
Proof.
  intros Hok Hl. split; [by eapply run_no_panic; [apply yields_bundle|]|by apply bundle_iff].
Qed.

Lemma bundle_parse_exact_witness :
  let b := bundle_wire demo_bundle ABSENT_ID [1; 2; 3] in
  parse b = Ok (with_onetime demo_bundle None).
Proof.
  intros b.
  assert (H1 : bytes_ok b) by by_compute.
  assert (H2 : zlen b <= usize_max) by (vm_compute; congruence).
  destruct (bundle_parse_exact b (with_onetime demo_bundle None) H1 H2) as [_ [_ H]].
  apply H. split; [apply demo_bundle_ok|]. exists ABSENT_ID, [1; 2; 3].
    split; [reflexivity|]. unfold in_u32, field_ok. by_compute.
Defined.

(** C4: offer acceptance.  At clock [now] a byte string is accepted as offer
    [o] exactly when it is the wire form of [o] followed by a 64-byte
    signature that the identity key of the offer's own bundle verifies over
    all preceding bytes, its lifetime is between one second and a day, and
    [now] lies in the window from 300 s before issue up to, not including,
    issue plus lifetime. *)
Theorem offer_accept_iff {PublicKey : Type} (deserialize : bytes -> Result PublicKey)
    (verify_signature : PublicKey -> bytes -> bytes -> bool) (b : bytes) (now : Z) (o : OfferV3.t) :
  bytes_ok b -> zlen b <= usize_max -> 0 <= now < u64_max ->
  parse_pairing_offer_v3 deserialize verify_signature b now = Ok o <->
  exists sig d pk, b = offer_wire o ++ sig /\ zlen sig = OFFER_SIG_LEN /\ offer_ok o /\
    parse (OfferV3.bundle o) = Ok d /\ deserialize (BundleData.identity_key d) = Ok pk /\
    verify_signature pk (offer_wire o) sig = true /\
    1 <= OfferV3.ttl_s o <= MAX_OFFER_TTL_S /\
    OfferV3.issued_at o <= now + FUTURE_SKEW_S /\
    now < OfferV3.issued_at o + OfferV3.ttl_s o.
Proof.
  intros Hok Hl Hnow. unfold parse_pairing_offer_v3. split.
  - intros (o' & E & H)%bind_Ok. apply offer_structure_iff in E as (sig & -> & Ho & Hs); [|done..].
    apply bind_Ok in H as (d & Hd & H). apply bind_Ok in H as (pk & Hpk & H).
    destruct (split_signature (offer_wire o') sig Hs) as [E1 E2].
    revert H. rewrite E1. rsimpl. rewrite E2. rsimpl. intros H.
    apply bind_Ok in H as ([] & Hv%ensure_Ok & H). apply bind_Ok in H as ([] & Ht%ensure_Ok & H).
    apply bind_Ok in H as ([] & Hf%ensure_Ok & H). apply bind_Ok in H as ([] & He%ensure_Ok & H).
    injection H as ->. reflect_bools. destruct Ho as (? & ? & ? & ? & ? & [? ?] & [? ?]).
    unfold saturating_add in *. exists sig, d, pk. split_and!; try done; try lia.
  - intros (sig & d & pk & -> & Hs & Ho & Hd & Hpk & Hv & Ht & Hf & He).
    rewrite (proj2 (offer_structure_iff _ o Hok Hl)) by eauto. rsimpl. rewrite Hd. rsimpl.
    rewrite Hpk. rsimpl. destruct (split_signature (offer_wire o) sig Hs) as [-> E2]. rsimpl.
    rewrite E2. rsimpl. rewrite Hv. rsimpl.
    rewrite (proj2 (Z.eqb_neq (OfferV3.ttl_s o) 0)) by lia.
    rewrite (proj2 (Z.ltb_ge MAX_OFFER_TTL_S _)) by lia. rsimpl.
    destruct Ho as (? & ? & ? & ? & ? & [? ?] & [? ?]). unfold saturating_add.
    rewrite (proj2 (Z.leb_le _ _)) by lia. rsimpl.
    rewrite (proj2 (Z.ltb_lt _ _)) by lia. done.
Qed.

(** A toy signature for the witnesses: the first 64 bytes of the message. *)
Definition toy_sign (sk : unit) (m : bytes) : Result bytes := Ok (take 64 (m ++ replicate 64 0)).
Definition toy_verify (pk m sig : bytes) : bool := beq sig (take 64 (m ++ replicate 64 0)).

Definition demo_offer : OfferV3.t :=
  OfferV3.mk (bundle_wire demo_bundle 3 [5; 6]) (bstr "wss://relay.titlan.chat")
    (replicate 43 65) (replicate 32 9) 1000 3600.

Lemma demo_offer_ok : offer_ok demo_offer.
Proof. unfold offer_ok, text_ok, inbox_ok, field_ok, in_u64, in_u32. by_compute. Qed.

Lemma offer_accept_iff_witness :
  let b := offer_wire demo_offer ++ take 64 (offer_wire demo_offer ++ replicate 64 0) in
  parse_pairing_offer_v3 (fun k => Ok k) toy_verify b 4599 = Ok demo_offer.
Proof.
  intros b.
  assert (H1 : bytes_ok b) by by_compute.
  assert (H2 : zlen b <= usize_max) by (vm_compute; congruence).
  destruct (offer_accept_iff (fun k => Ok k) toy_verify b 4599 demo_offer H1 H2) as [_ H];
    [vm_compute; intuition congruence|].
  apply H. eexists _, demo_bundle, _. split; [reflexivity|]. split; [reflexivity|].
  split; [exact demo_offer_ok|]. split; [vm_compute; reflexivity|]. split; [reflexivity|].
  vm_compute. intuition congruence.
Defined.

(** C31: minting.  An offer whose fields fit, signed with a key whose public
    half is the identity key of its bundle, encodes without a panic, and the
    bytes are accepted as that very offer throughout its validity window;
    the countdown reads the same window from the bytes. *)
Theorem offer_mint_accept {PrivateKey PublicKey : Type}
    (calculate_signature : PrivateKey -> bytes -> Result bytes)
    (deserialize : bytes -> Result PublicKey)
    (verify_signature : PublicKey -> bytes -> bytes -> bool)
    (o : OfferV3.t) (sk : PrivateKey) (pk : PublicKey) (sig : bytes) (d : BundleData.t) (now : Z) :
  offer_ok o -> parse (OfferV3.bundle o) = Ok d ->
  deserialize (BundleData.identity_key d) = Ok pk ->
  calculate_signature sk (offer_wire o) = Ok sig -> bytes_ok sig -> zlen sig = OFFER_SIG_LEN ->
  verify_signature pk (offer_wire o) sig = true ->
  1 <= OfferV3.ttl_s o <= MAX_OFFER_TTL_S ->
  OfferV3.issued_at o - FUTURE_SKEW_S <= now < OfferV3.issued_at o + OfferV3.ttl_s o ->
  0 <= now < u64_max ->
  exists b, encode_pairing_offer_v3 calculate_signature o sk = Ok b /\
    parse_pairing_offer_v3 deserialize verify_signature b now = Ok o /\
    peek_offer_validity b = Ok (OfferV3.issued_at o, OfferV3.ttl_s o).
Proof.
  intros Ho Hd Hpk Hsig Hsb Hsl Hv Ht Hw Hnow. exists (offer_wire o ++ sig).
  destruct (offer_wire_ok o Ho) as [Hb Hl].
  assert (Hok : bytes_ok (offer_wire o ++ sig)) by (by apply bytes_ok_app).
  assert (Hlen : zlen (offer_wire o ++ sig) <= usize_max) by zlen_lia.
  assert (Hst : parse_offer_v3_structure (offer_wire o ++ sig) = Ok o)
    by (apply offer_structure_iff; eauto).
  split_and!.
  - unfold encode_pairing_offer_v3. rewrite offer_prefix_Ok by done. rsimpl. rewrite Hsig. rsimpl.
    by rewrite Hsl, Z.eqb_refl.
  - unfold parse_pairing_offer_v3. rewrite Hst. rsimpl. rewrite Hd. rsimpl. rewrite Hpk. rsimpl.
    destruct (split_signature (offer_wire o) sig Hsl) as [-> E2]. rsimpl. rewrite E2. rsimpl.
    rewrite Hv. rsimpl. rewrite (proj2 (Z.eqb_neq (OfferV3.ttl_s o) 0)) by lia.
    rewrite (proj2 (Z.ltb_ge MAX_OFFER_TTL_S _)) by lia. rsimpl.
    destruct Ho as (_ & _ & _ & _ & _ & [? ?] & _). unfold saturating_add.
    rewrite (proj2 (Z.leb_le _ _)) by lia. rsimpl. by rewrite (proj2 (Z.ltb_lt _ _)) by lia.
  - unfold peek_offer_validity. by rewrite Hst.
Qed.

Lemma offer_mint_accept_witness :
  exists b, encode_pairing_offer_v3 toy_sign demo_offer tt = Ok b /\
    parse_pairing_offer_v3 (fun k => Ok k) toy_verify b 700 = Ok demo_offer.
Proof.
  destruct (offer_mint_accept toy_sign (fun k => Ok k) toy_verify demo_offer tt
    (BundleData.identity_key demo_bundle) (take 64 (offer_wire demo_offer ++ replicate 64 0))
    demo_bundle 700 demo_offer_ok) as (b & H1 & H2 & _);
    [vm_compute; reflexivity|reflexivity|reflexivity|by_compute|reflexivity|vm_compute; reflexivity
    |vm_compute; intuition congruence|vm_compute; intuition congruence
    |vm_compute; intuition congruence|].
  exists b. split; [exact H1|exact H2].
Defined.

(** C32: control payloads.  On any byte string none of the four parsers
    panics.  Those of routing updates of version 1 and 3 and of the handoff of
    version 2 accept exactly what their encoders write; the version byte keeps
    them apart.  A pair-ack whose fields are well formed and whose proof is the
    one its secret gives is read from a byte string exactly when the encoder
    writes that string for these fields and this secret. *)
Theorem control_payloads_exact (mac : bytes -> bytes -> bytes) (b url inbox c secret : bytes) (a : PairAckV2.t) :
  bytes_ok b -> zlen b <= usize_max ->
  (parse_mailbox_update b <> Panic /\ parse_mailbox_update_v2 b <> Panic /\
   parse_mailbox_update_v3 b <> Panic /\ parse_pair_ack_v2 b <> Panic) /\
  (parse_mailbox_update b = Ok (url, inbox) <->
     text_ok url /\ inbox_ok inbox /\ encode_mailbox_update url inbox = Ok b) /\
  (parse_mailbox_update_v3 b = Ok (url, inbox) <->
     text_ok url /\ inbox_ok inbox /\ encode_mailbox_update_v3 url inbox = Ok b) /\
  (parse_mailbox_update_v2 b = Ok (url, inbox, c) <->
     text_ok url /\ inbox_ok inbox /\ array32_ok c /\ encode_mailbox_update_v2 url inbox c = Ok b) /\
  (compute_proof_of_scan mac secret (PairAckV2.responder_bundle a) (PairAckV2.root_contribution a)
     = Ok (PairAckV2.proof a) ->
   parse_pair_ack_v2 b = Ok a <->
     pair_ack_ok a /\
     encode_pair_ack_v2 mac (PairAckV2.responder_bundle a) (PairAckV2.relay_url a) (PairAckV2.inbox_id a)
       (PairAckV2.root_contribution a) secret = Ok b).
Proof.
  intros Hok Hl. split_and!.
  - eapply run_no_panic; [apply yields_routing|done].
  - eapply run_no_panic; [apply yields_mailbox_update_v2|done].
  - eapply run_no_panic; [apply yields_routing|done].
  - eapply run_no_panic; [apply yields_pair_ack|done].
  - by apply routing_parse_iff.
  - by apply routing_parse_iff.
  - unfold parse_mailbox_update_v2.
    pose proof (run_iff _ (fun x => x) "trailing bytes in mailbox-update/2" _ b (url, inbox, c)
                  yields_mailbox_update_v2) as H.
    rewrite H; [|intros [[u i] c'] w (-> & ? & ? & [_ ?]); by apply reads_mailbox_update_v2|done|done].
    assert (Henc : text_ok url -> encode_mailbox_update_v2 url inbox c = Ok b <->
      b = routing_wire MAILBOX_UPDATE_V2 url inbox ++ c).
    { intros [_ Hu]. unfold encode_mailbox_update_v2. rewrite put_bytes_Ok by done. rsimpl.
      unfold routing_wire. rewrite <- !app_assoc. split; [by intros [= <-]|by intros ->]. }
    split; [intros (x & <- & Hw & Hu & Hi & Hc); by rewrite Henc|].
    intros (Hu & Hi & Hc & Hb). rewrite Henc in Hb by done. by exists (url, inbox, c).
  - intros Hp. rewrite pair_ack_parse_iff by done. split; intros [Ha Hb]; (split; [done|]).
    + rewrite (pair_ack_encode_wire _ _ _ Hp Ha). by f_equal.
    + rewrite (pair_ack_encode_wire _ _ _ Hp Ha) in Hb. by injection Hb as <-.
Qed.

Lemma control_payloads_exact_witness :
  let mac := fun k m => take 32 (k ++ m ++ replicate 32 0) in
  let a := PairAckV2.mk [1; 2] (bstr "wss://r") (replicate 43 66) (replicate 32 7) (replicate 32 5) in
  exists b, encode_pair_ack_v2 mac [1; 2] (bstr "wss://r") (replicate 43 66) (replicate 32 7) (replicate 32 5) = Ok b /\
    parse_pair_ack_v2 b = Ok a.
Proof.
  intros mac a. exists (pair_ack_wire a). assert (Hb : bytes_ok (pair_ack_wire a)) by by_compute.
  destruct (control_payloads_exact mac (pair_ack_wire a) [] [] [] (replicate 32 5) a Hb) as (_ & _ & _ & _ & H);
    [vm_compute; congruence|].
  split; [vm_compute; reflexivity|]. apply H; [vm_compute; reflexivity|].
  split; [|vm_compute; reflexivity]. unfold pair_ack_ok, field_ok, text_ok, inbox_ok, array32_ok. by_compute.
Defined.

(** C33: proof of scan.  A pair-ack built from a bundle, routing and
    contribution parses back to exactly those fields, and its proof verifies
    under the same secret; and if the same proof verifies for another bundle
    or contribution, then two distinct messages have the same MAC. *)
Theorem proof_of_scan_binds (mac : bytes -> bytes -> bytes)
    (bundle url inbox c secret bundle' c' : bytes) :
  (forall k m, bytes_ok (mac k m) /\ 32 <= zlen (mac k m)) ->
  field_ok bundle -> text_ok url -> inbox_ok inbox -> array32_ok c -> zlen c' = 32 ->
  exists b proof,
    encode_pair_ack_v2 mac bundle url inbox c secret = Ok b /\
    parse_pair_ack_v2 b = Ok (PairAckV2.mk bundle url inbox c proof) /\
    verify_proof_of_scan mac secret bundle c proof = Ok tt /\
    (verify_proof_of_scan mac secret bundle' c' proof = Ok tt ->
     (bundle' = bundle /\ c' = c) \/
     (bundle' ++ c' <> bundle ++ c /\
      hmac_sha256 mac secret (bundle' ++ c') = hmac_sha256 mac secret (bundle ++ c))).
Proof.
  intros Hmac Hb Hu Hi Hc Hc'.
  destruct (Hmac secret (bundle ++ c)) as [Hmo Hml].
  assert (Hp : exists proof, hmac_sha256 mac secret (bundle ++ c) = Ok proof /\ array32_ok proof).
  { exists (take 32 (mac secret (bundle ++ c))). unfold hmac_sha256.
    rewrite slice_Ok by lia. change (Z.to_nat 0) with 0%nat. rewrite drop_0. split; [done|].
    split; [by apply bytes_ok_take|]. unfold zlen in *. rewrite length_take. lia. }
  destruct Hp as (proof & Hp & Hpo).
  assert (He : exists b, encode_pair_ack_v2 mac bundle url inbox c secret = Ok b).
  { unfold encode_pair_ack_v2, compute_proof_of_scan. rewrite Hp. rsimpl.
    rewrite put_bytes_Ok by apply Hb. rsimpl. rewrite put_bytes_Ok by apply Hu. rsimpl. by eexists. }
  destruct He as [b He].
  destruct (pair_ack_read_back _ _ _ _ _ _ _ He (proj1 Hu) Hi (proj2 Hc)) as (proof' & Hpa & Hv).
  assert (proof' = proof) as ->.
  { unfold verify_proof_of_scan, compute_proof_of_scan in Hv. rewrite Hp in Hv.
    apply ensure_Ok in Hv. by reflect_bools. }
  exists b, proof. split_and!; [done|done|done|].
  - unfold verify_proof_of_scan, compute_proof_of_scan. intros (m & Hm & Hb')%bind_Ok.
    apply ensure_Ok in Hb'. reflect_bools. subst m.
    destruct (decide (bundle' ++ c' = bundle ++ c)) as [E|]; [left|right; by rewrite Hm, Hp].
    apply app_inj_2 in E; [done|]. destruct Hc as [_ Hc]. unfold zlen in *. lia.
Qed.

Lemma proof_of_scan_binds_witness :
  exists b proof,
    encode_pair_ack_v2 (fun k m => to_be 32 (from_be k + from_be m)) [1; 2] (bstr "wss://r")
      (replicate 43 66) (replicate 32 7) (replicate 32 1) = Ok b /\
    parse_pair_ack_v2 b = Ok (PairAckV2.mk [1; 2] (bstr "wss://r") (replicate 43 66) (replicate 32 7) proof).
Proof.
  destruct (proof_of_scan_binds (fun k m => to_be 32 (from_be k + from_be m)) [1; 2] (bstr "wss://r")
    (replicate 43 66) (replicate 32 7) (replicate 32 1) [1; 2] (replicate 32 7))
    as (b & proof & H1 & H2 & _).
  - intros k m. split; [apply to_be_ok|]. rewrite zlen_to_be. lia.
  - unfold field_ok. by_compute.
  - unfold text_ok. by_compute.
  - unfold inbox_ok. by_compute.
  - unfold array32_ok. by_compute.
  - reflexivity.
  - exists b, proof. split; [exact H1|exact H2].
Defined.
