(* ===== verification/Recovery.v ===== *)
(** Derived recovery mailboxes ([tezca-core/src/recovery.rs]): the recovery
    hello, the derivation of mailbox ids from the shared root, and the
    convergence of the two parties' generations.  The MAC is an argument. *)

From S2P Require Import Prelude Errors Base64 Cursor Pairing.

Definition RECOVERY_HELLO_VERSION : Z := 1.
Definition RECOVERY_HELLO_NONCE_LEN : Z := 16.
Definition RECOVERY_WINDOW : Z := 4.
Definition RECOVERY_PROBE_CYCLES : Z := 3.
Definition MAILBOX_LABEL : bytes := bstr "titlan-recovery-mailbox-v1".

Definition encode_recovery_hello (generation : Z) (nonce : bytes) : bytes :=
  [RECOVERY_HELLO_VERSION] ++ to_be 4 generation ++ nonce.

Definition parse_recovery_hello (b : bytes) : Result (Z * bytes) :=
  if negb (zlen b =? 1 + 4 + RECOVERY_HELLO_NONCE_LEN) then Err (Malformed "recovery-hello wrong length")
  else
    v ← index b 0;
    if negb (v =? RECOVERY_HELLO_VERSION) then Err (Malformed "unknown recovery-hello version")
    else
      g ← slice b 1 5;
      g ← to_array 4 g;
      n ← slice b 5 (zlen b);
      n ← to_array RECOVERY_HELLO_NONCE_LEN n;
      Ok (from_be g, n).

(** Who owns a derived mailbox. *)
Inductive Role := Offerer | Responder.

#[export] Instance Role_eq_dec : EqDecision Role.
Proof. solve_decision. Defined.

Definition role_label (r : Role) : bytes :=
  match r with Offerer => bstr "offerer" | Responder => bstr "responder" end.

Section derive.
Variable mac_finalize : bytes -> bytes -> bytes.

Definition derive_root (a_contribution b_contribution : bytes) : Result bytes :=
  hmac_sha256 mac_finalize a_contribution b_contribution.

Definition derive_mailbox_id (root : bytes) (owner_role : Role) (generation : Z) : Result bytes :=
  let info := MAILBOX_LABEL ++ role_label owner_role ++ to_be 4 generation in
  m ← hmac_sha256 mac_finalize root info;
  Ok (base64url_nopad m).
End derive.

Module GenerationState.
Record t := mk { own : Z; peer : Z }.

(** [(peer..peer.saturating_add(W)).collect()] *)
Definition outbound_window (s : t) : list Z :=
  seqZ (peer s) (saturating_add u32_max (peer s) RECOVERY_WINDOW - peer s).

Definition converge (s : t) (peer_generation : Z) : bool * t :=
  let peer' := Z.max (peer s) peer_generation in
  let target := Z.max (own s) peer_generation in
  if target =? own s then (false, mk (own s) peer') else (true, mk target peer').

(** [own.abs_diff(peer) >= W] *)
Definition is_exhausted (s : t) : bool := RECOVERY_WINDOW <=? Z.abs (own s - peer s).

(** The receipt of a run of verified generations. *)
Definition receive (gs : list Z) (s : t) : t := foldl (fun s g => (converge s g).2) s gs.
End GenerationState.

Module ExhaustionTracker.
Record t := mk { cycles : Z }.
Definition new : t := mk 0.
Definition note_probe_cycle (e : t) : t := mk (saturating_add u32_max (cycles e) 1).
Definition reset (e : t) : t := mk 0.
Definition is_exhausted (e : t) : bool := RECOVERY_PROBE_CYCLES <=? cycles e.

(** [true]: a probe cycle without contact; [false]: a verified contact. *)
Definition observe (e : t) (probe : bool) : t := if probe then note_probe_cycle e else reset e.
End ExhaustionTracker.

(** ** Lemmas *)

Lemma derive_info_inj r g r' g' :
  in_u32 g -> in_u32 g' ->
  MAILBOX_LABEL ++ role_label r ++ to_be 4 g = MAILBOX_LABEL ++ role_label r' ++ to_be 4 g' ->
  r = r' /\ g = g'.
Proof.
  intros [? ?] [? ?] E. apply app_inv_head in E.
  assert (Hl : length (role_label r) = length (role_label r')).
  { apply (f_equal length) in E. rewrite !length_app, !length_to_be in E. lia. }
  apply app_inj_1 in E as [E1 E2]; [|done]. split; [by destruct r, r'|].
  unfold u32_max in *.
  rewrite <- (from_to_be 4 g), <- (from_to_be 4 g') by lia. by rewrite E2.
Qed.

Lemma converge_max s g :
  (GenerationState.converge s g).2
  = GenerationState.mk (Z.max (GenerationState.own s) g) (Z.max (GenerationState.peer s) g).
Proof.
  unfold GenerationState.converge. destruct (Z.eqb_spec (Z.max (GenerationState.own s) g)
    (GenerationState.own s)) as [E|]; simpl; [by rewrite E|done].
Qed.

Lemma receive_max gs s :
  GenerationState.receive gs s
  = GenerationState.mk (foldr Z.max (GenerationState.own s) gs) (foldr Z.max (GenerationState.peer s) gs).
Proof.
  unfold GenerationState.receive. revert s. induction gs as [|g gs IH]; intros s; simpl.
  { by destruct s. }
  rewrite IH, converge_max. simpl.
  assert (Hf : forall a, foldr Z.max (Z.max a g) gs = Z.max g (foldr Z.max a gs)).
  { intros a. clear. induction gs as [|h gs IH]; simpl; [lia|]. rewrite IH. lia. }
  by rewrite !Hf.
Qed.

Lemma max_foldr_perm a gs gs' : gs ≡ₚ gs' -> foldr Z.max a gs = foldr Z.max a gs'.
Proof. induction 1; simpl; lia. Qed.

(** ** Properties *)

(** Recovery hello.  The parser never panics and accepts exactly the 21
    bytes the encoder writes for a 32-bit generation and a 16-byte nonce. *)
Theorem recovery_hello_exact (b : bytes) (g : Z) (nonce : bytes) :
  bytes_ok b ->
  parse_recovery_hello b <> Panic /\
  (parse_recovery_hello b = Ok (g, nonce) <->
   in_u32 g /\ zlen nonce = RECOVERY_HELLO_NONCE_LEN /\ b = encode_recovery_hello g nonce).
Proof.
  intros Hok. unfold parse_recovery_hello, encode_recovery_hello, RECOVERY_HELLO_NONCE_LEN.
  destruct (Z.eqb_spec (zlen b) (1 + 4 + 16)) as [Hl|Hl]; rsimpl.
  2: { split; [done|]. split; [done|]. intros (_ & Hn & ->). exfalso. apply Hl. zlen_lia. }
  destruct b as [|v r]; [done|]. rewrite zlen_cons in Hl.
  change (@index CoreError (v :: r) 0) with (@index CoreError ([] ++ v :: r) (zlen (@nil Z))).
  rewrite index_app_head. rsimpl.
  destruct (Z.eqb_spec v RECOVERY_HELLO_VERSION) as [->|Hv]; rsimpl.
  2: { split; [done|]. split; [done|]. intros (_ & _ & E). by injection E. }
  rewrite <- (take_drop 4 r) in Hok, Hl |- *. set (gb := take 4 r) in *. set (nb := drop 4 r) in *.
  assert (Hgb : zlen gb = 4 /\ zlen nb = 16).
  { unfold gb, nb in *. unfold zlen in *. rewrite !length_app, length_take, length_drop in *. lia. }
  destruct Hgb as [Hgl Hnl].
  pose proof (slice_mid (E:=CoreError) [RECOVERY_HELLO_VERSION] gb nb) as E1. rewrite Hgl in E1.
  change (zlen [RECOVERY_HELLO_VERSION]) with 1 in E1. simpl app in E1.
  change (1 + 4) with 5 in E1.
  pose proof (slice_mid (E:=CoreError) (RECOVERY_HELLO_VERSION :: gb) nb []) as E2.
  rewrite app_nil_r, zlen_cons, Hgl in E2. simpl app in E2.
  change (1 + 4) with 5 in E2.
  assert (A1 : to_array 4 gb = Ok gb) by (unfold to_array; by rewrite Hgl).
  assert (A2 : to_array 16 nb = Ok nb) by (unfold to_array; by rewrite Hnl).
  rewrite E1. rsimpl. rewrite A1. rsimpl.
  replace (zlen (RECOVERY_HELLO_VERSION :: gb ++ nb)) with (5 + zlen nb) by zlen_lia.
  rewrite E2. rsimpl. rewrite A2. rsimpl. split; [done|].
  apply Forall_cons in Hok as [_ [Hgo Hno]%bytes_ok_app].
  pose proof (from_be_bound gb Hgo) as Hb. rewrite Hgl in Hb.
  pose proof (to_from_be gb Hgo) as Ht. replace (length gb) with 4%nat in Ht by (unfold zlen in Hgl; lia).
  split.
  - intros [= <- <-]. split_and!; [unfold in_u32, u32_max; lia|done|]. by rewrite Ht.
  - intros ([? ?] & Hn & E). apply (app_inv_head [RECOVERY_HELLO_VERSION]) in E.
    apply app_inj_1 in E as [-> ->].
    + rewrite from_to_be by (unfold u32_max in *; lia). done.
    + rewrite length_to_be. unfold zlen in Hgl. lia.
Qed.

Lemma recovery_hello_exact_witness :
  parse_recovery_hello (encode_recovery_hello 258 (replicate 16 7)) = Ok (258, replicate 16 7).
Proof.
  destruct (recovery_hello_exact (encode_recovery_hello 258 (replicate 16 7)) 258 (replicate 16 7))
    as [_ [_ H]]; [by_compute|].
  apply H. split; [vm_compute; intuition congruence|]. split; reflexivity.
Defined.

(** Derived mailbox ids.  With any MAC of at least 32 bytes every
    derived id has the shape the relay accepts, and two different owners or
    generations get the same id only if the MAC maps two distinct messages to
    the same digest. *)
Theorem derived_ids (mac : bytes -> bytes -> bytes) (root : bytes) (r r' : Role) (g g' : Z) :
  (forall k m, bytes_ok (mac k m) /\ 32 <= zlen (mac k m)) -> in_u32 g -> in_u32 g' ->
  exists id id', derive_mailbox_id mac root r g = Ok id /\ derive_mailbox_id mac root r' g' = Ok id' /\
    mailbox_id_shape_ok id = true /\
    (id = id' -> (r = r' /\ g = g') \/
       exists m m', m <> m' /\ hmac_sha256 mac root m = hmac_sha256 mac root m').
Proof.
  intros Hmac Hg Hg'. unfold derive_mailbox_id.
  assert (Hh : forall m, exists d, hmac_sha256 mac root m = Ok d /\ bytes_ok d /\ length d = 32%nat).
  { intros m. destruct (Hmac root m) as [Ho Hl]. unfold hmac_sha256. rewrite slice_Ok by lia.
    eexists. split; [done|]. change (Z.to_nat 0) with 0%nat. rewrite drop_0.
    split; [by apply bytes_ok_take|]. unfold zlen in Hl. rewrite length_take. lia. }
  destruct (Hh (MAILBOX_LABEL ++ role_label r ++ to_be 4 g)) as (d & E & Ho & Hl).
  destruct (Hh (MAILBOX_LABEL ++ role_label r' ++ to_be 4 g')) as (d' & E' & Ho' & Hl').
  rewrite E, E'. rsimpl. eexists _, _. split; [done|]. split; [done|].
  rewrite !base64url_nopad_eq. split; [by apply encoded_shape_ok|].
  intros Hid%encode_mailbox_id_inj; [|done|done|congruence]. subst d'.
  destruct (decide (r = r' /\ g = g')) as [?|Hne]; [by left|right].
  eexists _, _. split; [|by rewrite E, E']. intros Heq. apply Hne. by apply derive_info_inj.
Qed.

Lemma derived_ids_witness :
  exists id id',
    derive_mailbox_id (fun k m => to_be 32 (from_be k + from_be m)) (replicate 32 5) Offerer 1 = Ok id /\
    derive_mailbox_id (fun k m => to_be 32 (from_be k + from_be m)) (replicate 32 5) Responder 1 = Ok id' /\
    mailbox_id_shape_ok id = true.
Proof.
  destruct (derived_ids (fun k m => to_be 32 (from_be k + from_be m)) (replicate 32 5)
              Offerer Responder 1 1) as (id & id' & H1 & H2 & H3 & _).
  - intros k m. split; [apply to_be_ok|]. rewrite zlen_to_be. lia.
  - vm_compute; intuition congruence.
  - vm_compute; intuition congruence.
  - exists id, id'. split; [exact H1|]. split; [exact H2|exact H3].
Defined.

(** Convergence.  Whatever verified generations arrive, in any order and
    with any duplicates, a party ends at the maximum of its own generation and
    those received.  When each party hears the other's generation both stand
    at the same one; a party that knows the peer's generation up to less than
    the window away probes a list of generations that contains it; and neither
    needs repair afterwards unless the generations were a full window apart. *)
Theorem generations_converge (a b : GenerationState.t) (gs gs' : list Z) :
  let a' := GenerationState.receive gs a in
  let b' := GenerationState.receive gs' b in
  0 <= GenerationState.peer a -> GenerationState.peer a <= GenerationState.own b ->
  GenerationState.peer b <= GenerationState.own b ->
  GenerationState.own b < u32_max ->
  GenerationState.own b ∈ gs -> GenerationState.own a ∈ gs' ->
  Forall (fun g => g <= GenerationState.own b) gs -> Forall (fun g => g <= GenerationState.own a) gs' ->
  GenerationState.own a' = Z.max (GenerationState.own a) (GenerationState.own b) /\
  GenerationState.own b' = GenerationState.own a' /\
  (forall gs2, gs2 ≡ₚ gs -> GenerationState.receive gs2 a = a') /\
  (GenerationState.own b - GenerationState.peer a < RECOVERY_WINDOW ->
     GenerationState.own b ∈ GenerationState.outbound_window a) /\
  (GenerationState.is_exhausted a' = true <->
     RECOVERY_WINDOW <= GenerationState.own a - GenerationState.own b).
Proof.
  intros a' b' Hp0 Hp Hpb Hu Hb Ha Hgb Hga. unfold a', b'. rewrite !receive_max. simpl.
  assert (Hmax : forall l x m, x ∈ l -> Forall (fun g => g <= x) l -> foldr Z.max m l = Z.max m x).
  { clear. intros l x m Hx Hf.
    assert (Hle : foldr Z.max m l <= Z.max m x).
    { clear Hx. induction Hf; simpl; lia. }
    assert (Hge : m <= foldr Z.max m l) by (clear; induction l; simpl; lia).
    assert (Hgx : x <= foldr Z.max m l).
    { clear - Hx. induction l as [|y l IH]; [by apply elem_of_nil in Hx|].
      apply elem_of_cons in Hx as [->|Hx]; simpl; [lia|]. specialize (IH Hx). lia. }
    lia. }
  rewrite !(Hmax gs (GenerationState.own b)), (Hmax gs' (GenerationState.own a)) by done.
  split_and!; try lia.
  - intros gs2 Hperm. rewrite receive_max. f_equal; rewrite (max_foldr_perm _ _ _ Hperm);
      by rewrite (Hmax gs (GenerationState.own b)).
  - intros Hw. unfold GenerationState.outbound_window. apply elem_of_seqZ.
    unfold saturating_add, RECOVERY_WINDOW in *. lia.
  - unfold GenerationState.is_exhausted. simpl. unfold RECOVERY_WINDOW. rewrite Z.leb_le. lia.
Qed.

Lemma generations_converge_witness :
  let a := GenerationState.mk 5 2 in
  let b := GenerationState.mk 3 3 in
  GenerationState.own (GenerationState.receive [3; 1; 3] a)
  = GenerationState.own (GenerationState.receive [5] b).
Proof.
  intros a b. symmetry.
  apply (generations_converge a b [3; 1; 3] [5]); try (vm_compute; congruence); simpl.
  - set_solver.
  - set_solver.
  - repeat constructor; simpl; lia.
  - repeat constructor; simpl; lia.
Defined.

(** After any history of probe cycles and verified contacts
    (shorter than the counter's range) the tracker reports exhaustion exactly
    when at least three probe cycles have passed since the last contact. *)
Lemma exhaustion_after_three (before : list bool) (n : nat) :
  Z.of_nat n <= u32_max ->
  ExhaustionTracker.is_exhausted
    (foldl ExhaustionTracker.observe ExhaustionTracker.new (before ++ [false] ++ replicate n true))
  = bool_decide (3 <= n)%nat.
Proof.
  intros Hn. rewrite foldl_app, foldl_app. cbn [foldl]. unfold ExhaustionTracker.observe at 2.
  assert (H : forall k c, 0 <= c -> c + Z.of_nat k <= u32_max ->
    foldl ExhaustionTracker.observe (ExhaustionTracker.mk c) (replicate k true)
    = ExhaustionTracker.mk (c + Z.of_nat k)).
  { induction k as [|k IH]; intros c Hc Hk; simpl; [f_equal; lia|].
    unfold ExhaustionTracker.note_probe_cycle. simpl.
    replace (saturating_add u32_max c 1) with (c + 1) by (unfold saturating_add; lia).
    rewrite IH by lia. f_equal. lia. }
  unfold ExhaustionTracker.reset. rewrite H by lia. unfold ExhaustionTracker.is_exhausted. simpl.
  unfold RECOVERY_PROBE_CYCLES. destruct (decide (3 <= n)%nat) as [Hd|Hd].
  - rewrite bool_decide_eq_true_2 by done. by rewrite (proj2 (Z.leb_le _ _)) by lia.
  - rewrite bool_decide_eq_false_2 by done. by rewrite (proj2 (Z.leb_gt _ _)) by lia.
Qed.
