(* ===== verification/Storage.v ===== *)
(** The encrypted store ([tezca-core/src/storage/mod.rs], [storage/schema.rs]):
    the tables of schema version 4 as rows in rowid order, one definition per
    operation of [Store].  The database engine is not under the sources: what
    the statements do (primary keys, ordering, foreign keys when enabled) is
    its documented behaviour, and the text of its errors is the class
    [SqlText].  Ids, clocks and random bytes are arguments.  Labels are
    sequences of Unicode scalar values. *)

From S2P Require Import Prelude Errors Utf8 Config Envelope.

(** What the engine reports and the source maps through [sql_err]. *)
Inductive SqlError :=
  | QueryReturnedNoRows
  | ConstraintViolation
  | IntegralValueOutOfRange.

Class SqlText := sql_text : SqlError -> string.

Definition sql_err `{SqlText} (e : SqlError) : CoreError := Storage (sql_text e).

(** ** Rows *)

Inductive Direction := Outgoing | Incoming.

#[export] Instance Direction_eq_dec : EqDecision Direction.
Proof. solve_decision. Defined.

Definition direction_byte (d : Direction) : Z := match d with Outgoing => 0 | Incoming => 1 end.

Module ConvRow.
Record t := mk {
  id : bytes;
  peer_address : bytes;
  relay_url : bytes;
  mailbox_send : option bytes;
  mailbox_recv : option bytes;
  created_at : Z;
  relay_pin : option bytes;
  recovery_role : option Z;
  recovery_own_contrib : option bytes;
  recovery_peer_contrib : option bytes;
  recovery_root : option bytes;
  recovery_own_gen : Z;
  recovery_peer_gen : Z;
  label : option (list Z)
}.
End ConvRow.

Module MsgRow.
Record t := mk {
  id : bytes;
  conversation_id : bytes;
  direction : Z;
  payload_type : Z;
  type_version : Z;
  body : bytes;
  sent_at : option Z;
  received_at : option Z;
  status : Z
}.
End MsgRow.

(** The conversation and message tables, and whether the engine enforces the
    [REFERENCES] clause of [messages.conversation_id]. *)
Module Db.
Record t := mk {
  conversations : list ConvRow.t;
  messages : list MsgRow.t;
  foreign_keys : bool
}.
Definition with_conversations (d : t) (c : list ConvRow.t) : t := mk c (messages d) (foreign_keys d).
Definition with_messages (d : t) (m : list MsgRow.t) : t := mk (conversations d) m (foreign_keys d).
End Db.

(** ** Values read back *)

Module StoredMessage.
Record t := mk {
  id : bytes;
  conversation_id : bytes;
  direction : Direction;
  payload_type : Z;
  type_version : Z;
  body : bytes;
  sent_at : option Z;
  received_at : option Z
}.
End StoredMessage.

Module ConversationSummary.
Record t := mk { id : bytes; label : option (list Z); created_at : Z; last_activity_at : Z }.
End ConversationSummary.

Module Conversation.
Record t := mk {
  id : bytes;
  peer_address : bytes;
  relay_url : bytes;
  mailbox_send : option bytes;
  mailbox_recv : option bytes;
  relay_pin : option bytes
}.
End Conversation.

Module RecoveryRecord.
Record t := mk {
  role : option Z;
  own_contrib : option bytes;
  peer_contrib : option bytes;
  root : option bytes;
  own_gen : Z;
  peer_gen : Z
}.
End RecoveryRecord.

Definition MAX_LABEL_SCALARS : Z := 64.

Definition normalize_label (label : option (list Z)) : Result (option (list Z)) :=
  match label with
  | None => Ok None
  | Some raw =>
    if zlen raw =? 0 then Ok None
    else
      let trimmed := trim raw in
      _ ← ensure (negb (zlen trimmed =? 0)) (InvalidLabel "blank after trimming");
      _ ← ensure (negb (MAX_LABEL_SCALARS <? zlen trimmed))
                 (InvalidLabel "more than MAX_LABEL_SCALARS scalar values");
      _ ← ensure (negb (existsb is_control trimmed)) (InvalidLabel "control character");
      Ok (Some trimmed)
  end.

(** [blob16] and [blob32]: cut or zero-padded to the array. *)
Definition blob (n : nat) (v : bytes) : bytes := take n v ++ replicate (n - length (take n v)) 0.
Definition blob16 : bytes -> bytes := blob 16.
Definition blob32 : bytes -> bytes := blob 32.

(** [unix_seconds_now]: saturates below the epoch and beyond [i64]. *)
Definition unix_seconds_now (clock : option Z) : Z :=
  match clock with Some secs => Z.min secs (2 ^ 63 - 1) | None => 0 end.

(** Reading a [u8] or [u32] column is range-checked. *)
Definition get_uint `{SqlText} (m v : Z) : Result Z :=
  if (0 <=? v) && (v <=? m) then Ok v else Err (sql_err IntegralValueOutOfRange).

(** [query_row(..)] by primary key: the first row that matches. *)
Definition conv_row (d : Db.t) (id : bytes) : option ConvRow.t :=
  List.find (fun r => beq (ConvRow.id r) id) (Db.conversations d).

Definition query_row `{SqlText} {A} (o : option A) : Result A :=
  ok_or o (sql_err QueryReturnedNoRows).

(** [UPDATE conversations SET .. WHERE id = ?1] *)
Definition update_conv (d : Db.t) (id : bytes) (f : ConvRow.t -> ConvRow.t) : Db.t :=
  Db.with_conversations d
    (map (fun r => if beq (ConvRow.id r) id then f r else r) (Db.conversations d)).

Section Store.
Context `{SqlText}.

(** [INSERT INTO conversations]: a duplicate id violates the primary key. *)
Definition insert_conv (d : Db.t) (r : ConvRow.t) : Result Db.t :=
  match conv_row d (ConvRow.id r) with
  | Some _ => Err (sql_err ConstraintViolation)
  | None => Ok (Db.with_conversations d (Db.conversations d ++ [r]))
  end.

Definition new_row (id peer_address relay_url : bytes) (mailbox_send mailbox_recv : option bytes)
    (now : Z) : ConvRow.t :=
  ConvRow.mk id peer_address relay_url mailbox_send mailbox_recv now None None None None None 0 0 None.

Definition create_conversation (d : Db.t) (random_id peer_address : bytes)
    (relay_url : option bytes) (now : Z) : Result (bytes * Db.t) :=
  let relay := default DEFAULT_RELAY_URL relay_url in
  d' ← insert_conv d (new_row random_id peer_address relay None None now);
  Ok (random_id, d').

Definition conversation_relay_url (d : Db.t) (conversation_id : bytes) : Result bytes :=
  query_row (ConvRow.relay_url <$> conv_row d conversation_id).

Definition conversation_by_peer (d : Db.t) (peer_address : bytes) : Result (option bytes) :=
  Ok ((fun r => blob16 (ConvRow.id r)) <$>
      List.find (fun r => beq (ConvRow.peer_address r) peer_address) (Db.conversations d)).

Definition get_conversation (d : Db.t) (id : bytes) : Result (option Conversation.t) :=
  Ok ((fun r => Conversation.mk id (ConvRow.peer_address r) (ConvRow.relay_url r)
                  (ConvRow.mailbox_send r) (ConvRow.mailbox_recv r) (blob32 <$> ConvRow.relay_pin r))
      <$> conv_row d id).

(** Rows with their rowids; nothing deletes rows, so rowids are positions. *)
Definition indexed (d : Db.t) : list (nat * ConvRow.t) := imap pair (Db.conversations d).

(** [ORDER BY created_at DESC, rowid DESC] *)
Definition newer (x y : nat * ConvRow.t) : Prop :=
  ConvRow.created_at y.2 < ConvRow.created_at x.2 \/
  (ConvRow.created_at x.2 = ConvRow.created_at y.2 /\ (y.1 <= x.1)%nat).

#[export] Instance newer_dec x y : Decision (newer x y).
Proof. unfold newer. apply _. Defined.

Definition list_conversation_ids (d : Db.t) : Result (list bytes) :=
  Ok ((fun x => blob16 (ConvRow.id x.2)) <$> merge_sort newer (indexed d)).

(** [COALESCE((SELECT MAX(col) FROM messages WHERE ..), 0)] *)
Definition max_time (col : MsgRow.t -> option Z) (d : Db.t) (id : bytes) : Z :=
  let times := omap col (List.filter (fun m => beq (MsgRow.conversation_id m) id) (Db.messages d)) in
  match times with [] => 0 | t :: r => foldr Z.max t r end.

Definition last_activity_at (d : Db.t) (r : ConvRow.t) : Z :=
  Z.max (ConvRow.created_at r)
    (Z.max (max_time MsgRow.sent_at d (ConvRow.id r)) (max_time MsgRow.received_at d (ConvRow.id r))).

(** [ORDER BY last_activity_at DESC, created_at DESC, rowid DESC] *)
Definition more_recent (d : Db.t) (x y : nat * ConvRow.t) : Prop :=
  last_activity_at d y.2 < last_activity_at d x.2 \/
  (last_activity_at d x.2 = last_activity_at d y.2 /\ newer x y).

#[export] Instance more_recent_dec d x y : Decision (more_recent d x y).
Proof. unfold more_recent. apply _. Defined.

Definition summary (d : Db.t) (r : ConvRow.t) : ConversationSummary.t :=
  ConversationSummary.mk (blob16 (ConvRow.id r)) (ConvRow.label r) (ConvRow.created_at r)
                         (last_activity_at d r).

Definition list_conversation_summaries (d : Db.t) : Result (list ConversationSummary.t) :=
  Ok ((fun x => summary d x.2) <$> merge_sort (more_recent d) (indexed d)).

Definition set_label (l : option (list Z)) (r : ConvRow.t) : ConvRow.t :=
  ConvRow.mk (ConvRow.id r) (ConvRow.peer_address r) (ConvRow.relay_url r) (ConvRow.mailbox_send r)
    (ConvRow.mailbox_recv r) (ConvRow.created_at r) (ConvRow.relay_pin r) (ConvRow.recovery_role r)
    (ConvRow.recovery_own_contrib r) (ConvRow.recovery_peer_contrib r) (ConvRow.recovery_root r)
    (ConvRow.recovery_own_gen r) (ConvRow.recovery_peer_gen r) l.

Definition set_conversation_label (d : Db.t) (id : bytes) (label : option (list Z)) : Result Db.t :=
  label ← normalize_label label;
  match conv_row d id with
  | None => Err (Storage "conversation not found")
  | Some _ => Ok (update_conv d id (set_label label))
  end.

Definition conversation_label (d : Db.t) (id : bytes) : Result (option (list Z)) :=
  query_row (ConvRow.label <$> conv_row d id).

Definition create_routed_conversation (d : Db.t) (random_id peer_address peer_relay : bytes)
    (mailbox_send : option bytes) (mailbox_recv : bytes) (now : Z) : Result (bytes * Db.t) :=
  d' ← insert_conv d (new_row random_id peer_address peer_relay mailbox_send (Some mailbox_recv) now);
  Ok (random_id, d').

(** Column updates of one row. *)
Definition set_routing (relay : bytes) (send recv : option bytes) (r : ConvRow.t) : ConvRow.t :=
  ConvRow.mk (ConvRow.id r) (ConvRow.peer_address r) relay send
    recv (ConvRow.created_at r) (ConvRow.relay_pin r) (ConvRow.recovery_role r)
    (ConvRow.recovery_own_contrib r) (ConvRow.recovery_peer_contrib r) (ConvRow.recovery_root r)
    (ConvRow.recovery_own_gen r) (ConvRow.recovery_peer_gen r) (ConvRow.label r).

Definition set_conversation_send (d : Db.t) (id relay mailbox_send : bytes) : Result Db.t :=
  Ok (update_conv d id (fun r => set_routing relay (Some mailbox_send) (ConvRow.mailbox_recv r) r)).

Definition set_conversation_relay (d : Db.t) (id relay : bytes) : Result Db.t :=
  Ok (update_conv d id (fun r => set_routing relay (ConvRow.mailbox_send r) (ConvRow.mailbox_recv r) r)).

Definition set_conversation_recv (d : Db.t) (id mailbox_recv : bytes) : Result Db.t :=
  Ok (update_conv d id
        (fun r => set_routing (ConvRow.relay_url r) (ConvRow.mailbox_send r) (Some mailbox_recv) r)).

Definition set_pin (pin : option bytes) (r : ConvRow.t) : ConvRow.t :=
  ConvRow.mk (ConvRow.id r) (ConvRow.peer_address r) (ConvRow.relay_url r) (ConvRow.mailbox_send r)
    (ConvRow.mailbox_recv r) (ConvRow.created_at r) pin (ConvRow.recovery_role r)
    (ConvRow.recovery_own_contrib r) (ConvRow.recovery_peer_contrib r) (ConvRow.recovery_root r)
    (ConvRow.recovery_own_gen r) (ConvRow.recovery_peer_gen r) (ConvRow.label r).

Definition set_conversation_pin (d : Db.t) (id : bytes) (pin : option bytes) : Result Db.t :=
  Ok (update_conv d id (set_pin pin)).

Definition conversation_pin (d : Db.t) (id : bytes) : Result (option bytes) :=
  query_row ((fun r => blob32 <$> ConvRow.relay_pin r) <$> conv_row d id).

Definition recovery_state (d : Db.t) (id : bytes) : Result (option RecoveryRecord.t) :=
  match conv_row d id with
  | None => Ok None
  | Some r =>
    role ← match ConvRow.recovery_role r with
           | None => Ok None
           | Some v => v ← get_uint 255 v; Ok (Some v)
           end;
    own_gen ← get_uint u32_max (ConvRow.recovery_own_gen r);
    peer_gen ← get_uint u32_max (ConvRow.recovery_peer_gen r);
    Ok (Some (RecoveryRecord.mk role (blob32 <$> ConvRow.recovery_own_contrib r)
                (blob32 <$> ConvRow.recovery_peer_contrib r) (blob32 <$> ConvRow.recovery_root r)
                own_gen peer_gen))
  end.

Definition set_recovery (role : option Z) (own peer root : option bytes) (own_gen peer_gen : Z)
    (r : ConvRow.t) : ConvRow.t :=
  ConvRow.mk (ConvRow.id r) (ConvRow.peer_address r) (ConvRow.relay_url r) (ConvRow.mailbox_send r)
    (ConvRow.mailbox_recv r) (ConvRow.created_at r) (ConvRow.relay_pin r) role own peer root
    own_gen peer_gen (ConvRow.label r).

Definition set_recovery_pairing (d : Db.t) (id : bytes) (role : Z) (own_contrib : bytes) : Result Db.t :=
  Ok (update_conv d id (fun r =>
    set_recovery (Some role) (Some own_contrib) (ConvRow.recovery_peer_contrib r)
      (ConvRow.recovery_root r) (ConvRow.recovery_own_gen r) (ConvRow.recovery_peer_gen r) r)).

Definition set_recovery_root (d : Db.t) (id peer_contrib root : bytes) : Result Db.t :=
  Ok (update_conv d id (fun r =>
    set_recovery (ConvRow.recovery_role r) (ConvRow.recovery_own_contrib r) (Some peer_contrib)
      (Some root) (ConvRow.recovery_own_gen r) (ConvRow.recovery_peer_gen r) r)).

Definition set_recovery_generations (d : Db.t) (id : bytes) (own_gen peer_gen : Z) : Result Db.t :=
  Ok (update_conv d id (fun r =>
    set_recovery (ConvRow.recovery_role r) (ConvRow.recovery_own_contrib r)
      (ConvRow.recovery_peer_contrib r) (ConvRow.recovery_root r) own_gen peer_gen r)).
(** ** Messages *)

(** [insert_message]: the clock goes to the row's own side only. *)
Definition insert_message (d : Db.t) (random_id conversation_id : bytes) (direction : Direction)
    (frame : InnerFrame.t) (status : Z) (clock : option Z) : Result (StoredMessage.t * Db.t) :=
  let now := unix_seconds_now clock in
  let '(sent_at, received_at) :=
    match direction with Outgoing => (Some now, None) | Incoming => (None, Some now) end in
  let pt := payload_type_byte (InnerFrame.payload_type frame) in
  let row := MsgRow.mk random_id conversation_id (direction_byte direction) pt
               (InnerFrame.type_version frame) (InnerFrame.payload frame) sent_at received_at status in
  if existsb (fun m => beq (MsgRow.id m) random_id) (Db.messages d)
     || (Db.foreign_keys d && negb (is_ok (query_row (conv_row d conversation_id))))
  then Err (sql_err ConstraintViolation)
  else Ok (StoredMessage.mk random_id conversation_id direction pt (InnerFrame.type_version frame)
             (InnerFrame.payload frame) sent_at received_at,
           Db.with_messages d (Db.messages d ++ [row])).

Definition save_message (d : Db.t) (random_id conversation_id : bytes) (direction : Direction)
    (frame : InnerFrame.t) (clock : option Z) : Result (bytes * Db.t) :=
  '(m, d') ← insert_message d random_id conversation_id direction frame 0 clock;
  Ok (StoredMessage.id m, d').

Definition save_outgoing (d : Db.t) (random_id conversation_id : bytes) (frame : InnerFrame.t)
    (clock : option Z) : Result (bytes * Db.t) :=
  '(m, d') ← insert_message d random_id conversation_id Outgoing frame 0 clock;
  Ok (StoredMessage.id m, d').

Definition save_incoming (d : Db.t) (random_id conversation_id : bytes) (frame : InnerFrame.t)
    (clock : option Z) : Result (StoredMessage.t * Db.t) :=
  insert_message d random_id conversation_id Incoming frame 2 clock.

Definition set_status (status : Z) (m : MsgRow.t) : MsgRow.t :=
  MsgRow.mk (MsgRow.id m) (MsgRow.conversation_id m) (MsgRow.direction m) (MsgRow.payload_type m)
    (MsgRow.type_version m) (MsgRow.body m) (MsgRow.sent_at m) (MsgRow.received_at m) status.

Definition mark_message_sent (d : Db.t) (message_id : bytes) : Result Db.t :=
  Ok (Db.with_messages d
        (map (fun m => if beq (MsgRow.id m) message_id then set_status 1 m else m) (Db.messages d))).

(** [WHERE conversation_id = ?1 AND direction = 0 AND status = 0] *)
Definition is_pending (conversation_id : bytes) (m : MsgRow.t) : bool :=
  beq (MsgRow.conversation_id m) conversation_id && (MsgRow.direction m =? 0) && (MsgRow.status m =? 0).

(** The loop over the selected rows. *)
Fixpoint collect_pending (rows : list MsgRow.t) : Result (list (bytes * InnerFrame.t)) :=
  match rows with
  | [] => Ok []
  | m :: r =>
    pt ← get_uint 255 (MsgRow.payload_type m);
    ver ← get_uint 255 (MsgRow.type_version m);
    ty ← payload_type_try_from pt;
    rest ← collect_pending r;
    Ok ((blob16 (MsgRow.id m), InnerFrame.mk ty ver (MsgRow.body m)) :: rest)
  end.

Definition pending_chat (d : Db.t) (conversation_id : bytes) : Result (list (bytes * InnerFrame.t)) :=
  collect_pending (List.filter (is_pending conversation_id) (Db.messages d)).

Definition stored (m : MsgRow.t) : Result StoredMessage.t :=
  dir ← get_uint 255 (MsgRow.direction m);
  pt ← get_uint 255 (MsgRow.payload_type m);
  ver ← get_uint 255 (MsgRow.type_version m);
  Ok (StoredMessage.mk (blob16 (MsgRow.id m)) (blob16 (MsgRow.conversation_id m))
        (if dir =? 0 then Outgoing else Incoming) pt ver (MsgRow.body m)
        (MsgRow.sent_at m) (MsgRow.received_at m)).

Fixpoint collect_rows (rows : list MsgRow.t) : Result (list StoredMessage.t) :=
  match rows with
  | [] => Ok []
  | m :: r => x ← stored m; rest ← collect_rows r; Ok (x :: rest)
  end.

Definition list_messages (d : Db.t) (conversation_id : bytes) : Result (list StoredMessage.t) :=
  collect_rows (List.filter (fun m => beq (MsgRow.conversation_id m) conversation_id) (Db.messages d)).
End Store.

(** ** Schema *)

(** The version rows of [schema_migrations] and the columns of
    [conversations] beyond version 1; [None] before version 1. *)
Module Schema.
Record t := mk { applied : list Z; columns : option (list string) }.

Definition empty : t := mk [] None.

(** [SELECT COALESCE(MAX(version), 0) FROM schema_migrations] *)
Definition version (s : t) : Z := foldr Z.max 0 (applied s).

Section migrate.
Context `{SqlText}.

(** [CREATE TABLE ..]: fails when the tables exist. *)
Definition create_tables (s : t) : Result t :=
  match columns s with
  | None => Ok (mk (applied s) (Some []))
  | Some _ => Err (sql_err ConstraintViolation)
  end.

(** [ALTER TABLE conversations ADD COLUMN c]: fails without the table or
    on a duplicate column. *)
Definition add_column (c : string) (s : t) : Result t :=
  match columns s with
  | Some cs => if bool_decide (c ∈ cs) then Err (sql_err ConstraintViolation)
               else Ok (mk (applied s) (Some (cs ++ [c])))
  | None => Err (sql_err ConstraintViolation)
  end.

(** [INSERT INTO schema_migrations]: the version is the primary key. *)
Definition record_version (v : Z) (s : t) : Result t :=
  if bool_decide (v ∈ applied s) then Err (sql_err ConstraintViolation)
  else Ok (mk (applied s ++ [v]) (columns s)).

(** One transaction: the statements and the version row, or nothing. *)
Definition migration (current v : Z) (ddl : t -> Result t) (s : t) : Result unit * t :=
  if current <? v then
    match (s1 ← ddl s; record_version v s1) with
    | Ok s' => (Ok tt, s')
    | Err e => (Err e, s)
    | Panic => (Panic, s)
    end
  else (Ok tt, s).

Definition v3_columns : list string :=
  ["recovery_role"; "recovery_own_contrib"; "recovery_peer_contrib"; "recovery_root";
   "recovery_own_gen"; "recovery_peer_gen"]%string.

Fixpoint add_columns (cs : list string) (s : t) : Result t :=
  match cs with [] => Ok s | c :: r => s ← add_column c s; add_columns r s end.

(** The [?] between two transactions: what committed stays. *)
Definition and_then (r : Result unit * t) (f : t -> Result unit * t) : Result unit * t :=
  match r with (Ok _, s) => f s | _ => r end.

Definition migrate (s : t) : Result unit * t :=
  let current := version s in
  and_then (and_then (and_then
    (migration current 1 create_tables s)
    (migration current 2 (add_column "relay_pin")))
    (migration current 3 (add_columns v3_columns)))
    (migration current 4 (add_column "label")).
End migrate.
End Schema.

(** ** Well-formed rows *)

Definition msg_row_ok (m : MsgRow.t) : Prop :=
  length (MsgRow.id m) = 16%nat /\ length (MsgRow.conversation_id m) = 16%nat /\
  (MsgRow.direction m = 0 \/ MsgRow.direction m = 1) /\
  (exists t, MsgRow.payload_type m = payload_type_byte t) /\ 0 <= MsgRow.type_version m <= 255.

Definition conv_row_ok (r : ConvRow.t) : Prop :=
  length (ConvRow.id r) = 16%nat /\
  match ConvRow.recovery_role r with Some v => 0 <= v <= 255 | None => True end /\
  in_u32 (ConvRow.recovery_own_gen r) /\ in_u32 (ConvRow.recovery_peer_gen r).

(** Primary keys are unique and every row reads back without an error. *)
Record db_ok (d : Db.t) : Prop := {
  db_convs : NoDup (ConvRow.id <$> Db.conversations d);
  db_msgs : NoDup (MsgRow.id <$> Db.messages d);
  db_conv_rows : Forall conv_row_ok (Db.conversations d);
  db_msg_rows : Forall msg_row_ok (Db.messages d)
}.

(** ** Reading rows *)

Lemma blob_exact n v : length v = n -> blob n v = v.
Proof.
  intros <-. unfold blob. rewrite firstn_all, Nat.sub_diag. simpl. apply app_nil_r.
Qed.

Lemma blob_length n v : length (blob n v) = n.
Proof. unfold blob. rewrite length_app, length_replicate, length_take. lia. Qed.

Lemma payload_type_byte_range t : 0 <= payload_type_byte t <= 255.
Proof. destruct t; simpl; lia. Qed.

Lemma get_uint_Ok `{SqlText} m v : 0 <= v <= m -> get_uint m v = Ok v.
Proof. intros [? ?]. unfold get_uint. by rewrite !(proj2 (Z.leb_le _ _)) by done. Qed.

Lemma find_some_iff {A} (f : A -> bool) l x :
  List.find f l = Some x -> x ∈ l /\ f x = true.
Proof. intros [? ?]%find_some. split; [by apply list_elem_of_In|done]. Qed.

(** The entry [pending_chat] returns for a row. *)
Definition pending_entry (m : MsgRow.t) : bytes * InnerFrame.t :=
  (MsgRow.id m,
   InnerFrame.mk match payload_type_try_from (MsgRow.payload_type m) with Ok t => t | _ => Chat end
                 (MsgRow.type_version m) (MsgRow.body m)).

Lemma collect_pending_Ok `{SqlText} rows :
  Forall msg_row_ok rows -> collect_pending rows = Ok (pending_entry <$> rows).
Proof.
  induction 1 as [|m r (Hid & Hc & Hd & [t Ht] & Hv) Hr IH]; [done|].
  simpl. rewrite !get_uint_Ok by (rewrite ?Ht; auto using payload_type_byte_range). rsimpl.
  unfold pending_entry at 1. rewrite Ht, payload_type_try_from_byte. rsimpl.
  rewrite IH. rsimpl. unfold blob16. by rewrite blob_exact.
Qed.

Definition stored_entry (m : MsgRow.t) : StoredMessage.t :=
  StoredMessage.mk (MsgRow.id m) (MsgRow.conversation_id m)
    (if MsgRow.direction m =? 0 then Outgoing else Incoming) (MsgRow.payload_type m)
    (MsgRow.type_version m) (MsgRow.body m) (MsgRow.sent_at m) (MsgRow.received_at m).

Lemma collect_rows_Ok `{SqlText} rows :
  Forall msg_row_ok rows -> collect_rows rows = Ok (stored_entry <$> rows).
Proof.
  induction 1 as [|m r (Hid & Hc & Hd & [t Ht] & Hv) Hr IH]; [done|]. simpl.
  pose proof (payload_type_byte_range t).
  unfold stored. rewrite !get_uint_Ok by lia. rsimpl. rewrite IH. rsimpl.
  unfold blob16. by rewrite !blob_exact.
Qed.

Lemma Forall_filter_bool {A} (P : A -> Prop) (f : A -> bool) l :
  Forall P l -> Forall P (List.filter f l).
Proof. induction 1; simpl; [done|]. bool_case; auto. Qed.

Lemma pending_chat_Ok `{SqlText} d c :
  db_ok d -> pending_chat d c = Ok (pending_entry <$> List.filter (is_pending c) (Db.messages d)).
Proof. intros Hd. apply collect_pending_Ok, Forall_filter_bool, Hd. Qed.

Lemma list_messages_Ok `{SqlText} d c :
  db_ok d -> list_messages d c = Ok (stored_entry <$>
    List.filter (fun m => beq (MsgRow.conversation_id m) c) (Db.messages d)).
Proof. intros Hd. apply collect_rows_Ok, Forall_filter_bool, Hd. Qed.

(** ** Inserting a message *)

Definition can_insert (d : Db.t) (id conv : bytes) (f : InnerFrame.t) : Prop :=
  length id = 16%nat /\ length conv = 16%nat /\ (id ∉ (MsgRow.id <$> Db.messages d)) /\
  0 <= InnerFrame.type_version f <= 255 /\
  (Db.foreign_keys d = true -> is_Some (conv_row d conv)).

Definition message_row (id conv : bytes) (dir : Direction) (f : InnerFrame.t) (status now : Z) : MsgRow.t :=
  MsgRow.mk id conv (direction_byte dir) (payload_type_byte (InnerFrame.payload_type f))
    (InnerFrame.type_version f) (InnerFrame.payload f)
    (if bool_decide (dir = Outgoing) then Some now else None)
    (if bool_decide (dir = Outgoing) then None else Some now) status.

Lemma insert_message_Ok `{SqlText} d id conv dir f status clock :
  db_ok d -> can_insert d id conv f ->
  let row := message_row id conv dir f status (unix_seconds_now clock) in
  let d' := Db.with_messages d (Db.messages d ++ [row]) in
  insert_message d id conv dir f status clock = Ok (stored_entry row, d') /\ db_ok d' /\
  msg_row_ok row.
Proof.
  intros Hd (Hid & Hc & Hfresh & Hv & Hfk) row d'.
  assert (Hrow : msg_row_ok row).
  { unfold row, msg_row_ok. simpl. split_and!; try done; try lia; [by destruct dir; auto|by eexists]. }
  split_and!; [|destruct Hd; split; simpl; try done|done].
  - unfold insert_message.
    assert (existsb (fun m => beq (MsgRow.id m) id) (Db.messages d) = false) as ->.
    { apply not_true_is_false. intros (m & Hm & Hb)%existsb_exists. reflect_bools.
      apply Hfresh, list_elem_of_fmap. exists m. split; [done|]. by apply list_elem_of_In. }
    assert (Db.foreign_keys d && negb (is_ok (query_row (conv_row d conv))) = false) as ->.
    { destruct (Db.foreign_keys d); [|done]. destruct (Hfk eq_refl) as [r ->]. done. }
    unfold d', row, message_row, stored_entry. by destruct dir.
  - rewrite fmap_app. apply NoDup_app. split_and!; [done| |apply NoDup_singleton].
    intros x Hx Hin. simpl in Hin. apply list_elem_of_singleton in Hin. by subst.
  - apply Forall_app. split; [done|]. constructor; [done|constructor].
Qed.

(** Only what can be inserted is. *)
Lemma insert_message_can `{SqlText} d id conv dir f status clock m d' :
  length id = 16%nat -> length conv = 16%nat -> 0 <= InnerFrame.type_version f <= 255 ->
  insert_message d id conv dir f status clock = Ok (m, d') -> can_insert d id conv f.
Proof.
  intros Hid Hc Hv. unfold insert_message. destruct (match dir with Outgoing => _ | Incoming => _ end) as [sa ra].
  destruct (existsb _ _) eqn:Ex; [done|]. destruct (Db.foreign_keys d && _) eqn:Ef; [done|]. intros _.
  unfold can_insert. split_and!; try done; try lia.
  - intros (r & -> & Hr)%list_elem_of_fmap. apply not_true_iff_false in Ex. apply Ex, existsb_exists.
    exists r. split; [by apply list_elem_of_In|apply beq_refl].
  - intros Hfk. rewrite Hfk in Ef. simpl in Ef. apply negb_false_iff in Ef.
    unfold query_row in Ef. by destruct (conv_row d conv).
Qed.

Lemma mark_sent_ok `{SqlText} d mid d' : db_ok d -> mark_message_sent d mid = Ok d' -> db_ok d'.
Proof.
  intros [? Hn ? Hr] [= <-]. split; simpl; try done.
  - replace (MsgRow.id <$> map _ (Db.messages d)) with (MsgRow.id <$> Db.messages d); [done|].
    rewrite <- list_fmap_compose. apply list_fmap_ext. intros i m _. simpl. by destruct (beq _ _).
  - apply Forall_fmap. eapply Forall_impl; [exact Hr|]. intros m Hm. simpl. by destruct (beq _ _).
Qed.

(** Marking a message sent takes exactly it out of the pending rows. *)
Lemma mark_sent_pending c mid ms :
  pending_entry <$> List.filter (is_pending c)
    (map (fun m => if beq (MsgRow.id m) mid then set_status 1 m else m) ms)
  = List.filter (fun x => negb (beq x.1 mid)) (pending_entry <$> List.filter (is_pending c) ms).
Proof.
  induction ms as [|m ms IH]; simpl; [done|].
  destruct (beq (MsgRow.id m) mid) eqn:E.
  - unfold is_pending at 1. simpl. rewrite andb_false_r.
    destruct (is_pending c m); simpl; rewrite ?E; done.
  - destruct (is_pending c m); simpl; rewrite ?E; [f_equal|]; exact IH.
Qed.

(** ** Updating one conversation *)

Lemma conv_row_update d id f id' :
  (forall r, ConvRow.id (f r) = ConvRow.id r) ->
  conv_row (update_conv d id f) id' =
  if bool_decide (id' = id) then f <$> conv_row d id' else conv_row d id'.
Proof.
  intros Hf. unfold conv_row, update_conv. simpl. induction (Db.conversations d) as [|r l IH]; simpl.
  { by destruct (bool_decide _). }
  destruct (beq (ConvRow.id r) id) eqn:E; reflect_bools.
  - rewrite Hf. destruct (beq (ConvRow.id r) id') eqn:E'; reflect_bools.
    + rewrite bool_decide_eq_true_2 by congruence. done.
    + done.
  - destruct (beq (ConvRow.id r) id') eqn:E'; reflect_bools; [|done].
    rewrite bool_decide_eq_false_2 by congruence. done.
Qed.

Lemma update_conv_ok d id f :
  (forall r, ConvRow.id (f r) = ConvRow.id r) -> (forall r, conv_row_ok r -> conv_row_ok (f r)) ->
  db_ok d -> db_ok (update_conv d id f).
Proof.
  intros Hf Hok [Hn ? Hc ?]. split; simpl; try done.
  - replace (ConvRow.id <$> map _ _) with (ConvRow.id <$> Db.conversations d); [done|].
    rewrite <- list_fmap_compose. apply list_fmap_ext. intros i r _. simpl. destruct (beq _ _); by rewrite ?Hf.
  - apply Forall_fmap. eapply Forall_impl; [exact Hc|]. intros r Hr. simpl. destruct (beq _ _); auto.
Qed.

(** ** Sorting *)

#[export] Instance newer_total : Total newer.
Proof. intros x y. unfold newer. lia. Qed.

#[export] Instance newer_trans : Transitive newer.
Proof. intros x y z. unfold newer. lia. Qed.

#[export] Instance more_recent_total d : Total (more_recent d).
Proof. intros x y. unfold more_recent, newer. lia. Qed.

#[export] Instance more_recent_trans d : Transitive (more_recent d).
Proof. intros x y z. unfold more_recent, newer. lia. Qed.

Lemma StronglySorted_fmap {A B} (f : A -> B) (R : A -> A -> Prop) (S : B -> B -> Prop) l :
  (forall x y, R x y -> S (f x) (f y)) -> StronglySorted R l -> StronglySorted S (f <$> l).
Proof.
  intros Hf. induction 1 as [|x l Hl IH Hx]; [constructor|]. rewrite fmap_cons. constructor; [done|].
  apply Forall_fmap. eapply Forall_impl; [exact Hx|]. auto.
Qed.

Lemma max_time_spec col d id t :
  (forall m u, m ∈ Db.messages d -> col m = Some u -> 0 <= u) -> 0 <= t ->
  max_time col d id <= t <->
  forall m u, m ∈ Db.messages d -> MsgRow.conversation_id m = id -> col m = Some u -> u <= t.
Proof.
  intros Hpos Ht. unfold max_time.
  set (times := omap col _).
  assert (Hin : forall u, u ∈ times <-> exists m, m ∈ Db.messages d /\ MsgRow.conversation_id m = id /\ col m = Some u).
  { intros u. unfold times. rewrite list_elem_of_omap. split.
    - intros (m & Hm & Hc). apply list_elem_of_In, filter_In in Hm as [Hm Hb]. reflect_bools.
      exists m. split; [by apply list_elem_of_In|done].
    - intros (m & Hm & <- & Hc). exists m. split; [|done]. apply list_elem_of_In, filter_In.
      split; [by apply list_elem_of_In|apply beq_refl]. }
  clearbody times. destruct times as [|u0 us].
  - split; [|intros; lia]. intros _ m u Hm Hc Hu. exfalso.
    assert (u ∈ []) by (apply Hin; eauto). set_solver.
  - assert (Hmax : forall (l : list Z) a, foldr Z.max a l <= t <-> a <= t /\ Forall (fun x => x <= t) l).
    { induction l as [|x l IH]; intros a; simpl; [rewrite Forall_nil; naive_solver|].
      rewrite Forall_cons, Z.max_lub_iff, IH. naive_solver. }
    rewrite Hmax, <- (Forall_cons (fun x => x <= t)), Forall_forall. setoid_rewrite Hin. naive_solver.
Qed.

(** ** Properties *)

#[local] Instance demo_sql : SqlText := fun _ => "sql"%string.

Definition demo_conv : bytes := replicate 16 4.

Definition demo_db : Db.t :=
  Db.mk [new_row demo_conv (bstr "peer") (bstr "wss://r") None (Some (bstr "in")) 1000]
        [message_row (replicate 16 1) demo_conv Outgoing (InnerFrame.mk Chat 1 (bstr "hi")) 0 1005] true.

Lemma demo_db_ok : db_ok demo_db.
Proof.
  split; [by_compute|by_compute| |].
  - constructor; [|constructor]. unfold conv_row_ok, in_u32. by_compute.
  - constructor; [|constructor]. split_and!; try done; [by left|by exists Chat].
Qed.

(** The outbox.  Saving an outgoing frame under a fresh id appends
    exactly that frame to its conversation's pending list and to no other;
    marking a message sent removes exactly it; the list is in insertion order
    and reading it cannot fail; the store stays well formed. *)
Theorem outbox_correct `{SqlText} (d : Db.t) (id conv : bytes) (f : InnerFrame.t) (clock : option Z) :
  db_ok d -> can_insert d id conv f ->
  exists d1 pending, save_outgoing d id conv f clock = Ok (id, d1) /\ db_ok d1 /\
    pending_chat d conv = Ok pending /\ pending_chat d1 conv = Ok (pending ++ [(id, f)]) /\
    (forall c, c <> conv -> pending_chat d1 c = pending_chat d c) /\
    (forall mid, exists d2, mark_message_sent d1 mid = Ok d2 /\ db_ok d2 /\
       pending_chat d2 conv = Ok (List.filter (fun x => negb (beq x.1 mid)) (pending ++ [(id, f)]))).
Proof.
  intros Hd Hins.
  destruct (insert_message_Ok d id conv Outgoing f 0 clock Hd Hins) as (E & Hd1 & Hrow).
  set (row := message_row _ _ _ _ _ _) in *. set (d1 := Db.with_messages _ _) in *.
  assert (Hfil : forall c, pending_entry <$> List.filter (is_pending c) (Db.messages d1)
    = (pending_entry <$> List.filter (is_pending c) (Db.messages d))
      ++ (if bool_decide (c = conv) then [(id, f)] else [])).
  { intros c. unfold d1. simpl. rewrite List.filter_app, fmap_app. f_equal. simpl.
    unfold is_pending. simpl. destruct (decide (c = conv)) as [->|Hne].
    - rewrite beq_refl, bool_decide_eq_true_2 by done. simpl. unfold pending_entry, row. simpl.
      rewrite payload_type_try_from_byte. by destruct f.
    - unfold beq. rewrite !bool_decide_eq_false_2 by congruence. done. }
  exists d1. eexists. split_and!.
  - unfold save_outgoing. by rewrite E.
  - done.
  - by apply pending_chat_Ok.
  - rewrite pending_chat_Ok by done. rewrite Hfil. by rewrite bool_decide_eq_true_2.
  - intros c Hc. rewrite !pending_chat_Ok by done. rewrite Hfil.
    rewrite bool_decide_eq_false_2 by done. by rewrite app_nil_r.
  - intros mid. eexists. split; [done|].
    assert (Hd2 := mark_sent_ok d1 mid _ Hd1 eq_refl). split; [done|].
    rewrite pending_chat_Ok by done. simpl. rewrite mark_sent_pending.
    change (Db.messages d ++ [row]) with (Db.messages d1). rewrite Hfil.
    by rewrite bool_decide_eq_true_2.
Qed.

Lemma outbox_correct_witness :
  let f := InnerFrame.mk Chat 1 (bstr "yo") in
  exists d1 pending, save_outgoing demo_db (replicate 16 2) demo_conv f (Some 1010) = Ok (replicate 16 2, d1) /\
    pending_chat d1 demo_conv = Ok (pending ++ [(replicate 16 2, f)]).
Proof.
  intros f. destruct (outbox_correct demo_db (replicate 16 2) demo_conv f (Some 1010) demo_db_ok)
    as (d1 & p & E & _ & _ & Hp & _).
  - split; [reflexivity|]. split; [reflexivity|]. split; [by_compute|].
    split; [vm_compute; intuition congruence|]. intros _. vm_compute. eexists. reflexivity.
  - exists d1, p. split; [exact E|exact Hp].
Defined.

(** History.  A saved message is the last of its conversation's list,
    exactly as the save returned it, with the local clock on its own side
    only; earlier messages and other conversations' lists are unchanged. *)
Theorem history_correct `{SqlText} (d : Db.t) (id conv : bytes) (dir : Direction) (f : InnerFrame.t)
    (status : Z) (clock : option Z) :
  db_ok d -> can_insert d id conv f ->
  exists m d1 before, insert_message d id conv dir f status clock = Ok (m, d1) /\ db_ok d1 /\
    list_messages d conv = Ok before /\ list_messages d1 conv = Ok (before ++ [m]) /\
    (forall c, c <> conv -> list_messages d1 c = list_messages d c) /\
    StoredMessage.id m = id /\ StoredMessage.body m = InnerFrame.payload f /\
    StoredMessage.direction m = dir /\
    (StoredMessage.sent_at m, StoredMessage.received_at m)
    = match dir with
      | Outgoing => (Some (unix_seconds_now clock), None)
      | Incoming => (None, Some (unix_seconds_now clock))
      end.
Proof.
  intros Hd Hins.
  destruct (insert_message_Ok d id conv dir f status clock Hd Hins) as (E & Hd1 & Hrow).
  set (row := message_row _ _ _ _ _ _) in *. set (d1 := Db.with_messages _ _) in *.
  exists (stored_entry row), d1. eexists. split_and!; try done.
  - by apply list_messages_Ok.
  - rewrite list_messages_Ok by done. unfold d1. simpl. rewrite List.filter_app, fmap_app. simpl.
    by rewrite beq_refl.
  - intros c Hc. rewrite !list_messages_Ok by done. unfold d1. simpl.
    rewrite List.filter_app, fmap_app. simpl. unfold beq at 2.
    rewrite bool_decide_eq_false_2 by congruence. by rewrite app_nil_r.
  - by destruct dir.
  - by destruct dir.
Qed.

Lemma history_correct_witness :
  let f := InnerFrame.mk Chat 1 (bstr "yo") in
  exists m d1 before, insert_message demo_db (replicate 16 2) demo_conv Incoming f 2 (Some 1010) = Ok (m, d1) /\
    list_messages d1 demo_conv = Ok (before ++ [m]).
Proof.
  intros f.
  destruct (history_correct demo_db (replicate 16 2) demo_conv Incoming f 2 (Some 1010) demo_db_ok)
    as (m & d1 & b & E & _ & _ & Hl & _).
  - split; [reflexivity|]. split; [reflexivity|]. split; [by_compute|].
    split; [vm_compute; intuition congruence|]. intros _. vm_compute. eexists. reflexivity.
  - exists m, d1, b. split; [exact E|exact Hl].
Defined.

(** The conversation list.  The summaries are those of all
    conversations, each once, ordered by last activity, newest first (ties by
    creation, then by insertion); and a conversation's last activity is the
    least time not before its creation nor before any timestamp of its
    messages. *)
Theorem summaries_correct `{SqlText} (d : Db.t) :
  (forall r, r ∈ Db.conversations d -> 0 <= ConvRow.created_at r) ->
  (forall m u, m ∈ Db.messages d -> MsgRow.sent_at m = Some u \/ MsgRow.received_at m = Some u -> 0 <= u) ->
  exists l, list_conversation_summaries d = Ok l /\
    l ≡ₚ (summary d <$> Db.conversations d) /\
    StronglySorted (fun x y => ConversationSummary.last_activity_at y
                               <= ConversationSummary.last_activity_at x) l /\
    (forall r t, r ∈ Db.conversations d -> 0 <= t ->
       last_activity_at d r <= t <->
       ConvRow.created_at r <= t /\
       forall m u, m ∈ Db.messages d -> MsgRow.conversation_id m = ConvRow.id r ->
         MsgRow.sent_at m = Some u \/ MsgRow.received_at m = Some u -> u <= t).
Proof.
  intros Hc Hm. eexists. split; [done|]. split_and!.
  - rewrite (merge_sort_Permutation (more_recent d) (indexed d)). unfold indexed.
    rewrite fmap_imap.
    match goal with |- ?a ≡ₚ ?b => assert (a = b) as ->; [|done] end.
    apply list_eq. intros i. rewrite list_lookup_imap, list_lookup_fmap.
    by destruct (Db.conversations d !! i).
  - eapply (StronglySorted_fmap _ (more_recent d)); [|by apply (StronglySorted_merge_sort (more_recent d)); apply _].
    intros x y. unfold more_recent. simpl. lia.
  - intros r t Hr Ht. unfold last_activity_at.
    rewrite !Z.max_lub_iff, !max_time_spec; [|naive_solver..]. naive_solver.
Qed.

Lemma summaries_correct_witness :
  exists l, list_conversation_summaries demo_db = Ok l /\
    l ≡ₚ (summary demo_db <$> Db.conversations demo_db).
Proof.
  destruct (summaries_correct demo_db) as (l & E & Hp & _).
  - intros r Hr. apply list_elem_of_singleton in Hr as ->. vm_compute; congruence.
  - intros m u Hm Hu. apply list_elem_of_singleton in Hm as ->.
    destruct Hu as [Hu|Hu]; vm_compute in Hu; [injection Hu as <-; vm_compute; congruence|discriminate].
  - exists l. split; [exact E|exact Hp].
Defined.

(** Labels.  A label that is accepted is trimmed, non-blank, at most 64
    scalar values and free of control characters, and normalizing it again
    changes nothing; setting it on an existing conversation makes it the label
    read back, and leaves every other conversation, the routing, the pin, the
    recovery state and all messages as they were. *)
Theorem label_correct `{SqlText} (d : Db.t) (id : bytes) (raw : option (list Z))
    (label : option (list Z)) (r : ConvRow.t) :
  normalize_label raw = Ok label -> conv_row d id = Some r ->
  match label with
  | Some l => l <> [] /\ trim l = l /\ zlen l <= MAX_LABEL_SCALARS /\
              Forall (fun c => is_control c = false) l
  | None => raw = None \/ raw = Some []
  end /\
  normalize_label label = Ok label /\
  exists d', set_conversation_label d id raw = Ok d' /\ conversation_label d' id = Ok label /\
    get_conversation d' id = get_conversation d id /\ recovery_state d' id = recovery_state d id /\
    Db.messages d' = Db.messages d /\
    (forall id', id' <> id -> conv_row d' id' = conv_row d id').
Proof.
  intros Hn Hr.
  assert (Hl : match label with
    | Some l => l <> [] /\ trim l = l /\ zlen l <= MAX_LABEL_SCALARS /\
                Forall (fun c => is_control c = false) l
    | None => raw = None \/ raw = Some []
    end).
  { revert Hn. unfold normalize_label. destruct raw as [raw|]; [|intros [= <-]; by left].
    destruct (Z.eqb_spec (zlen raw) 0) as [E|E].
    { intros [= <-]. right. f_equal. apply zlen_0_nil. lia. }
    intros ([] & H1%ensure_Ok & H2)%bind_Ok. apply bind_Ok in H2 as ([] & H3%ensure_Ok & H4).
    apply bind_Ok in H4 as ([] & H5%ensure_Ok & [= <-]). reflect_bools. split_and!; try done.
    - intros E'. by rewrite E' in H1.
    - apply trim_idemp.
    - apply Forall_forall. intros c Hc. apply not_true_is_false. intros Hcc.
      assert (existsb is_control (trim raw) = true); [|congruence].
      apply existsb_exists. exists c. split; [by apply list_elem_of_In|done]. }
  split_and!; [done| |].
  - destruct label as [l|]; [|done]. destruct Hl as (Hne & Ht & Hlen & Hc). simpl.
    rewrite (proj2 (Z.eqb_neq (zlen l) 0)).
    2: { intros H0. apply Hne, zlen_0_nil. lia. }
    rewrite Ht. rewrite (proj2 (Z.eqb_neq (zlen l) 0)).
    2: { intros H0. apply Hne, zlen_0_nil. lia. }
    rsimpl. rewrite (proj2 (Z.ltb_ge _ _)) by done. rsimpl.
    assert (existsb is_control l = false) as ->; [|done].
    apply not_true_is_false. intros (c & Hin & Hcc)%existsb_exists.
    apply list_elem_of_In in Hin. rewrite Forall_forall in Hc. specialize (Hc c Hin). congruence.
  - exists (update_conv d id (set_label label)). unfold set_conversation_label.
    rewrite Hn. rsimpl. rewrite Hr. split; [done|].
    unfold conversation_label, get_conversation, recovery_state.
    rewrite !conv_row_update by done. rewrite bool_decide_eq_true_2, Hr by done. simpl.
    split_and!; try done. intros id' Hne. rewrite conv_row_update by done.
    by rewrite bool_decide_eq_false_2.
Qed.

Lemma label_correct_witness :
  exists d', set_conversation_label demo_db demo_conv (Some [32; 65; 110; 97; 9]) = Ok d' /\
    conversation_label d' demo_conv = Ok (Some [65; 110; 97]).
Proof.
  destruct (label_correct demo_db demo_conv (Some [32; 65; 110; 97; 9]) (Some [65; 110; 97])
    (new_row demo_conv (bstr "peer") (bstr "wss://r") None (Some (bstr "in")) 1000)
    ltac:(vm_compute; reflexivity) ltac:(vm_compute; reflexivity)) as (_ & _ & d' & H1 & H2 & _).
  exists d'. split; [exact H1|exact H2].
Defined.

(** Routing and recovery columns.  On an existing conversation each
    setter changes what its readers return and nothing else: sending updates
    set relay and outbox, the inbox and pin setters their own column, and
    role, contributions, root and generations read back as written; messages,
    labels and other conversations stay as they were. *)
Theorem routing_correct `{SqlText} (d : Db.t) (id relay send recv pin own peer root : bytes)
    (role own_gen peer_gen : Z) (r : ConvRow.t) :
  conv_row d id = Some r ->
  length pin = 32%nat -> length own = 32%nat -> length peer = 32%nat -> length root = 32%nat ->
  0 <= role <= 255 -> in_u32 own_gen -> in_u32 peer_gen ->
  exists d1 d2 d3 d4 d5 d6,
    set_conversation_send d id relay send = Ok d1 /\ set_conversation_recv d1 id recv = Ok d2 /\
    set_conversation_pin d2 id (Some pin) = Ok d3 /\ set_recovery_pairing d3 id role own = Ok d4 /\
    set_recovery_root d4 id peer root = Ok d5 /\
    set_recovery_generations d5 id own_gen peer_gen = Ok d6 /\
    get_conversation d6 id = Ok (Some (Conversation.mk id (ConvRow.peer_address r) relay (Some send)
                                         (Some recv) (Some pin))) /\
    conversation_pin d6 id = Ok (Some pin) /\
    recovery_state d6 id = Ok (Some (RecoveryRecord.mk (Some role) (Some own) (Some peer) (Some root)
                                       own_gen peer_gen)) /\
    conversation_label d6 id = conversation_label d id /\ Db.messages d6 = Db.messages d /\
    (forall id', id' <> id -> conv_row d6 id' = conv_row d id').
Proof.
  intros Hr Hp Ho Hpe Hro Hrole Hg1 Hg2. eexists _, _, _, _, _, _.
  do 6 (split; [reflexivity|]).
  unfold get_conversation, conversation_pin, recovery_state, conversation_label.
  rewrite !conv_row_update by done. rewrite bool_decide_eq_true_2, Hr by done. simpl.
  unfold blob32. rewrite !blob_exact, !get_uint_Ok by done. rsimpl. split_and!; try done.
  intros id' Hne. by rewrite !conv_row_update, !bool_decide_eq_false_2 by done.
Qed.

Lemma routing_correct_witness :
  exists d1 d2, set_conversation_send demo_db demo_conv (bstr "wss://q") (bstr "out") = Ok d1 /\
    set_conversation_recv d1 demo_conv (bstr "inb") = Ok d2.
Proof.
  destruct (routing_correct demo_db demo_conv (bstr "wss://q") (bstr "out") (bstr "inb")
    (replicate 32 1) (replicate 32 2) (replicate 32 3) (replicate 32 4) 1 5 6
    (new_row demo_conv (bstr "peer") (bstr "wss://r") None (Some (bstr "in")) 1000)
    ltac:(vm_compute; reflexivity)) as (d1 & d2 & _ & _ & _ & _ & H1 & H2 & _);
    try reflexivity; try (vm_compute; intuition congruence).
  exists d1, d2. split; [exact H1|exact H2].
Defined.

(** The schema that version [k] leaves behind. *)
Definition columns_at (k : nat) : option (list string) :=
  match k with
  | 0%nat => None
  | 1%nat => Some []
  | 2%nat => Some ["relay_pin"%string]
  | 3%nat => Some ("relay_pin"%string :: Schema.v3_columns)
  | _ => Some (("relay_pin"%string :: Schema.v3_columns) ++ ["label"%string])
  end.

Definition schema_at (k : nat) : Schema.t := Schema.mk (take k [1; 2; 3; 4]) (columns_at k).

(** Migrations.  From an empty database and from the schema that any
    earlier version left (also one an interrupted run committed), migration
    succeeds and ends at version 4 with the full set of columns, and a second
    run changes nothing. *)
Theorem migrate_correct `{SqlText} (k : nat) :
  (k <= 4)%nat ->
  Schema.migrate (schema_at k) = (Ok tt, schema_at 4) /\
  Schema.version (schema_at k) = Z.of_nat k /\
  Schema.migrate (schema_at 4) = (Ok tt, schema_at 4).
Proof.
  intros Hk. destruct k as [|[|[|[|[|k]]]]]; [..|lia]; by split_and!.
Qed.

Lemma migrate_correct_witness : Schema.migrate (schema_at 2) = (Ok tt, schema_at 4).
Proof. apply (migrate_correct 2). lia. Defined.
