(* ===== verification/Keys.v ===== *)
(** Key storage and identity lifecycle ([tezca-core/src/storage/signal_stores.rs],
    [tezca-core/src/identity.rs]).  Records are opaque blobs: what the Signal
    library reads out of them is the class [LibSignal]; freshly generated
    material enters as arguments.  Tables are maps from their primary keys. *)

From S2P Require Import Prelude Errors Utf8 Config Cursor Pairing Envelope Storage.

(** The library's errors that the sources build or match on. *)
Inductive SignalProtocolError :=
  | DuplicatedMessage
  | InvalidState (what detail : string)
  | InvalidPreKeyId
  | InvalidSignedPreKeyId
  | InvalidKyberPreKeyId
  | OtherSignal (detail : string).

Abbreviation SignalResult := (result SignalProtocolError).

(** Decoding of serialized records, their fields, and the text of errors. *)
Class LibSignal := {
  signal_text : SignalProtocolError -> string;
  SessionRecord : Type;
  IdentityKeyPair : Type;
  PreKeyRecord : Type;
  SignedPreKeyRecord : Type;
  KyberPreKeyRecord : Type;
  session_deserialize : bytes -> SignalResult SessionRecord;
  session_serialize : SessionRecord -> SignalResult bytes;
  identity_key_decode : bytes -> SignalResult bytes;             (* IdentityKey::decode, as its bytes *)
  keypair_try_from : bytes -> SignalResult IdentityKeyPair;
  identity_key : IdentityKeyPair -> bytes;                       (* identity_key().serialize() *)
  prekey_deserialize : bytes -> SignalResult PreKeyRecord;
  prekey_serialize : PreKeyRecord -> SignalResult bytes;
  prekey_public : PreKeyRecord -> SignalResult bytes;
  signed_deserialize : bytes -> SignalResult SignedPreKeyRecord;
  signed_serialize : SignedPreKeyRecord -> SignalResult bytes;
  signed_public : SignedPreKeyRecord -> SignalResult bytes;
  signed_signature : SignedPreKeyRecord -> SignalResult bytes;
  kyber_deserialize : bytes -> SignalResult KyberPreKeyRecord;
  kyber_serialize : KyberPreKeyRecord -> SignalResult bytes;
  kyber_public : KyberPreKeyRecord -> SignalResult bytes;
  kyber_signature : KyberPreKeyRecord -> SignalResult bytes
}.

Definition signal_err `{LibSignal} (e : SignalProtocolError) : CoreError :=
  match e with DuplicatedMessage => Replay | other => Signal (signal_text other) end.

Definition SIGNED_PREKEY_ID : Z := 1.
Definition KYBER_PREKEY_ID : Z := 1.
Definition ONETIME_PREKEY_ID : Z := 1.
Definition DEVICE_ID : Z := 1.

Module LocalIdentity.
Record t := mk { address_name : bytes; registration_id : Z; identity_keypair : bytes }.
End LocalIdentity.

Module Keys.
Record t := mk {
  local_identity : option LocalIdentity.t;
  sessions : gmap (bytes * Z) bytes;
  identities : gmap bytes bytes;
  prekeys : gmap Z bytes;
  signed_prekeys : gmap Z bytes;
  kyber_prekeys : gmap Z (bytes * bool)
}.

Definition empty : t := mk None ∅ ∅ ∅ ∅ ∅.
Definition with_sessions (k : t) (m : gmap (bytes * Z) bytes) : t :=
  mk (local_identity k) m (identities k) (prekeys k) (signed_prekeys k) (kyber_prekeys k).
Definition with_identities (k : t) (m : gmap bytes bytes) : t :=
  mk (local_identity k) (sessions k) m (prekeys k) (signed_prekeys k) (kyber_prekeys k).
Definition with_prekeys (k : t) (m : gmap Z bytes) : t :=
  mk (local_identity k) (sessions k) (identities k) m (signed_prekeys k) (kyber_prekeys k).
Definition with_signed (k : t) (m : gmap Z bytes) : t :=
  mk (local_identity k) (sessions k) (identities k) (prekeys k) m (kyber_prekeys k).
Definition with_kyber (k : t) (m : gmap Z (bytes * bool)) : t :=
  mk (local_identity k) (sessions k) (identities k) (prekeys k) (signed_prekeys k) m.
End Keys.

(** ** The library's five stores

    Records are serialized blobs: a reader gets what the library makes of the
    stored blob, a writer stores what the library makes of the record, and
    either may fail. *)

Inductive IdentityChange := NewOrUnchanged | ReplacedExisting.

(** The rows behind them: [SELECT .. WHERE ..] by primary key, and
    [INSERT .. ON CONFLICT DO UPDATE]. *)
Definition session_row (k : Keys.t) (address : bytes) (device_id : Z) : option bytes :=
  Keys.sessions k !! (address, device_id).
Definition put_session (k : Keys.t) (address : bytes) (device_id : Z) (record : bytes) : Keys.t :=
  Keys.with_sessions k (<[(address, device_id) := record]> (Keys.sessions k)).
Definition identity_row (k : Keys.t) (address : bytes) : option bytes := Keys.identities k !! address.
Definition blob_row (m : gmap Z bytes) (id : Z) : option bytes := m !! id.
Definition put_blob (m : gmap Z bytes) (id : Z) (record : bytes) : gmap Z bytes := <[id := record]> m.
Definition kyber_blobs (k : Keys.t) : gmap Z bytes := fst <$> Keys.kyber_prekeys k.

Section stores.
Context `{SqlText} `{LibSignal}.

Definition db_err (e : SqlError) : SignalProtocolError := InvalidState "sqlcipher store" (sql_text e).

Definition load_session (k : Keys.t) (address : bytes) (device_id : Z) : SignalResult (option SessionRecord) :=
  match session_row k address device_id with
  | Some b => r ← session_deserialize b; Ok (Some r)
  | None => Ok None
  end.

Definition store_session (k : Keys.t) (address : bytes) (device_id : Z) (record : SessionRecord) : SignalResult Keys.t :=
  b ← session_serialize record; Ok (put_session k address device_id b).

Definition get_identity_key_pair (k : Keys.t) : SignalResult IdentityKeyPair :=
  i ← ok_or (Keys.local_identity k) (InvalidState "identity" "not initialized");
  keypair_try_from (LocalIdentity.identity_keypair i).

(** No row, or a number that is no [u32], is the database's error. *)
Definition get_local_registration_id (k : Keys.t) : SignalResult Z :=
  i ← ok_or (Keys.local_identity k) (db_err QueryReturnedNoRows);
  let v := LocalIdentity.registration_id i in
  if (0 <=? v) && (v <=? u32_max) then Ok v else Err (db_err IntegralValueOutOfRange).

Definition save_identity (k : Keys.t) (address identity : bytes) : IdentityChange * Keys.t :=
  let change := match identity_row k address with
                | Some known => if beq known identity then NewOrUnchanged else ReplacedExisting
                | None => NewOrUnchanged
                end in
  (change, Keys.with_identities k (<[address := identity]> (Keys.identities k))).

Definition is_trusted_identity (k : Keys.t) (address identity : bytes) : bool :=
  match identity_row k address with
  | None => true
  | Some known => beq known identity
  end.

Definition get_identity (k : Keys.t) (address : bytes) : SignalResult (option bytes) :=
  match identity_row k address with
  | Some b => i ← identity_key_decode b; Ok (Some i)
  | None => Ok None
  end.

Definition get_pre_key (k : Keys.t) (id : Z) : SignalResult PreKeyRecord :=
  b ← ok_or (blob_row (Keys.prekeys k) id) InvalidPreKeyId; prekey_deserialize b.
Definition save_pre_key (k : Keys.t) (id : Z) (record : PreKeyRecord) : SignalResult Keys.t :=
  b ← prekey_serialize record; Ok (Keys.with_prekeys k (put_blob (Keys.prekeys k) id b)).
Definition remove_pre_key (k : Keys.t) (id : Z) : Keys.t :=
  Keys.with_prekeys k (delete id (Keys.prekeys k)).

Definition get_signed_pre_key (k : Keys.t) (id : Z) : SignalResult SignedPreKeyRecord :=
  b ← ok_or (blob_row (Keys.signed_prekeys k) id) InvalidSignedPreKeyId; signed_deserialize b.
Definition save_signed_pre_key (k : Keys.t) (id : Z) (record : SignedPreKeyRecord) : SignalResult Keys.t :=
  b ← signed_serialize record; Ok (Keys.with_signed k (put_blob (Keys.signed_prekeys k) id b)).

Definition get_kyber_pre_key (k : Keys.t) (id : Z) : SignalResult KyberPreKeyRecord :=
  b ← ok_or (blob_row (kyber_blobs k) id) InvalidKyberPreKeyId; kyber_deserialize b.

(** An upsert sets the record only; [used] keeps its value or its default. *)
Definition save_kyber_pre_key (k : Keys.t) (id : Z) (record : KyberPreKeyRecord) : SignalResult Keys.t :=
  b ← kyber_serialize record;
  let used := match Keys.kyber_prekeys k !! id with Some (_, u) => u | None => false end in
  Ok (Keys.with_kyber k (<[id := (b, used)]> (Keys.kyber_prekeys k))).

(** Marked, not deleted: the single Kyber prekey is a last resort. *)
Definition mark_kyber_pre_key_used (k : Keys.t) (id : Z) : Keys.t :=
  Keys.with_kyber k (alter (fun p => (p.1, true)) id (Keys.kyber_prekeys k)).
End stores.

(** ** Identity *)

Definition hex_digit (n : Z) : Z := if n <? 10 then 48 + n else 87 + n.
Definition hex_encode (b : bytes) : bytes :=
  concat (map (fun c => [hex_digit (c / 16); hex_digit (c mod 16)]) b).

Definition address_for_identity (identity_key : bytes) : bytes := hex_encode identity_key.

(** What [initialize] generates, with the library's verdict where a call can
    fail: the key pair and its public half, the draws of the registration id,
    the signature over the signed prekey, and the serialized records. *)
Record Generated := mkGenerated {
  g_keypair : bytes;
  g_public : bytes;
  g_draws : list Z;
  g_signature : SignalResult bytes;            (* calculate_signature *)
  g_clock : option Z;                          (* ms since the epoch, [None] before it *)
  g_kyber_record : SignalResult unit;          (* KyberPreKeyRecord::generate *)
  g_signed : Z -> bytes -> SignalResult bytes; (* the signed record's serialize() *)
  g_kyber : SignalResult bytes;                (* the Kyber record's serialize() *)
  g_onetime : SignalResult bytes               (* the one-time record's serialize() *)
}.

(** Panics on a clock before the epoch. *)
Definition now_timestamp (clock : option Z) : Result Z :=
  millis ← expect clock; expect (try_from_max u64_max millis).

(** The loop over draws, masked to 14 bits, until one is not zero. *)
Fixpoint registration_loop (draws : list Z) : option Z :=
  match draws with
  | [] => None
  | d :: r => let candidate := Z.land d 16383 in
              if candidate =? 0 then registration_loop r else Some candidate
  end.

Section identity.
Context `{SqlText} `{LibSignal}.

Definition is_initialized (k : Keys.t) : bool := bool_decide (is_Some (Keys.local_identity k)).

(** [INSERT INTO t (id, record)]: a duplicate id is an error. *)
Definition insert_blob (m : gmap Z bytes) (id : Z) (record : bytes) : Result (gmap Z bytes) :=
  match m !! id with
  | Some _ => Err (sql_err ConstraintViolation)
  | None => Ok (<[id := record]> m)
  end.

(** One transaction; [None] while the registration draws run out. *)
Definition initialize (k : Keys.t) (g : Generated) : option (Result Keys.t) :=
  if is_initialized k then Some (Err (Storage "identity already initialized"))
  else
    registration_id ← registration_loop (g_draws g);
    Some (
      signature ← map_err signal_err (g_signature g);
      timestamp ← now_timestamp (g_clock g);
      _ ← map_err signal_err (g_kyber_record g);
      signed_record ← map_err signal_err (g_signed g timestamp signature);
      signed ← insert_blob (Keys.signed_prekeys k) SIGNED_PREKEY_ID signed_record;
      kyber_record ← map_err signal_err (g_kyber g);
      kyber ← match Keys.kyber_prekeys k !! KYBER_PREKEY_ID with
              | Some _ => Err (sql_err ConstraintViolation)
              | None => Ok (<[KYBER_PREKEY_ID := (kyber_record, false)]> (Keys.kyber_prekeys k))
              end;
      onetime_record ← map_err signal_err (g_onetime g);
      onetime ← insert_blob (Keys.prekeys k) ONETIME_PREKEY_ID onetime_record;
      Ok (Keys.mk (Some (LocalIdentity.mk (address_for_identity (g_public g)) registration_id
                                          (g_keypair g)))
                  (Keys.sessions k) (Keys.identities k) onetime signed kyber)).

Definition local_row (k : Keys.t) : Result LocalIdentity.t := query_row (Keys.local_identity k).

Definition local_address (k : Keys.t) : Result bytes :=
  i ← local_row k; Ok (LocalIdentity.address_name i).

Definition identity_keypair (k : Keys.t) : Result IdentityKeyPair :=
  i ← local_row k; map_err signal_err (keypair_try_from (LocalIdentity.identity_keypair i)).

Definition serialize_bundle (k : Keys.t) (onetime : Z * bytes) : Result bytes :=
  address_name ← local_address k;
  i ← local_row k;
  registration_id ← get_uint u32_max (LocalIdentity.registration_id i);
  identity ← map_err signal_err (keypair_try_from (LocalIdentity.identity_keypair i));
  signed_bytes ← query_row (Keys.signed_prekeys k !! SIGNED_PREKEY_ID);
  signed_record ← map_err signal_err (signed_deserialize signed_bytes);
  kyber_bytes ← query_row (fst <$> Keys.kyber_prekeys k !! KYBER_PREKEY_ID);
  kyber_record ← map_err signal_err (kyber_deserialize kyber_bytes);
  signed_pub ← map_err signal_err (signed_public signed_record);
  signed_sig ← map_err signal_err (signed_signature signed_record);
  kyber_pub ← map_err signal_err (kyber_public kyber_record);
  kyber_sig ← map_err signal_err (kyber_signature kyber_record);
  serialize (BundleData.mk address_name registration_id DEVICE_ID (identity_key identity) SIGNED_PREKEY_ID
               signed_pub signed_sig KYBER_PREKEY_ID kyber_pub kyber_sig (Some onetime)).

Definition export_prekey_bundle (k : Keys.t) : Result bytes :=
  record ← query_row (Keys.prekeys k !! ONETIME_PREKEY_ID);
  r ← map_err signal_err (prekey_deserialize record);
  onetime_public ← map_err signal_err (prekey_public r);
  serialize_bundle k (ONETIME_PREKEY_ID, onetime_public).

(** [SELECT COALESCE(MAX(id), 0) FROM prekeys] *)
Definition max_prekey_id (k : Keys.t) : Z := foldr Z.max 0 (elements (dom (Keys.prekeys k))).

(** [new_record] builds the record of an id and the fresh key pair.  The
    row stays when reading the public key back fails. *)
Definition mint_offer_onetime_prekey (k : Keys.t) (new_record : Z -> PreKeyRecord)
    : Result (Z * bytes) * Keys.t :=
  let inserted :=
    id ← get_uint u32_max (max_prekey_id k + 1);
    _ ← ensure (negb (id =? u32_max)) (Storage "one-time prekey id space exhausted");
    record ← map_err signal_err (prekey_serialize (new_record id));
    m ← insert_blob (Keys.prekeys k) id record;
    Ok (id, m) in
  match (inserted : Result (Z * gmap Z bytes)) with
  | Ok (id, m) =>
    (public ← map_err signal_err (prekey_public (new_record id)); Ok (id, public),
     Keys.with_prekeys k m)
  | Err e => (Err e, k)
  | Panic => (Panic, k)
  end.

Definition export_offer_bundle (k : Keys.t) (new_record : Z -> PreKeyRecord)
    : Result bytes * Keys.t :=
  let '(minted, k) := mint_offer_onetime_prekey k new_record in
  (onetime ← minted; serialize_bundle k onetime, k).
End identity.

(** ** Lemmas *)

Lemma max_prekey_bound k id : id ∈ dom (Keys.prekeys k) -> id <= max_prekey_id k.
Proof.
  intros H%elem_of_elements. unfold max_prekey_id.
  induction (elements (dom (Keys.prekeys k))) as [|x l IH]; [by apply elem_of_nil in H|].
  apply elem_of_cons in H as [->|H]; simpl; [lia|]. specialize (IH H). lia.
Qed.

Lemma max_prekey_nonneg k : 0 <= max_prekey_id k.
Proof. unfold max_prekey_id. induction (elements _); simpl; lia. Qed.

Lemma max_prekey_fresh k : Keys.prekeys k !! (max_prekey_id k + 1) = None.
Proof.
  apply not_elem_of_dom. intros H%max_prekey_bound. lia.
Qed.

Lemma mint_inv `{SqlText} `{LibSignal} k new_record id public k' :
  mint_offer_onetime_prekey k new_record = (Ok (id, public), k') ->
  id = max_prekey_id k + 1 /\ id < u32_max /\
  exists record, prekey_serialize (new_record id) = Ok record /\
    map_err signal_err (prekey_public (new_record id)) = Ok public /\
    k' = Keys.with_prekeys k (<[id := record]> (Keys.prekeys k)).
Proof.
  unfold mint_offer_onetime_prekey, get_uint.
  destruct (_ && _) eqn:Er; rsimpl; [|by intros [= E _]]. reflect_bools.
  destruct (Z.eqb_spec (max_prekey_id k + 1) u32_max); rsimpl; [by intros [= E _]|].
  destruct (prekey_serialize _) as [record| |] eqn:Es; rsimpl; [|by intros [= E _]..].
  unfold insert_blob. rewrite max_prekey_fresh. rsimpl.
  destruct (map_err _ _) as [pub| |] eqn:Ep; rsimpl; [|by intros [= E _]..].
  intros [= <- <- <-]. split; [done|]. split; [lia|]. exists record. by split_and!.
Qed.

Lemma mint_Ok `{SqlText} `{LibSignal} k new_record record public :
  let id := max_prekey_id k + 1 in
  id < u32_max -> prekey_serialize (new_record id) = Ok record ->
  prekey_public (new_record id) = Ok public ->
  mint_offer_onetime_prekey k new_record
  = (Ok (id, public), Keys.with_prekeys k (<[id := record]> (Keys.prekeys k))).
Proof.
  intros id Hlt Hs Hp. unfold mint_offer_onetime_prekey. pose proof (max_prekey_nonneg k).
  rewrite get_uint_Ok by lia. rsimpl. rewrite (proj2 (Z.eqb_neq _ _)) by lia. rsimpl.
  fold id. rewrite Hs. rsimpl. unfold insert_blob, id. rewrite max_prekey_fresh. rsimpl.
  fold id. by rewrite Hp.
Qed.

(** A store whose records the library can read into the bundle [d0]. *)
Definition exportable `{LibSignal} (k : Keys.t) (d0 : BundleData.t) : Prop :=
  exists i kp sb sr kb ku kr,
    Keys.local_identity k = Some i /\
    keypair_try_from (LocalIdentity.identity_keypair i) = Ok kp /\
    Keys.signed_prekeys k !! SIGNED_PREKEY_ID = Some sb /\ signed_deserialize sb = Ok sr /\
    Keys.kyber_prekeys k !! KYBER_PREKEY_ID = Some (kb, ku) /\ kyber_deserialize kb = Ok kr /\
    signed_public sr = Ok (BundleData.signed_prekey_pub d0) /\
    signed_signature sr = Ok (BundleData.signed_prekey_sig d0) /\
    kyber_public kr = Ok (BundleData.kyber_prekey_pub d0) /\
    kyber_signature kr = Ok (BundleData.kyber_prekey_sig d0) /\
    BundleData.address_name d0 = LocalIdentity.address_name i /\
    BundleData.registration_id d0 = LocalIdentity.registration_id i /\
    BundleData.device_id d0 = DEVICE_ID /\ BundleData.identity_key d0 = identity_key kp /\
    BundleData.signed_prekey_id d0 = SIGNED_PREKEY_ID /\ BundleData.kyber_prekey_id d0 = KYBER_PREKEY_ID /\
    bundle_core_ok d0.

Lemma serialize_bundle_Ok `{SqlText} `{LibSignal} k d0 onetime :
  exportable k d0 -> serialize_bundle k onetime = serialize (with_onetime d0 (Some onetime)).
Proof.
  intros (i & kp & sb & sr & kb & ku & kr & Hi & Hkp & Hsb & Hsr & Hkb & Hkr & Hsp & Hss & Hkup & Hks
          & E1 & E2 & E3 & E4 & E5 & E6 & Hcore).
  destruct Hcore as (_ & Hreg & _). rewrite E2 in Hreg.
  unfold serialize_bundle, local_address, local_row, query_row. rewrite Hi. rsimpl.
  rewrite get_uint_Ok by apply Hreg. rsimpl. rewrite Hkp. rsimpl. rewrite Hsb. rsimpl.
  rewrite Hsr. rsimpl. rewrite Hkb. rsimpl. rewrite Hkr. rsimpl.
  rewrite Hsp. rsimpl. rewrite Hss. rsimpl. rewrite Hkup. rsimpl. rewrite Hks. rsimpl.
  unfold with_onetime. by rewrite E1, E2, E3, E4, E5, E6.
Qed.

Lemma registration_loop_some draws :
  Exists (fun d => Z.land d 16383 <> 0) draws -> Forall (fun d => 0 <= d) draws ->
  exists r, registration_loop draws = Some r /\ 1 <= r <= 16383.
Proof.
  induction 1 as [d l Hd|d l _ IH]; intros Hpos; apply Forall_cons in Hpos as [Hd0 Hl]; simpl.
  - rewrite (proj2 (Z.eqb_neq _ _) Hd). exists (Z.land d 16383). split; [done|].
    change 16383 with (Z.ones 14) in *. rewrite Z.land_ones in * by lia.
    pose proof (Z.mod_pos_bound d (2 ^ 14)). change (Z.ones 14) with (2 ^ 14 - 1). lia.
  - destruct (IH Hl) as (r & Hr & Hb). destruct (Z.eqb_spec (Z.land d 16383) 0); [eauto|].
    exists (Z.land d 16383). split; [done|].
    change 16383 with (Z.ones 14) in *. rewrite Z.land_ones in * by lia.
    pose proof (Z.mod_pos_bound d (2 ^ 14)). change (Z.ones 14) with (2 ^ 14 - 1). lia.
Qed.

(** ** Properties *)

(** Trust on first use.  A first identity for an address is trusted;
    once one is saved, exactly that one is trusted for the address until
    another is saved, a save reports a replacement exactly when it overwrites
    a different key, and no other address is affected. *)
Theorem tofu_correct `{SqlText} `{LibSignal} (k : Keys.t) (address identity identity' address' : bytes) :
  (Keys.identities k !! address = None -> is_trusted_identity k address identity = true) /\
  (is_trusted_identity (save_identity k address identity).2 address identity' = true
   <-> identity' = identity) /\
  get_identity (save_identity k address identity).2 address = (i ← identity_key_decode identity; Ok (Some i)) /\
  ((save_identity k address identity).1 = ReplacedExisting
   <-> is_trusted_identity k address identity = false) /\
  (address' <> address ->
   is_trusted_identity (save_identity k address identity).2 address' identity'
   = is_trusted_identity k address' identity').
Proof.
  unfold is_trusted_identity, save_identity, get_identity, identity_row. simpl. split_and!.
  - by intros ->.
  - rewrite lookup_insert_eq. unfold beq. rewrite bool_decide_eq_true. naive_solver.
  - by rewrite lookup_insert_eq.
  - destruct (Keys.identities k !! address) as [known|]; [|naive_solver].
    destruct (beq known identity); naive_solver.
  - intros Hne. by rewrite lookup_insert_ne.
Qed.

(** A concrete reading of records, for the witnesses: a record is its own
    serialization and every field is its bytes. *)
#[local] Instance demo_lib : LibSignal := {|
  signal_text _ := "signal"%string;
  SessionRecord := bytes; IdentityKeyPair := bytes; PreKeyRecord := bytes; SignedPreKeyRecord := bytes;
  KyberPreKeyRecord := bytes; session_deserialize b := Ok b; session_serialize b := Ok b; identity_key_decode b := Ok b;
  keypair_try_from b := Ok b; identity_key b := b;
  prekey_deserialize b := Ok b; prekey_serialize b := Ok b; prekey_public b := Ok b;
  signed_deserialize b := Ok b; signed_serialize b := Ok b; signed_public b := Ok b; signed_signature b := Ok b;
  kyber_deserialize b := Ok b; kyber_serialize b := Ok b; kyber_public b := Ok b; kyber_signature b := Ok b
|}.

#[local] Instance demo_sql_text : SqlText := fun _ => "sql"%string.

Definition demo_record : Z -> @PreKeyRecord demo_lib := fun id => [id; 9].

Definition demo_generated : Generated :=
  mkGenerated [5; 1] [5; 2] [16384; 5] (Ok [4]) (Some 1000) (Ok tt) (fun _ sig => Ok ([6] ++ sig)) (Ok [7; 7]) (Ok [8; 8]).

(** One-time prekeys of offers.  A minted prekey has an id that no stored
    prekey uses and that is not the wire's absent marker; minting keeps every
    other prekey, and consuming it leaves exactly the prekeys there were
    before, so one pairing never consumes another offer's key.  After its
    consumption the next offer gets the same id again. *)
Theorem mint_correct `{SqlText} `{LibSignal} (k k' : Keys.t) (new_record : Z -> PreKeyRecord)
    (id : Z) (public : bytes) :
  mint_offer_onetime_prekey k new_record = (Ok (id, public), k') ->
  Keys.prekeys k !! id = None /\ 1 <= id < ABSENT_ID /\
  (forall id', id' <> id -> Keys.prekeys k' !! id' = Keys.prekeys k !! id') /\
  is_Some (Keys.prekeys k' !! id) /\
  remove_pre_key k' id = k /\
  mint_offer_onetime_prekey (remove_pre_key k' id) new_record = (Ok (id, public), k').
Proof.
  intros E. pose proof (mint_inv _ _ _ _ _ E) as (-> & Hlt & record & Hs & Hp & ->).
  pose proof (max_prekey_nonneg k). pose proof (max_prekey_fresh k) as Hf.
  assert (Hrm : remove_pre_key (Keys.with_prekeys k (<[max_prekey_id k + 1 := record]> (Keys.prekeys k)))
                  (max_prekey_id k + 1) = k).
  { unfold remove_pre_key. simpl. rewrite delete_insert_id by done. by destruct k. }
  rewrite Hrm. split_and!; try done.
  - lia.
  - intros id' Hne. simpl. by rewrite lookup_insert_ne.
  - simpl. rewrite lookup_insert_eq. by eexists.
Qed.

Lemma mint_correct_witness :
  let k := Keys.with_prekeys Keys.empty {[ 1 := [8; 8] ]} in
  let k' := Keys.with_prekeys Keys.empty (<[2 := [2; 9]]> {[ 1 := [8; 8] ]}) in
  Keys.prekeys k !! 2 = None /\ remove_pre_key k' 2 = k.
Proof.
  intros k k'.
  destruct (mint_correct k k' demo_record 2 [2; 9]) as (H1 & _ & _ & _ & H2 & _);
    [vm_compute; reflexivity|].
  split; [exact H1|exact H2].
Defined.

(** Exported offers parse.  When the stored records are readable and fit
    the wire, exporting an offer's bundle succeeds, and the peer's parser gets
    back exactly the stored identity and prekeys with the freshly minted
    one-time prekey. *)
Theorem offer_bundle_parses `{SqlText} `{LibSignal} (k : Keys.t) (d0 : BundleData.t)
    (new_record : Z -> PreKeyRecord) (record public : bytes) :
  let id := max_prekey_id k + 1 in
  exportable k d0 -> id < u32_max -> prekey_serialize (new_record id) = Ok record ->
  prekey_public (new_record id) = Ok public -> field_ok public ->
  exists b, export_offer_bundle k new_record
    = (Ok b, Keys.with_prekeys k (<[id := record]> (Keys.prekeys k))) /\
    parse b = Ok (with_onetime d0 (Some (id, public))).
Proof.
  intros id Hex Hlt Hs Hp Hf. unfold export_offer_bundle.
  rewrite (mint_Ok k new_record record public Hlt Hs Hp). fold id. cbn [fst snd].
  assert (Hex' : exportable (Keys.with_prekeys k (<[id := record]> (Keys.prekeys k))) d0) by exact Hex.
  assert (Hok : bundle_ok (with_onetime d0 (Some (id, public)))).
  { destruct Hex as (? & ? & ? & ? & ? & ? & ? & Hex). do 16 destruct Hex as [_ Hex].
    split; [exact Hex|]. simpl. pose proof (max_prekey_nonneg k). unfold in_u32, id in *.
    unfold ABSENT_ID. unfold u32_max in *. split_and!; try done; lia. }
  destruct (bundle_serialize_parse _ Hok) as (b & Eb & Pb).
  exists b. rsimpl. rewrite (serialize_bundle_Ok _ d0 (id, public) Hex'). by rewrite Eb.
Qed.

Definition demo_keys : Keys.t :=
  Keys.mk (Some (LocalIdentity.mk (hex_encode [5; 2]) 5 [5; 2])) ∅ ∅ {[ 1 := [8; 8] ]}
    {[ 1 := [6; 6] ]} {[ 1 := ([7; 7], false) ]}.

Lemma offer_bundle_parses_witness :
  exists b, (export_offer_bundle demo_keys demo_record).1 = Ok b /\
    parse b = Ok (BundleData.mk (hex_encode [5; 2]) 5 1 [5; 2] 1 [6; 6] [6; 6] 1 [7; 7] [7; 7]
                    (Some (2, [2; 9]))).
Proof.
  destruct (offer_bundle_parses demo_keys
    (BundleData.mk (hex_encode [5; 2]) 5 1 [5; 2] 1 [6; 6] [6; 6] 1 [7; 7] [7; 7] None)
    demo_record [2; 9] [2; 9]) as (b & H1 & H2).
  - eexists _, _, _, _, _, _, _. do 16 (split; [reflexivity|]).
    unfold bundle_core_ok, text_ok, field_ok, in_u32. by_compute.
  - vm_compute; reflexivity.
  - reflexivity.
  - reflexivity.
  - unfold field_ok. by_compute.
  - exists b. rewrite H1. split; [reflexivity|exact H2].
Defined.

(** Initialization.  On a fresh store, when the library's calls succeed and the
    clock is past the epoch, and as soon as the generator yields a value with a
    non-zero 14-bit part, initialization succeeds with a registration id between
    1 and 16383, the address that the public key determines and prekeys of id 1;
    the store is then initialized and a second initialization is refused. *)
Theorem initialize_correct `{SqlText} `{LibSignal} (g g' : Generated)
    (signature signed kyber onetime : bytes) (millis : Z) :
  g_signature g = Ok signature -> g_clock g = Some millis -> millis <= u64_max -> g_kyber_record g = Ok tt ->
  g_signed g millis signature = Ok signed ->
  g_kyber g = Ok kyber -> g_onetime g = Ok onetime ->
  Exists (fun d => Z.land d 16383 <> 0) (g_draws g) -> Forall (fun d => 0 <= d) (g_draws g) ->
  exists k i, initialize Keys.empty g = Some (Ok k) /\ Keys.local_identity k = Some i /\
    1 <= LocalIdentity.registration_id i <= 16383 /\
    LocalIdentity.address_name i = address_for_identity (g_public g) /\
    LocalIdentity.identity_keypair i = g_keypair g /\
    get_pre_key k ONETIME_PREKEY_ID = prekey_deserialize onetime /\
    get_signed_pre_key k SIGNED_PREKEY_ID = signed_deserialize signed /\
    get_kyber_pre_key k KYBER_PREKEY_ID = kyber_deserialize kyber /\
    is_initialized k = true /\
    initialize k g' = Some (Err (Storage "identity already initialized")).
Proof.
  intros Hsig Hc Hms Hkr Hs Hk Ho Hd Hpos. destruct (registration_loop_some _ Hd Hpos) as (r & Hr & Hb).
  unfold initialize at 1. change (is_initialized Keys.empty) with false. cbv iota.
  rewrite Hr, Hsig, Hkr. rsimpl. unfold now_timestamp, try_from_max. rewrite Hc. rsimpl.
  rewrite (proj2 (Z.leb_le _ _)) by done. rsimpl. rewrite Hs. rsimpl. rewrite Hk, Ho.
  eexists _, _. split; [reflexivity|]. split; [reflexivity|].
  split; [exact Hb|]. by split_and!.
Qed.

Lemma initialize_correct_witness :
  exists k i, initialize Keys.empty demo_generated = Some (Ok k) /\ Keys.local_identity k = Some i /\
    1 <= LocalIdentity.registration_id i <= 16383.
Proof.
  destruct (initialize_correct demo_generated demo_generated [4] [6; 4] [7; 7] [8; 8] 1000
              eq_refl eq_refl ltac:(vm_compute; congruence) eq_refl eq_refl eq_refl eq_refl) as (k & i & H1 & H2 & H3 & _).
  - apply Exists_cons_tl, Exists_cons_hd. vm_compute; congruence.
  - repeat constructor; vm_compute; congruence.
  - exists k, i. split; [exact H1|]. split; [exact H2|exact H3].
Defined.
