(* ===== verification/Transport.v ===== *)
(** The client's transport ([tezca-core/src/relay_client/]): the HTTP calls of
    [http.rs] and the subscription of [ws.rs].  The network is an argument:
    what a request is answered, and the sequence of things a socket produces; so
    are the failures of the database ([Platform]). *)

From S2P Require Import Prelude Errors Base64 Config RelayWire RelayLimits RelayState RelayApi.

(** ** HTTP ([http.rs]) *)

Definition strip_prefix (p s : bytes) : option bytes :=
  if beq (take (length p) s) p then Some (drop (length p) s) else None.

(** Maps a relay URL to its HTTP origin. *)
Definition to_http (url : bytes) : bytes :=
  match strip_prefix (bstr "ws://") url with
  | Some rest => bstr "http://" ++ rest
  | None =>
    match strip_prefix (bstr "wss://") url with
    | Some rest => bstr "https://" ++ rest
    | None => url
    end
  end.

Inductive Method := POST | PUT | DELETE.

Inductive DepositOutcome := Accepted | NotFound | Other (status : Z).
Inductive PutOutcome := Created | AtCap | RateLimited | PutOther (status : Z).

#[export] Instance DepositOutcome_eq_dec : EqDecision DepositOutcome.
Proof. solve_decision. Defined.
#[export] Instance PutOutcome_eq_dec : EqDecision PutOutcome.
Proof. solve_decision. Defined.

(** The text before and after the first occurrence of [pat]. *)
Fixpoint split_once (pat s : bytes) : option (bytes * bytes) :=
  match strip_prefix pat s with
  | Some rest => Some ([], rest)
  | None =>
    match s with
    | [] => None
    | c :: r => '(before, after) ← split_once pat r; Some (c :: before, after)
    end
  end.

(** [s.split(pat).nth(1)]: the piece between the first two occurrences. *)
Definition split_nth1 (pat s : bytes) : option bytes :=
  '(_, after) ← split_once pat s;
  Some match split_once pat after with Some (piece, _) => piece | None => after end.

(** The id in the body of a mailbox-create response. *)
Definition mailbox_id_of_body (body : bytes) : option bytes :=
  s ← split_nth1 ([34] ++ bstr "mailbox_id" ++ [34]) body;
  split_nth1 [34] s.

(** The outside of the client: the network, the OS generator and the clocks,
    as operations on a state of their own. *)
Class Platform := {
  World : Type;
  (* [client.method(url).body(..).send()]: a transport error, or the status
     and what reading the body gives. *)
  http_send : Method -> bytes -> bytes -> World -> result string (Z * result string bytes) * World;
  (* [OsRng.try_fill_bytes] on a buffer of the given length *)
  random_bytes : nat -> World -> bytes * World;
  (* [SystemTime::now()] in seconds since the epoch, [None] before it *)
  system_secs : World -> option Z * World;
  (* [unixepoch()] of the database *)
  unixepoch : World -> Z * World;
  (* what becomes of the next access to the database: [Some] the text of its
     failure (the disk, a lock held for too long, a damaged page) *)
  store_fault : World -> option string * World;
  (* how a status is shown in an error *)
  status_text : Z -> string
}.

(** A database no access to which fails. *)
Class StoreWorks `{Platform} : Prop := store_works : forall w, store_fault w = (None, w).

Section http.
Context `{Platform}.

Abbreviation io := (st World).

Definition net_err (e : string) : CoreError := Network e.

Definition call (m : Method) (url body : bytes) : io (Z * result string bytes) :=
  fun w => let '(r, w') := http_send m url body w in (map_err net_err r, w').

Definition http_create_mailbox (relay_url : bytes) : io bytes :=
  '(status, body) ← call POST (to_http relay_url ++ bstr "/v1/mailboxes") [];
  _ ← pure_r (ensure (status =? 201) (Network ("mailbox create failed: " +:+ status_text status)));
  text ← pure_r (map_err net_err body);
  pure_r (ok_or (mailbox_id_of_body text) (Malformed "malformed mailbox-create response")).

Definition http_deposit (relay_url mailbox_id blob : bytes) : io DepositOutcome :=
  '(status, _) ← call POST (to_http relay_url ++ bstr "/v1/mailboxes/" ++ mailbox_id ++ bstr "/messages") blob;
  mret (if status =? 202 then Accepted else if status =? 404 then NotFound else Other status).

Definition http_put_mailbox (relay_url mailbox_id : bytes) : io PutOutcome :=
  '(status, _) ← call PUT (to_http relay_url ++ bstr "/v1/mailboxes/" ++ mailbox_id) [];
  mret (if status =? 201 then Created
        else if status =? 503 then AtCap
        else if status =? 429 then RateLimited
        else PutOther status).

Definition http_delete_mailbox (relay_url mailbox_id : bytes) : io unit :=
  _ ← call DELETE (to_http relay_url ++ bstr "/v1/mailboxes/" ++ mailbox_id) [];
  mret tt.
End http.

(** ** Subscription ([ws.rs]) *)

(** [host:port] of a relay URL's authority. *)
Definition socket_authority (scheme authority : bytes) : bytes :=
  if existsb (fun c => c =? 58) authority then authority
  else authority ++ [58] ++ (if beq scheme (bstr "wss") then bstr "443" else bstr "80").

(** [authority.split(':').next()] *)
Definition host_of (authority : bytes) : bytes :=
  match split_once [58] authority with Some (h, _) => h | None => authority end.

(** [relay_url.split_once("://")] *)
Definition split_url (relay_url : bytes) : option (bytes * bytes) := split_once (bstr "://") relay_url.

Inductive Event :=
  | Delivery (message_id envelope : bytes)
  | Idle.

(** What one wait on the socket ends with: the timer (and the error of the
    Ping that follows, if it cannot be sent), a message, or an error. *)
Inductive WsInput :=
  | Elapsed (ping_err : option string)
  | WsBinary (data : bytes)
  | WsPong
  | WsPing
  | WsClose
  | WsEnd
  | WsOther
  | WsErr (e : string).

(** Reading a delivery frame. *)
Definition parse_delivery (data : bytes) : Result Event :=
  if zlen data <? 17 then Err (Malformed "bad relay delivery frame")
  else
    b0 ← index data 0;
    if negb (b0 =? 1) then Err (Malformed "bad relay delivery frame")
    else
      id ← slice data 1 17;
      envelope ← slice data 17 (zlen data);
      Ok (Delivery id envelope).

(** [Subscription::next] over the inputs to come: [None] while it still
    waits; otherwise the result, the flag [awaiting_pong] it leaves and the
    inputs not consumed. *)
Fixpoint next (awaiting_pong : bool) (ins : list WsInput)
    : option (Result (option Event) * bool * list WsInput) :=
  match ins with
  | [] => None
  | Elapsed ping_err :: r =>
    if awaiting_pong then Some (Err (Network "keepalive timeout"), true, r)
    else match ping_err with
         | Some e => Some (Err (Network e), false, r)
         | None => next true r
         end
  | WsBinary data :: r =>
    Some (e ← parse_delivery data; Ok (Some e), false, r)
  | WsPong :: r => if awaiting_pong then Some (Ok (Some Idle), false, r) else next false r
  | WsPing :: r => next awaiting_pong r
  | (WsClose | WsEnd) :: r => Some (Ok None, awaiting_pong, r)
  | WsOther :: r => next awaiting_pong r
  | WsErr e :: r => Some (Err (Network e), awaiting_pong, r)
  end.

(** The frame [Subscription::ack] sends. *)
Definition ack_frame (message_id : bytes) : bytes := [2] ++ message_id.

(** ** Lemmas *)

Lemma strip_prefix_app p s : strip_prefix p (p ++ s) = Some s.
Proof. unfold strip_prefix. by rewrite take_app_length, beq_refl, drop_app_length. Qed.

Lemma strip_prefix_Some p s r : strip_prefix p s = Some r -> s = p ++ r.
Proof.
  unfold strip_prefix. bool_case; [|done]. intros [= <-]. reflect_bools.
  rewrite <- (take_drop (length p) s) at 1. by rewrite E.
Qed.

Lemma strip_prefix_head p q c s : q <> c -> strip_prefix (q :: p) (c :: s) = None.
Proof.
  intros Hne. destruct (strip_prefix (q :: p) (c :: s)) eqn:E; [|done].
  apply strip_prefix_Some in E. injection E as -> _. done.
Qed.

(** A pattern whose first byte does not occur before it is found there. *)
Lemma split_once_skip q p l s :
  (q ∉ l) -> split_once (q :: p) (l ++ s)
  = (fun x => (l ++ x.1, x.2)) <$> split_once (q :: p) s.
Proof.
  intros Hl. induction l as [|c l IH]; simpl app.
  { by destruct (split_once _ s) as [[]|]. }
  apply not_elem_of_cons in Hl as [Hc Hl]. cbn [split_once]. rewrite strip_prefix_head by done.
  rewrite (IH Hl). by destruct (split_once (q :: p) s) as [[]|].
Qed.

Lemma split_once_here p s : p <> [] -> split_once p (p ++ s) = Some ([], s).
Proof. intros Hp. destruct p as [|q p]; [done|]. simpl app. cbn [split_once].
  change (q :: p ++ s) with ((q :: p) ++ s). by rewrite strip_prefix_app. Qed.

Lemma split_once_found q p l s :
  (q ∉ l) -> split_once (q :: p) (l ++ (q :: p) ++ s) = Some (l, s).
Proof.
  intros Hl. rewrite split_once_skip by done. rewrite split_once_here by done. simpl.
  by rewrite app_nil_r.
Qed.

Lemma quote_not_base64 id : mailbox_id_shape_ok id = true -> (34 ∉ id) /\ length id = 43%nat.
Proof.
  unfold mailbox_id_shape_ok. intros H. reflect_bools. split; [|unfold zlen in *; lia].
  intros Hin. rewrite forallb_forall in H0. specialize (H0 34). rewrite <- list_elem_of_In in H0.
  specialize (H0 Hin). by vm_compute in H0.
Qed.

(** The id inside the relay's answer is the one the client reads. *)
Lemma created_json_id id :
  mailbox_id_shape_ok id = true -> mailbox_id_of_body (created_json id) = Some id.
Proof.
  intros [Hq Hl]%quote_not_base64. unfold mailbox_id_of_body.
  set (k := bstr "mailbox_id" ++ [34]). set (rest := [58; 34] ++ id ++ [34; 125]).
  assert (H1 : split_once (34 :: k) (created_json id) = Some ([123], rest))
    by (apply (split_once_found 34 k [123] rest); set_solver).
  assert (H2 : split_once (34 :: k) (34 :: id ++ [34; 125]) = None).
  { cbn [split_once]. destruct (strip_prefix _ _) as [r|] eqn:E.
    { exfalso. apply strip_prefix_Some in E. injection E as E. unfold k in E.
      do 11 (destruct id as [|? id]; [done|]). simpl in E. injection E. intros. subst. set_solver. }
    rewrite (split_once_skip 34 k id [34; 125]) by done. done. }
  assert (H3 : split_once (34 :: k) rest = None).
  { pose proof (split_once_skip 34 k [58] (34 :: id ++ [34; 125])) as H. rewrite H2 in H.
    apply H. set_solver. }
  assert (H4 : split_once [34] rest = Some ([58], id ++ [34; 125]))
    by (apply (split_once_found 34 [] [58]); set_solver).
  assert (H5 : split_once [34] (id ++ [34; 125]) = Some (id, [125]))
    by (by apply (split_once_found 34 [] id [125])).
  change ([34] ++ k) with (34 :: k).
  unfold split_nth1. rewrite H1. rsimpl. rewrite H3. rsimpl. rewrite H4. rsimpl. by rewrite H5.
Qed.

Lemma parse_delivery_frame id envelope :
  length id = 16%nat -> parse_delivery (delivery_frame id envelope) = Ok (Delivery id envelope).
Proof.
  intros H. unfold parse_delivery, delivery_frame.
  rewrite (proj2 (Z.ltb_ge _ _)) by (zlen_simpl; unfold zlen; lia).
  assert (I0 : @index CoreError ([1] ++ id ++ envelope) 0 = Ok 1)
    by exact (index_app_head (E:=CoreError) [] 1 (id ++ envelope)).
  pose proof (slice_mid (E:=CoreError) [1] id envelope) as E1. change (zlen [1]) with 1 in E1.
  replace (1 + zlen id) with 17 in E1 by (unfold zlen; lia).
  pose proof (slice_mid (E:=CoreError) ([1] ++ id) envelope []) as E2.
  rewrite app_nil_r, <- app_assoc in E2.
  replace (zlen ([1] ++ id)) with 17 in E2 by (zlen_simpl; unfold zlen; lia).
  replace (zlen ([1] ++ id ++ envelope)) with (17 + zlen envelope) by (zlen_simpl; unfold zlen; lia).
  rewrite I0. rsimpl. change (1 =? 1) with true. cbv iota. rewrite E1. rsimpl. by rewrite E2.
Qed.

Lemma parse_delivery_not_idle d : (e ← parse_delivery d; Ok (Some e)) <> Ok (Some Idle).
Proof.
  unfold parse_delivery. destruct (_ <? _); [done|].
  destruct (index d 0) as [b0| |]; rsimpl; [|done|done]. destruct (negb _); [done|].
  destruct (slice d 1 17); rsimpl; [|done|done]. by destruct (slice d 17 _).
Qed.

(** What a relay promises a subscriber: the client reads back the message of
    every delivery frame, and the relay reads back the id of every ack. *)
Class DeliveryChannel (frame : bytes -> bytes -> bytes) (acked : bytes -> run (option bytes)) := {
  frame_delivers : forall id envelope, length id = 16%nat ->
    parse_delivery (frame id envelope) = Ok (Delivery id envelope);
  ack_is_read : forall id, length id = 16%nat -> acked (ack_frame id) = Ok (Some id)
}.

#[export] Instance relay_channel : DeliveryChannel delivery_frame parse_ack_frame.
Proof. split; [apply parse_delivery_frame|apply parse_ack_frame_build]. Qed.

(** What a wait can end with while nothing is decided. *)
Definition noise (i : WsInput) : bool := match i with WsPing | WsOther => true | _ => false end.

Lemma next_noise b l r : forallb noise l = true -> next b (l ++ r) = next b r.
Proof. induction l as [|[] l IH]; simpl; intros H; try done; by apply IH. Qed.

(** ** Properties *)

(** Mailbox creation over HTTP.  Against a relay that answers a creation
    with the body it builds, the client returns exactly the id the relay
    created, whatever the id (any id of the relay's shape). *)
Theorem http_create_reads_id `{Platform} (relay_url id : bytes) (w w' : World) :
  mailbox_id_shape_ok id = true ->
  http_send POST (to_http relay_url ++ bstr "/v1/mailboxes") [] w = (Ok (201, Ok (created_json id)), w') ->
  http_create_mailbox relay_url w = (Ok id, w').
Proof.
  intros Hid Hs. unfold http_create_mailbox, call, pure_r, mbind, st_bind. rewrite Hs. rsimpl.
  change (201 =? 201) with true. simpl. by rewrite created_json_id.
Qed.

(** A platform whose relay answers every request with one new mailbox. *)
#[local] Instance create_only : Platform := {|
  World := unit;
  http_send _ _ _ w := (Ok (201, Ok (created_json demo_id)), w);
  random_bytes n w := (replicate n 7, w);
  system_secs w := (Some 1000, w);
  unixepoch w := (1000, w);
  store_fault w := (None, w);
  status_text _ := "status"%string
|}.

Lemma http_create_reads_id_witness : http_create_mailbox DEFAULT_RELAY_URL tt = (Ok demo_id, tt).
Proof.
  apply (http_create_reads_id (H := create_only) DEFAULT_RELAY_URL demo_id tt tt);
    vm_compute; reflexivity.
Defined.

(** Keepalive.  After a silent interval whose Ping went out, a second
    silent wait ends the subscription with the keepalive error, whatever
    pings and other frames arrive between; a Pong in time yields Idle and
    re-arms the timer; a delivery is returned at once and clears the wait; and
    Idle is reported only when a Ping of this subscription was answered. *)
Theorem keepalive_correct (quiet1 quiet2 r : list WsInput) (p : option string) (d : bytes)
    (awaiting b : bool) (ins rest : list WsInput) :
  forallb noise quiet1 = true -> forallb noise quiet2 = true ->
  next false (quiet1 ++ Elapsed None :: quiet2 ++ Elapsed p :: r)
    = Some (Err (Network "keepalive timeout"), true, r) /\
  next false (quiet1 ++ Elapsed None :: quiet2 ++ WsPong :: r) = Some (Ok (Some Idle), false, r) /\
  next awaiting (quiet1 ++ WsBinary d :: r) = Some (e ← parse_delivery d; Ok (Some e), false, r) /\
  (next false ins = Some (Ok (Some Idle), b, rest) ->
     exists l l', ins = l ++ Elapsed None :: l' ++ WsPong :: rest).
Proof.
  intros H1 H2. split_and!.
  - rewrite next_noise by done. simpl. by rewrite next_noise.
  - rewrite next_noise by done. simpl. by rewrite next_noise.
  - by rewrite next_noise.
  - assert (Ht : forall l, next true l = Some (Ok (Some Idle), b, rest) -> exists l', l = l' ++ WsPong :: rest).
    { induction l as [|[e|x| | | | | |x] l IH]; simpl; intros H; try done.
      - injection H as H _ _. by apply parse_delivery_not_idle in H.
      - injection H as <- <-. by exists [].
      - destruct (IH H) as [l' ->]. by exists (WsPing :: l').
      - destruct (IH H) as [l' ->]. by exists (WsOther :: l'). }
    induction ins as [|[e|x| | | | | |x] l IH]; simpl; intros H; try done.
    + destruct e as [e|]; [done|]. destruct (Ht _ H) as [l' ->]. by exists [], l'.
    + injection H as H _ _. by apply parse_delivery_not_idle in H.
    + destruct (IH H) as (l1 & l2 & ->). by exists (WsPong :: l1), l2.
    + destruct (IH H) as (l1 & l2 & ->). by exists (WsPing :: l1), l2.
    + destruct (IH H) as (l1 & l2 & ->). by exists (WsOther :: l1), l2.
Qed.

Lemma keepalive_correct_witness :
  next false ([WsPing] ++ Elapsed None :: [WsOther] ++ Elapsed None :: [WsEnd])
  = Some (Err (Network "keepalive timeout"), true, [WsEnd]).
Proof.
  apply (keepalive_correct [WsPing] [WsOther] [WsEnd] None [] false false [] []); reflexivity.
Defined.
