(* ===== verification/Tls.v ===== *)
(** Trust and the subscription attempt ([relay_client/ws/pin.rs] and the
    connecting half of [relay_client/ws.rs]): which certificates a connection
    accepts, how the two client legs choose that, and how a subscription
    attempt ends.  Sockets, the TLS handshake, the digest and the bundled root
    store are the class [Tls]; the handshake takes the verifier it calls. *)

From S2P Require Import Prelude Errors Utf8 Config Storage Transport.

(** ** What the TLS library is given *)

(** The signature checks of the crypto provider. *)
Module CryptoProvider.
Record t := mk {
  tls12_signature : bytes -> bytes -> bytes -> unit + string;
  tls13_signature : bytes -> bytes -> bytes -> unit + string;
  supported_schemes : list Z
}.
End CryptoProvider.

(** A certificate verifier: leaf, intermediates and server name, then the
    handshake signatures. *)
Module Verifier.
Record t := mk {
  verify_server_cert : bytes -> list bytes -> bytes -> unit + string;
  verify_tls12_signature : bytes -> bytes -> bytes -> unit + string;
  verify_tls13_signature : bytes -> bytes -> bytes -> unit + string;
  supported_verify_schemes : list Z
}.
End Verifier.

(** The two configurations the client builds. *)
Inductive ClientConfig := Pinned (pin : bytes) | BundledRoots.

#[export] Instance ClientConfig_eq_dec : EqDecision ClientConfig.
Proof. solve_decision. Defined.

(** How a WebSocket handshake fails: an HTTP answer, or anything else. *)
Inductive WsError := WsHttp (status : Z) | WsFailure (e : string).

Class Tls `{Platform} := {
  sha256 : bytes -> bytes;
  hex_decode : list Z -> option bytes;
  ring_provider : CryptoProvider.t;
  (* [with_safe_default_protocol_versions] on the ring provider *)
  safe_protocol_versions : unit + string;
  (* the library's verifier over the bundled root store *)
  webpki_verifier : Verifier.t;
  server_name_ok : bytes -> bool;
  TcpStream : Type;
  TlsStream : Type;
  WebSocket : Type;
  tcp_connect : bytes -> World -> (TcpStream + string) * World;
  tls_handshake : Verifier.t -> bytes -> TcpStream -> World -> (TlsStream + string) * World;
  client_async : bytes -> TcpStream + TlsStream -> World -> (WebSocket + WsError) * World;
  (* [reqwest::Client::builder()..build()] with a preconfigured TLS and timeouts *)
  reqwest_build : ClientConfig -> HttpTimeouts.t -> unit + string
}.

(** An open subscription. *)
Module Subscription.
Section subscription.
Context `{Tls}.
Record t := mk { ws : WebSocket; timing : KeepaliveTiming.t; awaiting_pong : bool }.
Definition new (ws : WebSocket) (timing : KeepaliveTiming.t) : t := mk ws timing false.
End subscription.
End Subscription.

Module HttpClient.
Record t := mk { config : ClientConfig; timeouts : HttpTimeouts.t }.
End HttpClient.

Section tls.
Context `{Tls}.

Abbreviation io := (st World).

Definition tls_err (e : string) : CoreError := Network e.

Definition of_sum {A} (r : A + string) : Result A :=
  match r with inl a => Ok a | inr e => Err (tls_err e) end.

Inductive Connected :=
  | Subscribed (sub : Subscription.t)
  | MailboxGone
  | Unreachable.

(** ** Certificate pinning *)

(** [PinVerifier]: exactly the pinned leaf; the chain, the name and the time
    are not looked at, the handshake signatures are the provider's. *)
Definition pin_verifier (pin : bytes) : Verifier.t :=
  Verifier.mk
    (fun end_entity _ _ =>
       if beq (sha256 end_entity) pin then inl tt else inr "relay certificate pin mismatch"%string)
    (CryptoProvider.tls12_signature ring_provider)
    (CryptoProvider.tls13_signature ring_provider)
    (CryptoProvider.supported_schemes ring_provider).

Definition verifier (c : ClientConfig) : Verifier.t :=
  match c with Pinned p => pin_verifier p | BundledRoots => webpki_verifier end.

Definition pinned_client_config (pin : bytes) : Result ClientConfig :=
  _ ← of_sum safe_protocol_versions; Ok (Pinned pin).

Definition bundled_client_config : Result ClientConfig :=
  _ ← of_sum safe_protocol_versions; Ok BundledRoots.

(** The test anchor: [None] in a build without it, otherwise what the
    environment variable holds. *)
Definition anchor : Type := option (option (list Z)).

Definition env_test_pin (var : option (list Z)) : option bytes :=
  hex_pin ← var;
  b ← hex_decode (trim hex_pin);
  if (length b =? 32)%nat then Some b else None.

(** [pin.or_else(env_test_pin)] in builds with the anchor. *)
Definition effective_pin (a : anchor) (pin : option bytes) : option bytes :=
  match a, pin with
  | Some var, None => env_test_pin var
  | _, _ => pin
  end.

Definition choose_config (pin : option bytes) : Result ClientConfig :=
  match pin with Some p => pinned_client_config p | None => bundled_client_config end.

(** [TlsConnector::from(config).connect(server_name, tcp)] *)
Definition connect (config : ClientConfig) (host : bytes) (tcp : TcpStream) : io TlsStream :=
  fun w => let '(r, w') := tls_handshake (verifier config) host tcp w in (of_sum r, w').

Definition tls_connect (a : anchor) (tcp : TcpStream) (host : bytes) (pin : option bytes) : io TlsStream :=
  config ← pure_r (choose_config (effective_pin a pin));
  _ ← pure_r (ensure (server_name_ok host) (Network "invalid relay hostname"));
  connect config host tcp.

(** ** The two legs *)

Definition build_http_client (a : anchor) (timeouts : HttpTimeouts.t) : Result HttpClient.t :=
  config ← choose_config (effective_pin a None);
  _ ← of_sum (reqwest_build config timeouts);
  Ok (HttpClient.mk config timeouts).

Definition ws_url (relay_url mailbox_id : bytes) : bytes :=
  relay_url ++ bstr "/v1/mailboxes/" ++ mailbox_id ++ bstr "/ws".

(** The stream under the WebSocket: TLS for [wss], the bare socket otherwise. *)
Definition open_stream (a : anchor) (scheme host : bytes) (pin : option bytes) (tcp : TcpStream)
    : io (TcpStream + TlsStream) :=
  if beq scheme (bstr "wss") then tls ← tls_connect a tcp host pin; mret (inr tls)
  else mret (inl tcp).

Definition subscribe (a : anchor) (relay_url mailbox_id : bytes) (pin : option bytes)
    (timing : KeepaliveTiming.t) : World -> Connected * World :=
  fun w =>
  match split_url relay_url with
  | None => (Unreachable, w)
  | Some (scheme, authority) =>
    match tcp_connect (socket_authority scheme authority) w with
    | (inr _, w) => (Unreachable, w)
    | (inl tcp, w) =>
      match open_stream a scheme (host_of authority) pin tcp w with
      | (Ok stream, w) =>
        match client_async (ws_url relay_url mailbox_id) stream w with
        | (inl ws, w) => (Subscribed (Subscription.new ws timing), w)
        | (inr (WsHttp status), w) => (if status =? 404 then MailboxGone else Unreachable, w)
        | (inr (WsFailure _), w) => (Unreachable, w)
        end
      | (_, w) => (Unreachable, w)
      end
    end
  end.

(** The attempt of a conversation listener: this side's relay, the inbox and
    the pin of the conversation. *)
Definition listener_subscribe (a : anchor) (my_relay : bytes) (convo : Conversation.t)
    (timing : KeepaliveTiming.t) : option (World -> Connected * World) :=
  recv ← Conversation.mailbox_recv convo;
  Some (subscribe a my_relay recv (Conversation.relay_pin convo) timing).
End tls.

(** What the connection code relies on: a handshake that completes has shown
    the certificate it was verified with to the verifier, and a WebSocket runs
    over the stream it was made on. *)
Class TlsLaws `{Tls} := {
  leaf : TlsStream -> bytes;
  chain : TlsStream -> list bytes;
  stream_of : WebSocket -> TcpStream + TlsStream;
  handshake_verified : forall v name tcp w s w',
    tls_handshake v name tcp w = (inl s, w') ->
    Verifier.verify_server_cert v (leaf s) (chain s) name = inl tt;
  client_async_over : forall url s w ws w', client_async url s w = (inl ws, w') -> stream_of ws = s
}.

(** ** Properties *)

Section trust.
Context `{TlsLaws}.

(** What the client must believe of a TLS stream: the pin in force names its
    leaf; without one the bundled roots vouch for it. *)
Definition trusted (a : anchor) (pin : option bytes) (host : bytes) (s : TlsStream) : Prop :=
  match effective_pin a pin with
  | Some p => sha256 (leaf s) = p
  | None => Verifier.verify_server_cert webpki_verifier (leaf s) (chain s) host = inl tt
  end.

Lemma tls_connect_trusted a tcp host pin w s w' :
  tls_connect a tcp host pin w = (Ok s, w') -> trusted a pin host s.
Proof.
  unfold tls_connect, connect, trusted, pure_r, mbind, st_bind, choose_config.
  destruct (effective_pin a pin) as [p|];
    unfold pinned_client_config, bundled_client_config;
    (destruct safe_protocol_versions; simpl; [|done]);
    (destruct (server_name_ok host); simpl; [|done]);
    destruct (tls_handshake _ _ _ _) as [[s1|e] w1] eqn:Eh; simpl; try done;
    intros [= -> ->]; apply handshake_verified in Eh; simpl in Eh.
  - bool_case; [|done]. by reflect_bools.
  - done.
Qed.

Lemma open_stream_trusted a scheme host pin tcp w st w' :
  open_stream a scheme host pin tcp w = (Ok st, w') ->
  if beq scheme (bstr "wss") then exists s, st = inr s /\ trusted a pin host s else st = inl tcp.
Proof.
  unfold open_stream. destruct (beq scheme _).
  - intros (s & w1 & Hc & [= <- <-])%st_bind_Ok. exists s. split; [done|]. by eapply tls_connect_trusted.
  - by intros [= <- <-].
Qed.

(** A subscription attempt that ended in anything but [Unreachable] reached
    the relay over a stream, and asked it for the mailbox there. *)
Lemma subscribe_reached a relay_url mailbox_id pin timing w c w' :
  subscribe a relay_url mailbox_id pin timing w = (c, w') -> c <> Unreachable ->
  exists scheme authority tcp w1 stream w2 r,
    split_url relay_url = Some (scheme, authority) /\
    tcp_connect (socket_authority scheme authority) w = (inl tcp, w1) /\
    open_stream a scheme (host_of authority) pin tcp w1 = (Ok stream, w2) /\
    client_async (ws_url relay_url mailbox_id) stream w2 = (r, w') /\
    match c with
    | Subscribed sub => r = inl (Subscription.ws sub) /\ sub = Subscription.new (Subscription.ws sub) timing
    | MailboxGone => r = inr (WsHttp 404)
    | Unreachable => False
    end.
Proof.
  unfold subscribe. intros Es Hc. destruct (split_url relay_url) as [[scheme authority]|]; [|by simplify_eq].
  destruct (tcp_connect _ w) as [[tcp|e] w1] eqn:Et; [|by simplify_eq].
  destruct (open_stream _ _ _ _ _ w1) as [[stream| |] w2] eqn:Eo; [|by simplify_eq..].
  exists scheme, authority, tcp, w1, stream, w2.
  destruct (client_async _ _ w2) as [[ws|[status|e]] w3] eqn:Ec; [| |by simplify_eq].
  - injection Es as <- <-. by eexists.
  - destruct (status =? 404) eqn:E4; [|by simplify_eq]. injection Es as <- <-. reflect_bools. subst status.
    by eexists.
Qed.

(** C14: trust of a subscription.  On a [wss] relay URL, whatever an attempt
    reports of the mailbox, open or gone, it learned over a TLS stream whose
    leaf certificate has the digest of the conversation's pin, if there is one,
    whatever the test anchor says; without a pin, of the anchor in test builds;
    otherwise the bundled roots vouch for it.  So a mailbox is never taken for
    lost on the word of an untrusted peer.  A subscription that opened runs
    over that very stream with no Ping outstanding. *)
Theorem subscribe_trust (a : anchor) (authority mailbox_id : bytes) (pin : option bytes)
    (timing : KeepaliveTiming.t) (w w' : World) (c : Connected) :
  subscribe a (bstr "wss://" ++ authority) mailbox_id pin timing w = (c, w') ->
  c <> Unreachable ->
  exists s, trusted a pin (host_of authority) s /\
    (forall p, pin = Some p -> sha256 (leaf s) = p) /\
    match c with
    | Subscribed sub => stream_of (Subscription.ws sub) = inr s /\ Subscription.awaiting_pong sub = false
    | _ => exists w1, client_async (ws_url (bstr "wss://" ++ authority) mailbox_id) (inr s) w1
                      = (inr (WsHttp 404), w')
    end.
Proof.
  intros Es Hc.
  destruct (subscribe_reached _ _ _ _ _ _ _ _ Es Hc) as (sch & auth & tcp & w1 & st & w2 & r & Hu & _ & Ho & Ha & Hr).
  assert (Hu' : split_url (bstr "wss://" ++ authority) = Some (bstr "wss", authority))
    by (apply (split_once_found 58 (bstr "//") (bstr "wss")); by_compute).
  rewrite Hu' in Hu. injection Hu as <- <-.
  apply open_stream_trusted in Ho. rewrite beq_refl in Ho. destruct Ho as (s & -> & Hs).
  exists s. split; [done|]. split.
  - intros p ->. unfold trusted, effective_pin in Hs. by destruct a.
  - destruct c as [sub| |]; [|by exists w2; rewrite Ha, Hr|done]. destruct Hr as [-> Hsub]. split.
    + by apply client_async_over in Ha.
    + by rewrite Hsub.
Qed.
End trust.

(** A relay at one address with one certificate, which has the mailbox. *)
Module Demo.
Definition cert : bytes := [48; 130; 1; 10].
Definition digest (b : bytes) : bytes := replicate 32 (foldr Z.add 0 b mod 256).

#[export] Instance platform : Platform := {|
  World := unit;
  http_send _ _ _ w := (Err "unused"%string, w);
  random_bytes n w := (replicate n 7, w);
  system_secs w := (Some 1000, w);
  unixepoch w := (1000, w);
  store_fault w := (None, w);
  status_text _ := "status"%string
|}.

#[export] Instance tls : Tls := {|
  sha256 := digest;
  hex_decode _ := None;
  ring_provider := CryptoProvider.mk (fun _ _ _ => inl tt) (fun _ _ _ => inl tt) [];
  safe_protocol_versions := inl tt;
  webpki_verifier := Verifier.mk (fun _ _ _ => inr "unknown issuer"%string) (fun _ _ _ => inl tt) (fun _ _ _ => inl tt) [];
  server_name_ok h := negb (beq h []);
  TcpStream := bytes;
  TlsStream := bytes;
  WebSocket := bytes + bytes;
  tcp_connect address w := (inl address, w);
  tls_handshake v name _ w :=
    (match Verifier.verify_server_cert v cert [] name with inl _ => inl cert | inr e => inr e end, w);
  client_async _ s w := (inl s, w);
  reqwest_build _ _ := inl tt
|}.

#[export] Instance laws : TlsLaws.
Proof.
  refine {| leaf := fun s : TlsStream => s : bytes; chain := fun _ => []; stream_of := fun w : WebSocket => w |}.
  - intros v name tcp w s w'. simpl. destruct (Verifier.verify_server_cert v cert [] name) as [[]|] eqn:E; [|done].
    by intros [= <- <-].
  - by intros url s w ws w' [= -> ->].
Defined.
End Demo.

(** The pinned certificate is accepted, another pin is not. *)
Lemma subscribe_trust_witness :
  fst (subscribe (H0 := Demo.tls) None (bstr "wss://relay") [] (Some (replicate 32 0)) KeepaliveTiming.production tt)
    = Unreachable /\
  exists s, trusted (H1 := Demo.laws) None (Some (Demo.digest Demo.cert)) (bstr "relay") s /\ s = Demo.cert.
Proof.
  split; [reflexivity|].
  pose (c := subscribe (H0 := Demo.tls) None (bstr "wss://" ++ bstr "relay") []
               (Some (Demo.digest Demo.cert)) KeepaliveTiming.production tt).
  assert (Hc : c = (Subscribed (Subscription.new (H0 := Demo.tls) (@inr bytes bytes Demo.cert) KeepaliveTiming.production), tt))
    by reflexivity.
  destruct (subscribe_trust (H1 := Demo.laws) None (bstr "relay") [] (Some (Demo.digest Demo.cert))
              KeepaliveTiming.production tt tt _ Hc) as (s & Hs & _ & Hw & _); [done|].
  exists s. split; [exact Hs|]. simpl in Hw. congruence.
Defined.
