(* ===== verification/Open.v ===== *)
(** Opening the encrypted store ([storage/mod.rs], [DbKey] and [Store::open]):
    the key is given to the database as text, a first read tells a wrong key
    from a right one, and the migrations run.  The database library and its
    files are the class [Sqlcipher]; what it promises is [SqlcipherLaws]. *)

From S2P Require Import Prelude Errors Storage Keys Transport.

Module DbKey.
Section key.
Context `{Platform}.
(** 32 bytes, wiped when dropped. *)
Record t := mk { as_bytes : bytes }.
Definition generate : World -> t * World :=
  fun w => let '(b, w') := random_bytes 32 w in (mk b, w').
Definition from_bytes (b : bytes) : t := mk b.
End key.
End DbKey.

(** The database library: connections, statements, and what the store reads
    and writes through them. *)
Class Sqlcipher := {
  Disk : Type;
  Conn : Type;
  connection_open : bytes -> Disk -> (Conn + string) * Disk;
  execute_batch : Conn -> bytes -> Disk -> (unit + string) * Disk;
  (* [SELECT count( * ) FROM sqlite_master] *)
  count_master : Conn -> Disk -> Z + string;
  read_schema : Conn -> Disk -> Schema.t + string;
  (* [tx.commit()] of a transaction that leads to this schema *)
  commit_schema : Conn -> Schema.t -> Disk -> (unit + string) * Disk;
  read_tables : Conn -> Disk -> Keys.t * Db.t
}.

(** The statement that hands the key to the library, as raw-key text. *)
Definition key_pragma (key_hex : bytes) : bytes :=
  bstr "PRAGMA key = " ++ [34] ++ bstr "x'" ++ key_hex ++ bstr "'" ++ [34] ++ bstr ";".
Definition memory_pragma : bytes := bstr "PRAGMA cipher_memory_security = ON;".
(** [CREATE TABLE IF NOT EXISTS schema_migrations ..] *)
Definition migrations_ddl : bytes :=
  bstr "CREATE TABLE IF NOT EXISTS schema_migrations (version INTEGER PRIMARY KEY, applied_at INTEGER NOT NULL);".

Section open.
Context `{Sqlcipher} `{SqlText}.

Definition lift_sql {A} (f : Disk -> (A + string) * Disk) : st Disk A :=
  fun d => match f d with (inl a, d') => (Ok a, d') | (inr e, d') => (Err (Storage e), d') end.

Definition query_schema (conn : Conn) : st Disk Schema.t :=
  read_r (fun d => match read_schema conn d with inl s => Ok s | inr e => Err (Storage e) end).

(** One transaction on the file of a connection: it commits, or the file stays
    as it was. *)
Definition migration (conn : Conn) (current v : Z) (ddl : Schema.t -> Result Schema.t) : st Disk unit :=
  if current <? v then
    s ← query_schema conn;
    let '(r, s') := Schema.migration current v ddl s in
    _ ← pure_r r;
    lift_sql (commit_schema conn s')
  else mret tt.

(** [schema::migrate]: what a transaction committed stays when a later one
    fails. *)
Definition migrate (conn : Conn) : st Disk unit :=
  _ ← lift_sql (execute_batch conn migrations_ddl);
  s ← query_schema conn;
  current ← pure_r (get_uint u32_max (Schema.version s));
  _ ← migration conn current 1 Schema.create_tables;
  _ ← migration conn current 2 (Schema.add_column "relay_pin");
  _ ← migration conn current 3 (Schema.add_columns Schema.v3_columns);
  migration conn current 4 (Schema.add_column "label").

Definition open_store (path : bytes) (key : DbKey.t) : st Disk Conn :=
  conn ← lift_sql (connection_open path);
  _ ← lift_sql (execute_batch conn (key_pragma (hex_encode (DbKey.as_bytes key))));
  _ ← lift_sql (execute_batch conn memory_pragma);
  probe ← read_r (fun d => Ok (count_master conn d));
  _ ← pure_r (match probe with inl _ => Ok tt | inr _ => Err BadDbKey end);
  _ ← migrate conn;
  mret conn.

Definition schema_version (conn : Conn) : st Disk Z :=
  s ← query_schema conn; pure_r (get_uint u32_max (Schema.version s)).
End open.

(** An encrypted file: the key it was written under and what it holds. *)
Module DbFile.
Record t := mk { key_hex : bytes; schema : Schema.t; tables : Keys.t * Db.t }.
End DbFile.

(** What the library documents.  [file_at] is what a path holds ([None]: no
    file, or an empty one); a connection remembers its path and its key.  A
    connection that was given another key than the file's reads nothing of it,
    and any key starts a new file.  Any call may fail, whatever the key (the
    disk, a lock, a damaged file), and then the file stays as it was: a
    transaction commits as a whole or not at all. *)
Class SqlcipherLaws `{Sqlcipher} := {
  file_at : Disk -> bytes -> option DbFile.t;
  conn_of : Disk -> Conn -> bytes * option bytes;
  no_tables : Keys.t * Db.t;
  open_law : forall path d,
    match connection_open path d with
    | (inl c, d') => conn_of d' c = (path, None) /\ file_at d' = file_at d
    | (inr _, d') => file_at d' = file_at d
    end;
  key_law : forall c h d,
    match execute_batch c (key_pragma h) d with
    | (inl _, d') => conn_of d' c = ((conn_of d c).1, Some h) /\ file_at d' = file_at d
    | (inr _, d') => file_at d' = file_at d
    end;
  memory_law : forall c d,
    match execute_batch c memory_pragma d with
    | (inl _, d') => conn_of d' c = conn_of d c /\ file_at d' = file_at d
    | (inr _, d') => file_at d' = file_at d
    end;
  probe_law : forall c d path k n f, conn_of d c = (path, Some k) ->
    count_master c d = inl n -> file_at d path = Some f -> DbFile.key_hex f = k;
  ddl_law : forall c d path k, conn_of d c = (path, Some k) ->
    match execute_batch c migrations_ddl d with
    | (inl _, d') => conn_of d' c = (path, Some k) /\
        forall q, file_at d' q = if beq q path then
                                   Some (default (DbFile.mk k Schema.empty no_tables) (file_at d path))
                                 else file_at d q
    | (inr _, d') => file_at d' = file_at d
    end;
  read_law : forall c d path k f, conn_of d c = (path, Some k) -> file_at d path = Some f ->
    DbFile.key_hex f = k ->
    match read_schema c d with inl s => s = DbFile.schema f | inr _ => True end /\
    read_tables c d = DbFile.tables f;
  commit_law : forall c d path k f s, conn_of d c = (path, Some k) -> file_at d path = Some f ->
    DbFile.key_hex f = k ->
    match commit_schema c s d with
    | (inl _, d') => conn_of d' c = (path, Some k) /\
        forall q, file_at d' q = if beq q path then Some (DbFile.mk k s (DbFile.tables f)) else file_at d q
    | (inr _, d') => file_at d' = file_at d
    end
}.

(** ** Hexadecimal text *)

Lemma hex_digit_inj m n : 0 <= m < 16 -> 0 <= n < 16 -> hex_digit m = hex_digit n -> m = n.
Proof. unfold hex_digit. intros. destruct (Z.ltb_spec m 10), (Z.ltb_spec n 10); lia. Qed.

Lemma hex_encode_inj a b : bytes_ok a -> bytes_ok b -> hex_encode a = hex_encode b -> a = b.
Proof.
  intros Ha. revert b. induction Ha as [|x a Hx Ha IH]; intros b Hb; destruct Hb as [|y b Hy Hb]; try done.
  unfold hex_encode in *. simpl. intros [= Hd Hm Hr]. unfold byte_ok in *.
  apply hex_digit_inj in Hd; [|split; [apply Z.div_pos|apply Z.div_lt_upper_bound]; lia..].
  apply hex_digit_inj in Hm; [|apply Z.mod_pos_bound; lia..].
  f_equal; [|by apply IH]. rewrite (Z.div_mod x 16), (Z.div_mod y 16) by lia. congruence.
Qed.

(** ** Properties *)

Section correct.
Context `{SqlcipherLaws} `{SqlText}.

(** The file at a path, if any, was left by a version of the migrations. *)
Definition known_schema (d : Disk) (path : bytes) : Prop :=
  forall f, file_at d path = Some f -> exists k, (k <= 4)%nat /\ DbFile.schema f = schema_at k.

(** The key of the file at a path, where there is one, is the given one. *)
Definition key_fits (d : Disk) (path : bytes) (key : DbKey.t) : Prop :=
  forall f, file_at d path = Some f -> DbFile.key_hex f = hex_encode (DbKey.as_bytes key).

(** Opening goes through three calls; [c] is its connection after them. *)
Definition prepared (path : bytes) (key : DbKey.t) (d : Disk) (c : Conn) (d3 : Disk) : Prop :=
  exists d1 d2, connection_open path d = (inl c, d1) /\
    execute_batch c (key_pragma (hex_encode (DbKey.as_bytes key))) d1 = (inl tt, d2) /\
    execute_batch c memory_pragma d2 = (inl tt, d3).

Lemma prepared_or_failed path key d :
  (exists c d3, prepared path key d c d3) \/
  exists e d', open_store path key d = (Err (Storage e), d') /\ file_at d' = file_at d.
Proof.
  unfold prepared, open_store, lift_sql, mbind, st_bind. set (h := hex_encode _).
  pose proof (open_law path d) as Ho. destruct (connection_open path d) as [[c|e] d1] eqn:E1; [|by right; eauto].
  destruct Ho as [Hc Hf].
  pose proof (key_law c h d1) as Hk. destruct (execute_batch c (key_pragma h) d1) as [[[]|e] d2] eqn:E2;
    [|right; exists e, d2; by rewrite Hk, Hf].
  destruct Hk as [Hc2 Hf2].
  pose proof (memory_law c d2) as Hm. destruct (execute_batch c memory_pragma d2) as [[[]|e] d3] eqn:E3;
    [|right; exists e, d3; by rewrite Hm, Hf2, Hf].
  left. by eauto 7.
Qed.

(** After them the connection has its key, and the probe decides. *)
Lemma prepared_open path key d c d3 :
  prepared path key d c d3 ->
  conn_of d3 c = (path, Some (hex_encode (DbKey.as_bytes key))) /\ file_at d3 = file_at d /\
  open_store path key d = match count_master c d3 with
                          | inl _ => (_ ← migrate c; mret c) d3
                          | inr _ => (Err BadDbKey, d3)
                          end.
Proof.
  intros (d1 & d2 & E1 & E2 & E3). unfold open_store, lift_sql, mbind, st_bind. rewrite E1, E2, E3.
  pose proof (open_law path d) as Ho. rewrite E1 in Ho. destruct Ho as [Hc Hf].
  pose proof (key_law c (hex_encode (DbKey.as_bytes key)) d1) as Hk. rewrite E2 in Hk. destruct Hk as [Hc2 Hf2].
  pose proof (memory_law c d2) as Hm. rewrite E3 in Hm. destruct Hm as [Hc3 Hf3].
  split_and!; [by rewrite Hc3, Hc2, Hc|by rewrite Hf3, Hf2, Hf|]. unfold read_r, pure_r. by destruct (count_master c d3).
Qed.

(** ** The migrations on a file *)

(** During the migrations of the file at [path], which hold the rows [t]:
    version [k], and every other file as it was at [d]. *)
Record at_version (d : Disk) (path h : bytes) (t : Keys.t * Db.t) (k : nat) (d1 : Disk) : Prop := {
  av_le : (k <= 4)%nat;
  av_file : file_at d1 path = Some (DbFile.mk h (schema_at k) t);
  av_others : forall q, q <> path -> file_at d1 q = file_at d q
}.

(** What a step of the migrations may do. *)
Definition migrates {A} (d : Disk) (path h : bytes) (t : Keys.t * Db.t) (c : Conn) (k : nat)
    (Q : A -> Prop) (r : Result A * Disk) : Prop :=
  match r with
  | (Ok a, d') => conn_of d' c = (path, Some h) /\ at_version d path h t k d' /\ Q a
  | (Err e, d') => (exists s, e = Storage s) /\ (file_at d' = file_at d \/ exists k, at_version d path h t k d')
  | (Panic, _) => False
  end.

Lemma query_schema_at d path h t c k d1 :
  conn_of d1 c = (path, Some h) -> at_version d path h t k d1 ->
  migrates d path h t c k (eq (schema_at k)) (query_schema c d1).
Proof.
  intros Hc Hv. destruct (read_law c d1 path h _ Hc (av_file _ _ _ _ _ _ Hv) eq_refl) as [Hr _].
  unfold query_schema, read_r. destruct (read_schema c d1) as [s|e]; simpl; [by subst|]. by eauto 6.
Qed.

Lemma migrates_bind {A B} d path h t c k k' (P : A -> Prop) (Q : B -> Prop) (m : st Disk A) (f : A -> st Disk B) d1 :
  migrates d path h t c k P (m d1) ->
  (forall a d2, P a -> conn_of d2 c = (path, Some h) -> at_version d path h t k d2 ->
     migrates d path h t c k' Q (f a d2)) ->
  migrates d path h t c k' Q ((x ← m; f x) d1).
Proof.
  unfold mbind, st_bind. destruct (m d1) as [[a|e|] d2]; simpl; [|done|done]. intros (Hc & Hv & HP) Hf. by apply Hf.
Qed.

(** A transaction takes version [n] to [S n], or is not due. *)
Lemma migration_at d path h t c cur n ddl d1 :
  (S n <= 4)%nat -> conn_of d1 c = (path, Some h) -> at_version d path h t (Nat.max cur n) d1 ->
  (forall j, (j <= n)%nat -> Schema.migration (Z.of_nat j) (Z.of_nat (S n)) ddl (schema_at n) = (Ok tt, schema_at (S n))) ->
  migrates d path h t c (Nat.max cur (S n)) (fun _ => True)
    (migration c (Z.of_nat cur) (Z.of_nat (S n)) ddl d1).
Proof.
  intros Hn Hc Hv Hddl. unfold migration. destruct (Z.ltb_spec (Z.of_nat cur) (Z.of_nat (S n))) as [Hlt|Hge].
  2: { simpl. by replace (Nat.max cur (S n)) with (Nat.max cur n) by lia. }
  replace (Nat.max cur n) with n in Hv by lia. replace (Nat.max cur (S n)) with (S n) by lia.
  eapply migrates_bind; [by apply query_schema_at|]. intros s d2 <- Hc2 Hv2. rewrite Hddl by lia.
  unfold mbind, st_bind, pure_r, lift_sql.
  pose proof (commit_law c d2 path h _ (schema_at (S n)) Hc2 (av_file _ _ _ _ _ _ Hv2) eq_refl) as Hcl.
  destruct Hv2 as [_ Hf2 Ho2]. destruct (commit_schema c _ d2) as [[[]|e] d3]; simpl.
  - destruct Hcl as [Hc3 Hq]. split_and!; [done| |done]. split; [done|by rewrite Hq, beq_refl|].
    intros q Hne. rewrite Hq. unfold beq. rewrite bool_decide_eq_false_2 by done. by apply Ho2.
  - split; [by eauto|]. right. exists n. split; [lia|by rewrite Hcl|]. intros q Hne. rewrite Hcl. by apply Ho2.
Qed.

Lemma schema_versions k : (k <= 4)%nat -> get_uint u32_max (Schema.version (schema_at k)) = Ok (Z.of_nat k).
Proof. intros Hk. do 5 (destruct k as [|k]; [reflexivity|]). lia. Qed.

Ltac migration_due := let j := fresh "j" in intros j ?; do 4 (destruct j as [|j]; [first [lia|reflexivity]|]); lia.

(** The file at a path as the migrations find it, a new one if there is none. *)
Definition file_or_new (d : Disk) (path h : bytes) : DbFile.t :=
  default (DbFile.mk h Schema.empty no_tables) (file_at d path).

Lemma migrate_from d path h c k d1 :
  conn_of d1 c = (path, Some h) -> file_at d1 = file_at d -> (k <= 4)%nat ->
  DbFile.key_hex (file_or_new d path h) = h -> DbFile.schema (file_or_new d path h) = schema_at k ->
  migrates d path h (DbFile.tables (file_or_new d path h)) c 4 (fun _ => True) (migrate c d1).
Proof.
  intros Hc Hf Hk Hh Hs. unfold migrate.
  eapply (migrates_bind _ _ _ _ _ k _ (fun _ => True)).
  { unfold lift_sql. pose proof (ddl_law c d1 path h Hc) as Hd.
    destruct (execute_batch c migrations_ddl d1) as [[[]|e] d2]; simpl; [|by rewrite Hd; eauto].
    destruct Hd as [Hc2 Hq]. split_and!; [done| |done]. rewrite Hf in Hq. fold (file_or_new d path h) in Hq.
    split; [done| |].
    - rewrite Hq, beq_refl. rewrite <- Hs. f_equal. destruct (file_or_new d path h) as [a b r]. simpl in *. by subst a.
    - intros q Hne. rewrite Hq. unfold beq. by rewrite bool_decide_eq_false_2. }
  intros _ d2 _ Hc2 Hv2. eapply migrates_bind; [by apply query_schema_at|]. intros s d3 <- Hc3 Hv3.
  eapply (migrates_bind _ _ _ _ _ k _ (eq (Z.of_nat k))); [by unfold pure_r; rewrite schema_versions; simpl|].
  intros cur d4 <- Hc4 Hv4. replace k with (Nat.max k 0) in Hv4 by lia.
  eapply migrates_bind; [apply (migration_at _ _ _ _ _ _ 0); [lia|done|done|migration_due]|]. intros _ d5 _ Hc5 Hv5.
  eapply migrates_bind; [apply (migration_at _ _ _ _ _ _ 1); [lia|done|done|migration_due]|]. intros _ d6 _ Hc6 Hv6.
  eapply migrates_bind; [apply (migration_at _ _ _ _ _ _ 2); [lia|done|done|migration_due]|]. intros _ d7 _ Hc7 Hv7.
  replace 4%nat with (Nat.max k 4) by lia. apply (migration_at _ _ _ _ _ _ 3); [lia|done|done|migration_due].
Qed.

(** ** Opening *)

(** A store that opened under a key that fits: the migrations ran. *)
Lemma open_store_migrates path key d c d3 n (h := hex_encode (DbKey.as_bytes key)) :
  known_schema d path -> prepared path key d c d3 -> count_master c d3 = inl n ->
  key_fits d path key /\
  migrates d path h (DbFile.tables (file_or_new d path h)) c 4 (eq c) (open_store path key d).
Proof.
  intros Hs Hp Hn. destruct (prepared_open _ _ _ _ _ Hp) as (Hc & Hf & ->). rewrite Hn. fold h in Hc.
  assert (Hfit : key_fits d path key).
  { intros f Ef. eapply probe_law; [exact Hc|exact Hn|by rewrite Hf]. }
  split; [done|].
  assert (Hk : exists k, (k <= 4)%nat /\ DbFile.schema (file_or_new d path h) = schema_at k /\
                         DbFile.key_hex (file_or_new d path h) = h).
  { unfold file_or_new. destruct (file_at d path) as [f|] eqn:Ef; simpl.
    - destruct (Hs f Ef) as (k & ? & ?). exists k. split_and!; [done|done|by apply Hfit].
    - exists 0%nat. split_and!; [lia|reflexivity|done]. }
  destruct Hk as (k & Hk & Hsch & Hh).
  eapply migrates_bind; [by eapply migrate_from|]. by intros ? d4 _ Hc4 Hv4.
Qed.

(** What an attempt leaves at its path: the file it found, or one with its
    rows under the given key at some version. *)
Definition file_kept (d : Disk) (path : bytes) (key : DbKey.t) (d' : Disk) : Prop :=
  file_at d' = file_at d \/
  key_fits d path key /\ exists k, at_version d path (hex_encode (DbKey.as_bytes key))
    (DbFile.tables (file_or_new d path (hex_encode (DbKey.as_bytes key)))) k d'.

Lemma open_store_cases path key d (h := hex_encode (DbKey.as_bytes key)) :
  known_schema d path ->
  match open_store path key d with
  | (Ok c, d') =>
    key_fits d path key /\ conn_of d' c = (path, Some h) /\
    at_version d path h (DbFile.tables (file_or_new d path h)) 4 d'
  | (Err e, d') => file_kept d path key d' /\ (e = BadDbKey /\ file_at d' = file_at d \/ exists s, e = Storage s)
  | (Panic, _) => False
  end.
Proof.
  intros Hs. destruct (prepared_or_failed path key d) as [(c & d3 & Hp)|(e & d' & -> & Hf)];
    [|split; [by left|by eauto]].
  destruct (prepared_open _ _ _ _ _ Hp) as (_ & Hf & E).
  destruct (count_master c d3) as [n|e] eqn:En; [|rewrite E; split; [by left|by left]].
  destruct (open_store_migrates _ _ _ _ _ _ Hs Hp En) as [Hfit Hm].
  destruct (open_store path key d) as [[c'|e|] d']; simpl in Hm; [|by destruct Hm as [? [?|?]]; split; unfold file_kept; eauto|done].
  destruct Hm as (? & ? & <-). done.
Qed.

End correct.

(** A library with its files in memory and one connection. *)
Module MemoryFiles.
Definition key_of_pragma (sql : bytes) : bytes := take (length sql - 19) (drop 16 sql).

Definition fits (d : (bytes -> option DbFile.t) * (bytes * option bytes)) : bool :=
  match d.1 d.2.1 with
  | Some f => bool_decide (d.2.2 = Some (DbFile.key_hex f))
  | None => true
  end.

Definition nothing : Keys.t * Db.t := (Keys.empty, Db.mk [] [] false).

Definition tables_of (d : (bytes -> option DbFile.t) * (bytes * option bytes)) : Keys.t * Db.t :=
  match d.1 d.2.1 with Some f => DbFile.tables f | None => nothing end.

(** A file on the disk; [torn] paths are files whose first read fails. *)
Definition torn (path : bytes) : bool := beq path (bstr "torn").

Definition put_file (d : (bytes -> option DbFile.t) * (bytes * option bytes)) (s : Schema.t)
    : (bytes -> option DbFile.t) * (bytes * option bytes) :=
  ((fun q => if beq q d.2.1 then Some (DbFile.mk (default [] d.2.2) s (tables_of d)) else d.1 q), d.2).

#[export] Instance lib : Sqlcipher := {|
  Disk := (bytes -> option DbFile.t) * (bytes * option bytes);
  Conn := unit;
  connection_open path d := (inl tt, (d.1, (path, None)));
  execute_batch _ sql d :=
    (inl tt, if beq sql memory_pragma then d
             else if beq sql migrations_ddl then
               match d.1 d.2.1 with Some _ => d | None => put_file d Schema.empty end
             else (d.1, (d.2.1, Some (key_of_pragma sql))));
  count_master _ d := if fits d && negb (torn d.2.1) then inl 1 else inr "file is not a database"%string;
  read_schema _ d := inl match d.1 d.2.1 with Some f => DbFile.schema f | None => Schema.empty end;
  commit_schema _ s d := (inl tt, put_file d s);
  read_tables _ d := tables_of d
|}.

Lemma key_of_key_pragma h : key_of_pragma (key_pragma h) = h.
Proof.
  unfold key_of_pragma, key_pragma. rewrite !length_app. simpl length.
  replace (_ - 19)%nat with (length h) by lia. simpl. rewrite drop_0. apply take_app_length.
Qed.

#[export] Instance laws : SqlcipherLaws.
Proof.
  refine {| file_at := fun d : Disk => d.1; conn_of := fun (d : Disk) _ => d.2; no_tables := nothing |}.
  - done.
  - intros c h d. cbn [execute_batch lib].
    assert (Hm : beq (key_pragma h) memory_pragma = false) by (by apply bool_decide_eq_false_2; intros [=]).
    assert (Hd : beq (key_pragma h) migrations_ddl = false) by (by apply bool_decide_eq_false_2; intros [=]).
    rewrite Hm, Hd. simpl. by rewrite key_of_key_pragma.
  - done.
  - intros c [f s] path k n x. simpl. intros -> Hn Hx. unfold fits in Hn. simpl in Hn. rewrite Hx in Hn.
    destruct (bool_decide _) eqn:E; [|done]. reflect_bools. congruence.
  - intros c [f s] path k. simpl. intros ->. simpl. destruct (f path) as [x|] eqn:Ef; simpl; (split; [done|]); intros q.
    + unfold beq. case_bool_decide; [by subst|done].
    + unfold tables_of. simpl. by rewrite Ef.
  - intros c [f s] path k x. simpl. intros -> Hx _. unfold tables_of. simpl in *. by rewrite Hx.
  - intros c [f s] path k x sch. simpl. intros -> Hx _. unfold tables_of. simpl in *. by rewrite Hx.
Defined.
End MemoryFiles.

