(* ===== verification/Backoff.v ===== *)
(** Reconnect backoff ([relay_client/backoff.rs]): the schedule, the generator
    of its jitter, and the delay in binary64 arithmetic.  A finite binary64
    number is the integer that counts its units of [2 ^ -1074]; the operations
    round to nearest, ties to even, as the machine's do.  Nothing here comes
    near the overflow threshold or produces a NaN, so those are left out. *)

From S2P Require Import Prelude Errors.

(** ** Binary64 *)

Abbreviation f64 := Z (only parsing).

(** The quotient of [n] by [m] to the nearest integer, ties to even. *)
Definition rne (n m : Z) : Z :=
  let q := n / m in
  match (2 * (n mod m)) ?= m with
  | Lt => q
  | Eq => if Z.even q then q else q + 1
  | Gt => q + 1
  end.

Module F64.
Definition unit_in_last : Z := 2 ^ 1074.

(** The number nearest to [n / d] units, for [n] not negative: 53 significant
    bits, and never finer than the unit. *)
Definition round_pos (n d : Z) : f64 :=
  let k := Z.max 0 (Z.log2 (n / d) - 52) in rne n (d * 2 ^ k) * 2 ^ k.

Definition round (n d : Z) : f64 := if n <? 0 then - round_pos (- n) d else round_pos n d.

(** [f64::from] of an integer of at most 53 bits, and a decimal literal. *)
Definition of_int (n : Z) : f64 := n * unit_in_last.
Definition literal (n d : Z) : f64 := round (n * unit_in_last) d.

Definition add (x y : f64) : f64 := round (x + y) 1.
Definition sub (x y : f64) : f64 := round (x - y) 1.
Definition mul (x y : f64) : f64 := round (x * y) unit_in_last.
Definition div (x y : f64) : f64 := round (x * unit_in_last) y.

(** [x as u32] for [x] not negative. *)
Definition as_u32 (x : f64) : Z := Z.min (x / unit_in_last) u32_max.

(** [Duration::from_secs_f64] in nanoseconds; it panics on a negative number. *)
Definition from_secs_f64 (x : f64) : Result Z :=
  if x <? 0 then Panic else Ok (rne (x * 1000000000) unit_in_last).
End F64.

(** ** The schedule *)

Module BackoffSchedule.
Record t := mk { current : f64; max_secs : f64; lcg : Z }.

Definition new (seed : Z) : t := mk (F64.of_int 1) (F64.of_int 60) (Z.lor seed 1).

Definition step_lcg (s : Z) : Z :=
  wrapping_add u64_max (wrapping_mul u64_max s 6364136223846793005) 1442695040888963407.

Definition jitter (hi31 : Z) : f64 :=
  let unit := F64.div (F64.of_int hi31) (F64.of_int (2 ^ 31)) in
  F64.add (F64.of_int 1) (F64.mul (F64.sub unit (F64.literal 5 10)) (F64.literal 4 10)).

Definition delay (base : f64) (hi31 : Z) : Result Z :=
  F64.from_secs_f64 (Z.max (F64.mul base (jitter hi31)) (F64.literal 5 100)).

(** The next delay in nanoseconds, and the advanced schedule. *)
Definition next_delay (b : t) : Result (Z * t) :=
  let s := step_lcg (lcg b) in
  hi31 ← expect (try_from_max u32_max (Z.shiftr s 33));
  d ← delay (current b) hi31;
  Ok (d, mk (Z.min (F64.mul (current b) (F64.of_int 2)) (max_secs b)) (max_secs b) s).

Definition reset (b : t) : t := mk (F64.of_int 1) (max_secs b) (lcg b).

Definition current_secs (b : t) : Z := F64.as_u32 (current b).

(** The delays of a run of failed attempts. *)
Fixpoint delays (n : nat) (b : t) : Result (list Z * t) :=
  match n with
  | O => Ok ([], b)
  | S n =>
    '(d, b) ← next_delay b;
    '(ds, b) ← delays n b;
    Ok (d :: ds, b)
  end.
End BackoffSchedule.

(** ** Rounding is monotone *)

Lemma rne_exact a m : 0 < m -> rne (a * m) m = a.
Proof.
  intros Hm. unfold rne. rewrite Z.div_mul, Z.mod_mul by lia.
  change (2 * 0) with 0. by rewrite (proj2 (Z.compare_lt_iff 0 m)) by lia.
Qed.

Lemma rne_bounds n m : 0 < m -> n / m <= rne n m <= n / m + 1.
Proof. intros Hm. unfold rne. destruct (_ ?= _); [destruct (Z.even _)|..]; lia. Qed.

Lemma rne_mono n n' m : 0 < m -> n <= n' -> rne n m <= rne n' m.
Proof.
  intros Hm Hn. assert (Hq : n / m <= n' / m) by (apply Z.div_le_mono; lia).
  pose proof (rne_bounds n m Hm). pose proof (rne_bounds n' m Hm).
  destruct (decide (n / m = n' / m)) as [E|]; [|lia].
  assert (n mod m <= n' mod m) by (rewrite !Z.mod_eq by lia; rewrite E; lia).
  unfold rne. rewrite <- E.
  destruct (Z.compare_spec (2 * (n mod m)) m), (Z.compare_spec (2 * (n' mod m)) m); try lia;
    destruct (Z.even (n / m)); lia.
Qed.

Lemma round_pos_mono n n' d : 0 < d -> 0 <= n <= n' -> F64.round_pos n d <= F64.round_pos n' d.
Proof.
  intros Hd Hn. unfold F64.round_pos.
  assert (Hq : 0 <= n / d <= n' / d) by (split; [apply Z.div_pos|apply Z.div_le_mono]; lia).
  pose proof (Z.log2_le_mono (n / d) (n' / d) (proj2 Hq)) as Hl.
  set (k := Z.max 0 (Z.log2 (n / d) - 52)). set (k' := Z.max 0 (Z.log2 (n' / d) - 52)).
  assert (0 < 2 ^ k /\ 0 < 2 ^ k') as [Hp Hp'] by (split; apply Z.pow_pos_nonneg; lia).
  pose proof (Z.mul_pos_pos d _ Hd Hp). pose proof (Z.mul_pos_pos d _ Hd Hp').
  destruct (decide (k = k')) as [<-|Hk].
  { apply Z.mul_le_mono_nonneg_r; [lia|]. apply rne_mono; lia. }
  transitivity (2 ^ 53 * 2 ^ k); [|transitivity (2 ^ 52 * 2 ^ k')].
  - apply Z.mul_le_mono_nonneg_r; [lia|]. rewrite <- (rne_exact (2 ^ 53) (d * 2 ^ k)) by lia.
    apply rne_mono; [lia|].
    assert (Hlt : n / d < 2 ^ 53 * 2 ^ k).
    { rewrite <- Z.pow_add_r by lia. destruct (Z.le_gt_cases (n / d) 0).
      - pose proof (Z.pow_pos_nonneg 2 (53 + k)). lia.
      - apply Z.log2_lt_pow2; lia. }
    pose proof (Z.mul_succ_div_gt n d Hd). nia.
  - change (2 ^ 53) with (2 ^ 52 * 2). rewrite <- Z.mul_assoc, <- Z.pow_succ_r by lia.
    apply Z.mul_le_mono_nonneg_l; [lia|]. apply Z.pow_le_mono_r; lia.
  - apply Z.mul_le_mono_nonneg_r; [lia|]. rewrite <- (rne_exact (2 ^ 52) (d * 2 ^ k')) at 1 by lia.
    apply rne_mono; [lia|].
    assert (2 ^ 52 * 2 ^ k' <= n' / d).
    { rewrite <- Z.pow_add_r by lia. apply Z.log2_le_pow2; [|lia].
      destruct (Z.le_gt_cases (n' / d) 0) as [Hz|]; [|done]. pose proof (Z.log2_nonpos _ Hz). lia. }
    pose proof (Z.mul_div_le n' d Hd). nia.
Qed.

Lemma round_pos_nonneg n d : 0 < d -> 0 <= n -> 0 <= F64.round_pos n d.
Proof.
  intros Hd Hn. unfold F64.round_pos. set (k := Z.max 0 _).
  assert (0 < 2 ^ k) as Hp by (apply Z.pow_pos_nonneg; lia). pose proof (Z.mul_pos_pos d _ Hd Hp).
  apply Z.mul_nonneg_nonneg; [|lia]. pose proof (rne_bounds n (d * 2 ^ k)).
  assert (0 <= n / (d * 2 ^ k)) by (apply Z.div_pos; lia). lia.
Qed.

Lemma round_mono n n' d : 0 < d -> n <= n' -> F64.round n d <= F64.round n' d.
Proof.
  intros Hd Hn. unfold F64.round. destruct (Z.ltb_spec n 0), (Z.ltb_spec n' 0); try lia.
  - pose proof (round_pos_mono (- n') (- n) d Hd). lia.
  - pose proof (round_pos_nonneg (- n) d Hd). pose proof (round_pos_nonneg n' d Hd). lia.
  - apply round_pos_mono; lia.
Qed.

(** ** Rounding is accurate *)

Lemma rne_error n m : 0 < m -> 2 * Z.abs (rne n m * m - n) <= m.
Proof.
  intros Hm. pose proof (Z.div_mod n m ltac:(lia)) as Hd. pose proof (Z.mod_pos_bound n m Hm). unfold rne.
  set (q := n / m) in *. set (r := n mod m) in *.
  destruct (Z.compare_spec (2 * r) m); [destruct (Z.even q)|..]; nia.
Qed.

Lemma round_pos_error n d : 0 < d -> 0 <= n -> 2 ^ 53 * Z.abs (F64.round_pos n d * d - n) <= n + 2 ^ 52 * d.
Proof.
  intros Hd Hn. unfold F64.round_pos. set (k := Z.max 0 (Z.log2 (n / d) - 52)).
  assert (0 < 2 ^ k) as Hp by (apply Z.pow_pos_nonneg; lia). pose proof (Z.mul_pos_pos d _ Hd Hp) as Hdk.
  pose proof (rne_error n (d * 2 ^ k) Hdk) as He.
  replace (rne n (d * 2 ^ k) * 2 ^ k * d) with (rne n (d * 2 ^ k) * (d * 2 ^ k)) by ring.
  enough (2 ^ 52 * (d * 2 ^ k) <= n + 2 ^ 52 * d) by lia.
  destruct (Z.le_gt_cases (Z.log2 (n / d) - 52) 0) as [Hk|Hk].
  - assert (k = 0) as -> by lia. lia.
  - assert (2 ^ 52 * 2 ^ k <= n / d).
    { rewrite <- Z.pow_add_r by lia. apply Z.log2_le_pow2; [|lia].
      destruct (Z.le_gt_cases (n / d) 0) as [Hz|]; [|done]. pose proof (Z.log2_nonpos _ Hz). lia. }
    pose proof (Z.mul_div_le n d Hd). nia.
Qed.

Lemma round_pos_exact a j d : 0 < d -> 0 <= a < 2 ^ 53 -> 0 <= j -> F64.round_pos (a * 2 ^ j * d) d = a * 2 ^ j.
Proof.
  intros Hd Ha Hj. unfold F64.round_pos. rewrite Z.div_mul by lia. set (k := Z.max 0 _).
  assert (Hk : 0 <= k <= j).
  { split; [lia|]. apply Z.max_lub; [done|]. destruct (decide (a = 0)) as [->|]; [simpl; lia|].
    rewrite Z.log2_mul_pow2 by lia. assert (Z.log2 a < 53) by (apply Z.log2_lt_pow2; lia). lia. }
  assert (0 < 2 ^ k) as Hp by (apply Z.pow_pos_nonneg; lia). pose proof (Z.mul_pos_pos d _ Hd Hp).
  assert (E : a * 2 ^ j = a * 2 ^ (j - k) * 2 ^ k).
  { rewrite <- Z.mul_assoc, <- Z.pow_add_r by lia. do 2 f_equal. lia. }
  replace (a * 2 ^ j * d) with (a * 2 ^ (j - k) * (d * 2 ^ k)) by (rewrite E; ring).
  by rewrite rne_exact.
Qed.

Lemma round_exact a j d : 0 < d -> - 2 ^ 53 < a < 2 ^ 53 -> 0 <= j -> F64.round (a * 2 ^ j * d) d = a * 2 ^ j.
Proof.
  intros Hd Ha Hj. assert (0 < 2 ^ j) by (apply Z.pow_pos_nonneg; lia). unfold F64.round.
  destruct (Z.ltb_spec (a * 2 ^ j * d) 0).
  - replace (- (a * 2 ^ j * d)) with (- a * 2 ^ j * d) by ring. rewrite round_pos_exact by (try lia; nia). ring.
  - apply round_pos_exact; (done || nia).
Qed.

Lemma round_error n d : 0 < d -> 2 ^ 53 * Z.abs (F64.round n d * d - n) <= Z.abs n + 2 ^ 52 * d.
Proof.
  intros Hd. unfold F64.round. destruct (Z.ltb_spec n 0).
  - pose proof (round_pos_error (- n) d Hd). lia.
  - pose proof (round_pos_error n d Hd). lia.
Qed.

(** ** The delay *)

Lemma unit_pow : F64.unit_in_last = 2 ^ 1074.
Proof. reflexivity. Qed.

Lemma unit_big : 2 ^ 100 <= F64.unit_in_last.
Proof. rewrite unit_pow. apply Z.pow_le_mono_r; lia. Qed.

Lemma round_pow j d : 0 < d -> 0 <= j -> F64.round (2 ^ j * d) d = 2 ^ j.
Proof. intros. pose proof (round_exact 1 j d) as E. rewrite !Z.mul_1_l in E. apply E; lia. Qed.

Lemma round_opp n d : 0 < d -> F64.round (- n) d = - F64.round n d.
Proof.
  intros Hd. unfold F64.round. destruct (Z.ltb_spec (- n) 0), (Z.ltb_spec n 0); try lia; rewrite ?Z.opp_involutive; try done.
  assert (n = 0) as -> by lia. pose proof (round_pos_exact 0 0 d Hd) as E. rewrite !Z.mul_0_l in E.
  change (- 0) with 0. rewrite E by lia. done.
Qed.

(** The fraction drawn is between 0 and 1. *)
Lemma fraction_bounds h : 0 <= h <= 2 ^ 31 ->
  0 <= F64.div (F64.of_int h) (F64.of_int (2 ^ 31)) <= F64.unit_in_last.
Proof.
  intros Hh. pose proof unit_big as Hu. unfold F64.div, F64.of_int. set (u := F64.unit_in_last) in *.
  assert (Hd : 0 < 2 ^ 31 * u) by lia. split.
  - unfold F64.round. rewrite (proj2 (Z.ltb_ge _ _)) by nia. apply round_pos_nonneg; nia.
  - assert (E : F64.round (u * (2 ^ 31 * u)) (2 ^ 31 * u) = u) by (unfold u at 1 4; apply round_pow; lia).
    etransitivity; [|apply Z.eq_le_incl, E]. apply round_mono; [done|]. nia.
Qed.

Lemma half_literal : exists v, F64.literal 5 10 = v /\ F64.unit_in_last = 2 * v /\
  (forall x, 0 <= x <= F64.unit_in_last -> - v <= F64.sub x v <= v).
Proof.
  exists (2 ^ 1073). assert (E : F64.unit_in_last = 2 * 2 ^ 1073) by (unfold F64.unit_in_last; by rewrite <- Z.pow_succ_r).
  rewrite E. split_and!; [|done|].
  - unfold F64.literal. rewrite E. replace (5 * (2 * 2 ^ 1073)) with (2 ^ 1073 * 10) by lia. by apply round_pow.
  - intros x Hx. pose proof (round_pow 1073 1 ltac:(lia) ltac:(lia)) as Hr. rewrite Z.mul_1_r in Hr.
    pose proof (round_opp (2 ^ 1073) 1 ltac:(lia)) as Ho. rewrite Hr in Ho. unfold F64.sub.
    pose proof (round_mono (- 2 ^ 1073) (x - 2 ^ 1073) 1). pose proof (round_mono (x - 2 ^ 1073) (2 ^ 1073) 1). lia.
Qed.

#[global] Opaque F64.unit_in_last.

Lemma jitter_bounds h : 0 <= h <= 2 ^ 31 ->
  (4 * 2 ^ 40 - 1) * F64.unit_in_last <= 5 * 2 ^ 40 * BackoffSchedule.jitter h <= (6 * 2 ^ 40 + 1) * F64.unit_in_last.
Proof.
  intros Hh. pose proof unit_big as Hu. pose proof (fraction_bounds h Hh) as Hx.
  unfold BackoffSchedule.jitter. destruct half_literal as (v & -> & Ev & Hy). specialize (Hy _ Hx).
  set (y := F64.sub _ v) in *. clearbody y. clear Hx.
  assert (Ht : 2 ^ 53 * Z.abs (F64.literal 4 10 * 10 - 4 * F64.unit_in_last) <= Z.abs (4 * F64.unit_in_last) + 2 ^ 52 * 10)
    by (apply round_error; lia).
  set (t := F64.literal 4 10) in *. clearbody t.
  assert (Hz : - F64.round (v * t) F64.unit_in_last <= F64.mul y t <= F64.round (v * t) F64.unit_in_last).
  { rewrite <- round_opp by lia. split; apply round_mono; nia. }
  pose proof (round_error (v * t) F64.unit_in_last ltac:(lia)) as Hw.
  set (w := F64.round _ _) in *. clearbody w. set (z := F64.mul y t) in *. clearbody z.
  assert (Hw' : 2 ^ 53 * (2 * w - t) <= t + 2 ^ 53).
  { rewrite Ev in *. assert (0 < v) by lia. assert (0 <= t) by lia. rewrite (Z.abs_eq (v * t)) in Hw by nia.
    apply (Z.mul_le_mono_pos_l _ _ v); [done|]. lia. }
  pose proof (round_error (F64.of_int 1 + z) 1 ltac:(lia)) as Hj. fold (F64.add (F64.of_int 1) z) in Hj.
  set (j := F64.add _ z) in *. clearbody j. unfold F64.of_int in Hj. clear Hw. lia.
Qed.

(** The delay of a base of [c] seconds with jitter bits [h], in nanoseconds. *)
Definition nanos (c h : Z) : Z :=
  rne (Z.max (F64.mul (F64.of_int c) (BackoffSchedule.jitter h)) (F64.literal 5 100) * 1000000000) F64.unit_in_last.

Lemma scaled_bounds c h : 1 <= c <= 60 -> 0 <= h <= 2 ^ 31 ->
  let p := F64.mul (F64.of_int c) (BackoffSchedule.jitter h) in
  (4 * 2 ^ 40 - 2) * c * F64.unit_in_last <= 5 * 2 ^ 40 * p <= (6 * 2 ^ 40 + 2) * c * F64.unit_in_last.
Proof.
  intros Hc Hh p. pose proof unit_big as Hu. pose proof (jitter_bounds h Hh) as Hj.
  set (j := BackoffSchedule.jitter h) in *.
  assert (Hp : 2 ^ 53 * Z.abs (p - c * j) <= c * j + 2 ^ 52).
  { pose proof (round_error (F64.of_int c * j) F64.unit_in_last ltac:(lia)) as He.
    change (F64.round _ _) with p in He. unfold F64.of_int in He.
    replace (p * F64.unit_in_last - c * F64.unit_in_last * j) with ((p - c * j) * F64.unit_in_last) in He by ring.
    replace (c * F64.unit_in_last * j) with (c * j * F64.unit_in_last) in He by ring.
    rewrite !Z.abs_mul, (Z.abs_eq F64.unit_in_last), (Z.abs_eq c), (Z.abs_eq j) in He by lia.
    apply (Z.mul_le_mono_pos_r _ _ F64.unit_in_last); lia. }
  assert (c * ((4 * 2 ^ 40 - 1) * F64.unit_in_last) <= c * (5 * 2 ^ 40 * j) <= c * ((6 * 2 ^ 40 + 1) * F64.unit_in_last)) as Hcj
    by (split; apply Z.mul_le_mono_nonneg_l; lia).
  clearbody p. set (q := c * j) in *. replace (c * (5 * 2 ^ 40 * j)) with (5 * 2 ^ 40 * q) in Hcj by (unfold q; ring).
  assert (F64.unit_in_last <= c * F64.unit_in_last) by nia. set (cu := c * F64.unit_in_last) in *.
  clearbody q cu. lia.
Qed.

Lemma delay_bounds c h : 1 <= c <= 60 -> 0 <= h < 2 ^ 31 ->
  BackoffSchedule.delay (F64.of_int c) h = Ok (nanos c h) /\ 800000000 * c <= nanos c h <= 1200000000 * c.
Proof.
  intros Hc Hh. pose proof unit_big as Hu. pose proof (scaled_bounds c h Hc ltac:(lia)) as Hp. cbv zeta in Hp.
  unfold BackoffSchedule.delay, F64.from_secs_f64, nanos. set (p := F64.mul _ _) in *. clearbody p.
  assert (Hl : 2 ^ 53 * Z.abs (F64.literal 5 100 * 100 - 5 * F64.unit_in_last) <= Z.abs (5 * F64.unit_in_last) + 2 ^ 52 * 100)
    by (apply round_error; lia).
  set (l := F64.literal 5 100) in *. clearbody l.
  assert (F64.unit_in_last <= c * F64.unit_in_last <= 60 * F64.unit_in_last) by nia.
  assert (Hm : Z.max p l = p) by lia. rewrite Hm. split; [by rewrite (proj2 (Z.ltb_ge _ _)) by lia|].
  pose proof (rne_error (p * 1000000000) F64.unit_in_last ltac:(lia)) as He. set (d := rne _ _) in *. clearbody d.
  assert ((800000000 * c - 1) * F64.unit_in_last < d * F64.unit_in_last < (1200000000 * c + 1) * F64.unit_in_last) as [H1 H2]
    by lia.
  apply Z.mul_lt_mono_pos_r in H1, H2; lia.
Qed.

Lemma double_exact c : 1 <= c <= 60 -> F64.mul (F64.of_int c) (F64.of_int 2) = F64.of_int (2 * c).
Proof.
  intros Hc. pose proof unit_big. unfold F64.mul, F64.of_int.
  replace (c * F64.unit_in_last * (2 * F64.unit_in_last)) with (2 * c * F64.unit_in_last * F64.unit_in_last) by ring.
  rewrite unit_pow at 1 3. apply round_exact; lia.
Qed.

(** ** Runs of the schedule *)

(** At a base of [c] seconds, with 64 bits of jitter state. *)
Definition schedule_at (c : Z) (b : BackoffSchedule.t) : Prop :=
  1 <= c <= 60 /\ BackoffSchedule.current b = F64.of_int c /\ BackoffSchedule.max_secs b = F64.of_int 60 /\
  in_u64 (BackoffSchedule.lcg b).

Definition schedule_ok (b : BackoffSchedule.t) : Prop := exists c, schedule_at c b.

Lemma schedule_new seed : in_u64 seed -> schedule_at 1 (BackoffSchedule.new seed).
Proof.
  intros Hs. split; [lia|]. split; [done|]. split; [done|].
  unfold in_u64, u64_max in *. cbn [BackoffSchedule.new BackoffSchedule.lcg].
  assert (0 <= Z.lor seed 1) by (apply Z.lor_nonneg; lia). split; [done|].
  assert (Z.log2 (Z.lor seed 1) < 64).
  { rewrite Z.log2_lor by lia. apply Z.max_lub_lt; [|simpl; lia].
    destruct (decide (seed = 0)) as [->|]; [simpl; lia|]. apply Z.log2_lt_pow2; lia. }
  destruct (decide (Z.lor seed 1 = 0)) as [->|]; [lia|]. assert (Z.lor seed 1 < 2 ^ 64) by (apply Z.log2_lt_pow2; lia).
  lia.
Qed.

Lemma schedule_reset b : schedule_ok b -> schedule_at 1 (BackoffSchedule.reset b).
Proof. intros (c & ? & ? & ? & ?). split; [lia|]. done. Qed.

Lemma schedule_secs c b : schedule_at c b -> BackoffSchedule.current_secs b = c.
Proof. intros (Hc & E & _). pose proof unit_big.
  unfold BackoffSchedule.current_secs, F64.as_u32, F64.of_int, u32_max in *. rewrite E, Z.div_mul by lia. lia. Qed.

Lemma step_lcg_u64 s : in_u64 (BackoffSchedule.step_lcg s).
Proof.
  unfold BackoffSchedule.step_lcg, wrapping_add, in_u64, u64_max.
  match goal with |- context [?x mod ?m] => pose proof (Z.mod_pos_bound x m ltac:(lia)); lia end.
Qed.

Lemma next_delay_at c b : schedule_at c b ->
  exists d b', BackoffSchedule.next_delay b = Ok (d, b') /\ schedule_at (Z.min (2 * c) 60) b' /\
    800000000 * c <= d <= 1200000000 * c.
Proof.
  intros (Hc & Hb & Hm & _). unfold BackoffSchedule.next_delay, try_from_max.
  set (l := BackoffSchedule.step_lcg (BackoffSchedule.lcg b)). pose proof (step_lcg_u64 (BackoffSchedule.lcg b)) as Hl.
  fold l in Hl. assert (Hs : 0 <= Z.shiftr l 33 < 2 ^ 31).
  { rewrite Z.shiftr_div_pow2 by lia. unfold in_u64, u64_max in *.
    split; [apply Z.div_pos; lia|apply Z.div_lt_upper_bound; lia]. }
  rewrite (proj2 (Z.leb_le _ _)) by (unfold u32_max; lia).
  destruct (delay_bounds c (Z.shiftr l 33) Hc Hs) as [Hd Hn].
  cbn [expect mbind result_bind]. rewrite Hb, Hd. rsimpl.
  eexists _, _. split; [reflexivity|]. split; [|exact Hn].
  split; [lia|]. split; [|by split].
  cbn [BackoffSchedule.current]. rewrite (double_exact c Hc), Hm. unfold F64.of_int.
  pose proof unit_big. nia.
Qed.

Lemma next_delay_ok b : schedule_ok b -> outcome_ok (fun x => schedule_ok x.2) (BackoffSchedule.next_delay b).
Proof. intros [c Hc]. destruct (next_delay_at c b Hc) as (d & b' & -> & Hb & _). by exists (Z.min (2 * c) 60). Qed.

Lemma delays_at c b n : schedule_at c b ->
  exists ds b', BackoffSchedule.delays n b = Ok (ds, b') /\ length ds = n /\
    schedule_at (Z.min (2 ^ Z.of_nat n * c) 60) b' /\
    forall i d, ds !! i = Some d ->
      let base := Z.min (2 ^ Z.of_nat i * c) 60 in 800000000 * base <= d <= 1200000000 * base.
Proof.
  revert c b. induction n as [|n IH]; intros c b Hb; cbn [BackoffSchedule.delays].
  - exists [], b. split; [done|]. split; [done|]. split; [|done].
    rewrite Z.mul_1_l, Z.min_l; [exact Hb|]. destruct Hb. lia.
  - destruct (next_delay_at c b Hb) as (d & b1 & -> & Hb1 & Hd). rsimpl.
    destruct (IH _ b1 Hb1) as (ds & b2 & -> & Hl & Hb2 & Hds). rsimpl.
    assert (Hstep : forall k, Z.min (2 ^ Z.of_nat k * Z.min (2 * c) 60) 60 = Z.min (2 ^ Z.of_nat (S k) * c) 60).
    { intros k. rewrite Nat2Z.inj_succ, Z.pow_succ_r by lia.
      assert (0 < 2 ^ Z.of_nat k) by (apply Z.pow_pos_nonneg; lia). destruct Hb. nia. }
    exists (d :: ds), b2. split; [done|]. split; [simpl; lia|]. rewrite <- Hstep. split; [done|].
    intros [|i] d' Hi; simpl in Hi.
    + injection Hi as <-. destruct Hb. simpl. lia.
    + rewrite <- Hstep. by apply Hds.
Qed.

(** ** Properties *)

(** C36: the reconnect delays.  Starting fresh with any seed, or after the reset
    of a schedule in use, the delays of a run of failed attempts are computed
    without a panic; the one before attempt [i] is, to the nanosecond, within
    20 percent of [2 ^ i] seconds capped at 60, and the whole seconds shown to
    the observer are the next such value. *)
Theorem backoff_delays (b : BackoffSchedule.t) (n : nat) :
  (exists seed, in_u64 seed /\ b = BackoffSchedule.new seed) \/
  (exists b0, schedule_ok b0 /\ b = BackoffSchedule.reset b0) ->
  exists ds b', BackoffSchedule.delays n b = Ok (ds, b') /\ length ds = n /\
    BackoffSchedule.current_secs b' = Z.min (2 ^ Z.of_nat n) 60 /\
    forall i d, ds !! i = Some d ->
      let base := Z.min (2 ^ Z.of_nat i) 60 in 800000000 * base <= d <= 1200000000 * base.
Proof.
  intros Hb. assert (H1 : schedule_at 1 b).
  { destruct Hb as [(seed & Hs & ->)|(b0 & Hb & ->)]; [by apply schedule_new|by apply schedule_reset]. }
  destruct (delays_at 1 b n H1) as (ds & b' & E & Hl & Hb' & Hd). exists ds, b'.
  rewrite (schedule_secs _ _ Hb'), Z.mul_1_r. split_and!; [done..|].
  intros i d Hi. specialize (Hd i d Hi). by rewrite Z.mul_1_r in Hd.
Qed.

Lemma delays_of_seed_7 :
  match BackoffSchedule.delays 1 (BackoffSchedule.new 7) with Ok (ds, _) => ds | _ => [] end
  = [997284907].
Proof. vm_cast_no_check (eq_refl [997284907]). Qed.

Lemma backoff_delays_witness :
  in_u64 7 /\
  exists b', BackoffSchedule.delays 1 (BackoffSchedule.new 7) = Ok ([997284907], b').
Proof.
  assert (H7 : in_u64 7) by by compute. split; [exact H7|].
  destruct (backoff_delays (BackoffSchedule.new 7) 1) as (ds & b' & E & _); [left; exists 7; by split|].
  exists b'. pose proof delays_of_seed_7 as Hd. rewrite E in Hd. by rewrite E, Hd.
Defined.
