(* ===== verification/Session.v ===== *)
(** Sessions ([tezca-core/src/session.rs]): establishing a session from a
    bundle, encrypting and decrypting.  The Signal library's operations on the
    key store are the class [RatchetLib]; this file models the orchestration
    around them, in a state-and-error monad over the key store. *)

From S2P Require Import Prelude Errors Utf8 Config Envelope Cursor Pairing Storage Keys.

(** Code over the key store. *)
Abbreviation store := (st Keys.t).

Inductive CiphertextType := PreKeyMessage | SignalMessage | OtherMessage (kind : string).

(** The library operations, over the stores of [Keys]; addresses are names,
    all with device id 1. *)
Class RatchetLib := {
  identity_decode : bytes -> SignalResult unit;
  public_deserialize : bytes -> SignalResult unit;
  kem_deserialize : bytes -> SignalResult unit;
  device_id_valid : Z -> bool;
  bundle_new : BundleData.t -> SignalResult unit;
  process_prekey_bundle : bytes -> bytes -> BundleData.t -> Keys.t -> SignalResult unit * Keys.t;
  message_encrypt : bytes -> bytes -> bytes -> Keys.t -> SignalResult (CiphertextType * bytes) * Keys.t;
  message_decrypt : bytes -> bytes -> EnvelopeKind -> bytes -> Keys.t -> SignalResult bytes * Keys.t;
  prekey_message_identity : bytes -> SignalResult bytes;
  signal_message_check : bytes -> SignalResult unit
}.

Section session.
Context `{SqlText} `{LibSignal} `{RatchetLib}.

Definition lib {A} (f : Keys.t -> SignalResult A * Keys.t) : store A :=
  fun k => let '(r, k') := f k in (map_err signal_err r, k').

Definition lib_pure {A} (r : SignalResult A) : store A := pure_r (map_err signal_err r).

(** [u8::try_from(raw)] and [DeviceId::try_from]. *)
Definition device_id (raw : Z) : Result Z :=
  ok_or (match try_from_max 255 raw with
         | Some v => if device_id_valid v then Some v else None
         | None => None
         end) (Malformed "invalid device id").

Definition address (name : bytes) (device : Z) : Result bytes := _ ← device_id device; Ok name.

Definition local_protocol_address : store bytes :=
  a ← read_r local_address; pure_r (address a DEVICE_ID).

Definition establish_session (bundle : bytes) : store bytes :=
  data ← pure_r (parse bundle);
  _ ← lib_pure (identity_decode (BundleData.identity_key data));
  _ ← match BundleData.onetime_prekey data with
      | Some (_, key) => lib_pure (public_deserialize key)
      | None => mret tt
      end;
  _ ← pure_r (device_id (BundleData.device_id data));
  _ ← lib_pure (public_deserialize (BundleData.signed_prekey_pub data));
  _ ← lib_pure (kem_deserialize (BundleData.kyber_prekey_pub data));
  _ ← lib_pure (bundle_new data);
  remote ← pure_r (address (BundleData.address_name data) (BundleData.device_id data));
  local ← local_protocol_address;
  _ ← lib (process_prekey_bundle remote local data);
  mret (BundleData.address_name data).

Definition encrypt_message (peer : bytes) (frame : InnerFrame.t) (profile : PaddingProfile.t)
    : store bytes :=
  plaintext ← pure_r (InnerFrame.encode frame profile);
  remote ← pure_r (address peer DEVICE_ID);
  local ← local_protocol_address;
  message ← lib (message_encrypt remote local plaintext);
  let '(ty, serialized) := (message : CiphertextType * bytes) in
  kind ← pure_r match ty with
                | PreKeyMessage => Ok SessionSetup
                | SignalMessage => Ok Ratchet
                | OtherMessage what => Err (Signal ("unexpected ciphertext message type " +:+ what))
                end;
  mret (Envelope.encode (Envelope.mk kind serialized)).

Definition decrypt_message (peer wire : bytes) (profile : PaddingProfile.t) : store InnerFrame.t :=
  envelope ← pure_r (Envelope.parse wire);
  _ ← match Envelope.kind envelope with
      | SessionSetup => _ ← lib_pure (prekey_message_identity (Envelope.ciphertext envelope)); mret tt
      | Ratchet => lib_pure (signal_message_check (Envelope.ciphertext envelope))
      end;
  remote ← pure_r (address peer DEVICE_ID);
  local ← local_protocol_address;
  plaintext ← lib (message_decrypt remote local (Envelope.kind envelope) (Envelope.ciphertext envelope));
  pure_r (InnerFrame.parse plaintext profile).

Definition envelope_kind (wire : bytes) : Result EnvelopeKind :=
  e ← Envelope.parse wire; Ok (Envelope.kind e).

Definition decrypt_setup_from_unknown (wire : bytes) (profile : PaddingProfile.t)
    : store (bytes * InnerFrame.t) :=
  envelope ← pure_r (Envelope.parse wire);
  _ ← pure_r (ensure (bool_decide (Envelope.kind envelope = SessionSetup))
                     (Malformed "expected a session-setup message on a pairing inbox"));
  identity ← lib_pure (prekey_message_identity (Envelope.ciphertext envelope));
  let sender := address_for_identity identity in
  frame ← decrypt_message sender wire profile;
  mret (sender, frame).
End session.

(** ** Lemmas *)

(** What the library promises of a session between a sender at [ks] and a
    receiver at [kr] that are in step: what one encrypts to the other is
    non-empty, is decoded by the receiver as the type it was sent as, and
    decrypts to the plaintext. *)
Definition in_step `{RatchetLib} (ks kr : Keys.t) (sender receiver : bytes) : Prop :=
  forall plaintext ty c ks',
    message_encrypt receiver sender plaintext ks = (Ok (ty, c), ks') ->
    c <> [] /\ exists kr' kind,
      message_decrypt sender receiver kind c kr = (Ok plaintext, kr') /\
      match ty with
      | PreKeyMessage => kind = SessionSetup /\ exists i, prekey_message_identity c = Ok i
      | SignalMessage => kind = Ratchet /\ signal_message_check c = Ok tt
      | OtherMessage _ => True
      end.

Lemma address_inv `{RatchetLib} name a : address name DEVICE_ID = Ok a -> a = name.
Proof. unfold address. by intros (d & _ & [= <-])%bind_Ok. Qed.

Lemma encrypt_inv `{SqlText} `{LibSignal} `{RatchetLib} peer frame profile ks wire ks' :
  encrypt_message peer frame profile ks = (Ok wire, ks') ->
  exists plaintext local ty c kind, InnerFrame.encode frame profile = Ok plaintext /\
    local_protocol_address ks = (Ok local, ks) /\
    message_encrypt peer local plaintext ks = (Ok (ty, c), ks') /\
    wire = Envelope.encode (Envelope.mk kind c) /\
    match ty with PreKeyMessage => kind = SessionSetup | SignalMessage => kind = Ratchet
                | OtherMessage _ => False end.
Proof.
  unfold encrypt_message. intros (plaintext & k1 & [= Hp ->] & E)%st_bind_Ok.
  apply st_bind_Ok in E as (remote & k2 & [= Hr <-] & E). apply address_inv in Hr as ->.
  apply st_bind_Ok in E as (local & k3 & Hl & E).
  assert (k3 = k1) as ->.
  { revert Hl. unfold local_protocol_address, read_r, pure_r, mbind, st_bind.
    destruct (local_address k1); [|done|done]. by intros [= _ <-]. }
  apply st_bind_Ok in E as ([ty c] & k4 & Hm & E).
  apply st_bind_Ok in E as (kind & k5 & [= Hk <-] & [= <- <-]).
  exists plaintext, local, ty, c, kind. split_and!; try done.
  - revert Hm. unfold lib. destruct (message_encrypt _ _ _ _) as [[x| |] k']; simpl; try done.
    by intros [= <- <-].
  - destruct ty; simplify_eq; done.
Qed.

(** What the library decrypts is the frame that was encoded. *)
Lemma decrypt_of_message `{SqlText} `{LibSignal} `{RatchetLib}
    kr kr' sender receiver frame profile plaintext ty kind c :
  PaddingProfile.wf profile -> InnerFrame.encode frame profile = Ok plaintext ->
  local_protocol_address kr = (Ok receiver, kr) -> c <> [] ->
  message_decrypt sender receiver kind c kr = (Ok plaintext, kr') ->
  match ty with
  | PreKeyMessage => kind = SessionSetup /\ exists i, prekey_message_identity c = Ok i
  | SignalMessage => kind = Ratchet /\ signal_message_check c = Ok tt
  | OtherMessage _ => False
  end ->
  decrypt_message sender (Envelope.encode (Envelope.mk kind c)) profile kr = (Ok frame, kr').
Proof.
  intros Hwf Hp Hlr Hc Hd Hty.
  unfold decrypt_message, mbind, st_bind, pure_r. rewrite envelope_roundtrip by done.
  cbn [Envelope.kind Envelope.ciphertext].
  assert (Haddr : forall name, address name DEVICE_ID = Ok name).
  { intros name. revert Hlr. unfold local_protocol_address, read_r, pure_r, mbind, st_bind, address.
    destruct (local_address kr); [|done|done]. by destruct (device_id DEVICE_ID). }
  assert (Hparse : InnerFrame.parse plaintext profile = Ok frame) by (by apply (inner_encode_parse profile frame plaintext)).
  destruct ty; try done; [destruct Hty as [-> [i Hi]]|destruct Hty as [-> Hi]]; cbn iota;
    unfold lib_pure, pure_r, lib; rewrite Hi; simpl; by rewrite Haddr, Hlr, Hd; simpl; rewrite Hparse.
Qed.

(** A successful encryption is decrypted by a receiver in step. *)
Lemma decrypt_encrypted `{SqlText} `{LibSignal} `{RatchetLib}
    (ks ks' kr : Keys.t) (sender receiver : bytes) frame profile wire :
  PaddingProfile.wf profile -> in_step ks kr sender receiver ->
  local_protocol_address ks = (Ok sender, ks) -> local_protocol_address kr = (Ok receiver, kr) ->
  encrypt_message receiver frame profile ks = (Ok wire, ks') ->
  (exists kr', decrypt_message sender wire profile kr = (Ok frame, kr')) /\
  exists kind c, wire = Envelope.encode (Envelope.mk kind c) /\ c <> [].
Proof.
  intros Hwf Hstep Hls Hlr E.
  destruct (encrypt_inv _ _ _ _ _ _ E) as (plaintext & local & ty & c & kind & Hp & Hl & Hm & -> & Hk).
  assert (local = sender) as -> by congruence.
  destruct (Hstep _ _ _ _ Hm) as (Hc & kr' & kind' & Hd & Hty).
  split; [|by exists kind, c]. exists kr'.
  assert (kind' = kind) as -> by (destruct ty; naive_solver).
  eapply (decrypt_of_message _ _ _ _ _ _ _ ty); eauto. by destruct ty.
Qed.

(** The promise for the next [n] messages from the sender to the receiver,
    delivered in order; the library leaves the local identities alone. *)
Fixpoint in_step_for `{SqlText} `{LibSignal} `{RatchetLib} (n : nat) (ks kr : Keys.t) (sender receiver : bytes) : Prop :=
  match n with
  | O => True
  | S n =>
    local_protocol_address ks = (Ok sender, ks) /\ local_protocol_address kr = (Ok receiver, kr) /\
    forall plaintext ty c ks',
      message_encrypt receiver sender plaintext ks = (Ok (ty, c), ks') ->
      c <> [] /\ exists kr' kind,
        message_decrypt sender receiver kind c kr = (Ok plaintext, kr') /\
        match ty with
        | PreKeyMessage => kind = SessionSetup /\ exists i, prekey_message_identity c = Ok i
        | SignalMessage => kind = Ratchet /\ signal_message_check c = Ok tt
        | OtherMessage _ => True
        end /\ in_step_for n ks' kr' sender receiver
  end.

Lemma decrypt_next `{SqlText} `{LibSignal} `{RatchetLib} n ks ks' kr sender receiver frame profile wire :
  PaddingProfile.wf profile -> in_step_for (S n) ks kr sender receiver ->
  encrypt_message receiver frame profile ks = (Ok wire, ks') ->
  exists kr', decrypt_message sender wire profile kr = (Ok frame, kr') /\ in_step_for n ks' kr' sender receiver.
Proof.
  intros Hwf (Hls & Hlr & Hstep) E.
  destruct (encrypt_inv _ _ _ _ _ _ E) as (plaintext & local & ty & c & kind & Hp & Hl & Hm & -> & Hk).
  assert (local = sender) as -> by congruence.
  destruct (Hstep _ _ _ _ Hm) as (Hc & kr' & kind' & Hd & Hty & Hn). exists kr'. split; [|done].
  assert (kind' = kind) as -> by (destruct ty; naive_solver).
  eapply (decrypt_of_message _ _ _ _ _ _ _ ty); eauto. by destruct ty.
Qed.

(** The promise of PQXDH: the first message of a party at [kb] that set up a
    session from the other's bundle is a session-setup message that names its
    sender, the other party at [ka] decrypts it, and its answer is then in
    step. *)
Definition setup_for `{SqlText} `{LibSignal} `{RatchetLib} (ka kb : Keys.t) (a b : bytes) : Prop :=
  local_protocol_address ka = (Ok a, ka) /\ local_protocol_address kb = (Ok b, kb) /\
  forall plaintext ty c kb',
    message_encrypt a b plaintext kb = (Ok (ty, c), kb') ->
    ty = PreKeyMessage /\ c <> [] /\ exists i ka',
      prekey_message_identity c = Ok i /\ address_for_identity i = b /\
      message_decrypt b a SessionSetup c ka = (Ok plaintext, ka') /\ in_step_for 1 ka' kb' a b.

Lemma setup_decrypts `{SqlText} `{LibSignal} `{RatchetLib} ka kb kb' a b frame profile wire :
  PaddingProfile.wf profile -> setup_for ka kb a b -> encrypt_message a frame profile kb = (Ok wire, kb') ->
  exists ka', decrypt_setup_from_unknown wire profile ka = (Ok (b, frame), ka') /\ in_step_for 1 ka' kb' a b.
Proof.
  intros Hwf (Hla & Hlb & Hset) E.
  destruct (encrypt_inv _ _ _ _ _ _ E) as (plaintext & local & ty & c & kind & Hp & Hl & Hm & -> & Hk).
  assert (local = b) as -> by congruence.
  destruct (Hset _ _ _ _ Hm) as (-> & Hc & i & ka' & Hi & Hb & Hd & Hn). subst kind. exists ka'. split; [|done].
  unfold decrypt_setup_from_unknown, lib_pure, mbind, st_bind, pure_r. rewrite envelope_roundtrip by done.
  cbn [Envelope.kind Envelope.ciphertext]. rewrite bool_decide_eq_true_2 by done. cbn [ensure].
  rewrite Hi. cbn [map_err]. rewrite Hb.
  by rewrite (decrypt_of_message ka ka' b a frame profile plaintext PreKeyMessage SessionSetup c) by eauto.
Qed.

(** ** Properties *)

(** A ratchet that passes plaintext through, for the witnesses. *)
#[local] Instance toy_ratchet : RatchetLib := {|
  identity_decode _ := Ok tt; public_deserialize _ := Ok tt; kem_deserialize _ := Ok tt;
  device_id_valid d := (1 <=? d) && (d <=? 127); bundle_new _ := Ok tt;
  process_prekey_bundle _ _ _ k := (Ok tt, k);
  message_encrypt remote local m k :=
    (Ok (SignalMessage, 0 :: m), put_session k remote 1 (0 :: m));
  message_decrypt remote local kind c k := (Ok (drop 1 c), k);
  prekey_message_identity c := Ok c; signal_message_check c := Ok tt
|}.

#[local] Instance toy_lib : LibSignal := {|
  signal_text _ := "signal"%string;
  SessionRecord := bytes; IdentityKeyPair := bytes; PreKeyRecord := bytes; SignedPreKeyRecord := bytes;
  KyberPreKeyRecord := bytes; session_deserialize b := Ok b; session_serialize b := Ok b; identity_key_decode b := Ok b;
  keypair_try_from b := Ok b; identity_key b := b;
  prekey_deserialize b := Ok b; prekey_serialize b := Ok b; prekey_public b := Ok b;
  signed_deserialize b := Ok b; signed_serialize b := Ok b; signed_public b := Ok b; signed_signature b := Ok b;
  kyber_deserialize b := Ok b; kyber_serialize b := Ok b; kyber_public b := Ok b; kyber_signature b := Ok b
|}.

#[local] Instance toy_sql : SqlText := fun _ => "sql"%string.

Definition toy_keys (name : bytes) : Keys.t :=
  Keys.mk (Some (LocalIdentity.mk name 5 [5; 2])) ∅ ∅ ∅ ∅ ∅.

Definition toy_profile : PaddingProfile.t := PaddingProfile.mk [64; 256].

Lemma toy_profile_wf : PaddingProfile.wf toy_profile.
Proof.
  split_and!; [done| |].
  - repeat constructor; lia.
  - unfold toy_profile. simpl. by_compute.
Qed.

Lemma toy_in_step ks kr a b : in_step ks kr a b.
Proof.
  intros m ty c ks' [= <- <- _]. split; [done|]. exists kr, Ratchet. by split_and!.
Qed.

(** Sessions round trip.  When the ratchet of the two parties is in step,
    every frame that encrypts successfully decrypts at the receiver to the
    same frame: padding, envelope and error mapping around the library lose
    and change nothing. *)
Theorem session_roundtrip `{SqlText} `{LibSignal} `{RatchetLib}
    (ks ks' kr : Keys.t) (sender receiver : bytes) (frame : InnerFrame.t)
    (profile : PaddingProfile.t) (wire : bytes) :
  PaddingProfile.wf profile -> in_step ks kr sender receiver ->
  local_protocol_address ks = (Ok sender, ks) -> local_protocol_address kr = (Ok receiver, kr) ->
  encrypt_message receiver frame profile ks = (Ok wire, ks') ->
  exists kr', decrypt_message sender wire profile kr = (Ok frame, kr').
Proof. intros. by eapply decrypt_encrypted. Qed.

Lemma session_roundtrip_witness :
  let f := InnerFrame.mk Chat 1 (bstr "hola") in
  exists wire ks' kr', encrypt_message (bstr "bob") f toy_profile (toy_keys (bstr "ana")) = (Ok wire, ks') /\
    decrypt_message (bstr "ana") wire toy_profile (toy_keys (bstr "bob")) = (Ok f, kr').
Proof.
  intros f. eexists _, _.
  destruct (session_roundtrip (toy_keys (bstr "ana")) _ (toy_keys (bstr "bob")) (bstr "ana")
    (bstr "bob") f toy_profile _ toy_profile_wf
    (toy_in_step _ _ _ _) ltac:(vm_compute; reflexivity) ltac:(vm_compute; reflexivity)
    ltac:(vm_compute; reflexivity)) as (kr' & Hd).
  exists kr'. split; [vm_compute; reflexivity|exact Hd].
Defined.

(** Oversize is rejected before any cryptography.  A payload above the
    largest bucket is refused with its length and the limit, and the key
    store, and so the ratchet, is untouched. *)
Theorem oversize_before_crypto `{SqlText} `{LibSignal} `{RatchetLib}
    (peer : bytes) (frame : InnerFrame.t) (profile : PaddingProfile.t) (b : Z) (k : Keys.t) :
  PaddingProfile.wf profile -> last (PaddingProfile.buckets profile) = Some b ->
  b - INNER_HEADER_LEN < zlen (InnerFrame.payload frame) <= u32_max ->
  encrypt_message peer frame profile k
  = (Err (PayloadTooLarge (zlen (InnerFrame.payload frame)) (b - INNER_HEADER_LEN)), k).
Proof.
  intros Hwf Hl Hlen. destruct (inner_encode_cases frame profile Hwf) as (b' & Hl' & Hc).
  assert (b' = b) as -> by congruence. unfold INNER_HEADER_LEN in *.
  rewrite (proj2 (Z.ltb_ge _ _)), (proj2 (Z.ltb_lt _ _)) in Hc by lia.
  unfold encrypt_message, mbind, st_bind, pure_r. by rewrite Hc.
Qed.

Lemma oversize_before_crypto_witness :
  encrypt_message (bstr "bob") (InnerFrame.mk Chat 1 (replicate 251 65)) toy_profile (toy_keys (bstr "ana"))
  = (Err (PayloadTooLarge 251 250), toy_keys (bstr "ana")).
Proof.
  apply (oversize_before_crypto (bstr "bob") (InnerFrame.mk Chat 1 (replicate 251 65)) toy_profile 256);
    [exact toy_profile_wf|reflexivity|vm_compute; intuition congruence].
Defined.
