(* ===== verification/SessionConc.v ===== *)
(** Sessions under concurrency ([session.rs] over the stores of
    [storage/signal_stores.rs]).  The library reaches the database only through
    the store traits, and each trait method locks the connection for itself.
    A call of the library is the sequence of its store accesses, and calls of
    several threads interleave between any two accesses.  Shown here: which
    calls may be taken as one step, and what happens to those that may not. *)

From stdpp Require Import fin_maps relations.
From S2P Require Import Prelude Errors Utf8 Config Envelope Cursor Pairing Storage Keys Session.

(** A call by its store accesses, the answers it is given and its result.
    [save_identity] locks the connection twice, to read what is known and to
    write: [UpsertIdentity] is the second half. *)
Inductive call `{LibSignal} (R : Type) :=
  | Ret (r : R)
  | LocalAddress (k : Result bytes -> call R)
  | LoadSession (a : bytes) (k : SignalResult (option SessionRecord) -> call R)
  | StoreSession (a : bytes) (record : SessionRecord) (k : SignalResult unit -> call R)
  | GetIdentityKeyPair (k : SignalResult IdentityKeyPair -> call R)
  | GetLocalRegistrationId (k : SignalResult Z -> call R)
  | SaveIdentity (a identity : bytes) (k : IdentityChange -> call R)
  | UpsertIdentity (a identity : bytes) (k : call R)
  | IsTrustedIdentity (a identity : bytes) (k : bool -> call R)
  | GetIdentity (a : bytes) (k : SignalResult (option bytes) -> call R)
  | GetPreKey (id : Z) (k : SignalResult PreKeyRecord -> call R)
  | SavePreKey (id : Z) (record : PreKeyRecord) (k : SignalResult unit -> call R)
  | RemovePreKey (id : Z) (k : call R)
  | GetSignedPreKey (id : Z) (k : SignalResult SignedPreKeyRecord -> call R)
  | SaveSignedPreKey (id : Z) (record : SignedPreKeyRecord) (k : SignalResult unit -> call R)
  | GetKyberPreKey (id : Z) (k : SignalResult KyberPreKeyRecord -> call R)
  | SaveKyberPreKey (id : Z) (record : KyberPreKeyRecord) (k : SignalResult unit -> call R)
  | MarkKyberPreKeyUsed (id : Z) (k : call R).

Arguments Ret {_ R}.
Arguments LocalAddress {_ R}.
Arguments LoadSession {_ R}.
Arguments StoreSession {_ R}.
Arguments GetIdentityKeyPair {_ R}.
Arguments GetLocalRegistrationId {_ R}.
Arguments SaveIdentity {_ R}.
Arguments UpsertIdentity {_ R}.
Arguments IsTrustedIdentity {_ R}.
Arguments GetIdentity {_ R}.
Arguments GetPreKey {_ R}.
Arguments SavePreKey {_ R}.
Arguments RemovePreKey {_ R}.
Arguments GetSignedPreKey {_ R}.
Arguments SaveSignedPreKey {_ R}.
Arguments GetKyberPreKey {_ R}.
Arguments SaveKyberPreKey {_ R}.
Arguments MarkKyberPreKeyUsed {_ R}.

Section calls.
Context `{SqlText} `{LibSignal}.

(** A write that did not happen leaves the store. *)
Definition written (r : SignalResult Keys.t) (s : Keys.t) : SignalResult unit * Keys.t :=
  match r with Ok s' => (Ok tt, s') | Err e => (Err e, s) | Panic => (Panic, s) end.

(** One access, under the connection's lock. *)
Definition enter {R} (c : call R) (s : Keys.t) : call R * Keys.t :=
  match c with
  | Ret r => (Ret r, s)
  | LocalAddress k => (k (local_address s), s)
  | LoadSession a k => (k (load_session s a DEVICE_ID), s)
  | StoreSession a record k => let '(r, s') := written (store_session s a DEVICE_ID record) s in (k r, s')
  | GetIdentityKeyPair k => (k (get_identity_key_pair s), s)
  | GetLocalRegistrationId k => (k (get_local_registration_id s), s)
  | SaveIdentity a identity k => (UpsertIdentity a identity (k (save_identity s a identity).1), s)
  | UpsertIdentity a identity k => (k, (save_identity s a identity).2)
  | IsTrustedIdentity a identity k => (k (is_trusted_identity s a identity), s)
  | GetIdentity a k => (k (get_identity s a), s)
  | GetPreKey id k => (k (get_pre_key s id), s)
  | SavePreKey id record k => let '(r, s') := written (save_pre_key s id record) s in (k r, s')
  | RemovePreKey id k => (k, remove_pre_key s id)
  | GetSignedPreKey id k => (k (get_signed_pre_key s id), s)
  | SaveSignedPreKey id record k => let '(r, s') := written (save_signed_pre_key s id record) s in (k r, s')
  | GetKyberPreKey id k => (k (get_kyber_pre_key s id), s)
  | SaveKyberPreKey id record k => let '(r, s') := written (save_kyber_pre_key s id record) s in (k r, s')
  | MarkKyberPreKeyUsed id k => (k, mark_kyber_pre_key_used s id)
  end.

(** A call that nothing interrupts. *)
Fixpoint run {R} (c : call R) (s : Keys.t) : R * Keys.t :=
  match c with
  | Ret r => (r, s)
  | LocalAddress k => run (k (local_address s)) s
  | LoadSession a k => run (k (load_session s a DEVICE_ID)) s
  | StoreSession a record k => let '(r, s') := written (store_session s a DEVICE_ID record) s in run (k r) s'
  | GetIdentityKeyPair k => run (k (get_identity_key_pair s)) s
  | GetLocalRegistrationId k => run (k (get_local_registration_id s)) s
  | SaveIdentity a identity k => let '(change, s') := save_identity s a identity in run (k change) s'
  | UpsertIdentity a identity k => run k (save_identity s a identity).2
  | IsTrustedIdentity a identity k => run (k (is_trusted_identity s a identity)) s
  | GetIdentity a k => run (k (get_identity s a)) s
  | GetPreKey id k => run (k (get_pre_key s id)) s
  | SavePreKey id record k => let '(r, s') := written (save_pre_key s id record) s in run (k r) s'
  | RemovePreKey id k => run k (remove_pre_key s id)
  | GetSignedPreKey id k => run (k (get_signed_pre_key s id)) s
  | SaveSignedPreKey id record k => let '(r, s') := written (save_signed_pre_key s id record) s in run (k r) s'
  | GetKyberPreKey id k => run (k (get_kyber_pre_key s id)) s
  | SaveKyberPreKey id record k => let '(r, s') := written (save_kyber_pre_key s id record) s in run (k r) s'
  | MarkKyberPreKeyUsed id k => run k (mark_kyber_pre_key_used s id)
  end.

Definition over {R} (c : call R) : bool := match c with Ret _ => true | _ => false end.

Lemma run_enter {R} (c : call R) s : run c s = run (enter c s).1 (enter c s).2.
Proof. destruct c; simpl; try done; by destruct (written _ _). Qed.

(** Calls of several threads: any of them makes its next access. *)
Inductive step {R} : list (call R) * Keys.t -> list (call R) * Keys.t -> Prop :=
  | step_enter i c ts s : ts !! i = Some c -> over c = false ->
      step (ts, s) (<[i := (enter c s).1]> ts, (enter c s).2).

Definition interleaved {R} : relation (list (call R) * Keys.t) := rtc step.

(** One call after the other. *)
Fixpoint serial {R} (ts : list (call R)) (s : Keys.t) : list R * Keys.t :=
  match ts with
  | [] => ([], s)
  | c :: r => let '(x, s1) := run c s in let '(xs, s2) := serial r s1 in (x :: xs, s2)
  end.

(** What a call works on: the session and identity of a peer, and the one-time
    prekey that a session-setup message names. *)
Definition footprint : Type := bytes * option Z.

Definition apart (p q : footprint) : Prop :=
  p.1 <> q.1 /\ forall id, p.2 = Some id -> q.2 = Some id -> False.

#[export] Instance apart_symmetric : Symmetric apart.
Proof. intros p q [Hne Hid]. split; [done|]. intros id ? ?. by apply (Hid id). Qed.

(** A call that keeps to its footprint.  It reads the local identity, the
    signed prekeys and the Kyber prekeys, and writes nothing else but the mark
    that a Kyber prekey was used. *)
Fixpoint about {R} (p : footprint) (c : call R) : Prop :=
  match c with
  | Ret _ => True
  | LocalAddress k => forall x, about p (k x)
  | LoadSession a k => a = p.1 /\ forall x, about p (k x)
  | StoreSession a _ k => a = p.1 /\ forall x, about p (k x)
  | GetIdentityKeyPair k => forall x, about p (k x)
  | GetLocalRegistrationId k => forall x, about p (k x)
  | SaveIdentity a _ k => a = p.1 /\ forall x, about p (k x)
  | UpsertIdentity a _ k => a = p.1 /\ about p k
  | IsTrustedIdentity a _ k => a = p.1 /\ forall x, about p (k x)
  | GetIdentity a k => a = p.1 /\ forall x, about p (k x)
  | GetPreKey id k => p.2 = Some id /\ forall x, about p (k x)
  | RemovePreKey id k => p.2 = Some id /\ about p k
  | GetSignedPreKey _ k => forall x, about p (k x)
  | GetKyberPreKey _ k => forall x, about p (k x)
  | MarkKyberPreKeyUsed _ k => about p k
  | SavePreKey _ _ _ | SaveSignedPreKey _ _ _ | SaveKyberPreKey _ _ _ => False
  end.

(** What every call may read. *)
Definition common (s : Keys.t) : option LocalIdentity.t * gmap Z bytes * gmap Z bytes :=
  (Keys.local_identity s, Keys.signed_prekeys s, kyber_blobs s).

(** The part of the store in a footprint. *)
Record slot := mkSlot { s_session : option bytes; s_identity : option bytes; s_prekey : option bytes }.

Definition slot_of (p : footprint) (s : Keys.t) : slot :=
  mkSlot (Keys.sessions s !! (p.1, DEVICE_ID)) (Keys.identities s !! p.1) (id ← p.2; Keys.prekeys s !! id).

Definition put (p : footprint) (v : slot) (s : Keys.t) : Keys.t :=
  Keys.mk (Keys.local_identity s)
    (partial_alter (fun _ => s_session v) (p.1, DEVICE_ID) (Keys.sessions s))
    (partial_alter (fun _ => s_identity v) p.1 (Keys.identities s))
    (match p.2 with Some id => partial_alter (fun _ => s_prekey v) id (Keys.prekeys s) | None => Keys.prekeys s end)
    (Keys.signed_prekeys s) (Keys.kyber_prekeys s).

Definition mark (o : option Z) (s : Keys.t) : Keys.t :=
  match o with Some id => mark_kyber_pre_key_used s id | None => s end.

Lemma slot_put_other p q v s : apart p q -> slot_of p (put q v s) = slot_of p s.
Proof.
  intros [Hne Hid]. unfold slot_of, put. simpl. rewrite !lookup_partial_alter_ne by congruence. f_equal.
  destruct p as [a [i|]], q as [b [j|]]; simpl in *; try done. rewrite lookup_partial_alter_ne; [done|]. naive_solver.
Qed.

Lemma put_put p q v w s : apart p q -> put p v (put q w s) = put q w (put p v s).
Proof.
  intros [Hne Hid]. unfold put. simpl. f_equal; try (apply partial_alter_partial_alter_ne; congruence).
  destruct p as [a [i|]], q as [b [j|]]; simpl in *; try done. apply partial_alter_partial_alter_ne. naive_solver.
Qed.

Lemma put_slot p s : put p (slot_of p s) s = s.
Proof.
  destruct s. unfold put, slot_of. simpl. f_equal; try apply partial_alter_self.
  destruct p as [a [i|]]; simpl; [apply partial_alter_self|done].
Qed.

Lemma common_put p v s : common (put p v s) = common s.
Proof. done. Qed.

Lemma slot_mark p o s : slot_of p (mark o s) = slot_of p s.
Proof. by destruct o. Qed.

Lemma put_mark p v o s : put p v (mark o s) = mark o (put p v s).
Proof. by destruct o. Qed.

Lemma common_mark o s : common (mark o s) = common s.
Proof.
  destruct o as [i|]; [|done]. unfold common, kyber_blobs, mark, mark_kyber_pre_key_used. simpl. f_equal.
  apply map_eq. intros j. rewrite !lookup_fmap. destruct (decide (j = i)) as [->|Hne].
  - rewrite lookup_alter_eq. by destruct (Keys.kyber_prekeys s !! i).
  - by rewrite lookup_alter_ne.
Qed.

Lemma mark_mark o o' s : mark o (mark o' s) = mark o' (mark o s).
Proof.
  destruct o as [i|], o' as [j|]; try done. unfold mark, mark_kyber_pre_key_used, Keys.with_kyber. simpl. f_equal.
  destruct (decide (i = j)) as [->|Hne]; [done|]. by apply alter_alter_ne.
Qed.

(** An access of such a call is a function of the common part and the slot. *)
Definition effect (R : Type) : Type := call R * slot * option Z.

Definition local {R} (p : footprint) (c : call R) : Prop :=
  exists f : option LocalIdentity.t * gmap Z bytes * gmap Z bytes -> slot -> effect R,
    (forall s, enter c s = ((f (common s) (slot_of p s)).1.1,
                            mark (f (common s) (slot_of p s)).2 (put p (f (common s) (slot_of p s)).1.2 s))) /\
    forall l v, about p (f l v).1.1.

Lemma local_read {R} p (c : call R) g :
  (forall s, enter c s = (g (common s) (slot_of p s), s)) -> (forall l v, about p (g l v)) -> local p c.
Proof. intros Hg Ha. exists (fun l v => (g l v, v, None)). split; [|done]. intros s. simpl. by rewrite put_slot, Hg. Qed.

Lemma local_write {R} p (c k : call R) g :
  (forall s, enter c s = (k, put p (g (slot_of p s)) s)) -> about p k -> local p c.
Proof. intros Hg Ha. exists (fun _ v => (k, g v, None)). split; [|done]. intros s. simpl. by rewrite Hg. Qed.

Definition only_local (l : option LocalIdentity.t) : Keys.t := Keys.mk l ∅ ∅ ∅ ∅ ∅.

(** Writes that leave the rest of the slot. *)
Ltac slot_write :=
  intros [? ? ? ? ? ?]; unfold put, slot_of, enter, put_session, Keys.with_sessions, save_identity, Keys.with_identities,
    remove_pre_key, Keys.with_prekeys; simpl; f_equal; f_equal;
  first [ done | by symmetry; apply partial_alter_self
        | match goal with |- context [match ?o with Some _ => _ | None => _ end] =>
            destruct o; [symmetry; apply partial_alter_self|done] end ].

Lemma about_local {R} p (c : call R) : about p c -> local p c.
Proof.
  destruct p as [peer pk].
  destruct c as [r|k|a k|a record k|k|k|a identity k|a identity k|a identity k|a k|id k|id record k|id k|id k|id record k|id k
    |id record k|id k]; simpl; intros Ha; try done.
  - by apply (local_read _ _ (fun _ _ => Ret r)).
  - by apply (local_read _ _ (fun l _ => k (local_address (only_local l.1.1)))).
  - destruct Ha as [-> Ha]. by apply (local_read _ _ (fun _ v =>
      k match s_session v with Some b => r ← session_deserialize b; Ok (Some r) | None => Ok None end)).
  - destruct Ha as [-> Ha]. destruct (session_serialize record) as [b|e|] eqn:Es.
    + apply (local_write _ _ (k (Ok tt)) (fun v => mkSlot (Some b) (s_identity v) (s_prekey v))); [|done].
      intros s. unfold enter, store_session. rewrite Es. revert s. slot_write.
    + apply (local_read _ _ (fun _ _ => k (Err e))); [|done]. intros s. unfold enter, store_session. by rewrite Es.
    + apply (local_read _ _ (fun _ _ => k Panic)); [|done]. intros s. unfold enter, store_session. by rewrite Es.
  - by apply (local_read _ _ (fun l _ => k (get_identity_key_pair (only_local l.1.1)))).
  - by apply (local_read _ _ (fun l _ => k (get_local_registration_id (only_local l.1.1)))).
  - destruct Ha as [-> Ha]. apply (local_read _ _ (fun _ v => UpsertIdentity peer identity
      (k match s_identity v with Some known => if beq known identity then NewOrUnchanged else ReplacedExisting
                               | None => NewOrUnchanged end))); [done|]. intros l v. by split.
  - destruct Ha as [-> Ha]. apply (local_write _ _ k (fun v => mkSlot (s_session v) (Some identity) (s_prekey v))); [|done].
    slot_write.
  - destruct Ha as [-> Ha].
    apply (local_read _ _ (fun _ v => k match s_identity v with None => true | Some known => beq known identity end));
      [done|by intros].
  - destruct Ha as [-> Ha]. by apply (local_read _ _ (fun _ v =>
      k match s_identity v with Some b => i ← identity_key_decode b; Ok (Some i) | None => Ok None end)).
  - destruct Ha as [-> Ha]. by apply (local_read _ _ (fun _ v =>
      k (b ← ok_or (s_prekey v) InvalidPreKeyId; prekey_deserialize b))).
  - destruct Ha as [-> Ha]. apply (local_write _ _ k (fun v => mkSlot (s_session v) (s_identity v) None)); [|done].
    slot_write.
  - by apply (local_read _ _ (fun l _ => k (b ← ok_or (l.1.2 !! id) InvalidSignedPreKeyId; signed_deserialize b))).
  - by apply (local_read _ _ (fun l _ => k (b ← ok_or (l.2 !! id) InvalidKyberPreKeyId; kyber_deserialize b))).
  - exists (fun _ v => (k, v, Some id)). split; [|done]. intros s. cbn [fst snd]. by rewrite put_slot.
Qed.

Lemma about_enter {R} p (c : call R) s : about p c -> about p (enter c s).1.
Proof. intros (f & Hf & Ha)%about_local. rewrite Hf. apply Ha. Qed.

(** Accesses in footprints that are apart commute. *)
Lemma enter_commute {R} p q (c d : call R) s : apart p q -> about p c -> about q d ->
  (enter c (enter d s).2).1 = (enter c s).1 /\ (enter c (enter d s).2).2 = (enter d (enter c s).2).2.
Proof.
  intros Hpq (f & Hf & _)%about_local (g & Hg & _)%about_local. rewrite !Hf, !Hg. cbn [fst snd].
  assert (Hqp : apart q p) by by symmetry.
  rewrite !common_mark, !slot_mark, !common_put, !slot_put_other by done. split; [done|].
  rewrite !put_mark, (put_put p q) by done. apply mark_mark.
Qed.

(** A call that keeps to a footprint, or has returned. *)
Definition within {R} (o : option footprint) (c : call R) : Prop :=
  match o with Some p => about p c | None => over c = true end.

Definition disjoint (o o' : option footprint) : Prop :=
  match o, o' with Some p, Some q => apart p q | _, _ => True end.

#[export] Instance disjoint_symmetric : Symmetric disjoint.
Proof. by intros [p|] [q|]; simpl. Qed.

Lemma over_enter {R} (c : call R) s : over c = true -> enter c s = (c, s).
Proof. by destruct c. Qed.

Lemma within_enter {R} o (c : call R) s : within o c -> within o (enter c s).1.
Proof. destruct o as [p|]; simpl; intros Hc; [by apply about_enter|by rewrite over_enter]. Qed.

Lemma within_commute {R} o o' (c d : call R) s : disjoint o o' -> within o c -> within o' d ->
  (enter c (enter d s).2).1 = (enter c s).1 /\ (enter c (enter d s).2).2 = (enter d (enter c s).2).2.
Proof.
  destruct o as [p|]; [|intros _ Hc _; by destruct c]. destruct o' as [q|]; [|intros _ _ Hd; by destruct d].
  apply enter_commute.
Qed.

(** Induction along the accesses of a call. *)
Lemma call_accesses {R} (P : call R -> Prop) :
  (forall r, P (Ret r)) -> (forall c, over c = false -> (forall s, P (enter c s).1) -> P c) -> forall c, P c.
Proof.
  intros Hr Ha c. induction c; [apply Hr|apply Ha; [done|intros s; simpl; try destruct (written _ _); simpl; auto]..].
  apply Ha; [done|]. intros ?. simpl. auto.
Qed.

Lemma run_commute {R} p q (c d : call R) s : disjoint p q -> within p c -> within q d ->
  (run d (enter c s).2).1 = (run d s).1 /\ (run d (enter c s).2).2 = (enter c (run d s).2).2 /\
  (enter c (run d s).2).1 = (enter c s).1.
Proof.
  intros Hpq Hc. assert (Hqp : disjoint q p) by by symmetry.
  revert s. induction d as [r|d _ IH] using call_accesses; intros s Hd; [done|].
  destruct (within_commute q p d c s) as [E1 E2]; [done..|]. destruct (within_commute p q c d s) as [E3 _]; [done..|].
  rewrite (run_enter d (enter c s).2), (run_enter d s), E1, E2, <- E3. apply IH. by apply within_enter.
Qed.

(** A step leaves the outcome of running the calls one by one as it was. *)
Lemma serial_step {R} ps (ts : list (call R)) i c s :
  ForallOrdPairs disjoint ps -> Forall2 within ps ts -> ts !! i = Some c ->
  serial (<[i := (enter c s).1]> ts) (enter c s).2 = serial ts s.
Proof.
  intros Hnd Hf. revert i s. induction Hf as [|p d ps ts Hd Hf IH]; intros i s Hi; [done|].
  inversion Hnd as [|? ? Hp Hnd']; subst. destruct i as [|i]; simpl in *.
  - injection Hi as ->. by rewrite <- run_enter.
  - destruct (Forall2_lookup_r _ _ _ _ _ Hf Hi) as (q & Hq & Hc).
    destruct (run_commute q p c d s) as (E1 & E2 & E3); [|done..|].
    { symmetry. rewrite Forall_forall in Hp. apply Hp. by eapply list_elem_of_lookup_2. }
    destruct (run d (enter c s).2) as [x1 s1], (run d s) as [x2 s2]. simpl in *. subst.
    rewrite <- E3, IH by done. done.
Qed.

Lemma within_step {R} ps (ts ts' : list (call R)) s s' :
  Forall2 within ps ts -> step (ts, s) (ts', s') -> Forall2 within ps ts'.
Proof.
  intros Hf Hs. inversion Hs as [i c ts0 s0 Hi Ho]; subst.
  destruct (Forall2_lookup_r _ _ _ _ _ Hf Hi) as (q & Hq & Hc).
  rewrite <- (list_insert_id ps i q) by done. apply Forall2_insert; [done|]. by apply within_enter.
Qed.

Lemma serial_done {R} (rs : list R) s : serial (map Ret rs) s = (rs, s).
Proof. induction rs as [|r rs IH]; simpl; [done|]. by rewrite IH. Qed.

Lemma interleaved_serial {R} ps (ts : list (call R)) s rs s' :
  ForallOrdPairs disjoint ps -> Forall2 within ps ts -> interleaved (ts, s) (map Ret rs, s') -> serial ts s = (rs, s').
Proof.
  intros Hnd Hf Hi. remember (ts, s) as x eqn:Ex. remember (map Ret rs, s') as y eqn:Ey.
  revert ts s Ex Hf Ey. induction Hi as [x|x y z Hstep _ IH]; intros ts s -> Hf Ey.
  - injection Ey as -> ->. apply serial_done.
  - destruct y as [ts1 s1]. rewrite <- (IH ts1 s1 eq_refl (within_step _ _ _ _ _ Hf Hstep) Ey).
    inversion Hstep; subst. symmetry. by eapply serial_step.
Qed.

(** Running the calls one by one is an interleaving. *)
Lemma run_interleaved {R} (pre post : list (call R)) c s :
  interleaved (pre ++ c :: post, s) (pre ++ Ret (run c s).1 :: post, (run c s).2).
Proof.
  revert s. induction c as [r|c Ho IH] using call_accesses; intros s; [apply rtc_refl|].
  eapply rtc_l; [|rewrite run_enter; apply IH].
  replace (pre ++ (enter c s).1 :: post) with (<[length pre := (enter c s).1]> (pre ++ c :: post))
    by (by rewrite insert_app_r_alt, Nat.sub_diag by lia).
  constructor; [|done]. by rewrite lookup_app_r, Nat.sub_diag by lia.
Qed.

Lemma serial_interleaved {R} (ts : list (call R)) s :
  interleaved (ts, s) (map Ret (serial ts s).1, (serial ts s).2).
Proof.
  assert (Hg : forall (done_ : list R) ts s,
    interleaved (map Ret done_ ++ ts, s) (map Ret (done_ ++ (serial ts s).1), (serial ts s).2)).
  { intros done_ ts1. revert done_. induction ts1 as [|c ts1 IH]; intros done_ s1; simpl.
    - rewrite !app_nil_r. apply rtc_refl.
    - unfold interleaved in *. etrans; [apply run_interleaved|]. destruct (run c s1) as [x s2] eqn:E. simpl.
      specialize (IH (done_ ++ [x]) s2). destruct (serial ts1 s2) as [xs s3]. simpl in *.
      by rewrite map_app, <- !app_assoc in IH. }
  apply (Hg []).
Qed.
End calls.

(** ** Encrypting and decrypting, access by access *)

Fixpoint cbind `{LibSignal} {A B} (c : call A) (f : A -> call B) : call B :=
  match c with
  | Ret r => f r
  | LocalAddress k => LocalAddress (fun x => cbind (k x) f)
  | LoadSession a k => LoadSession a (fun x => cbind (k x) f)
  | StoreSession a record k => StoreSession a record (fun x => cbind (k x) f)
  | GetIdentityKeyPair k => GetIdentityKeyPair (fun x => cbind (k x) f)
  | GetLocalRegistrationId k => GetLocalRegistrationId (fun x => cbind (k x) f)
  | SaveIdentity a identity k => SaveIdentity a identity (fun x => cbind (k x) f)
  | UpsertIdentity a identity k => UpsertIdentity a identity (cbind k f)
  | IsTrustedIdentity a identity k => IsTrustedIdentity a identity (fun x => cbind (k x) f)
  | GetIdentity a k => GetIdentity a (fun x => cbind (k x) f)
  | GetPreKey id k => GetPreKey id (fun x => cbind (k x) f)
  | SavePreKey id record k => SavePreKey id record (fun x => cbind (k x) f)
  | RemovePreKey id k => RemovePreKey id (cbind k f)
  | GetSignedPreKey id k => GetSignedPreKey id (fun x => cbind (k x) f)
  | SaveSignedPreKey id record k => SaveSignedPreKey id record (fun x => cbind (k x) f)
  | GetKyberPreKey id k => GetKyberPreKey id (fun x => cbind (k x) f)
  | SaveKyberPreKey id record k => SaveKyberPreKey id record (fun x => cbind (k x) f)
  | MarkKyberPreKeyUsed id k => MarkKyberPreKeyUsed id (cbind k f)
  end.

(** [?] *)
Definition and_then `{LibSignal} {A B} (r : Result A) (f : A -> call (Result B)) : call (Result B) :=
  match r with Ok a => f a | Err e => Ret (Err e) | Panic => Ret Panic end.

(** The library's operations by their store accesses: run alone they are
    [process_prekey_bundle], [message_encrypt] and [message_decrypt], and they
    keep to the session and identity of the remote address and, for a
    session-setup message, the one-time prekey it names. *)
Class RatchetCalls `{SqlText} `{LibSignal} `{RatchetLib} := {
  process_call : bytes -> bytes -> BundleData.t -> call (SignalResult unit);
  encrypt_call : bytes -> bytes -> bytes -> call (SignalResult (CiphertextType * bytes));
  decrypt_call : bytes -> bytes -> EnvelopeKind -> bytes -> call (SignalResult bytes);
  prekey_message_prekey : bytes -> option Z;
  process_runs : forall remote local d s, run (process_call remote local d) s = process_prekey_bundle remote local d s;
  encrypt_runs : forall remote local m s, run (encrypt_call remote local m) s = message_encrypt remote local m s;
  decrypt_runs : forall remote local kind c s,
    run (decrypt_call remote local kind c) s = message_decrypt remote local kind c s;
  process_about : forall remote local d, about (remote, None) (process_call remote local d);
  encrypt_about : forall remote local m, about (remote, None) (encrypt_call remote local m);
  decrypt_about : forall remote local kind c,
    about (remote, match kind with SessionSetup => prekey_message_prekey c | Ratchet => None end)
      (decrypt_call remote local kind c)
}.

Section jobs.
Context `{SqlText} `{LibSignal} `{RatchetLib} `{!RatchetCalls}.

Definition local_task {A} (f : bytes -> call (Result A)) : call (Result A) :=
  LocalAddress (fun l => and_then (a ← l; address a DEVICE_ID) f).

Definition encrypt_task (peer : bytes) (frame : InnerFrame.t) (profile : PaddingProfile.t) : call (Result bytes) :=
  and_then (InnerFrame.encode frame profile) (fun plaintext =>
  and_then (address peer DEVICE_ID) (fun remote =>
  local_task (fun local =>
  cbind (encrypt_call remote local plaintext) (fun m => Ret (
    '(ty, serialized) ← map_err signal_err m;
    kind ← match ty with
           | PreKeyMessage => Ok SessionSetup
           | SignalMessage => Ok Ratchet
           | OtherMessage what => Err (Signal ("unexpected ciphertext message type " +:+ what))
           end;
    Ok (Envelope.encode (Envelope.mk kind serialized))))))).

Definition decrypt_task (peer wire : bytes) (profile : PaddingProfile.t) : call (Result InnerFrame.t) :=
  and_then (Envelope.parse wire) (fun envelope =>
  and_then match Envelope.kind envelope with
           | SessionSetup => _ ← map_err signal_err (prekey_message_identity (Envelope.ciphertext envelope)); Ok tt
           | Ratchet => map_err signal_err (signal_message_check (Envelope.ciphertext envelope))
           end (fun _ =>
  and_then (address peer DEVICE_ID) (fun remote =>
  local_task (fun local =>
  cbind (decrypt_call remote local (Envelope.kind envelope) (Envelope.ciphertext envelope)) (fun m => Ret (
    plaintext ← map_err signal_err m; InnerFrame.parse plaintext profile)))))).

Definition setup_task (wire : bytes) (profile : PaddingProfile.t) : call (Result (bytes * InnerFrame.t)) :=
  and_then (Envelope.parse wire) (fun envelope =>
  and_then (ensure (bool_decide (Envelope.kind envelope = SessionSetup))
                   (Malformed "expected a session-setup message on a pairing inbox")) (fun _ =>
  and_then (map_err signal_err (prekey_message_identity (Envelope.ciphertext envelope))) (fun identity =>
  cbind (decrypt_task (address_for_identity identity) wire profile) (fun r => Ret (
    frame ← r; Ok (address_for_identity identity, frame)))))).

Definition establish_task (bundle : bytes) : call (Result bytes) :=
  and_then (parse bundle) (fun data =>
  and_then (map_err signal_err (identity_decode (BundleData.identity_key data))) (fun _ =>
  and_then match BundleData.onetime_prekey data with
           | Some (_, key) => map_err signal_err (public_deserialize key)
           | None => Ok tt
           end (fun _ =>
  and_then (device_id (BundleData.device_id data)) (fun _ =>
  and_then (map_err signal_err (public_deserialize (BundleData.signed_prekey_pub data))) (fun _ =>
  and_then (map_err signal_err (kem_deserialize (BundleData.kyber_prekey_pub data))) (fun _ =>
  and_then (map_err signal_err (bundle_new data)) (fun _ =>
  and_then (address (BundleData.address_name data) (BundleData.device_id data)) (fun remote =>
  local_task (fun local =>
  cbind (process_call remote local data) (fun r => Ret (
    _ ← map_err signal_err r; Ok (BundleData.address_name data)))))))))))).

Lemma run_cbind {A B} (c : call A) (f : A -> call B) s : run (cbind c f) s = run (f (run c s).1) (run c s).2.
Proof. revert s. induction c; intros s; simpl; try destruct (written _ _); auto. Qed.

Lemma about_cbind {A B} (peer : footprint) (c : call A) (f : A -> call B) :
  about peer c -> (forall x, about peer (f x)) -> about peer (cbind c f).
Proof. intros Hc Hf. induction c; simpl in *; naive_solver. Qed.

Lemma about_and_then {A B} peer (r : Result A) (f : A -> call (Result B)) :
  (forall x, r = Ok x -> about peer (f x)) -> about peer (and_then r f).
Proof. destruct r; simpl; auto. Qed.

Lemma encrypt_task_run peer frame profile s :
  run (encrypt_task peer frame profile) s = encrypt_message peer frame profile s.
Proof.
  unfold encrypt_task, encrypt_message, local_task, local_protocol_address, mbind, st_bind, pure_r, read_r.
  destruct (InnerFrame.encode frame profile); simpl; [|done..]. destruct (address peer DEVICE_ID); simpl; [|done..].
  destruct (local_address s); simpl; [|done..]. destruct (address a1 DEVICE_ID); simpl; [|done..].
  rewrite run_cbind, encrypt_runs. unfold lib. destruct (message_encrypt _ _ _ _) as [[[ty c]| |] s']; simpl; [|done..].
  by destruct ty.
Qed.

Lemma decrypt_task_run peer wire profile s :
  run (decrypt_task peer wire profile) s = decrypt_message peer wire profile s.
Proof.
  unfold decrypt_task, decrypt_message, local_task, local_protocol_address, lib_pure, mbind, st_bind, pure_r, read_r.
  destruct (Envelope.parse wire) as [envelope| |]; simpl; [|done..].
  set (check := match Envelope.kind envelope with SessionSetup => _ | Ratchet => _ end).
  transitivity (match check with
                | Ok _ => run (and_then (address peer DEVICE_ID) (fun remote => local_task (fun local =>
                    cbind (decrypt_call remote local (Envelope.kind envelope) (Envelope.ciphertext envelope))
                      (fun m => Ret (plaintext ← map_err signal_err m; InnerFrame.parse plaintext profile))))) s
                | Err e => (Err e, s)
                | Panic => (Panic, s)
                end); [by destruct check|].
  subst check. destruct (Envelope.kind envelope); simpl.
  - destruct (map_err signal_err (prekey_message_identity _)); simpl; [|done..].
    destruct (address peer DEVICE_ID); simpl; [|done..].
    destruct (local_address s); simpl; [|done..]. destruct (address _ DEVICE_ID); simpl; [|done..].
    rewrite run_cbind, decrypt_runs. unfold lib. by destruct (message_decrypt _ _ _ _ _) as [[| |] s'].
  - destruct (map_err signal_err (signal_message_check _)); simpl; [|done..].
    destruct (address peer DEVICE_ID); simpl; [|done..].
    destruct (local_address s); simpl; [|done..]. destruct (address _ DEVICE_ID); simpl; [|done..].
    rewrite run_cbind, decrypt_runs. unfold lib. by destruct (message_decrypt _ _ _ _ _) as [[| |] s'].
Qed.

Lemma run_and_then {A B} (r : Result A) (f : A -> call (Result B)) (g : A -> store B) s :
  (forall a, r = Ok a -> run (f a) s = g a s) -> run (and_then r f) s = (pure_r r ≫= g) s.
Proof. unfold mbind, st_bind, pure_r. intros Hf. destruct r; simpl; auto. Qed.

Lemma run_local_task {A} (f : bytes -> call (Result A)) (g : bytes -> store A) s :
  (forall a, run (f a) s = g a s) -> run (local_task f) s = (local_protocol_address ≫= g) s.
Proof.
  unfold local_task, local_protocol_address, mbind, st_bind, pure_r, read_r. intros Hf. simpl.
  destruct (local_address s); simpl; [|done..]. by destruct (address a DEVICE_ID); simpl.
Qed.

Lemma setup_task_run wire profile s :
  run (setup_task wire profile) s = decrypt_setup_from_unknown wire profile s.
Proof.
  unfold setup_task, decrypt_setup_from_unknown, lib_pure. apply run_and_then. intros envelope _.
  apply run_and_then. intros _ _. apply run_and_then. intros identity _.
  rewrite run_cbind, decrypt_task_run. unfold mbind at 2, st_bind. by destruct (decrypt_message _ _ _ _) as [[]].
Qed.

Lemma establish_task_run bundle s : run (establish_task bundle) s = establish_session bundle s.
Proof.
  unfold establish_task, establish_session, lib_pure. apply run_and_then. intros data _.
  apply run_and_then. intros _ _.
  transitivity ((pure_r match BundleData.onetime_prekey data with
                        | Some (_, key) => map_err signal_err (public_deserialize key) | None => Ok tt end ≫= fun _ =>
    _ ← pure_r (device_id (BundleData.device_id data));
    _ ← pure_r (map_err signal_err (public_deserialize (BundleData.signed_prekey_pub data)));
    _ ← pure_r (map_err signal_err (kem_deserialize (BundleData.kyber_prekey_pub data)));
    _ ← pure_r (map_err signal_err (bundle_new data));
    remote ← pure_r (address (BundleData.address_name data) (BundleData.device_id data));
    local ← local_protocol_address;
    _ ← lib (process_prekey_bundle remote local data);
    mret (BundleData.address_name data)) s).
  - do 6 (apply run_and_then; intros ? _). apply run_local_task. intros local.
    rewrite run_cbind, process_runs. unfold lib, mbind, st_bind. by destruct (process_prekey_bundle _ _ _ _) as [[]].
  - unfold mbind at 1, st_bind at 1. by destruct (BundleData.onetime_prekey data) as [[]|].
Qed.

(** What threads do with sessions, and what comes of it. *)
Inductive job :=
  | Establish (bundle : bytes)
  | Encrypt (peer : bytes) (frame : InnerFrame.t)
  | Decrypt (peer wire : bytes)
  | DecryptSetup (wire : bytes).

Inductive product :=
  | Peer (address : bytes)
  | Wire (wire : bytes)
  | Frame (frame : InnerFrame.t)
  | Met (address : bytes) (frame : InnerFrame.t).

(** The one-time prekey an envelope names. *)
Definition wire_prekey (wire : bytes) : option Z :=
  match Envelope.parse wire with
  | Ok e => match Envelope.kind e with SessionSetup => prekey_message_prekey (Envelope.ciphertext e) | Ratchet => None end
  | _ => None
  end.

(** The peer and the prekey of a job; a job that fails before it reaches the
    stores has neither. *)
Definition job_footprint (j : job) : option footprint :=
  match j with
  | Establish b => match parse b with Ok d => Some (BundleData.address_name d, None) | _ => None end
  | Encrypt p _ => Some (p, None)
  | Decrypt p w => Some (p, wire_prekey w)
  | DecryptSetup w =>
    match Envelope.parse w with
    | Ok e => match prekey_message_identity (Envelope.ciphertext e) with
              | Ok i => Some (address_for_identity i, wire_prekey w)
              | _ => None
              end
    | _ => None
    end
  end.

Definition task (profile : PaddingProfile.t) (j : job) : call (Result product) :=
  match j with
  | Establish b => cbind (establish_task b) (fun r => Ret (Peer <$> r))
  | Encrypt p f => cbind (encrypt_task p f profile) (fun r => Ret (Wire <$> r))
  | Decrypt p w => cbind (decrypt_task p w profile) (fun r => Ret (Frame <$> r))
  | DecryptSetup w => cbind (setup_task w profile) (fun r => Ret ((fun x => Met x.1 x.2) <$> r))
  end.

(** The operations of [Session]. *)
Definition do_job (profile : PaddingProfile.t) (j : job) : store product :=
  match j with
  | Establish b => a ← establish_session b; mret (Peer a)
  | Encrypt p f => w ← encrypt_message p f profile; mret (Wire w)
  | Decrypt p w => f ← decrypt_message p w profile; mret (Frame f)
  | DecryptSetup w => '(a, f) ← decrypt_setup_from_unknown w profile; mret (Met a f)
  end.

(** One job after the other; one that fails does not stop the next. *)
Fixpoint one_by_one (profile : PaddingProfile.t) (js : list job) (s : Keys.t) : list (Result product) * Keys.t :=
  match js with
  | [] => ([], s)
  | j :: rest =>
    let '(x, s1) := do_job profile j s in
    let '(xs, s2) := one_by_one profile rest s1 in
    (x :: xs, s2)
  end.

Lemma task_run profile j s : run (task profile j) s = do_job profile j s.
Proof.
  destruct j; cbn [task do_job]; rewrite run_cbind, ?establish_task_run, ?encrypt_task_run, ?decrypt_task_run, ?setup_task_run;
    unfold mbind, st_bind;
    [destruct (establish_session _ _) as [[]]|destruct (encrypt_message _ _ _ _) as [[]]
    |destruct (decrypt_message _ _ _ _) as [[]]|destruct (decrypt_setup_from_unknown _ _ _) as [[[]| |] ?]]; done.
Qed.

Lemma serial_tasks profile js s : serial (map (task profile) js) s = one_by_one profile js s.
Proof.
  revert s. induction js as [|j js IH]; intros s; [done|]. cbn [map serial one_by_one]. rewrite task_run.
  destruct (do_job profile j s) as [x s1]. by rewrite IH.
Qed.

(** ** Footprints of the jobs *)

Lemma encrypt_task_about peer frame profile : about (peer, None) (encrypt_task peer frame profile).
Proof.
  unfold encrypt_task, local_task. apply about_and_then. intros plaintext _. apply about_and_then.
  intros remote ->%address_inv l. apply about_and_then. intros local _. apply about_cbind; [apply encrypt_about|done].
Qed.

Lemma decrypt_task_about peer wire profile : about (peer, wire_prekey wire) (decrypt_task peer wire profile).
Proof.
  unfold decrypt_task, local_task, wire_prekey. apply about_and_then. intros envelope ->.
  apply about_and_then. intros _ _. apply about_and_then.
  intros remote ->%address_inv l. apply about_and_then. intros local _. apply about_cbind; [apply decrypt_about|done].
Qed.

Lemma address_name_inv name device a : address name device = Ok a -> a = name.
Proof. unfold address. by intros (d & _ & [= <-])%bind_Ok. Qed.

Lemma establish_task_about bundle d :
  parse bundle = Ok d -> about (BundleData.address_name d, None) (establish_task bundle).
Proof.
  intros Hp. unfold establish_task, local_task. rewrite Hp. cbn [and_then].
  do 6 (apply about_and_then; intros _ _). apply about_and_then. intros remote ->%address_name_inv l.
  apply about_and_then. intros local _. apply about_cbind; [apply process_about|done].
Qed.

(** A job keeps to its footprint. *)
Lemma task_within profile j : within (job_footprint j) (task profile j).
Proof.
  destruct j as [b|p f|p w|w]; cbn [job_footprint task].
  - destruct (parse b) as [d|e|] eqn:Hp; cbn [within]; [apply about_cbind; [by apply establish_task_about|done]|..];
      unfold establish_task; by rewrite Hp.
  - apply about_cbind; [apply encrypt_task_about|done].
  - apply about_cbind; [apply decrypt_task_about|done].
  - unfold setup_task. destruct (Envelope.parse w) as [e| |]; cbn [within and_then cbind over]; try done.
    destruct (prekey_message_identity _) as [i| |]; cbn [map_err]; try (by destruct (bool_decide _)).
    apply about_cbind; [|done]. apply about_and_then. intros _ _. cbn [and_then].
    apply about_cbind; [apply decrypt_task_about|done].
Qed.
End jobs.

(** ** Schedules *)

(** A schedule names the call that moves next. *)
Fixpoint play `{SqlText} `{LibSignal} {R} (schedule : list nat) (ts : list (call R)) (s : Keys.t) : list (call R) * Keys.t :=
  match schedule with
  | [] => (ts, s)
  | i :: rest =>
    match ts !! i with
    | Some c => if over c then play rest ts s else play rest (<[i := (enter c s).1]> ts) (enter c s).2
    | None => play rest ts s
    end
  end.

Lemma play_interleaved `{SqlText} `{LibSignal} {R} schedule (ts : list (call R)) s : interleaved (ts, s) (play schedule ts s).
Proof.
  revert ts s. induction schedule as [|i rest IH]; intros ts s; simpl; [apply rtc_refl|].
  destruct (ts !! i) as [c|] eqn:E; [|apply IH]. destruct (over c) eqn:Eo; [apply IH|].
  eapply rtc_l; [|apply IH]. by constructor.
Qed.

(** A ratchet that numbers its messages. *)
Module Counter.
#[export] Existing Instance toy_lib.
#[export] Instance sql : SqlText := fun _ => "sql"%string.

Definition count (r : SignalResult (option bytes)) : Z := match r with Ok (Some [n]) => n | _ => 0 end.

Definition encrypt_call (remote local m : bytes) : call (SignalResult (CiphertextType * bytes)) :=
  LoadSession remote (fun o => StoreSession remote [count o + 1] (fun _ => Ret (Ok (SignalMessage, count o :: m)))).

(** A session-setup message uses the one-time prekey of its first byte and
    marks the Kyber prekey. *)
Definition decrypt_call (remote local : bytes) (kind : EnvelopeKind) (c : bytes) : call (SignalResult bytes) :=
  match kind, c with
  | SessionSetup, id :: m =>
    GetPreKey id (fun r => match r with
      | Ok _ => StoreSession remote [0] (fun _ => MarkKyberPreKeyUsed 1 (RemovePreKey id (Ret (Ok m))))
      | Err e => Ret (Err e)
      | Panic => Ret Panic
      end)
  | _, _ => LoadSession remote (fun o => StoreSession remote [count o + 100] (fun _ => Ret (Ok (drop 1 c))))
  end.

Definition process_call (remote local : bytes) : call (SignalResult unit) := StoreSession remote [0] (fun _ => Ret (Ok tt)).

#[export] Instance ratchet : RatchetLib := {|
  identity_decode _ := Ok tt; public_deserialize _ := Ok tt; kem_deserialize _ := Ok tt;
  device_id_valid d := (1 <=? d) && (d <=? 127); bundle_new _ := Ok tt;
  process_prekey_bundle remote local _ := run (process_call remote local);
  message_encrypt remote local m := run (encrypt_call remote local m);
  message_decrypt remote local kind c := run (decrypt_call remote local kind c);
  prekey_message_identity c := Ok c; signal_message_check c := Ok tt
|}.

#[export] Instance calls : RatchetCalls.
Proof.
  refine {| SessionConc.process_call := fun remote local _ => process_call remote local;
            SessionConc.encrypt_call := encrypt_call; SessionConc.decrypt_call := decrypt_call;
            prekey_message_prekey := head |}; try done.
  intros remote local [] [|id m]; simpl; try done. split; [done|]. by intros [].
Defined.

Definition profile : PaddingProfile.t := PaddingProfile.mk [16].
Definition hi : InnerFrame.t := InnerFrame.chat_v1 (bstr "hi").
Definition yo : InnerFrame.t := InnerFrame.chat_v1 (bstr "yo").
End Counter.

(** Two calls for one peer.  Nothing spans a call, so when both load the
    session before either stores it, both go on from the same record, and the
    one that stores last leaves no trace of the other. *)
Lemma same_peer_race `{SqlText} `{LibSignal} {R} (a : bytes) (k1 k2 : SignalResult (option SessionRecord) -> call R) (s : Keys.t) :
  let o := load_session s a DEVICE_ID in
  let '(r1, s1) := run (k1 o) s in
  let '(r2, s2) := run (k2 o) s1 in
  interleaved ([LoadSession a k1; LoadSession a k2], s) ([Ret r1; Ret r2], s2).
Proof.
  intros o. destruct (run (k1 o) s) as [r1 s1] eqn:E1. destruct (run (k2 o) s1) as [r2 s2] eqn:E2.
  pose proof (play_interleaved [0; 1]%nat [LoadSession a k1; LoadSession a k2] s) as I0. simpl in I0. fold o in I0.
  pose proof (run_interleaved [] [k2 o] (k1 o) s) as I1. rewrite E1 in I1. simpl in I1.
  pose proof (run_interleaved [Ret r1] [] (k2 o) s1) as I2. rewrite E2 in I2. simpl in I2.
  unfold interleaved in *. etrans; [exact I0|]. etrans; [exact I1|exact I2].
Qed.

(** ** Properties *)

(** C9: sessions of different peers do not disturb each other.  Threads that
    establish sessions, encrypt, decrypt, and meet unknown senders on pairing
    inboxes at the same time, each for another peer and no two of them with
    session-setup messages for the same one-time prekey, interleaved at every
    access of the library to the stores: the results and the key store at the
    end are exactly those of [establish_session], [encrypt_message],
    [decrypt_message] and [decrypt_setup_from_unknown] run one after the other,
    whatever the schedule, and no schedule can get stuck before.  So such a call
    may be taken as one step.  For one peer there is no such guarantee: when two
    calls load its session before either stores it, both compute from the same
    record and the later store replaces the other's. *)
Theorem sessions_isolated `{SqlText} `{LibSignal} `{RatchetLib} `{!RatchetCalls} (profile : PaddingProfile.t) (js : list job) (s : Keys.t) :
  ForallOrdPairs disjoint (map job_footprint js) ->
  (forall rs s', interleaved (map (task profile) js, s) (map Ret rs, s') <-> one_by_one profile js s = (rs, s')) /\
  (forall ts s1, interleaved (map (task profile) js, s) (ts, s1) ->
     interleaved (ts, s1) (map Ret (one_by_one profile js s).1, (one_by_one profile js s).2)) /\
  (forall R a (k1 k2 : SignalResult (option SessionRecord) -> call R),
     let o := load_session s a DEVICE_ID in
     let '(r1, s1) := run (k1 o) s in
     let '(r2, s2) := run (k2 o) s1 in
     interleaved ([LoadSession a k1; LoadSession a k2], s) ([Ret r1; Ret r2], s2)).
Proof.
  intros Hd.
  assert (Hf : Forall2 within (map job_footprint js) (map (task profile) js)).
  { clear Hd. induction js; simpl; constructor; [apply task_within|done]. }
  assert (Hs : forall rs s', interleaved (map (task profile) js, s) (map Ret rs, s') -> one_by_one profile js s = (rs, s')).
  { intros rs s' Hi. rewrite <- serial_tasks. by eapply interleaved_serial. }
  split_and!; [| |intros R a k1 k2; apply same_peer_race].
  - intros rs s'. split; [apply Hs|]. intros E. pose proof (serial_interleaved (map (task profile) js) s) as Hi.
    by rewrite serial_tasks, E in Hi.
  - intros ts s1 Hr. pose proof (serial_interleaved ts s1) as Hi.
    assert (E := Hs (serial ts s1).1 (serial ts s1).2). rewrite E; [exact Hi|]. by etrans.
Qed.

#[local] Existing Instances Counter.sql Counter.ratchet Counter.calls toy_lib.

(** Two strangers answer two offers while a message goes out. *)
Definition demo_jobs : list job :=
  [DecryptSetup (Envelope.encode (Envelope.mk SessionSetup (1 :: bstr "b"))); Encrypt (bstr "bob") Counter.hi;
   DecryptSetup (Envelope.encode (Envelope.mk SessionSetup (2 :: bstr "c")))].

Definition two_offers : Keys.t := Keys.with_prekeys (toy_keys (bstr "ana")) {[1 := [11]; 2 := [12]]}.

Lemma sessions_isolated_witness :
  exists rs s', interleaved (map (task Counter.profile) demo_jobs, two_offers) (map Ret rs, s') /\
    play [0; 1; 2; 0; 2; 1; 1; 0; 2; 0; 2; 2; 0]%nat (map (task Counter.profile) demo_jobs) two_offers = (map Ret rs, s') /\
    elements (dom (Keys.prekeys s')) = [].
Proof.
  exists (one_by_one Counter.profile demo_jobs two_offers).1, (one_by_one Counter.profile demo_jobs two_offers).2. split.
  - refine (proj2 (proj1 (sessions_isolated Counter.profile demo_jobs two_offers _) _ _) _); [|by destruct (one_by_one _ _ _)].
    repeat constructor; simpl; try done; vm_compute; congruence.
  - split; vm_compute; reflexivity.
Defined.

(** The schedule on the numbering ratchet: both envelopes carry number 0 and
    the session ends at 1; one after the other they carry 0 and 1. *)
Example race_reuses_number :
  let js := [Encrypt (bstr "bob") Counter.hi; Encrypt (bstr "bob") Counter.yo] in
  let s := toy_keys (bstr "ana") in
  let '(ts, s1) := play [0; 1; 0; 1; 0; 1]%nat (map (task Counter.profile) js) s in
  let '(rs, s2) := one_by_one Counter.profile js s in
  let number r := match r with Ok (Wire w) => w !! 8%nat | _ => None end in
  map (fun c => match c with Ret r => number r | _ => None end) ts = [Some 0; Some 0] /\
  map number rs = [Some 0; Some 1] /\
  load_session s1 (bstr "bob") DEVICE_ID = Ok (Some [1]) /\ load_session s2 (bstr "bob") DEVICE_ID = Ok (Some [2]).
Proof. vm_compute. done. Qed.
