(* ===== verification/Engine.v ===== *)
(** The sync engine ([tezca-core/src/relay_client/mod.rs]): pairing, sending,
    receiving and recovery over the store, the session layer and the relay.
    Its state is one record; its operations run in the monad [st].  The
    network, the generator and the clocks are the class [Platform]; the
    signature scheme and the MAC are the class [Crypto].  An operation runs
    here without other tasks of the engine in between; [EngineConc] interleaves
    flushes. *)

From stdpp Require Import pretty.
From S2P Require Import Prelude Errors Utf8 Config Envelope Cursor Pairing Recovery Storage Keys.
From S2P Require Import Transport Tls Backoff Session.

(** What the engine uses of the Signal library beyond the session layer. *)
Class Crypto `{LibSignal} := {
  mac_finalize : bytes -> bytes -> bytes;
  PrivateKey : Type;
  PublicKey : Type;
  private_key : IdentityKeyPair -> PrivateKey;
  calculate_signature : PrivateKey -> bytes -> Result bytes;
  public_key_deserialize : bytes -> Result PublicKey;
  verify_signature : PublicKey -> bytes -> bytes -> bool
}.

Definition ROLE_OFFERER : Z := 0.
Definition ROLE_RESPONDER : Z := 1.

(** ** What the engine tells its callers ([client.rs]) *)

Inductive ConnectionState :=
  | Connecting
  | Online
  | Offline
  | Backoff (secs : Z)
  | Recovering
  | RePairRequired.

(** Calls of the observer and of the receiver, acks sent on a socket, and
    tasks started, in order. *)
Inductive Notice :=
  | OnState (conv : bytes) (state : ConnectionState)
  | OnNeedsRepair (conv : bytes)
  | OnPermanentSendFailure (conv msg_id : bytes)
  | OnStorageError (e : CoreError)
  | OnMessage (conv : bytes) (msg : StoredMessage.t)
  | AckSent (msg_id : bytes)
  | SpawnListener (conv : bytes)
  | SpawnPairing (inbox secret : bytes) (ttl_s : Z).

(** An offerer's rotation in flight: the fresh inbox and the derived one. *)
Module OffererAwaitingFb.
Record t := mk { f_a : bytes; derived_recv : bytes }.
End OffererAwaitingFb.

Module Engine.
Section state.
Context `{Platform}.
Record t := mk {
  keys : Keys.t;
  db : Db.t;
  world : World;
  my_relay : bytes;
  profile : PaddingProfile.t;
  observer : bool;                                 (* an observer is set *)
  receiver : bool;                                 (* a receiver is set *)
  log : list Notice;
  rotation : gmap bytes OffererAwaitingFb.t;
  hello_seen : gmap bytes (list (Z * bytes));
  exhaustion : gmap bytes ExhaustionTracker.t;
  listening : gset bytes;
  sync : option (list bytes)                       (* the handles of the live generation *)
}.

(** With what [build_http_client] gave. *)
Definition new (http : Result HttpClient.t) (k : Keys.t) (d : Db.t) (w : World) (my_relay : bytes) : Result t :=
  _ ← http;
  profile ← PaddingProfile.default_profile;
  Ok (mk k d w my_relay profile false false [] ∅ ∅ ∅ ∅ None).
Definition with_keys (s : t) (k : Keys.t) : t :=
  mk k (db s) (world s) (my_relay s) (profile s) (observer s) (receiver s) (log s) (rotation s) (hello_seen s)
     (exhaustion s) (listening s) (sync s).
Definition with_db (s : t) (d : Db.t) : t :=
  mk (keys s) d (world s) (my_relay s) (profile s) (observer s) (receiver s) (log s) (rotation s) (hello_seen s)
     (exhaustion s) (listening s) (sync s).
Definition with_world (s : t) (w : World) : t :=
  mk (keys s) (db s) w (my_relay s) (profile s) (observer s) (receiver s) (log s) (rotation s) (hello_seen s)
     (exhaustion s) (listening s) (sync s).
Definition push (s : t) (n : Notice) : t :=
  mk (keys s) (db s) (world s) (my_relay s) (profile s) (observer s) (receiver s) (log s ++ [n]) (rotation s)
     (hello_seen s) (exhaustion s) (listening s) (sync s).
Definition with_rotation (s : t) (m : gmap bytes OffererAwaitingFb.t) : t :=
  mk (keys s) (db s) (world s) (my_relay s) (profile s) (observer s) (receiver s) (log s) m (hello_seen s)
     (exhaustion s) (listening s) (sync s).
Definition with_hello_seen (s : t) (m : gmap bytes (list (Z * bytes))) : t :=
  mk (keys s) (db s) (world s) (my_relay s) (profile s) (observer s) (receiver s) (log s) (rotation s) m
     (exhaustion s) (listening s) (sync s).
Definition with_exhaustion (s : t) (m : gmap bytes ExhaustionTracker.t) : t :=
  mk (keys s) (db s) (world s) (my_relay s) (profile s) (observer s) (receiver s) (log s) (rotation s)
     (hello_seen s) m (listening s) (sync s).
Definition with_sync (s : t) (l : gset bytes) (y : option (list bytes)) : t :=
  mk (keys s) (db s) (world s) (my_relay s) (profile s) (observer s) (receiver s) (log s) (rotation s)
     (hello_seen s) (exhaustion s) l y.
Definition set_callbacks (s : t) : t :=
  mk (keys s) (db s) (world s) (my_relay s) (profile s) true true (log s) (rotation s)
     (hello_seen s) (exhaustion s) (listening s) (sync s).
End state.
End Engine.

Section engine.
Context `{Platform} `{SqlText} `{LibSignal} `{RatchetLib} `{!Crypto}.

Abbreviation eng := (st Engine.t).

(** ** Access to the parts of the state *)

Definition on_net {A} (m : st World A) : eng A := zoom Engine.world Engine.with_world m.

(** An access to the database may fail before it has any effect; the failure
    is what [sql_err] makes of its text. *)
Definition store_call {A} (m : eng A) : eng A :=
  fun s => let '(fault, w) := store_fault (Engine.world s) in
           let s := Engine.with_world s w in
           match fault with Some text => (Err (Storage text), s) | None => m s end.

(** The session layer: its first access to the database may fail, and that is
    reported before anything else its call finds; what fails in the accesses
    that the library makes afterwards is an error of the library. *)
Definition on_keys {A} (m : store A) : eng A := store_call (zoom Engine.keys Engine.with_keys m).

Definition on_db {A} (f : Db.t -> Result (A * Db.t)) : eng A :=
  store_call (fun s => match f (Engine.db s) with
                       | Ok (a, d) => (Ok a, Engine.with_db s d)
                       | Err e => (Err e, s)
                       | Panic => (Panic, s)
                       end).
Definition db_set (f : Db.t -> Result Db.t) : eng unit := on_db (fun d => d' ← f d; Ok (tt, d')).
Definition db_get {A} (f : Db.t -> Result A) : eng A := store_call (read_r (fun s => f (Engine.db s))).

Definition get : eng Engine.t := fun s => (Ok s, s).
Definition modify (f : Engine.t -> Engine.t) : eng unit := fun s => (Ok tt, f s).
Definition throw {A} (e : CoreError) : eng A := pure_r (Err e).

Definition random (n : nat) : eng bytes :=
  on_net (fun w => let '(b, w') := random_bytes n w in (Ok b, w')).
Definition clock : eng (option Z) :=
  on_net (fun w => let '(c, w') := system_secs w in (Ok c, w')).
Definition sql_now : eng Z :=
  on_net (fun w => let '(c, w') := unixepoch w in (Ok c, w')).

(** [unix_now]: panics on a clock before the epoch. *)
Definition unix_now : eng Z := c ← clock; pure_r (expect c).

Definition notify (n : Notice) : eng unit :=
  modify (fun s => if Engine.observer s then Engine.push s n else s).
Definition emit_state (conv : bytes) (state : ConnectionState) : eng unit := notify (OnState conv state).
Definition emit_needs_repair (conv : bytes) : eng unit := notify (OnNeedsRepair conv).
Definition emit_permanent_send_failure (conv msg_id : bytes) : eng unit :=
  notify (OnPermanentSendFailure conv msg_id).
Definition emit_storage_error (e : CoreError) : eng unit := notify (OnStorageError e).

(** [sub.ack(&msg_id)], best effort. *)
Definition ack (msg_id : bytes) : eng unit := modify (fun s => Engine.push s (AckSent msg_id)).

(** The session layer with the engine's padding profile. *)
Definition encrypt (peer : bytes) (frame : InnerFrame.t) : eng bytes :=
  s ← get; on_keys (encrypt_message peer frame (Engine.profile s)).
Definition decrypt (peer envelope : bytes) : eng InnerFrame.t :=
  s ← get; on_keys (decrypt_message peer envelope (Engine.profile s)).

(** ** Sync generations *)

Definition spawn_conversation (conv : bytes) : eng unit :=
  modify (fun s =>
    if bool_decide (conv ∈ Engine.listening s) then s
    else Engine.push (Engine.with_sync s ({[conv]} ∪ Engine.listening s)
                        (Some (default [] (Engine.sync s) ++ [conv]))) (SpawnListener conv)).

(** Cancels and joins the handles it returns. *)
Definition stop_sync : eng (list bytes) :=
  fun s => (Ok (default [] (Engine.sync s)), Engine.with_sync s ∅ None).

(** ** HTTP helpers *)

Definition create_mailbox : eng bytes :=
  s ← get; on_net (http_create_mailbox (Engine.my_relay s)).
Definition deposit (relay mailbox blob : bytes) : eng DepositOutcome :=
  on_net (http_deposit relay mailbox blob).
Definition delete_mailbox (id : bytes) : eng unit :=
  s ← get; on_net (http_delete_mailbox (Engine.my_relay s) id).

(** [true] exactly on 201. *)
Definition put_create (relay id : bytes) : eng bool :=
  r ← attempt (on_net (http_put_mailbox relay id));
  mret match r with inl Created => true | _ => false end.

(** [create_routed_conversation] with the id it draws and the database clock. *)
Definition new_conversation (peer relay : bytes) (send : option bytes) (recv : bytes) : eng bytes :=
  id ← random 16;
  now ← sql_now;
  on_db (fun d => create_routed_conversation d id peer relay send recv now).

(** ** Sending *)

(** The loop over pending rows: accepted rows are marked, rows the relay will
    never accept are marked and reported, anything else stops the flush. *)
Fixpoint flush_loop (conv : bytes) (convo : Conversation.t) (mailbox : bytes)
    (pending : list (bytes * InnerFrame.t)) : eng unit :=
  match pending with
  | [] => mret tt
  | (msg_id, frame) :: rest =>
    wire ← encrypt (Conversation.peer_address convo) frame;
    outcome ← deposit (Conversation.relay_url convo) mailbox wire;
    match outcome with
    | Accepted =>
      _ ← db_set (fun d => mark_message_sent d msg_id);
      flush_loop conv convo mailbox rest
    | Other status =>
      if (status =? 400) || (status =? 413) then
        _ ← ignore (db_set (fun d => mark_message_sent d msg_id));
        _ ← emit_permanent_send_failure conv msg_id;
        flush_loop conv convo mailbox rest
      else mret tt
    | NotFound => mret tt
    end
  end.

Definition flush_pending (conv : bytes) : eng unit :=
  c ← attempt (db_get (fun d => get_conversation d conv));
  match c with
  | inr e => _ ← emit_storage_error e; throw e
  | inl None => mret tt
  | inl (Some convo) =>
    match Conversation.mailbox_send convo with
    | None => mret tt                              (* peer inbox not learned yet *)
    | Some mailbox =>
      p ← attempt (db_get (fun d => pending_chat d conv));
      match p with
      | inr e => _ ← emit_storage_error e; throw e
      | inl pending => flush_loop conv convo mailbox pending
      end
    end
  end.

Definition send_chat (conv text : bytes) : eng unit :=
  let frame := InnerFrame.chat_v1 text in
  id ← random 16;
  now ← clock;
  _ ← on_db (fun d => save_outgoing d id conv frame now);
  ignore (flush_pending conv).

(** ** Recovery *)

Inductive RecoveryOutcome := ROneSided | RTotal | RNeedsRepair | RFailed.

Definition role_from_u8 (role : Z) : Role := if role =? ROLE_OFFERER then Offerer else Responder.
Definition peer_role_u8 (own_role : Z) : Z :=
  if own_role =? ROLE_OFFERER then ROLE_RESPONDER else ROLE_OFFERER.

Definition derived_id (root : bytes) (role generation : Z) : eng bytes :=
  pure_r (derive_mailbox_id mac_finalize root (role_from_u8 role) generation).

(** One announcement: create the peer's derived inbox and leave a hello. *)
Definition announce (convo : Conversation.t) (root : bytes) (peer_role : Z) (hello : InnerFrame.t)
    (k : Z) : eng unit :=
  peer_inbox ← derived_id root peer_role k;
  created ← put_create (Conversation.relay_url convo) peer_inbox;
  if (created : bool) then
    w ← attempt (encrypt (Conversation.peer_address convo) hello);
    match w with
    | inl wire => ignore (deposit (Conversation.relay_url convo) peer_inbox wire)
    | inr _ => mret tt
    end
  else mret tt.

Fixpoint announce_all (convo : Conversation.t) (root : bytes) (peer_role : Z) (hello : InnerFrame.t)
    (window : list Z) : eng unit :=
  match window with
  | [] => mret tt
  | k :: rest => _ ← announce convo root peer_role hello k; announce_all convo root peer_role hello rest
  end.

Definition enter_recovery_gen (conv : bytes) (convo : Conversation.t) (own_role : Z) (root : bytes)
    (g peer_gen : Z) : eng bool :=
  own_recv ← derived_id root own_role g;
  s ← get;
  created ← put_create (Engine.my_relay s) own_recv;
  if negb created then mret false else
  stored ← attempt (db_set (fun d => set_conversation_recv d conv own_recv));
  match stored with
  | inr _ => mret false
  | inl _ =>
    nonce ← random (Z.to_nat RECOVERY_HELLO_NONCE_LEN);
    let hello := InnerFrame.mk RecoveryHello RECOVERY_HELLO_VERSION (encode_recovery_hello g nonce) in
    let window := GenerationState.outbound_window (GenerationState.mk g peer_gen) in
    _ ← announce_all convo root (peer_role_u8 own_role) hello window;
    peer_send ← derived_id root (peer_role_u8 own_role) g;
    _ ← ignore (db_set (fun d => set_conversation_send d conv (Conversation.relay_url convo) peer_send));
    _ ← ignore (db_set (fun d => set_recovery_generations d conv g peer_gen));
    mret true
  end.

(** One-sided recovery without a recovery root ([mailbox-update/1]). *)
Definition recover_v1 (conv : bytes) (convo : Conversation.t) : eng RecoveryOutcome :=
  i ← attempt create_mailbox;
  match i with
  | inr _ => mret RFailed
  | inl new_inbox =>
    stored ← attempt (db_set (fun d => set_conversation_recv d conv new_inbox));
    match stored with
    | inr _ => mret RFailed
    | inl _ =>
      match Conversation.mailbox_send convo with
      | None => mret RTotal
      | Some send =>
        s ← get;
        payload ← pure_r (encode_mailbox_update (Engine.my_relay s) new_inbox);
        w ← attempt (encrypt (Conversation.peer_address convo)
                             (InnerFrame.mk MailboxUpdate MAILBOX_UPDATE_V1 payload));
        match w with
        | inr _ => mret RFailed
        | inl wire =>
          outcome ← attempt (deposit (Conversation.relay_url convo) send wire);
          mret match outcome with
               | inl Accepted => ROneSided
               | inl NotFound => RTotal
               | _ => RFailed
               end
        end
      end
    end
  end.

(** The tracker of a conversation, made when missing. *)
Definition tracker (conv : bytes) : eng ExhaustionTracker.t :=
  s ← get;
  let t := default ExhaustionTracker.new (Engine.exhaustion s !! conv) in
  _ ← modify (fun s => Engine.with_exhaustion s (<[conv := t]> (Engine.exhaustion s)));
  mret t.

(** Recovery through derived mailboxes. *)
Definition recover_v2 (conv : bytes) (convo : Conversation.t) (own_role : Z) (root : bytes)
    (own_gen peer_gen : Z) : eng RecoveryOutcome :=
  t ← tracker conv;
  if ExhaustionTracker.is_exhausted t
     || GenerationState.is_exhausted (GenerationState.mk own_gen peer_gen)
  then mret RNeedsRepair
  else
    let g := saturating_add u32_max own_gen 1 in
    entered ← enter_recovery_gen conv convo own_role root g peer_gen;
    if (entered : bool) then
      t ← tracker conv;
      _ ← modify (fun s => Engine.with_exhaustion s
                             (<[conv := ExhaustionTracker.note_probe_cycle t]> (Engine.exhaustion s)));
      mret ROneSided
    else mret RFailed.

Definition recover (conv : bytes) : eng RecoveryOutcome :=
  c ← attempt (db_get (fun d => get_conversation d conv));
  match c with
  | inl (Some convo) =>
    r ← attempt (db_get (fun d => recovery_state d conv));
    match r with
    | inl (Some rec) =>
      match RecoveryRecord.role rec, RecoveryRecord.root rec with
      | Some role, Some root =>
        recover_v2 conv convo role root (RecoveryRecord.own_gen rec) (RecoveryRecord.peer_gen rec)
      | _, _ => recover_v1 conv convo
      end
    | _ => recover_v1 conv convo
    end
  | _ => mret RFailed
  end.

(** The last 512 pairs of a conversation, oldest first. *)
Fixpoint pop_front_over (n : nat) (ring : list (Z * bytes)) : list (Z * bytes) :=
  match ring with
  | [] => []
  | _ :: rest => if (n <? length ring)%nat then pop_front_over n rest else ring
  end.

(** [true] for a pair not seen before. *)
Definition mark_hello_seen (conv : bytes) (generation : Z) (nonce : bytes) : eng bool :=
  s ← get;
  let ring := default [] (Engine.hello_seen s !! conv) in
  let put r := modify (fun s => Engine.with_hello_seen s (<[conv := r]> (Engine.hello_seen s))) in
  if existsb (fun x => (x.1 =? generation) && beq x.2 nonce) ring
  then _ ← put ring; mret false
  else _ ← put (pop_front_over 512 (ring ++ [(generation, nonce)])); mret true.

(** The offerer's first leg of a rotation: it stays on its derived inbox. *)
Definition initiate_rotation (conv : bytes) (convo : Conversation.t) (own_role : Z) (root : bytes)
    (generation : Z) : eng bool :=
  derived_recv ← derived_id root own_role generation;
  peer_derived ← derived_id root (peer_role_u8 own_role) generation;
  i ← attempt create_mailbox;
  match i with
  | inr _ => mret false
  | inl f_a =>
    s ← get;
    payload ← pure_r (encode_mailbox_update_v3 (Engine.my_relay s) f_a);
    w ← attempt (encrypt (Conversation.peer_address convo)
                         (InnerFrame.mk MailboxUpdate MAILBOX_UPDATE_V3 payload));
    _ ← match w with
        | inl wire => ignore (deposit (Conversation.relay_url convo) peer_derived wire)
        | inr _ => mret tt
        end;
    _ ← modify (fun s => Engine.with_rotation s
                  (<[conv := OffererAwaitingFb.mk f_a derived_recv]> (Engine.rotation s)));
    mret false
  end.

(** [self.rotation.lock().remove(conv)] *)
Definition take_rotation (conv : bytes) : eng (option OffererAwaitingFb.t) :=
  fun s => (Ok (Engine.rotation s !! conv), Engine.with_rotation s (delete conv (Engine.rotation s))).

(** The responder's half: adopt [F_A], mint [F_B], answer on the offerer's
    derived inbox, retire the own one. *)
Definition answer_rotation (conv relay inbox : bytes) : eng bool :=
  r ← attempt (db_get (fun d => recovery_state d conv));
  match r with
  | inl (Some rec) =>
    match RecoveryRecord.role rec, RecoveryRecord.root rec with
    | Some role, Some root =>
      c ← attempt (db_get (fun d => get_conversation d conv));
      match c with
      | inl (Some convo) =>
        offerer_derived ← derived_id root (peer_role_u8 role) (RecoveryRecord.own_gen rec);
        _ ← ignore (db_set (fun d => set_conversation_send d conv relay inbox));
        i ← attempt create_mailbox;
        match i with
        | inr _ => mret false
        | inl f_b =>
          stored ← attempt (db_set (fun d => set_conversation_recv d conv f_b));
          match stored with
          | inr _ => mret false
          | inl _ =>
            s ← get;
            payload ← pure_r (encode_mailbox_update_v3 (Engine.my_relay s) f_b);
            w ← attempt (encrypt (Conversation.peer_address convo)
                                 (InnerFrame.mk MailboxUpdate MAILBOX_UPDATE_V3 payload));
            _ ← match w with
                | inl wire => ignore (deposit (Conversation.relay_url convo) offerer_derived wire)
                | inr _ => mret tt
                end;
            _ ← match Conversation.mailbox_recv convo with
                | Some dr => ignore (delete_mailbox dr)
                | None => mret tt
                end;
            _ ← ignore (flush_pending conv);
            mret true
          end
        end
      | _ => mret false
      end
    | _, _ => mret false
    end
  | _ => mret false
  end.

Definition handle_rotation (conv payload : bytes) : eng bool :=
  p ← attempt (pure_r (parse_mailbox_update_v3 payload));
  match p with
  | inr _ => mret false
  | inl (relay, inbox) =>
    awaiting ← take_rotation conv;
    match awaiting with
    | Some a =>
      _ ← ignore (db_set (fun d => set_conversation_send d conv relay inbox));
      _ ← ignore (db_set (fun d => set_conversation_recv d conv (OffererAwaitingFb.f_a a)));
      _ ← ignore (delete_mailbox (OffererAwaitingFb.derived_recv a));
      _ ← ignore (flush_pending conv);
      mret true
    | None => answer_rotation conv relay inbox
    end
  end.

Definition handle_recovery_hello (conv payload : bytes) : eng bool :=
  p ← attempt (pure_r (parse_recovery_hello payload));
  match p with
  | inr _ => mret false
  | inl (reported_gen, nonce) =>
    fresh ← mark_hello_seen conv reported_gen nonce;
    if negb fresh then mret false else
    r ← attempt (db_get (fun d => recovery_state d conv));
    match r with
    | inl (Some rec) =>
      match RecoveryRecord.role rec, RecoveryRecord.root rec with
      | Some role, Some root =>
        _ ← modify (fun s => Engine.with_exhaustion s (alter ExhaustionTracker.reset conv (Engine.exhaustion s)));
        let '(bumped, gs) := GenerationState.converge
          (GenerationState.mk (RecoveryRecord.own_gen rec) (RecoveryRecord.peer_gen rec)) reported_gen in
        _ ← ignore (db_set (fun d =>
              set_recovery_generations d conv (GenerationState.own gs) (GenerationState.peer gs)));
        c ← attempt (db_get (fun d => get_conversation d conv));
        match c with
        | inl (Some convo) =>
          if (bumped : bool) then
            enter_recovery_gen conv convo role root (GenerationState.own gs) (GenerationState.peer gs)
          else if (reported_gen =? GenerationState.own gs) && (role =? ROLE_OFFERER) then
            initiate_rotation conv convo role root (GenerationState.own gs)
          else _ ← ignore (flush_pending conv); mret false
        | _ => mret false
        end
      | _, _ => mret false
      end
    | _ => mret false
    end
  end.

(** ** Receiving *)

(** What a decrypted frame does.  [true]: the inbox of this side moved,
    subscribe again. *)
Definition dispatch (conv : bytes) (frame : InnerFrame.t) : eng bool :=
  match InnerFrame.payload_type frame with
  | Chat =>
    id ← random 16;
    now ← clock;
    m ← attempt (on_db (fun d => save_incoming d id conv frame now));
    _ ← match m with
        | inl msg => modify (fun s => if Engine.receiver s then Engine.push s (OnMessage conv msg) else s)
        | inr _ => mret tt
        end;
    mret false
  | MailboxUpdate =>
    if InnerFrame.type_version frame =? MAILBOX_UPDATE_V3 then
      handle_rotation conv (InnerFrame.payload frame)
    else if InnerFrame.type_version frame =? MAILBOX_UPDATE_V1 then
      p ← attempt (pure_r (parse_mailbox_update (InnerFrame.payload frame)));
      match p with
      | inl (relay, inbox) =>
        _ ← ignore (db_set (fun d => set_conversation_send d conv relay inbox));
        _ ← ignore (flush_pending conv);
        mret false
      | inr _ => mret false
      end
    else mret false
  | RecoveryHello => handle_recovery_hello conv (InnerFrame.payload frame)
  | _ => mret false
  end.

Definition handle_incoming (conv peer_addr envelope : bytes) : eng bool :=
  f ← attempt (decrypt peer_addr envelope);
  match f with
  | inr _ => mret false
  | inl frame => dispatch conv frame
  end.

(** ** Pairing *)

Definition export_offer (bundle : bytes) : eng bytes :=
  pairing_inbox ← create_mailbox;
  secret ← random 32;
  issued_at ← unix_now;
  let ttl_s := OFFER_DEFAULT_TTL_S in
  identity ← on_keys (read_r identity_keypair);
  s ← get;
  payload ← pure_r (encode_pairing_offer_v3 calculate_signature
    (OfferV3.mk bundle (Engine.my_relay s) pairing_inbox secret issued_at ttl_s) (private_key identity));
  _ ← modify (fun s => Engine.push s (SpawnPairing pairing_inbox secret ttl_s));
  mret payload.

(** The offerer's side of a pair-ack: [None] for another kind of frame. *)
Definition handle_pair_ack_v2 (pairing_inbox secret envelope : bytes) : eng (option bytes) :=
  s ← get;
  '(peer_addr, frame) ← on_keys (decrypt_setup_from_unknown envelope (Engine.profile s));
  if negb (bool_decide (InnerFrame.payload_type frame = PairAck)
           && (InnerFrame.type_version frame =? PAIR_ACK_V2))
  then mret None
  else
    ack ← pure_r (parse_pair_ack_v2 (InnerFrame.payload frame));
    _ ← pure_r (verify_proof_of_scan mac_finalize secret (PairAckV2.responder_bundle ack)
                  (PairAckV2.root_contribution ack) (PairAckV2.proof ack));
    my_inbox ← create_mailbox;
    conv ← new_conversation peer_addr (PairAckV2.relay_url ack) (Some (PairAckV2.inbox_id ack)) my_inbox;
    a_contrib ← random 32;
    _ ← db_set (fun d => set_recovery_pairing d conv ROLE_OFFERER a_contrib);
    root ← pure_r (derive_root mac_finalize a_contrib (PairAckV2.root_contribution ack));
    _ ← db_set (fun d => set_recovery_root d conv (PairAckV2.root_contribution ack) root);
    _ ← ignore (delete_mailbox pairing_inbox);
    s ← get;
    payload ← pure_r (encode_mailbox_update_v2 (Engine.my_relay s) my_inbox a_contrib);
    wire ← encrypt peer_addr (InnerFrame.mk MailboxUpdate MAILBOX_UPDATE_V2 payload);
    _ ← deposit (PairAckV2.relay_url ack) (PairAckV2.inbox_id ack) wire;
    _ ← spawn_conversation conv;
    mret (Some conv).

(** What the responder's wait for the handoff meets, in order: the outcome of
    a subscription attempt ([HUnreachable true]: past the deadline), the end of
    the time before or during a wait, and what [sub.next()] returns. *)
Inductive HandoffInput :=
  | HSubscribed
  | HNotFound
  | HUnreachable (late : bool)
  | HNoTime
  | HTimeout
  | HNext (r : Result (option Event)).

(** The handoff in a delivered envelope, if it is one. *)
Definition read_handoff (peer_addr envelope : bytes) : eng (option (bytes * bytes * bytes)) :=
  f ← attempt (decrypt peer_addr envelope);
  match f with
  | inl frame =>
    if bool_decide (InnerFrame.payload_type frame = MailboxUpdate)
       && (InnerFrame.type_version frame =? MAILBOX_UPDATE_V2)
    then u ← attempt (pure_r (parse_mailbox_update_v2 (InnerFrame.payload frame)));
         mret match u with inl x => Some x | inr _ => None end
    else mret None
  | inr _ => mret None
  end.

(** [false]: still waiting when the inputs end (or an input that cannot come
    in this phase). *)
Fixpoint await_inbox_handoff_v2 (conv peer_addr b_contrib : bytes) (subscribed : bool)
    (ins : list HandoffInput) : eng bool :=
  match ins with
  | [] => mret false
  | i :: rest =>
    match subscribed, i with
    | false, HSubscribed => await_inbox_handoff_v2 conv peer_addr b_contrib true rest
    | false, HNotFound => throw PairingUnavailable
    | false, HUnreachable late =>
      if (late : bool) then throw (Network "relay unreachable during pairing")
      else await_inbox_handoff_v2 conv peer_addr b_contrib false rest
    | true, (HNoTime | HTimeout) => throw (Network "pairing handoff timed out")
    | true, HNext (Ok (Some Idle)) => await_inbox_handoff_v2 conv peer_addr b_contrib true rest
    | true, HNext (Ok (Some (Delivery msg_id envelope))) =>
      u ← read_handoff peer_addr envelope;
      match u with
      | Some (relay, inbox, a_contrib) =>
        _ ← db_set (fun d => set_conversation_send d conv relay inbox);
        root ← pure_r (derive_root mac_finalize a_contrib b_contrib);
        _ ← db_set (fun d => set_recovery_root d conv a_contrib root);
        _ ← ack msg_id;
        mret true
      | None =>
        _ ← ack msg_id;
        await_inbox_handoff_v2 conv peer_addr b_contrib true rest
      end
    | true, HNext _ => await_inbox_handoff_v2 conv peer_addr b_contrib false rest
    | _, _ => mret false
    end
  end.

(** The responder's side up to the accepted pair-ack. *)
Definition send_pair_ack (payload : bytes) : eng (bytes * bytes * bytes) :=
  now ← unix_now;
  offer ← pure_r (parse_pairing_offer_v3 public_key_deserialize verify_signature payload now);
  peer_addr ← on_keys (establish_session (OfferV3.bundle offer));
  my_inbox ← create_mailbox;
  conv ← new_conversation peer_addr (OfferV3.relay_url offer) None my_inbox;
  b_contrib ← random 32;
  _ ← db_set (fun d => set_recovery_pairing d conv ROLE_RESPONDER b_contrib);
  my_bundle ← on_keys (read_r export_prekey_bundle);
  s ← get;
  body ← pure_r (encode_pair_ack_v2 mac_finalize my_bundle (Engine.my_relay s) my_inbox b_contrib
                   (OfferV3.pairing_secret offer));
  wire ← encrypt peer_addr (InnerFrame.mk PairAck PAIR_ACK_V2 body);
  outcome ← deposit (OfferV3.relay_url offer) (OfferV3.pairing_inbox_id offer) wire;
  match outcome with
  | Accepted => mret (conv, peer_addr, b_contrib)
  | NotFound => throw PairingUnavailable
  | Other s => throw (Network ("pair-ack/2 deposit status " +:+ pretty s))
  end.

(** [None]: still waiting for the handoff. *)
Definition begin_pairing_from_offer (payload : bytes) (ins : list HandoffInput) : eng (option bytes) :=
  '(conv, peer_addr, b_contrib) ← send_pair_ack payload;
  finished ← await_inbox_handoff_v2 conv peer_addr b_contrib false ins;
  mret (if (finished : bool) then Some conv else None).

(** ** The pairing listener *)

Inductive PairingInput :=
  | PSubscribed
  | PNotFound
  | PUnreachable
  | PNext (r : Result (option Event)).

(** [true]: the listener ended. *)
Fixpoint pairing_listener_v2 (pairing_inbox secret : bytes) (subscribed : bool)
    (ins : list PairingInput) : eng bool :=
  match ins with
  | [] => mret false
  | i :: rest =>
    match subscribed, i with
    | false, PSubscribed => pairing_listener_v2 pairing_inbox secret true rest
    | false, PNotFound => mret true
    | false, PUnreachable => pairing_listener_v2 pairing_inbox secret false rest
    | true, PNext (Ok (Some Idle)) => pairing_listener_v2 pairing_inbox secret true rest
    | true, PNext (Ok (Some (Delivery msg_id envelope))) =>
      r ← attempt (handle_pair_ack_v2 pairing_inbox secret envelope);
      match r with
      | inl (Some _) => _ ← ack msg_id; mret true
      | inr ProofOfScanFailed =>
        _ ← ack msg_id;
        _ ← ignore (delete_mailbox pairing_inbox);
        mret true
      | _ => _ ← ack msg_id; pairing_listener_v2 pairing_inbox secret true rest
      end
    | true, PNext _ => pairing_listener_v2 pairing_inbox secret false rest
    | _, _ => mret false
    end
  end.

(** ** The conversation listener *)

(** Where the listener stands.  Every point but [LDone] is a place at which it
    looks at the cancel signal. *)
Inductive lpoint :=
  | LTop
  | LSubscribe (convo : Conversation.t)
  | LFlush (convo : Conversation.t)
  | LWait (convo : Conversation.t)
  | LRecover
  | LSleep
  | LDone.

(** What ends the wait at a point: the cancel signal, the outcome of the
    subscription, what [sub.next()] returns, or the awaited work itself. *)
Inductive linput :=
  | Cancelled
  | SubOk
  | SubNotFound
  | SubUnreachable
  | SubNext (r : Result (option Event))
  | Proceed.

Definition listener : Type := lpoint * BackoffSchedule.t.

Definition back_off (conv : bytes) (b : BackoffSchedule.t) : eng listener :=
  _ ← emit_state conv Offline;
  '(_, b') ← pure_r (BackoffSchedule.next_delay b);
  _ ← emit_state conv (Backoff (BackoffSchedule.current_secs b'));
  mret (LSleep, b').

(** One step of the listener; [None] when the input cannot come there.  A
    cancelled flush or recovery is one that has not started. *)
Definition listener_step (conv : bytes) (l : listener) (i : linput) : option (eng listener) :=
  let '(at_, b) := l in
  match at_, i with
  | LDone, _ => None
  | _, Cancelled => Some (mret (LDone, b))
  | LTop, Proceed => Some (
      c ← attempt (db_get (fun d => get_conversation d conv));
      match c with
      | inl (Some convo) =>
        match Conversation.mailbox_recv convo with
        | Some _ => _ ← emit_state conv Connecting; mret (LSubscribe convo, b)
        | None => mret (LDone, b)
        end
      | _ => mret (LDone, b)
      end)
  | LSubscribe convo, SubOk =>
    Some (_ ← emit_state conv Online; mret (LFlush convo, BackoffSchedule.reset b))
  | LSubscribe _, SubNotFound => Some (mret (LRecover, b))
  | LSubscribe _, SubUnreachable => Some (back_off conv b)
  | LFlush convo, Proceed => Some (_ ← ignore (flush_pending conv); mret (LWait convo, b))
  | LWait convo, SubNext (Ok (Some (Delivery msg_id envelope))) => Some (
      changed ← handle_incoming conv (Conversation.peer_address convo) envelope;
      _ ← ack msg_id;
      mret (if (changed : bool) then LTop else LWait convo, b))
  | LWait convo, SubNext (Ok (Some Idle)) => Some (mret (LFlush convo, b))
  | LWait _, SubNext _ => Some (back_off conv b)
  | LRecover, Proceed => Some (
      r ← recover conv;
      match r with
      | ROneSided => _ ← emit_state conv Recovering; mret (LTop, BackoffSchedule.reset b)
      | RTotal | RNeedsRepair =>
        _ ← emit_state conv RePairRequired;
        _ ← emit_needs_repair conv;
        mret (LDone, b)
      | RFailed => '(_, b') ← pure_r (BackoffSchedule.next_delay b); mret (LSleep, b')
      end)
  | LSleep, Proceed => Some (mret (LTop, b))
  | _, _ => None
  end.

(** A run of the listener over the inputs it meets. *)
Fixpoint listener_run (conv : bytes) (l : listener) (ins : list linput) : eng listener :=
  match ins with
  | [] => mret l
  | i :: rest =>
    match listener_step conv l i with
    | Some m => l' ← m; listener_run conv l' rest
    | None => mret l
    end
  end.

Definition random_seed : eng Z := b ← random 8; mret (from_be (rev b)).

(** The receive task of a conversation, from its start. *)
Definition conversation_listener (conv : bytes) (ins : list linput) : eng listener :=
  seed ← random_seed;
  listener_run conv (LTop, BackoffSchedule.new seed) ins.

(** The pairing task: when the offer's lifetime ends before the listener does,
    while it waits, the pairing inbox is deleted. *)
Definition spawn_pairing_v2 (pairing_inbox secret : bytes) (ins : list PairingInput) : eng unit :=
  finished ← pairing_listener_v2 pairing_inbox secret false ins;
  if (finished : bool) then mret tt else ignore (delete_mailbox pairing_inbox).
End engine.
