(* ===== verification/Client.v ===== *)
(** The client facade ([tezca-core/src/client.rs]): each public operation as
    the engine and store operation it runs.  The runtime on which the engine's
    tasks run is outside. *)

From S2P Require Import Prelude Errors Utf8 Config Envelope Cursor Pairing Recovery Storage Keys.
From S2P Require Import Transport Tls Open Session Engine.

(** The bytes shown as a QR code or shared in a link. *)
Module PairingPayload.
Record t := mk { bytes_ : bytes }.
Definition from_bytes (b : bytes) : t := mk b.
Definition as_bytes (p : t) : bytes := bytes_ p.
End PairingPayload.

(** The window an offer embeds, in seconds. *)
Module OfferValidity.
Record t := mk { issued_at : Z; ttl_s : Z }.
End OfferValidity.

(** The licensing interface and its stub, which licenses everything. *)
Class Licensing := is_licensed : bytes -> bool.
Definition AlwaysLicensed : Licensing := fun _capability => true.

Module TitlanClient.
Section client.
Context `{Platform} `{SqlText} `{LibSignal} `{RatchetLib} `{!Crypto}.

Abbreviation eng := (st Engine.t).

Section opening.
Context `{!Tls} `{Sqlcipher}.

(** The store is opened, then the engine is made over what it holds. *)
Definition open_timed (a : anchor) (path : bytes) (key : DbKey.t) (my_relay_url : bytes)
    (timing : TransportTiming.t) (w : World) : st Disk Engine.t :=
  conn ← open_store path key;
  read_r (fun d => let '(k, t) := read_tables conn d in
                   Engine.new (build_http_client a (TransportTiming.http timing)) k t w my_relay_url).

Definition open (a : anchor) (path : bytes) (key : DbKey.t) (my_relay_url : bytes) (w : World)
    : st Disk Engine.t :=
  open_timed a path key my_relay_url TransportTiming.production w.

(** The development build's constructor: [open] with other timing. *)
Definition open_with_timing (a : anchor) (path : bytes) (key : DbKey.t) (my_relay_url : bytes)
    (timing : TransportTiming.t) (w : World) : st Disk Engine.t :=
  open_timed a path key my_relay_url timing w.

Definition schema_version (conn : Conn) : st Disk Z := Open.schema_version conn.
End opening.

(** [None] while the registration draws run out. *)
Definition initialize_identity (g : Generated) (s : Engine.t) : option (Result unit * Engine.t) :=
  r ← initialize (Engine.keys s) g;
  Some (on_keys (fun k => match r with
                          | Ok k' => (Ok tt, k')
                          | Err e => (Err e, k)
                          | Panic => (Panic, k)
                          end) s).

Definition is_initialized : eng bool := on_keys (read_r (fun k => Ok (Keys.is_initialized k))).

Definition export_pairing_offer (new_record : Z -> PreKeyRecord) : eng PairingPayload.t :=
  bundle ← on_keys (fun k => export_offer_bundle k new_record);
  payload ← export_offer bundle;
  mret (PairingPayload.from_bytes payload).

Definition begin_pairing_from_offer (payload : bytes) (ins : list HandoffInput) : eng (option bytes) :=
  conv ← Engine.begin_pairing_from_offer payload ins;
  _ ← match conv with Some c => spawn_conversation c | None => mret tt end;
  mret conv.

Definition peek_offer_relay (payload : bytes) : Result bytes :=
  o ← parse_offer_v3_structure payload; Ok (OfferV3.relay_url o).

Definition peek_offer_validity (payload : bytes) : Result OfferValidity.t :=
  '(issued_at, ttl_s) ← Pairing.peek_offer_validity payload; Ok (OfferValidity.mk issued_at ttl_s).

Definition list_conversations : eng (list bytes) := db_get list_conversation_ids.
Definition list_conversation_summaries : eng (list ConversationSummary.t) :=
  db_get Storage.list_conversation_summaries.
Definition set_conversation_label (id : bytes) (label : option (list Z)) : eng unit :=
  db_set (fun d => Storage.set_conversation_label d id label).
Definition conversation_label (id : bytes) : eng (option (list Z)) :=
  db_get (fun d => Storage.conversation_label d id).
Definition set_conversation_relay (id url : bytes) : eng unit :=
  db_set (fun d => Storage.set_conversation_relay d id url).
Definition set_conversation_pin (id : bytes) (spki_sha256 : option bytes) : eng unit :=
  db_set (fun d => Storage.set_conversation_pin d id spki_sha256).
Definition conversation_pin (id : bytes) : eng (option bytes) := db_get (fun d => Storage.conversation_pin d id).
Definition messages (id : bytes) : eng (list StoredMessage.t) := db_get (fun d => list_messages d id).
Definition send_chat (id text : bytes) : eng unit := Engine.send_chat id text.

Fixpoint spawn_all (convs : list bytes) : eng unit :=
  match convs with [] => mret tt | c :: r => _ ← spawn_conversation c; spawn_all r end.

Definition start_sync : eng unit :=
  _ ← modify Engine.set_callbacks;
  convs ← db_get list_conversation_ids;
  spawn_all convs.

(** The tasks joined, and nothing else, is what the stop returns with. *)
Definition stop_sync : eng (list bytes) := Engine.stop_sync.
End client.
End TitlanClient.
