(* ===== verification/EngineDemo.v ===== *)
(** Concrete platforms, libraries and engine states on which the theorems
    about the engine are evaluated: a network that answers from a script, a
    database that fails now and then, a ratchet that passes plaintext through, a signature and a MAC that repeat
    their input. *)

From S2P Require Import Prelude Errors Utf8 Config Envelope Cursor Pairing Recovery Storage Keys.
From S2P Require Import Base64 Transport Session Engine.

(** A script of status codes and bodies; when it is used up the relay is down. *)
#[export] Instance scripted : Platform := {|
  World := list (Z * bytes);
  http_send _ _ _ w :=
    match w with
    | (code, body) :: r => (Ok (code, Ok body), r)
    | [] => (Err "down"%string, [])
    end;
  random_bytes n w := (replicate n 7, w);
  system_secs w := (Some 1000, w);
  unixepoch w := (1000, w);
  store_fault w := (None, w);
  status_text _ := "status"%string
|}.

#[export] Instance scripted_works : StoreWorks.
Proof. done. Qed.

(** The same network, and a store whose accesses fail as a script says; when it
    is used up they succeed. *)
Definition flaky : Platform := {|
  World := list (option string) * list (Z * bytes);
  http_send _ _ _ w :=
    match w.2 with
    | (code, body) :: r => (Ok (code, Ok body), (w.1, r))
    | [] => (Err "down"%string, w)
    end;
  random_bytes n w := (replicate n 7, w);
  system_secs w := (Some 1000, w);
  unixepoch w := (1000, w);
  store_fault w := match w.1 with f :: r => (f, (r, w.2)) | [] => (None, w) end;
  status_text _ := "status"%string
|}.

#[export] Existing Instances toy_ratchet toy_lib toy_sql.

#[export] Instance toy_crypto : Crypto := {|
  mac_finalize k m := take 32 (k ++ m ++ replicate 32 0);
  PrivateKey := unit;
  PublicKey := bytes;
  private_key _ := tt;
  calculate_signature := toy_sign;
  public_key_deserialize b := Ok b;
  verify_signature := toy_verify
|}.

Definition peer_box : bytes := bstr "peer-inbox".

(** One routed conversation with two pending messages. *)
Definition two_pending : Db.t :=
  Db.mk [new_row demo_conv (bstr "bob") (bstr "wss://r") (Some peer_box) (Some (bstr "in")) 1000]
        [message_row (replicate 16 1) demo_conv Outgoing (InnerFrame.chat_v1 (bstr "hi")) 0 1005;
         message_row (replicate 16 2) demo_conv Outgoing (InnerFrame.chat_v1 (bstr "you")) 0 1006] true.

Definition demo_engine (d : Db.t) (w : list (Z * bytes)) : Engine.t :=
  Engine.mk (toy_keys (bstr "ana")) d (w : World) (bstr "wss://mine") toy_profile true true [] ∅ ∅ ∅ ∅ None.

Lemma two_pending_ok : db_ok two_pending.
Proof.
  split; [by_compute|by_compute| |].
  - constructor; [|constructor]. unfold conv_row_ok, in_u32. by_compute.
  - repeat constructor; try done; try (by left); by exists Chat.
Qed.
