(* ===== verification/EngineRuns.v ===== *)
(** Runs of the engine that returned, taken apart: for each primitive, what it
    did to the state, and the tactic [run_inv] that goes through a sequence. *)

From S2P Require Import Prelude Errors Utf8 Config Envelope Cursor Pairing Recovery Storage Keys.
From S2P Require Import Transport Session Engine.

Section returned.
Context `{Platform} `{SqlText} `{LibSignal} `{RatchetLib} `{!Crypto}.

Lemma store_call_Ok {A} (m : st Engine.t A) s a s' :
  store_call m s = (Ok a, s') ->
  exists w, store_fault (Engine.world s) = (None, w) /\ m (Engine.with_world s w) = (Ok a, s').
Proof. unfold store_call. destruct (store_fault _) as [[text|] w]; [done|]. by exists w. Qed.

(** An access whose failure becomes a value or an error: it failed, or ran. *)
Lemma store_call_cases {A} (m : st Engine.t A) s :
  exists w, (store_fault (Engine.world s)).2 = w /\
    ((exists text, store_call m s = (Err (Storage text), Engine.with_world s w)) \/
     store_call m s = m (Engine.with_world s w)).
Proof. unfold store_call. destruct (store_fault _) as [[text|] w]; exists w; eauto. Qed.

Lemma on_keys_Ok {A} (m : store A) s a s' :
  on_keys m s = (Ok a, s') ->
  exists k w, store_fault (Engine.world s) = (None, w) /\ m (Engine.keys s) = (Ok a, k) /\
    s' = Engine.with_world (Engine.with_keys s k) w.
Proof.
  unfold on_keys. intros (w & Hw & E)%store_call_Ok. revert E. unfold zoom. simpl.
  destruct (m _) as [r k]. intros [= -> <-]. by exists k, w.
Qed.

Lemma on_net_Ok {A} (m : st World A) s a s' :
  on_net m s = (Ok a, s') <-> exists w, m (Engine.world s) = (Ok a, w) /\ s' = Engine.with_world s w.
Proof.
  unfold on_net, zoom. destruct (m _) as [r w]. split.
  - intros [= -> <-]. by exists w.
  - by intros (? & [= -> ->] & ->).
Qed.

Lemma random_Ok n s a s' :
  random n s = (Ok a, s') -> exists w, random_bytes n (Engine.world s) = (a, w) /\ s' = Engine.with_world s w.
Proof.
  unfold random. intros (w & E & ->)%on_net_Ok. destruct (random_bytes n _) as [b w'].
  injection E as -> ->. by exists w.
Qed.

Lemma unix_now_Ok s now s' :
  unix_now s = (Ok now, s') -> exists w, system_secs (Engine.world s) = (Some now, w) /\ s' = Engine.with_world s w.
Proof.
  unfold unix_now, clock. intros (c & s1 & (w & E & ->)%on_net_Ok & [= Hc <-])%st_bind_Ok. exists w. split; [|done].
  destruct (system_secs _) as [o w']. injection E as -> ->. destruct c; [|done]. by injection Hc as ->.
Qed.

Lemma on_db_Ok {A} (f : Db.t -> Result (A * Db.t)) s a s' :
  on_db f s = (Ok a, s') ->
  exists d w, store_fault (Engine.world s) = (None, w) /\ f (Engine.db s) = Ok (a, d) /\
    s' = Engine.with_world (Engine.with_db s d) w.
Proof.
  unfold on_db. intros (w & Hw & E)%store_call_Ok. revert E. simpl.
  destruct (f _) as [[a' d]| |]; try done. intros [= -> <-]. by exists d, w.
Qed.

Lemma db_set_Ok f s s' :
  db_set f s = (Ok tt, s') ->
  exists d w, store_fault (Engine.world s) = (None, w) /\ f (Engine.db s) = Ok d /\
    s' = Engine.with_world (Engine.with_db s d) w.
Proof.
  unfold db_set. intros (d & w & Hw & (d' & E & [= <-])%bind_Ok & ->)%on_db_Ok. by exists d', w.
Qed.

Lemma db_get_Ok {A} (f : Db.t -> Result A) s a s' :
  db_get f s = (Ok a, s') ->
  exists w, store_fault (Engine.world s) = (None, w) /\ f (Engine.db s) = Ok a /\ s' = Engine.with_world s w.
Proof. unfold db_get. intros (w & Hw & E)%store_call_Ok. injection E as E <-. by exists w. Qed.

Lemma find_app_None {A} (f : A -> bool) l l' : List.find f l = None -> List.find f (l ++ l') = List.find f l'.
Proof. induction l as [|x l IH]; simpl; [done|]. by destruct (f x). Qed.

(** What a client does without the network: a draw, a look at a clock, an
    access to its store. *)
Definition local_step (w w' : World) : Prop :=
  (exists n, (random_bytes n w).2 = w') \/ (system_secs w).2 = w' \/ (unixepoch w).2 = w' \/
  (store_fault w).2 = w'.

Lemma random_local n w b w' : random_bytes n w = (b, w') -> local_step w w'.
Proof. intros E. left. exists n. by rewrite E. Qed.

Lemma fault_local w f w' : store_fault w = (f, w') -> local_step w w'.
Proof. intros E. right; right; right. by rewrite E. Qed.

(** A conversation that was created is the row it was created as. *)
Lemma new_conversation_Ok peer relay send recv s conv s' :
  new_conversation peer relay send recv s = (Ok conv, s') ->
  exists now w, rtc local_step (Engine.world s) w /\
    conv_row (Engine.db s') conv = Some (new_row conv peer relay send (Some recv) now) /\
    s' = Engine.with_world (Engine.with_db s (Engine.db s')) w.
Proof.
  unfold new_conversation, sql_now. intros (id & s1 & (w1 & Hr%random_local & ->)%random_Ok & E)%st_bind_Ok.
  apply st_bind_Ok in E as (now & s2 & (w2 & Hc & ->)%on_net_Ok & (d & w3 & Hw%fault_local & E & ->)%on_db_Ok).
  simpl in Hc, Hw.
  unfold create_routed_conversation, insert_conv in E. simpl in E.
  destruct (conv_row (Engine.db s) id) eqn:Er; simpl in E; [done|]. injection E as -> <-.
  exists now, w3. split.
  { do 3 (eapply rtc_l; [done||by right; right; left; destruct (unixepoch w1); injection Hc|]). constructor. }
  split; [|done]. unfold conv_row in *. simpl.
  rewrite find_app_None by exact Er. simpl. by rewrite beq_refl.
Qed.

Lemma ignore_delete_Ok id s u s' :
  ignore (delete_mailbox id) s = (Ok u, s') ->
  exists r w, http_delete_mailbox (Engine.my_relay s) id (Engine.world s) = (r, w) /\ s' = Engine.with_world s w.
Proof.
  rewrite ignore_eq. unfold delete_mailbox, get, mbind, st_bind, on_net, zoom. simpl.
  destruct (http_delete_mailbox _ _ _) as [[]]; intros [= <- <-] || intros [= <-]; by do 2 eexists.
Qed.

Lemma spawn_Ok conv s u s' :
  spawn_conversation conv s = (Ok u, s') ->
  Engine.db s' = Engine.db s /\ Engine.keys s' = Engine.keys s /\ Engine.world s' = Engine.world s /\
  conv ∈ Engine.listening s'.
Proof. intros [= _ <-]. case_bool_decide; [done|]. simpl. set_solver. Qed.

(** A failure that became a value. *)
Lemma mret_Ok {A} (a b : A) (s s' : Engine.t) : mret (M := st Engine.t) a s = (Ok b, s') -> a = b /\ s = s'.
Proof. unfold mret, st_ret. naive_solver. Qed.

Lemma attempt_inl {A} (m : st Engine.t A) s a s' : attempt m s = (Ok (inl a), s') -> m s = (Ok a, s').
Proof. unfold attempt. destruct (m s) as [[]]; naive_solver. Qed.

(** A write whose failure is dropped. *)
Lemma ignore_db_set f s d u s' :
  f (Engine.db s) = Ok d -> ignore (db_set f) s = (Ok u, s') ->
  exists w, store_fault (Engine.world s) = (None, w) /\ s' = Engine.with_world (Engine.with_db s d) w \/
    (exists text, store_fault (Engine.world s) = (Some text, w)) /\ s' = Engine.with_world s w.
Proof.
  intros E. rewrite ignore_eq. unfold db_set, on_db, store_call.
  destruct (store_fault _) as [[text|] w]; simpl; [|rewrite E]; simpl; intros [= _ <-]; exists w; eauto.
Qed.

Lemma put_create_Ok relay id s b s' :
  put_create relay id s = (Ok b, s') -> exists w, s' = Engine.with_world s w.
Proof.
  unfold put_create, attempt, on_net, zoom, mbind, st_bind.
  destruct (http_put_mailbox _ _ _) as [[]]; intros [= <- <-] || intros [=]; by eexists.
Qed.

(** The row of a conversation after an update of it. *)
Lemma row_updated d conv f row :
  conv_row d conv = Some row -> (forall r, ConvRow.id (f r) = ConvRow.id r) ->
  conv_row (update_conv d conv f) conv = Some (f row).
Proof. intros Hr Hf. rewrite conv_row_update by done. by rewrite bool_decide_eq_true_2, Hr. Qed.

Lemma set_pairing_row d conv role own row d' :
  conv_row d conv = Some row -> set_recovery_pairing d conv role own = Ok d' ->
  conv_row d' conv = Some (set_recovery (Some role) (Some own) (ConvRow.recovery_peer_contrib row)
    (ConvRow.recovery_root row) (ConvRow.recovery_own_gen row) (ConvRow.recovery_peer_gen row) row).
Proof. intros Hr [= <-]. by erewrite row_updated. Qed.

Lemma set_root_row d conv peer root row d' :
  conv_row d conv = Some row -> set_recovery_root d conv peer root = Ok d' ->
  conv_row d' conv = Some (set_recovery (ConvRow.recovery_role row) (ConvRow.recovery_own_contrib row)
    (Some peer) (Some root) (ConvRow.recovery_own_gen row) (ConvRow.recovery_peer_gen row) row).
Proof. intros Hr [= <-]. by erewrite row_updated. Qed.

Lemma set_send_row d conv relay send row d' :
  conv_row d conv = Some row -> set_conversation_send d conv relay send = Ok d' ->
  conv_row d' conv = Some (set_routing relay (Some send) (ConvRow.mailbox_recv row) row).
Proof. intros Hr [= <-]. by erewrite row_updated. Qed.

(** Work that touches the ratchet and the network only. *)
Definition store_kept (s s' : Engine.t) : Prop :=
  exists k w, s' = Engine.with_world (Engine.with_keys s k) w.

#[export] Instance store_kept_preorder : PreOrder store_kept.
Proof.
  split.
  - intros s. exists (Engine.keys s), (Engine.world s). by destruct s.
  - intros x y z (k & w & ->) (k' & w' & ->). by exists k', w'.
Qed.

Lemma kept_keys {A} (m : store A) : always store_kept (on_keys m).
Proof.
  intros s. unfold on_keys, store_call. destruct (store_fault _) as [[text|] w].
  - by exists (Engine.keys s), w.
  - unfold zoom. simpl. destruct (m _) as [r k]. by exists k, w.
Qed.
Lemma kept_net {A} (m : st World A) : always store_kept (on_net m).
Proof. intros s. unfold on_net, zoom. destruct (m _) as [r w]. exists (Engine.keys s), w. by destruct s. Qed.

Lemma kept_Ok {A} (m : st Engine.t A) s a s' :
  always store_kept m -> m s = (Ok a, s') -> exists k w, s' = Engine.with_world (Engine.with_keys s k) w.
Proof. intros Hm E. specialize (Hm s). by rewrite E in Hm. Qed.

End returned.

(** ** A store that works *)

Section works.
Context `{StoreWorks} `{SqlText} `{LibSignal} `{RatchetLib} `{!Crypto}.

Lemma with_same_world (s : Engine.t) : Engine.with_world s (Engine.world s) = s.
Proof. by destruct s. Qed.

Lemma store_call_works {A} (m : st Engine.t A) s : store_call m s = m s.
Proof. unfold store_call. by rewrite store_works, with_same_world. Qed.

Lemma on_keys_works {A} (m : store A) s : on_keys m s = zoom Engine.keys Engine.with_keys m s.
Proof. apply store_call_works. Qed.

Lemma on_db_works {A} (f : Db.t -> Result (A * Db.t)) s :
  on_db f s = match f (Engine.db s) with
              | Ok (a, d) => (Ok a, Engine.with_db s d)
              | Err e => (Err e, s)
              | Panic => (Panic, s)
              end.
Proof. apply store_call_works. Qed.

Lemma db_set_works (f : Db.t -> Result Db.t) s :
  db_set f s = match f (Engine.db s) with
               | Ok d => (Ok tt, Engine.with_db s d)
               | Err e => (Err e, s)
               | Panic => (Panic, s)
               end.
Proof. unfold db_set. rewrite on_db_works. by destruct (f _). Qed.

Lemma db_get_works {A} (f : Db.t -> Result A) s : db_get f s = (f (Engine.db s), s).
Proof. unfold db_get. by rewrite store_call_works. Qed.

Lemma ignore_db_set_works f s d u s' :
  f (Engine.db s) = Ok d -> ignore (db_set f) s = (Ok u, s') -> s' = Engine.with_db s d.
Proof. intros E. rewrite ignore_eq, db_set_works, E. by intros [= _ <-]. Qed.
End works.

(** Goes through a computation made of requests and encryptions. *)
Ltac kept :=
  unfold encrypt, deposit, delete_mailbox, put_create;
  repeat first
    [ eassumption | apply kept_keys | apply kept_net | apply always_bind; [apply _| |intros ?]
    | apply always_attempt | apply always_ignore; [apply _|] | apply always_same; [apply _|done]
    | match goal with |- always _ (match ?x with _ => _ end) => destruct x end
    | match goal with |- always _ (if ?x then _ else _) => destruct x end ].

Section announcing.
Context `{Platform} `{SqlText} `{LibSignal} `{RatchetLib} `{!Crypto}.

Lemma kept_announce_all convo root role hello : forall window,
  always store_kept (announce_all convo root role hello window).
Proof.
  induction window as [|k window IH]; cbn [announce_all]; unfold announce; kept.
Qed.

Lemma announce_all_Ok convo root role hello window s u s' :
  announce_all convo root role hello window s = (Ok u, s') ->
  exists k w, s' = Engine.with_world (Engine.with_keys s k) w.
Proof. apply kept_Ok, kept_announce_all. Qed.
End announcing.

(** Puts the local steps of a run together. *)
Ltac local_path :=
  cbn [Engine.world Engine.with_world Engine.with_keys Engine.with_db] in *;
  repeat match goal with
  | H : store_fault ?x = (_, _) |- rtc local_step ?x _ => eapply rtc_l; [exact (fault_local _ _ _ H)|]; clear H
  | H : random_bytes _ ?x = (_, _) |- rtc local_step ?x _ => eapply rtc_l; [exact (random_local _ _ _ _ H)|]; clear H
  | H : rtc local_step ?x _ |- rtc local_step ?x _ => etransitivity; [exact H|]; clear H
  end; first [reflexivity | eassumption].

(** Takes apart the runs of the engine that are known to have returned. *)
Ltac run_inv :=
  repeat match goal with
  | H : mbind _ _ _ = (Ok _, _) |- _ => apply st_bind_Ok in H as (? & ? & ? & H); cbv beta iota in H
  | H : on_keys _ _ = (Ok _, _) |- _ => apply on_keys_Ok in H as (? & ? & ? & H & ->)
  | H : on_net _ _ = (Ok _, _) |- _ => apply on_net_Ok in H as (? & H & ->)
  | H : unix_now _ = (Ok _, _) |- _ => apply unix_now_Ok in H as (? & H & ->)
  | H : random _ _ = (Ok _, _) |- _ => apply random_Ok in H as (? & H & ->)
  | H : db_set _ _ = (Ok ?u, _) |- _ => destruct u; apply db_set_Ok in H as (? & ? & ? & H & ->)
  | H : db_get _ _ = (Ok _, _) |- _ => apply db_get_Ok in H as (? & ? & H & ->)
  | H : new_conversation _ _ _ _ _ = (Ok _, _) |- _ =>
    apply new_conversation_Ok in H as (? & ? & ? & ? & H); rewrite H in *; clear H
  | H : ignore (delete_mailbox _) _ = (Ok _, _) |- _ => apply ignore_delete_Ok in H as (? & ? & ? & ->)
  | H : ignore (db_set _) _ = (Ok _, _) |- _ => eapply ignore_db_set_works in H; [|reflexivity]; subst
  | H : put_create _ _ _ = (Ok _, _) |- _ => apply put_create_Ok in H as (? & ->)
  | H : announce_all _ _ _ _ _ _ = (Ok _, _) |- _ => apply announce_all_Ok in H as (? & ? & ->)
  | H : attempt _ _ = (Ok (inl _), _) |- _ => apply attempt_inl in H
  | H : pure_r _ _ = (Ok _, _) |- _ => injection H as H <-
  | H : read_r _ _ = (Ok _, _) |- _ => injection H as H <-
  | H : modify _ _ = (Ok ?u, _) |- _ => destruct u; injection H as <-
  | H : get _ = (Ok _, _) |- _ => injection H as <- <-
  | H : mret _ _ = (Ok _, _) |- _ => apply mret_Ok in H as [H ?]; simplify_eq; try (let T := type of H in clear H)
  end.

