(* ===== verification/EngineSafe.v ===== *)
(** Type safety of the engine: from a well-formed state, on any frames, every
    operation ends without a panic in a well-formed state.  [engine_ok] is the
    well-formedness, [TypedOutside] what the types of the libraries and of the
    system give, and [safe] (in [Errors]) the judgement; the tactic [safe]
    goes through an operation with the lemmas of the database [safe]. *)

From S2P Require Import Prelude Errors Utf8 Config Envelope Cursor Pairing Recovery Storage Keys.
From S2P Require Import Base64 Transport Backoff Session Engine EngineDemo EngineRuns.

(** Byte buffers hold bytes, buffers have their length, calls outside return
    or fail, a MAC has 32 bytes, and the clock is after the epoch. *)
Class TypedOutside `{Platform} `{LibSignal} `{RatchetLib} `{!Crypto} := {
  typed_http : forall m url body w, (http_send m url body w).1 <> Panic;
  typed_body : forall m url body w, match (http_send m url body w).1 with Ok (_, b) => b <> Panic | _ => True end;
  typed_random : forall n w, length (random_bytes n w).1 = n /\ bytes_ok (random_bytes n w).1;
  typed_clock : forall w, is_Some (system_secs w).1;
  typed_mac : forall k d, length (mac_finalize k d) = 32%nat;
  typed_identity : forall b, identity_decode b <> Panic;
  typed_public : forall b, public_deserialize b <> Panic;
  typed_kem : forall b, kem_deserialize b <> Panic;
  typed_bundle : forall b, bundle_new b <> Panic;
  typed_process : forall a b d k, (process_prekey_bundle a b d k).1 <> Panic;
  typed_encrypt : forall a b p k, (message_encrypt a b p k).1 <> Panic;
  typed_decrypt : forall a b e c k,
    match (message_decrypt a b e c k).1 with Ok p => bytes_ok p | Err _ => True | Panic => False end;
  typed_message : forall c, prekey_message_identity c <> Panic;
  typed_check : forall c, signal_message_check c <> Panic;
  typed_deserialize : forall b, public_key_deserialize b <> Panic;
  typed_sign : forall k m, calculate_signature k m <> Panic;
  typed_keypair : forall b, keypair_try_from b <> Panic
}.

Abbreviation anything := (fun _ => True).

Section state.
Context `{Platform}.

(** The store's rows read back, the padding profile is one [new] builds, the
    relay URL fits a length field, and the maps in memory are bounded. *)
Record engine_ok (s : Engine.t) : Prop := {
  ok_db : db_ok (Engine.db s);
  ok_profile : PaddingProfile.wf (Engine.profile s);
  ok_relay : zlen (Engine.my_relay s) <= u16_max;
  ok_hellos : map_Forall (fun _ r => (length r <= 512)%nat) (Engine.hello_seen s);
  ok_cycles : map_Forall (fun _ t => in_u32 (ExhaustionTracker.cycles t)) (Engine.exhaustion s)
}.

(** A frame as the types give it. *)
Definition frame_ok (f : InnerFrame.t) : Prop :=
  0 <= InnerFrame.type_version f <= 255 /\ bytes_ok (InnerFrame.payload f).

Definition record_ok (r : RecoveryRecord.t) : Prop :=
  in_u32 (RecoveryRecord.own_gen r) /\ in_u32 (RecoveryRecord.peer_gen r).
End state.

(** ** Rows *)

Section rows.
Context `{SqlText}.

Lemma insert_conv_ok d r d' : db_ok d -> conv_row_ok r -> insert_conv d r = Ok d' -> db_ok d'.
Proof.
  unfold insert_conv. intros [Hn ? Hc ?] Hr. destruct (conv_row d (ConvRow.id r)) eqn:E; [done|].
  intros [= <-]. split; simpl; try done; [|by apply Forall_app; split; [|constructor]].
  rewrite fmap_app. apply NoDup_app. split_and!; [done| |apply NoDup_singleton].
  intros x (r' & -> & Hin)%list_elem_of_fmap Hx. apply list_elem_of_singleton in Hx.
  pose proof (List.find_none _ _ E r') as Hf. rewrite <- list_elem_of_In in Hf. specialize (Hf Hin).
  simpl in Hf. by rewrite Hx, beq_refl in Hf.
Qed.

Lemma insert_message_keeps d id conv dir f status clock m d' :
  db_ok d -> length id = 16%nat -> length conv = 16%nat -> 0 <= InnerFrame.type_version f <= 255 ->
  insert_message d id conv dir f status clock = Ok (m, d') -> db_ok d'.
Proof.
  intros Hd Hid Hc Hv E.
  assert (Hi : can_insert d id conv f) by (by eapply insert_message_can).
  destruct (insert_message_Ok d id conv dir f status clock Hd Hi) as (E' & Hd' & _). rewrite E in E'.
  by injection E' as _ ->.
Qed.

Lemma set_status_keeps d mid d' : db_ok d -> mark_message_sent d mid = Ok d' -> db_ok d'.
Proof. apply mark_sent_ok. Qed.

Lemma set_routing_keeps d id relay send recv :
  db_ok d -> db_ok (update_conv d id (fun r => set_routing (relay r) (send r) (recv r) r)).
Proof. intros Hd. by apply update_conv_ok. Qed.

Lemma set_recovery_keeps d id role own peer root og pg :
  (forall r, conv_row_ok r -> match role r with Some v => 0 <= v <= 255 | None => True end /\
                              in_u32 (og r) /\ in_u32 (pg r)) ->
  db_ok d -> db_ok (update_conv d id (fun r => set_recovery (role r) (own r) (peer r) (root r) (og r) (pg r) r)).
Proof.
  intros Hr Hd. apply update_conv_ok; [done| |done]. intros r Hok. destruct (Hr r Hok) as (? & ? & ?).
  destruct Hok as (? & _). by split_and!.
Qed.

Lemma recovery_state_ok d id : outcome_ok (fun r => match r with Some r => record_ok r | None => True end)
  (recovery_state d id).
Proof.
  unfold recovery_state. destruct (conv_row d id) as [r|]; [|done].
  assert (Hg : forall m v, outcome_ok (fun x => 0 <= x <= m) (get_uint m v)).
  { intros m v. unfold get_uint. bool_case; simpl; [|done]. reflect_bools. lia. }
  apply (outcome_bind (fun _ => True)).
  { destruct (ConvRow.recovery_role r); [|done]. eapply outcome_bind; [apply Hg|done]. }
  intros role _. eapply outcome_bind; [apply Hg|]. intros og Ho. eapply outcome_bind; [apply Hg|].
  intros pg Hp. by split.
Qed.
End rows.

(** ** Primitives *)

Section primitives.
Context `{Platform} `{SqlText} `{LibSignal} `{RatchetLib} `{!Crypto} `{!TypedOutside}.

Abbreviation ok := (safe engine_ok).

(** An access that fails leaves a well-formed state too. *)
Lemma safe_store_call {A} (Q : A -> Prop) (m : st Engine.t A) : ok Q m -> ok Q (store_call m).
Proof.
  intros Hm s [? ? ? ? ?]. unfold store_call. destruct (store_fault _) as [[text|] w]; [split; [by split|done]|].
  by apply Hm.
Qed.

Lemma safe_keys {A} (Q : A -> Prop) (m : store A) : (forall k, outcome_ok Q (m k).1) -> ok Q (on_keys m).
Proof.
  intros Hm. apply safe_store_call. intros s [? ? ? ? ?]. unfold zoom. specialize (Hm (Engine.keys s)).
  destruct (m (Engine.keys s)) as [r k]. split; [by split|done].
Qed.

Lemma safe_net {A} (Q : A -> Prop) (m : st World A) : (forall w, outcome_ok Q (m w).1) -> ok Q (on_net m).
Proof.
  intros Hm s [? ? ? ? ?]. unfold on_net, zoom. specialize (Hm (Engine.world s)).
  destruct (m (Engine.world s)) as [r w]. split; [by split|done].
Qed.

Lemma safe_db {A} (Q : A -> Prop) (f : Db.t -> Result (A * Db.t)) :
  (forall d, db_ok d -> outcome_ok (fun x => Q x.1 /\ db_ok x.2) (f d)) -> ok Q (on_db f).
Proof.
  intros Hf. apply safe_store_call. intros s [? ? ? ? ?]. specialize (Hf (Engine.db s)).
  destruct (f (Engine.db s)) as [[a d]|e|]; simpl in *; [|done|by destruct Hf].
  destruct Hf as [? ?]; [done|]. by split; [split|].
Qed.

Lemma safe_db_set (f : Db.t -> Result Db.t) :
  (forall d, db_ok d -> outcome_ok db_ok (f d)) -> ok anything (db_set f).
Proof.
  intros Hf. apply safe_db. intros d Hd. eapply outcome_bind; [by apply Hf|]. by intros d' Hd'.
Qed.

Lemma safe_db_get {A} (Q : A -> Prop) (f : Db.t -> Result A) :
  (forall d, db_ok d -> outcome_ok Q (f d)) -> ok Q (db_get f).
Proof. intros Hf. apply safe_store_call, safe_read. intros s Hs. apply Hf, Hs. Qed.

Lemma safe_get : ok engine_ok get.
Proof. by intros s Hs. Qed.

Lemma safe_modify f : (forall s, engine_ok s -> engine_ok (f s)) -> ok anything (modify f).
Proof. intros Hf s Hs. split; [by apply Hf|done]. Qed.

Lemma safe_throw {A} (Q : A -> Prop) e : ok Q (throw e).
Proof. by intros s Hs. Qed.

Lemma safe_notify n : ok anything (notify n).
Proof. apply safe_modify. intros s Hs. destruct (Engine.observer s); [|done]. by destruct Hs. Qed.

Lemma safe_ack m : ok anything (ack m).
Proof. apply safe_modify. intros s Hs. by destruct Hs. Qed.

Lemma random_typed n : ok (fun b => length b = n /\ bytes_ok b) (random n).
Proof. apply safe_net. intros w. pose proof (typed_random n w) as Hl. by destruct (random_bytes n w). Qed.

Lemma safe_random n : ok (fun b => length b = n) (random n).
Proof. eapply safe_mono; [|apply random_typed]. by intros b []. Qed.

Lemma safe_clock : ok is_Some clock.
Proof. apply safe_net. intros w. pose proof (typed_clock w) as Hc. by destruct (system_secs w). Qed.

Lemma safe_unix_now : ok anything unix_now.
Proof. eapply safe_bind; [apply safe_clock|]. intros c [x ->]. by apply safe_pure. Qed.

Lemma safe_sql_now : ok anything sql_now.
Proof. apply safe_net. intros w. by destruct (unixepoch w). Qed.

Lemma call_ok m url body w : outcome_ok (fun x => x.2 <> Panic) (call m url body w).1.
Proof.
  pose proof (typed_http m url body w) as Hp. pose proof (typed_body m url body w) as Hb. unfold call.
  by destruct (http_send m url body w) as [[[]| |]].
Qed.

Lemma request_ok {A} m url body (f : Z -> A) w :
  outcome_ok anything (('(status, _) ← call m url body; mret (f status)) w : Result A * World).1.
Proof.
  pose proof (call_ok m url body w) as Hc. unfold mbind, st_bind. by destruct (call m url body w) as [[[]| |]].
Qed.

Lemma safe_deposit relay box blob : ok anything (deposit relay box blob).
Proof. apply safe_net. intros w. apply request_ok. Qed.

Lemma safe_delete id : ok anything (delete_mailbox id).
Proof.
  eapply safe_bind; [apply safe_get|]. intros s _. apply safe_net. intros w.
  pose proof (call_ok DELETE (to_http (Engine.my_relay s) ++ bstr "/v1/mailboxes/" ++ id) [] w) as Hc.
  unfold http_delete_mailbox, mbind, st_bind. by destruct (call _ _ _ w) as [[[]| |]].
Qed.

Lemma safe_put relay id : ok anything (put_create relay id).
Proof.
  eapply safe_bind; [apply safe_attempt, safe_net; intros w; apply request_ok|].
  intros a _. by apply safe_ret.
Qed.

Lemma safe_create : ok anything create_mailbox.
Proof.
  eapply safe_bind; [apply safe_get|]. intros s _. apply safe_net. intros w.
  pose proof (call_ok POST (to_http (Engine.my_relay s) ++ bstr "/v1/mailboxes") [] w) as Hc.
  unfold http_create_mailbox, mbind, st_bind, pure_r. destruct (call _ _ _ w) as [[[status body]| |] w']; simpl in *; try done.
  destruct (status =? 201); simpl; [|done]. destruct body; simpl; try done. by destruct (mailbox_id_of_body _).
Qed.

Lemma safe_new_conversation peer relay send recv :
  ok (fun c => length c = 16%nat) (new_conversation peer relay send recv).
Proof.
  eapply safe_bind; [apply safe_random|]. intros id Hid. eapply safe_bind; [apply safe_sql_now|]. intros now _.
  apply safe_db. intros d Hd. unfold create_routed_conversation.
  destruct (insert_conv d _) as [d'| |] eqn:E; simpl; [|done|].
  - split; [done|]. eapply insert_conv_ok; [exact Hd| |exact E]. unfold conv_row_ok, in_u32, u32_max. simpl.
    split_and!; (done || lia).
  - unfold insert_conv in E. by destruct (conv_row d _).
Qed.

Lemma hmac_ok k d : outcome_ok anything (hmac_sha256 mac_finalize k d).
Proof.
  unfold hmac_sha256, slice. pose proof (typed_mac k d) as Hm. unfold zlen. rewrite Hm. done.
Qed.

Lemma safe_derived root role g : ok anything (derived_id root role g).
Proof. apply safe_pure. eapply outcome_bind; [apply hmac_ok|done]. Qed.

Lemma put_bytes_ok out b : zlen b <= u16_max -> outcome_ok anything (put_bytes out b).
Proof. intros Hb. unfold put_bytes, try_from_max. by rewrite (proj2 (Z.leb_le _ _)). Qed.

Lemma routing_ok v url id : zlen url <= u16_max -> outcome_ok anything (encode_routing v url id).
Proof. intros Hu. eapply outcome_bind; [by apply put_bytes_ok|done]. Qed.
End primitives.

(** ** The session layer *)

Section sessions.
Context `{Platform} `{SqlText} `{LibSignal} `{RatchetLib} `{!Crypto} `{!TypedOutside}.

Abbreviation okk := (safe (fun _ : Keys.t => True)).

Lemma okk_keys {A} (Q : A -> Prop) (m : store A) : okk Q m -> safe engine_ok Q (on_keys m).
Proof. intros Hm. apply safe_keys. intros k. by apply Hm. Qed.

Lemma okk_lib {A} (Q : A -> Prop) (f : Keys.t -> SignalResult A * Keys.t) :
  (forall k, match (f k).1 with Ok a => Q a | Err _ => True | Panic => False end) -> okk Q (lib f).
Proof. intros Hf k _. specialize (Hf k). unfold lib. by destruct (f k) as [[]]. Qed.

Lemma okk_lib_pure {A} (r : SignalResult A) : r <> Panic -> okk anything (lib_pure r).
Proof. intros Hr k _. by destruct r. Qed.

Lemma address_ok name dev : outcome_ok anything (address name dev).
Proof. eapply outcome_bind; [apply outcome_any, ok_or_no_panic|done]. Qed.

Lemma local_row_ok k : outcome_ok anything (local_row k).
Proof. unfold local_row, query_row. by destruct (Keys.local_identity k). Qed.

Lemma okk_local : okk anything local_protocol_address.
Proof.
  eapply (safe_bind _ anything); [|intros a _; apply safe_pure, address_ok]. apply safe_read. intros k _.
  eapply outcome_bind; [apply local_row_ok|done].
Qed.

Lemma frame_encode_ok f profile : PaddingProfile.wf profile -> outcome_ok anything (InnerFrame.encode f profile).
Proof.
  intros Hwf. destruct (inner_encode_cases f profile Hwf) as (b & _ & ->). repeat bool_case; try done.
  by destruct (PaddingProfile.bucket_for _ _).
Qed.

Lemma frame_parse_ok p profile :
  PaddingProfile.wf profile -> bytes_ok p -> outcome_ok frame_ok (InnerFrame.parse p profile).
Proof.
  intros Hwf Hp. destruct (parsers_never_panic profile p Hwf Hp) as [_ Hn].
  destruct (InnerFrame.parse p profile) as [f| |] eqn:E; [|done..].
  destruct (inner_parse_Ok_split _ _ _ Hwf Hp E) as (lb & rest & -> & _ & _ & _ & _ & Hpay & _).
  apply Forall_cons in Hp as [_ [Hv Hr]%Forall_cons]. apply bytes_ok_app in Hr as [_ Hr].
  unfold byte_ok in Hv. split; [lia|]. rewrite Hpay. by apply Forall_take.
Qed.

Lemma okk_encrypt peer f profile : PaddingProfile.wf profile -> okk anything (encrypt_message peer f profile).
Proof.
  intros Hwf. eapply safe_bind; [by apply safe_pure, frame_encode_ok|]. intros p _.
  eapply safe_bind; [apply safe_pure, address_ok|]. intros remote _.
  eapply safe_bind; [apply okk_local|]. intros local _.
  eapply (safe_bind _ anything); [apply okk_lib; intros k|].
  { pose proof (typed_encrypt remote local p k) as He. by destruct (message_encrypt _ _ _ _) as [[]]. }
  intros [ty c] _. eapply (safe_bind _ anything); [|intros kind _; by apply safe_ret]. apply safe_pure. by destruct ty.
Qed.

Lemma okk_decrypt peer wire profile : PaddingProfile.wf profile -> okk frame_ok (decrypt_message peer wire profile).
Proof.
  intros Hwf. eapply safe_bind; [apply safe_pure, outcome_any, envelope_no_panic|]. intros e _.
  eapply (safe_bind _ anything).
  { destruct (Envelope.kind e); [|apply okk_lib_pure, typed_check].
    eapply safe_bind; [apply okk_lib_pure, typed_message|]. intros i _. by apply safe_ret. }
  intros _ _. eapply safe_bind; [apply safe_pure, address_ok|]. intros remote _.
  eapply safe_bind; [apply okk_local|]. intros local _.
  eapply (safe_bind _ bytes_ok); [apply okk_lib; intros k; apply typed_decrypt|].
  intros p Hp. by apply safe_pure, frame_parse_ok.
Qed.

Lemma okk_decrypt_setup wire profile :
  PaddingProfile.wf profile -> okk (fun x => frame_ok x.2) (decrypt_setup_from_unknown wire profile).
Proof.
  intros Hwf. eapply safe_bind; [apply safe_pure, outcome_any, envelope_no_panic|]. intros e _.
  eapply (safe_bind _ anything); [apply safe_pure; by destruct (bool_decide _)|]. intros _ _.
  eapply safe_bind; [apply okk_lib_pure, typed_message|]. intros i _.
  eapply safe_bind; [by apply okk_decrypt|]. intros f Hf. by apply safe_ret.
Qed.

Lemma safe_encrypt peer f : safe engine_ok anything (encrypt peer f).
Proof. eapply safe_bind; [apply safe_get|]. intros s Hs. apply okk_keys, okk_encrypt, Hs. Qed.

Lemma safe_decrypt peer wire : safe engine_ok frame_ok (decrypt peer wire).
Proof. eapply safe_bind; [apply safe_get|]. intros s Hs. apply okk_keys, okk_decrypt, Hs. Qed.
End sessions.

(** ** Automation *)

Create HintDb safe.
#[export] Hint Resolve safe_get safe_throw safe_notify safe_ack safe_random safe_clock safe_unix_now safe_deposit
  safe_delete safe_put safe_create safe_new_conversation safe_derived safe_encrypt safe_decrypt : safe.

(** A call known to the database, possibly attempted or ignored. *)
Ltac safe_leaf :=
  first [ solve [eauto with safe]
        | apply safe_attempt; safe_leaf
        | eapply safe_ignore; safe_leaf ].

(** Goes through an operation: known calls, case distinctions, returns. *)
Ltac safe_go :=
  repeat first
    [ progress cbv beta iota
    | match goal with
      | |- safe _ _ (mret _) => apply safe_ret; simpl; (done || auto)
      | |- safe _ _ (mbind _ _) => eapply safe_bind; [safe_leaf|intros ? ?]
      | |- safe _ _ (mbind _ (match _ with _ => _ end)) => eapply (safe_bind _ anything); [|intros ? ?]
      | |- safe _ _ (match ?x with _ => _ end) => destruct x eqn:?; simpl in *
      | |- safe _ _ _ => solve [eauto with safe | eapply safe_mono; [|safe_leaf]; done]
      end ].

(** ** Store updates of the engine *)

Section updates.
Context `{Platform} `{SqlText} `{LibSignal} `{RatchetLib} `{!Crypto} `{!TypedOutside}.

Abbreviation ok := (safe engine_ok).

Lemma safe_mark mid : ok anything (db_set (fun d => mark_message_sent d mid)).
Proof. apply safe_db_set. intros d Hd. by eapply mark_sent_ok. Qed.

Lemma safe_set_send conv relay box : ok anything (db_set (fun d => set_conversation_send d conv relay box)).
Proof. apply safe_db_set. intros d Hd. by apply update_conv_ok. Qed.

Lemma safe_set_recv conv box : ok anything (db_set (fun d => set_conversation_recv d conv box)).
Proof. apply safe_db_set. intros d Hd. by apply update_conv_ok. Qed.

Lemma safe_set_pairing conv role own :
  0 <= role <= 255 -> ok anything (db_set (fun d => set_recovery_pairing d conv role own)).
Proof.
  intros Hr. apply safe_db_set. intros d Hd. apply (set_recovery_keeps d conv (fun _ => Some role)); [|done].
  by intros r (_ & _ & ? & ?).
Qed.

Lemma safe_set_root conv peer root : ok anything (db_set (fun d => set_recovery_root d conv peer root)).
Proof.
  apply safe_db_set. intros d Hd. apply set_recovery_keeps; [|done]. by intros r (_ & ? & ? & ?).
Qed.

Lemma safe_set_generations conv g p :
  in_u32 g -> in_u32 p -> ok anything (db_set (fun d => set_recovery_generations d conv g p)).
Proof.
  intros Hg Hp. apply safe_db_set. intros d Hd.
  apply (set_recovery_keeps d conv _ _ _ _ (fun _ => g) (fun _ => p)); [|done]. by intros r (_ & ? & _).
Qed.

Lemma safe_get_conversation conv : ok anything (db_get (fun d => get_conversation d conv)).
Proof. by apply safe_db_get. Qed.

Lemma safe_recovery_state conv :
  ok (fun r => match r with Some r => record_ok r | None => True end) (db_get (fun d => recovery_state d conv)).
Proof. apply safe_db_get. intros d _. apply recovery_state_ok. Qed.

Lemma safe_pending conv : ok anything (db_get (fun d => pending_chat d conv)).
Proof. apply safe_db_get. intros d Hd. by rewrite pending_chat_Ok. Qed.

Lemma safe_save_outgoing id conv f now :
  length id = 16%nat -> length conv = 16%nat -> 0 <= InnerFrame.type_version f <= 255 ->
  ok anything (on_db (fun d => save_outgoing d id conv f now)).
Proof.
  intros Hi Hc Hv. apply safe_db. intros d Hd. unfold save_outgoing.
  destruct (insert_message d id conv Outgoing f 0 now) as [[m d']| |] eqn:E; simpl; [|done|].
  - split; [done|]. by eapply insert_message_keeps in E.
  - revert E. unfold insert_message. by destruct (_ || _).
Qed.

Lemma safe_save_incoming id conv f now :
  length id = 16%nat -> length conv = 16%nat -> 0 <= InnerFrame.type_version f <= 255 ->
  ok anything (on_db (fun d => save_incoming d id conv f now)).
Proof.
  intros Hi Hc Hv. apply safe_db. intros d Hd. unfold save_incoming.
  destruct (insert_message d id conv Incoming f 2 now) as [[m d']| |] eqn:E; simpl; [|done|].
  - split; [done|]. by eapply insert_message_keeps in E.
  - revert E. unfold insert_message. by destruct (_ || _).
Qed.
End updates.

#[export] Hint Resolve safe_mark safe_set_send safe_set_recv safe_set_pairing safe_set_root safe_set_generations
  safe_get_conversation safe_recovery_state safe_pending safe_save_outgoing safe_save_incoming : safe.
#[export] Hint Extern 1 (safe _ _ (emit_storage_error _)) => apply safe_notify : safe.
#[export] Hint Extern 1 (safe _ _ (emit_state _ _)) => apply safe_notify : safe.
#[export] Hint Extern 1 (safe _ _ (emit_needs_repair _)) => apply safe_notify : safe.
#[export] Hint Extern 1 (safe _ _ (emit_permanent_send_failure _ _)) => apply safe_notify : safe.

(** ** Sending and recovering *)

Section operations.
Context `{Platform} `{SqlText} `{LibSignal} `{RatchetLib} `{!Crypto} `{!TypedOutside}.

Abbreviation ok := (safe engine_ok).

Lemma safe_flush_loop conv convo box : forall pending, ok anything (flush_loop conv convo box pending).
Proof.
  induction pending as [|[mid f] rest IH]; cbn [flush_loop]; [by apply safe_ret|]. safe_go.
Qed.

Lemma safe_flush conv : ok anything (flush_pending conv).
Proof. unfold flush_pending. pose proof (safe_flush_loop conv). safe_go. Qed.

#[local] Hint Resolve safe_flush : safe.

Lemma safe_send_chat conv text : length conv = 16%nat -> ok anything (send_chat conv text).
Proof.
  intros Hc. unfold send_chat. eapply safe_bind; [safe_leaf|]. intros id Hid. eapply safe_bind; [safe_leaf|].
  intros now _. eapply safe_bind; [apply safe_save_outgoing; simpl; (done || lia)|]. intros _ _. safe_leaf.
Qed.

Lemma safe_announce_all convo root role hello : forall window,
  ok anything (announce_all convo root role hello window).
Proof.
  induction window as [|k window IH]; cbn [announce_all]; [by apply safe_ret|].
  eapply (safe_bind _ anything); [unfold announce; safe_go|]. by intros _ _.
Qed.
#[local] Hint Resolve safe_announce_all : safe.

Lemma safe_enter conv convo role root g p : in_u32 g -> in_u32 p ->
  ok anything (enter_recovery_gen conv convo role root g p).
Proof. intros Hg Hp. unfold enter_recovery_gen. safe_go. Qed.

Lemma safe_recover_v1 conv convo : ok anything (recover_v1 conv convo).
Proof.
  unfold recover_v1. do 3 (safe_go; try (eapply safe_bind; [apply safe_pure, routing_ok;
    match goal with H : engine_ok _ |- _ => apply H end|intros ? ?])).
Qed.

Lemma safe_tracker conv : ok (fun t => in_u32 (ExhaustionTracker.cycles t)) (tracker conv).
Proof.
  intros s Hs. unfold tracker, get, modify, mbind, st_bind. simpl.
  assert (Ht : in_u32 (ExhaustionTracker.cycles (default ExhaustionTracker.new (Engine.exhaustion s !! conv)))).
  { destruct (Engine.exhaustion s !! conv) as [t|] eqn:E; simpl.
    - by apply (ok_cycles s Hs conv t).
    - unfold in_u32, u32_max. simpl. lia. }
  split; [|done]. destruct Hs. split; simpl; try done. by apply map_Forall_insert_2.
Qed.
#[local] Hint Resolve safe_enter safe_recover_v1 safe_tracker : safe.

Lemma saturating_u32 g : in_u32 g -> in_u32 (saturating_add u32_max g 1).
Proof. unfold saturating_add, in_u32, u32_max. lia. Qed.

Lemma safe_recover_v2 conv convo role root g p : in_u32 g -> in_u32 p ->
  ok anything (recover_v2 conv convo role root g p).
Proof.
  intros Hg Hp. unfold recover_v2. pose proof (saturating_u32 g Hg). eapply safe_bind; [safe_leaf|]. intros t Ht.
  destruct (_ || _); [by apply safe_ret|]. eapply safe_bind; [safe_leaf|]. intros [] _; [|by apply safe_ret].
  eapply safe_bind; [safe_leaf|]. intros t' Ht'. eapply safe_bind; [|intros _ _; by apply safe_ret].
  apply safe_modify. intros s []. split; simpl; try done. apply map_Forall_insert_2; [|done].
  by apply saturating_u32.
Qed.
#[local] Hint Resolve safe_recover_v2 : safe.

Lemma safe_recover conv : ok anything (recover conv).
Proof.
  unfold recover. eapply safe_bind; [safe_leaf|]. intros [[convo|]|e] _; [|by apply safe_ret..].
  eapply safe_bind; [safe_leaf|]. intros [[r|]|e] Hr; simpl in Hr; [|safe_leaf..].
  destruct Hr. destruct (RecoveryRecord.role r); [|safe_leaf]. destruct (RecoveryRecord.root r); safe_leaf.
Qed.
#[local] Hint Resolve safe_recover : safe.

(** ** Receiving *)

Lemma pop_front_length n l : (length (pop_front_over n l) <= n \/ length (pop_front_over n l) = 0)%nat.
Proof.
  induction l as [|x l IH]; simpl; [lia|]. destruct (Nat.ltb_spec n (S (length l))); [done|]. simpl. lia.
Qed.

Lemma safe_mark_hello conv g nonce : ok anything (mark_hello_seen conv g nonce).
Proof.
  intros s Hs. unfold mark_hello_seen, get, modify, mbind, st_bind, mret, st_ret. simpl.
  assert (Hr : (length (default [] (Engine.hello_seen s !! conv)) <= 512)%nat).
  { destruct (Engine.hello_seen s !! conv) as [r|] eqn:E; simpl; [|lia]. by apply (ok_hellos s Hs conv r). }
  destruct (existsb _ _); simpl; split; try done; destruct Hs; split; simpl; try done;
    apply map_Forall_insert_2; try done.
  destruct (pop_front_length 512 (default [] (Engine.hello_seen s !! conv) ++ [(g, nonce)])); lia.
Qed.

Lemma safe_take_rotation conv : ok anything (take_rotation conv).
Proof. intros s []. by split. Qed.
#[local] Hint Resolve safe_mark_hello safe_take_rotation : safe.

Lemma safe_encode_routing (s : Engine.t) v id : engine_ok s -> ok anything (pure_r (encode_routing v (Engine.my_relay s) id)).
Proof. intros Hs. apply safe_pure, routing_ok, Hs. Qed.
#[local] Hint Extern 1 (safe _ _ (pure_r (encode_mailbox_update _ _))) => by apply safe_encode_routing : safe.
#[local] Hint Extern 1 (safe _ _ (pure_r (encode_mailbox_update_v3 _ _))) => by apply safe_encode_routing : safe.

Lemma safe_set_rotation conv r : ok anything (modify (fun s => Engine.with_rotation s (<[conv := r]> (Engine.rotation s)))).
Proof. apply safe_modify. by intros s []. Qed.
#[local] Hint Resolve safe_set_rotation : safe.

Lemma safe_initiate conv convo role root g : ok anything (initiate_rotation conv convo role root g).
Proof. unfold initiate_rotation. safe_go. Qed.

Lemma safe_answer conv relay inbox : ok anything (answer_rotation conv relay inbox).
Proof. unfold answer_rotation. safe_go. Qed.
#[local] Hint Resolve safe_initiate safe_answer : safe.

Lemma safe_parse_update v why1 why2 b : bytes_ok b ->
  ok anything (pure_r (run_cursor (x ← routing_fields v why1; _ ← finish why2; mret x) b)).
Proof.
  intros Hb. apply safe_pure, outcome_any.
  eapply (run_no_panic (routing_fields v why1) (fun x => x)); [apply yields_routing|done].
Qed.

Lemma safe_handle_rotation conv payload : bytes_ok payload -> ok anything (handle_rotation conv payload).
Proof.
  intros Hb. unfold handle_rotation.
  eapply safe_bind; [apply safe_attempt; by apply (safe_parse_update MAILBOX_UPDATE_V3)|].
  intros [[relay inbox]|e] _; safe_go.
Qed.

Lemma converge_u32 g p r : in_u32 g -> in_u32 p -> in_u32 r ->
  in_u32 (GenerationState.own (GenerationState.converge (GenerationState.mk g p) r).2) /\
  in_u32 (GenerationState.peer (GenerationState.converge (GenerationState.mk g p) r).2).
Proof. unfold GenerationState.converge, in_u32. simpl. intros. bool_case; simpl; lia. Qed.

Lemma safe_reset_tracker conv :
  ok anything (modify (fun s => Engine.with_exhaustion s (alter ExhaustionTracker.reset conv (Engine.exhaustion s)))).
Proof.
  apply safe_modify. intros s []. split; simpl; try done. intros c t.
  destruct (decide (conv = c)) as [->|Hne].
  - rewrite lookup_alter_eq. destruct (Engine.exhaustion s !! c); simpl; [|done]. intros [= <-].
    unfold in_u32, u32_max. simpl. lia.
  - rewrite lookup_alter_ne by done. apply ok_cycles0.
Qed.
#[local] Hint Resolve safe_reset_tracker : safe.

Lemma safe_hello conv payload : bytes_ok payload -> ok anything (handle_recovery_hello conv payload).
Proof.
  intros Hb. unfold handle_recovery_hello.
  eapply (safe_bind _ (either (fun x => in_u32 x.1))).
  { apply safe_attempt, safe_pure. destruct (parse_recovery_hello payload) as [[g n]| |] eqn:E; simpl; [|done|].
    - by apply (recovery_hello_exact payload g n Hb) in E as [? _].
    - by apply (proj1 (recovery_hello_exact payload 0 [] Hb)). }
  intros [[g nonce]|e] Hg; [simpl in Hg|by apply safe_ret].
  eapply safe_bind; [safe_leaf|]. intros [] _; [|by apply safe_ret]. simpl negb. cbv iota.
  eapply safe_bind; [safe_leaf|]. intros [[r|]|e] Hr; simpl in Hr; [|by apply safe_ret..]. destruct Hr as [Ho Hp].
  destruct (RecoveryRecord.role r) as [role|]; [|by apply safe_ret].
  destruct (RecoveryRecord.root r) as [root|]; [|by apply safe_ret].
  eapply safe_bind; [safe_leaf|]. intros _ _. destruct (converge_u32 _ _ g Ho Hp Hg) as [Ho' Hp'].
  destruct (GenerationState.converge _ g) as [bumped gs]. simpl in *. safe_go.
Qed.
#[local] Hint Resolve safe_handle_rotation safe_hello : safe.

Lemma safe_receive conv m :
  ok anything (modify (fun s => if Engine.receiver s then Engine.push s (OnMessage conv m) else s)).
Proof. apply safe_modify. intros s Hs. destruct (Engine.receiver s); [|done]. by destruct Hs. Qed.
#[local] Hint Resolve safe_receive : safe.

Lemma safe_dispatch conv f : length conv = 16%nat -> frame_ok f -> ok anything (dispatch conv f).
Proof.
  intros Hc [Hv Hb]. unfold dispatch. destruct (InnerFrame.payload_type f); try by apply safe_ret.
  - eapply safe_bind; [safe_leaf|]. intros id Hid. eapply safe_bind; [safe_leaf|]. intros now _.
    eapply safe_bind; [apply safe_attempt; by apply safe_save_incoming|]. intros m _.
    eapply (safe_bind _ anything); [destruct m; safe_go|]. intros _ _. by apply safe_ret.
  - bool_case; [safe_leaf|]. bool_case; [|by apply safe_ret].
    eapply safe_bind; [apply safe_attempt; by apply (safe_parse_update CONTROL_VERSION)|].
    intros [[relay inbox]|e] _; safe_go.
  - safe_leaf.
Qed.

Lemma safe_incoming conv peer envelope : length conv = 16%nat -> ok anything (handle_incoming conv peer envelope).
Proof.
  intros Hc. unfold handle_incoming. eapply safe_bind; [safe_leaf|].
  intros [f|e] Hf; [by apply safe_dispatch|by apply safe_ret].
Qed.
#[local] Hint Resolve safe_incoming : safe.

(** ** Pairing *)

Lemma safe_spawn conv : ok anything (spawn_conversation conv).
Proof. apply safe_modify. intros s Hs. case_bool_decide; [done|]. by destruct Hs. Qed.
#[local] Hint Resolve safe_spawn : safe.

Lemma safe_handoff_payload (s : Engine.t) inbox contrib : engine_ok s ->
  ok anything (pure_r (encode_mailbox_update_v2 (Engine.my_relay s) inbox contrib)).
Proof. intros Hs. apply safe_pure. eapply outcome_bind; [apply put_bytes_ok, Hs|done]. Qed.

Lemma safe_root a b : ok anything (pure_r (derive_root mac_finalize a b)).
Proof. apply safe_pure, hmac_ok. Qed.
#[local] Hint Resolve safe_handoff_payload safe_root : safe.

Lemma safe_pair_ack inbox secret envelope : ok anything (handle_pair_ack_v2 inbox secret envelope).
Proof.
  unfold handle_pair_ack_v2. eapply safe_bind; [safe_leaf|]. intros s Hs.
  eapply safe_bind; [apply okk_keys, okk_decrypt_setup, Hs|]. intros [peer f] [Hv Hb]. simpl in Hv, Hb.
  destruct (negb _); [by apply safe_ret|].
  eapply safe_bind; [apply safe_pure, outcome_any;
    eapply (run_no_panic pair_ack_fields (fun x => x)); [apply yields_pair_ack|exact Hb]|]. intros a _.
  eapply (safe_bind _ anything).
  { apply safe_pure. eapply outcome_bind; [apply hmac_ok|]. intros m _. by destruct (beq m _). }
  intros _ _. eapply safe_bind; [safe_leaf|]. intros box _. eapply safe_bind; [safe_leaf|]. intros conv Hc.
  eapply safe_bind; [safe_leaf|]. intros contrib _.
  eapply safe_bind; [apply safe_set_pairing; unfold ROLE_OFFERER; lia|]. intros _ _. safe_go.
Qed.

Lemma safe_read_handoff peer envelope : ok anything (read_handoff peer envelope).
Proof.
  unfold read_handoff. eapply safe_bind; [safe_leaf|]. intros [f|e] Hf; [|by apply safe_ret]. destruct Hf as [_ Hb].
  destruct (_ && _); [|by apply safe_ret]. eapply safe_bind; [|intros u _; by apply safe_ret].
  apply safe_attempt, safe_pure, outcome_any.
  eapply (run_no_panic mailbox_update_v2_fields (fun x => x)); [apply yields_mailbox_update_v2|exact Hb].
Qed.
#[local] Hint Resolve safe_pair_ack safe_read_handoff : safe.

Lemma safe_await conv peer contrib : forall ins subscribed,
  ok anything (await_inbox_handoff_v2 conv peer contrib subscribed ins).
Proof.
  induction ins as [|i ins IH]; intros sub; cbn [await_inbox_handoff_v2]; [by apply safe_ret|].
  destruct sub, i as [| |late| | |[[[msg_id envelope|]|]| |]]; try apply IH; try by apply safe_ret.
  all: try safe_leaf.
  - eapply safe_bind; [safe_leaf|]. intros [[[relay inbox] a]|] _; safe_go; apply IH.
  - destruct late; [safe_leaf|apply IH].
Qed.

Lemma safe_pairing_listener inbox secret : forall ins subscribed,
  ok anything (pairing_listener_v2 inbox secret subscribed ins).
Proof.
  induction ins as [|i ins IH]; intros sub; cbn [pairing_listener_v2]; [by apply safe_ret|].
  destruct sub, i as [| | |[[[msg_id envelope|]|]| |]]; try apply IH; try by apply safe_ret.
  eapply safe_bind; [safe_leaf|]. intros [[c|]|e] _; [safe_go| |].
  - eapply safe_bind; [safe_leaf|]. intros _ _. apply IH.
  - destruct e; safe_go; apply IH.
Qed.

Lemma safe_pairing_task inbox secret ins : ok anything (spawn_pairing_v2 inbox secret ins).
Proof.
  unfold spawn_pairing_v2. eapply safe_bind; [apply safe_pairing_listener|]. intros [] _; safe_go.
Qed.

(** ** The conversation listener *)

Lemma safe_back_off conv b : schedule_ok b -> ok (fun l => schedule_ok l.2) (back_off conv b).
Proof.
  intros Hb. unfold back_off. eapply safe_bind; [safe_leaf|]. intros _ _.
  eapply safe_bind; [by apply safe_pure, next_delay_ok|]. intros [d b'] Hb'. simpl in Hb'.
  eapply safe_bind; [safe_leaf|]. intros _ _. by apply safe_ret.
Qed.

Lemma safe_listener_step conv p b i m :
  length conv = 16%nat -> schedule_ok b -> listener_step conv (p, b) i = Some m -> ok (fun l => schedule_ok l.2) m.
Proof.
  intros Hc Hb. assert (Hr : schedule_ok (BackoffSchedule.reset b)) by (exists 1; by apply schedule_reset). pose proof (safe_back_off conv b Hb) as Hback.
  assert (Hret : forall p', ok (fun l : listener => schedule_ok l.2) (mret (p', b))) by (intros; by apply safe_ret).
  unfold listener_step.
  destruct p as [|convo|convo|convo| | |], i as [| | | |[[[msg_id envelope|]|]| |]|]; try done; intros [= <-];
    try exact (Hret _); try exact Hback.
  - eapply safe_bind; [safe_leaf|]. intros [[convo|]|e] _; [|apply Hret..].
    destruct (Conversation.mailbox_recv convo); [|apply Hret]. eapply safe_bind; [safe_leaf|]. intros _ _. apply Hret.
  - eapply safe_bind; [safe_leaf|]. intros _ _. by apply safe_ret.
  - eapply safe_bind; [safe_leaf|]. intros _ _. apply Hret.
  - eapply safe_bind; [safe_leaf|]. intros changed _. eapply safe_bind; [safe_leaf|]. intros _ _. apply Hret.
  - eapply safe_bind; [safe_leaf|]. intros [] _.
    + eapply safe_bind; [safe_leaf|]. intros _ _. by apply safe_ret.
    + eapply safe_bind; [safe_leaf|]. intros _ _. eapply safe_bind; [safe_leaf|]. intros _ _. apply Hret.
    + eapply safe_bind; [safe_leaf|]. intros _ _. eapply safe_bind; [safe_leaf|]. intros _ _. apply Hret.
    + eapply safe_bind; [by apply safe_pure, next_delay_ok|]. intros [d b'] Hb'. simpl in Hb'.
      by apply safe_ret.
Qed.

Lemma safe_listener_run conv : length conv = 16%nat -> forall ins p b,
  schedule_ok b -> ok (fun l => schedule_ok l.2) (listener_run conv (p, b) ins).
Proof.
  intros Hc. induction ins as [|i ins IH]; intros p b Hb; cbn [listener_run]; [by apply safe_ret|].
  destruct (listener_step conv (p, b) i) as [m|] eqn:E; [|by apply safe_ret].
  eapply safe_bind; [by eapply safe_listener_step|]. intros [p' b'] Hb'. by apply IH.
Qed.

Lemma safe_listener conv ins :
  length conv = 16%nat -> ok (fun l => schedule_ok l.2) (conversation_listener conv ins).
Proof.
  intros Hc. unfold conversation_listener, random_seed.
  eapply (safe_bind _ in_u64); [|intros seed Hs; apply safe_listener_run; [done|exists 1; by apply schedule_new]].
  eapply safe_bind; [apply random_typed|]. intros b [Hl Hb]. apply safe_ret.
  pose proof (from_be_bound (rev b) ltac:(by apply Forall_rev)) as Hf.
  unfold zlen in Hf. rewrite length_rev, Hl in Hf. unfold in_u64, u64_max. change (256 ^ Z.of_nat 8) with (2 ^ 64) in Hf. lia.
Qed.
End operations.

(** ** Properties *)

(** C15: type safety of the engine.  With libraries and a system that keep to
    their types, from a well-formed state, every task of the engine ends
    without a panic in a well-formed state, whatever bytes the relay, the peer
    and the sockets give it, whichever requests fail, and whichever accesses
    the engine makes to its store fail, each of them on its own (what fails
    inside a library call is an error of that call): sending, a conversation
    listener over any inputs (deliveries, recovery and rotation included), an
    offer's pairing task, and the responder's wait for the handoff.
    Well-formed means that every stored row reads back, the hellos remembered
    per conversation are at most 512, and counters are in range; a listener's
    reconnect schedule stays between 1 and 60 seconds. *)
Theorem engine_type_safe `{Platform} `{SqlText} `{LibSignal} `{RatchetLib} `{!Crypto} `{!TypedOutside}
    (conv text inbox secret peer contrib : bytes) (lins : list linput) (pins : list PairingInput)
    (hins : list HandoffInput) :
  length conv = 16%nat ->
  safe engine_ok anything (send_chat conv text) /\
  safe engine_ok (fun l => schedule_ok l.2) (conversation_listener conv lins) /\
  safe engine_ok anything (spawn_pairing_v2 inbox secret pins) /\
  safe engine_ok anything (await_inbox_handoff_v2 conv peer contrib false hins).
Proof.
  intros Hc. split_and!.
  - by apply safe_send_chat.
  - by apply safe_listener.
  - apply safe_pairing_task.
  - apply safe_await.
Qed.

(** A ratchet that passes text through and keeps to bytes. *)
Module Typed.
#[export] Instance ratchet : RatchetLib := {|
  identity_decode _ := Ok tt;
  public_deserialize _ := Ok tt;
  kem_deserialize _ := Ok tt;
  device_id_valid v := v =? 1;
  bundle_new _ := Ok tt;
  process_prekey_bundle _ _ _ k := (Ok tt, k);
  message_encrypt _ _ p k := (Ok (SignalMessage, p), k);
  message_decrypt _ _ _ c k := (Ok (map (fun b => b mod 256) c), k);
  prekey_message_identity c := Ok c;
  signal_message_check _ := Ok tt
|}.

#[export] Instance outside : TypedOutside (H := flaky) (H1 := ratchet).
Proof.
  split; try done.
  - intros m url body [f [|[code b] w]]; done.
  - intros m url body [f [|[code b] w]]; done.
  - intros n w. simpl. rewrite length_replicate. split; [done|]. apply Forall_replicate. unfold byte_ok. lia.
  - intros k d. cbn [mac_finalize toy_crypto]. rewrite length_take, !length_app, length_replicate. lia.
  - intros a b e c k. simpl. apply Forall_fmap, Forall_forall. intros x _. unfold byte_ok. simpl.
    pose proof (Z.mod_pos_bound x 256). lia.
Qed.

(** A flush, a garbage delivery, an idle tick and the end of the socket, then
    recovery of a mailbox that is gone, on a store every third access of which
    fails. *)
Definition faults : list (option string) := concat (replicate 4 [None; None; Some "disk full"%string]).

Definition engine : Engine.t (H := flaky) :=
  Engine.mk (H := flaky) (toy_keys (bstr "ana")) two_pending ((faults, [(202, []); (404, [])]) : World (Platform := flaky))
    (bstr "wss://mine") toy_profile true true [] ∅ ∅ ∅ ∅ None.

Definition inputs : list linput :=
  [Proceed; SubOk; Proceed; SubNext (Ok (Some (Delivery [1] [300; 5]))); SubNext (Ok (Some Idle)); Proceed;
   SubNext (Ok None); Proceed; Proceed; SubNotFound; Proceed].
End Typed.

Lemma engine_type_safe_witness :
  let run := conversation_listener (H := flaky) (H2 := Typed.ratchet) demo_conv Typed.inputs Typed.engine in
  run.1 <> Panic /\ engine_ok (H := flaky) run.2 /\
  existsb (fun n => match n with OnStorageError _ => true | _ => false end) (Engine.log (H := flaky) run.2) = true.
Proof.
  intros run.
  destruct (engine_type_safe (H := flaky) (H1 := toy_lib) (H2 := Typed.ratchet) (H4 := Typed.outside) demo_conv
    [] [] [] [] [] Typed.inputs [] []) as (_ & Hl & _); [reflexivity|].
  destruct (Hl Typed.engine) as [Hok Ho].
  - split.
    + exact two_pending_ok.
    + apply toy_profile_wf.
    + vm_compute. congruence.
    + apply map_Forall_empty.
    + apply map_Forall_empty.
  - split; [intros E; unfold listener in E; unfold run in E; by rewrite E in Ho|]. split; [exact Hok|].
    vm_compute. reflexivity.
Defined.
