(* ===== verification/EngineSend.v ===== *)
(** Sending ([flush_pending], [send_chat] of [relay_client/mod.rs]) and the
    receiving dispatch, proved for every platform and every library: what a
    flush may change, that a sent message is never lost, and what an incoming
    frame may do. *)

From S2P Require Import Prelude Errors Utf8 Config Envelope Cursor Pairing Recovery Storage Keys.
From S2P Require Import Transport Session Engine EngineDemo EngineRuns.

(** Rows with the given ids marked sent. *)
Definition mark_all (ids : list bytes) (d : Db.t) : Db.t :=
  Db.with_messages d
    (map (fun m => if bool_decide (MsgRow.id m ∈ ids) then set_status 1 m else m) (Db.messages d)).

Lemma mark_all_nil d : mark_all [] d = d.
Proof.
  destruct d as [c ms f]. unfold mark_all, Db.with_messages. simpl. f_equal.
  induction ms as [|m ms IH]; simpl; [done|].
  by rewrite IH.
Qed.

Lemma mark_all_cons `{SqlText} id ids d d1 :
  mark_message_sent d id = Ok d1 -> mark_all ids d1 = mark_all (id :: ids) d.
Proof.
  intros [= <-]. unfold mark_all, Db.with_messages. simpl. f_equal.
  rewrite map_map. apply map_ext. intros m. unfold beq.
  destruct (bool_decide_reflect (MsgRow.id m = id)) as [E|E]; simpl.
  - rewrite (bool_decide_eq_true_2 (MsgRow.id m ∈ id :: ids)) by set_solver. by case_bool_decide.
  - by rewrite (bool_decide_ext (MsgRow.id m ∈ ids) (MsgRow.id m ∈ id :: ids)) by set_solver.
Qed.

Lemma mark_all_ok d ids : db_ok d -> db_ok (mark_all ids d).
Proof.
  intros [? Hn ? Hr]. split; simpl; try done.
  - replace (MsgRow.id <$> map _ (Db.messages d)) with (MsgRow.id <$> Db.messages d); [done|].
    rewrite <- list_fmap_compose. apply list_fmap_ext. intros i m _. simpl. by case_bool_decide.
  - apply Forall_fmap. eapply Forall_impl; [exact Hr|]. intros m Hm. simpl. by case_bool_decide.
Qed.

(** Marking does not change what a conversation's history shows. *)
Lemma mark_all_history `{SqlText} d ids c : db_ok d -> list_messages (mark_all ids d) c = list_messages d c.
Proof.
  intros Hd. rewrite !list_messages_Ok by auto using mark_all_ok. f_equal. unfold mark_all. simpl.
  induction (Db.messages d) as [|m ms IH]; simpl; [done|].
  destruct (bool_decide (MsgRow.id m ∈ ids)); simpl; destruct (beq (MsgRow.conversation_id m) c);
    rewrite ?fmap_cons, ?IH; done.
Qed.

(** The pending list loses exactly the marked ids. *)
Lemma mark_all_pending `{SqlText} d ids c :
  db_ok d -> exists l, pending_chat d c = Ok l /\
  pending_chat (mark_all ids d) c = Ok (List.filter (fun x => negb (bool_decide (x.1 ∈ ids))) l).
Proof.
  intros Hd. eexists. split; [by apply pending_chat_Ok|].
  rewrite pending_chat_Ok by auto using mark_all_ok. f_equal. unfold mark_all. simpl.
  induction (Db.messages d) as [|m ms IH]; simpl; [done|].
  destruct (bool_decide (MsgRow.id m ∈ ids)) eqn:E; simpl.
  - unfold is_pending at 1. simpl. rewrite andb_false_r, IH.
    destruct (is_pending c m); simpl; rewrite ?E; done.
  - destruct (is_pending c m); simpl; rewrite ?E; [simpl; f_equal|]; exact IH.
Qed.

Lemma pending_NoDup `{SqlText} d c l : db_ok d -> pending_chat d c = Ok l -> NoDup l.*1.
Proof.
  intros Hd E. rewrite pending_chat_Ok in E by done. injection E as <-.
  pose proof (db_msgs _ Hd) as Hn. revert Hn. induction (Db.messages d) as [|m ms IH]; simpl; [constructor|].
  rewrite NoDup_cons. intros [Hm Hn]. destruct (is_pending c m); simpl; [|auto].
  constructor; [|auto]. intros Hin. apply Hm. apply list_elem_of_fmap in Hin as (x & Hx & Hin).
  apply list_elem_of_fmap in Hin as (m' & -> & Hin). simpl in Hx.
  apply list_elem_of_fmap. exists m'. split; [done|].
  apply list_elem_of_In, filter_In in Hin as [Hin _]. by apply list_elem_of_In.
Qed.

Lemma filter_all {A} (f : A -> bool) l : Forall (fun x => f x = true) l -> List.filter f l = l.
Proof. induction 1 as [|x l Hx Hl IH]; simpl; [done|]. by rewrite Hx, IH. Qed.

Lemma filter_rest (sent rest : list (bytes * InnerFrame.t)) :
  NoDup (sent ++ rest).*1 ->
  List.filter (fun x => negb (bool_decide (x.1 ∈ sent.*1))) (sent ++ rest) = rest.
Proof.
  rewrite fmap_app, NoDup_app. intros (_ & Hd & _). rewrite List.filter_app.
  replace (List.filter _ sent) with (@nil (bytes * InnerFrame.t)).
  - simpl. apply filter_all, Forall_forall. intros x Hx. rewrite bool_decide_eq_false_2; [done|].
    intros Hin. apply (Hd _ Hin). by apply list_elem_of_fmap_2.
  - symmetry. assert (H : Forall (fun x => x.1 ∈ sent.*1) sent).
    { apply Forall_forall. intros x Hx. by apply list_elem_of_fmap_2. }
    clear Hd. revert H. generalize (sent.*1). intros ids. induction 1 as [|x l Hx Hl IH]; simpl; [done|].
    by rewrite bool_decide_eq_true_2.
Qed.

(** Marking a prefix of an outbox leaves the rest. *)
Lemma mark_prefix `{SqlText} d conv sent rest :
  db_ok d -> pending_chat d conv = Ok (sent ++ rest) -> pending_chat (mark_all sent.*1 d) conv = Ok rest.
Proof.
  intros Hd Hp. destruct (mark_all_pending d sent.*1 conv Hd) as (l & El & ->).
  assert (l = sent ++ rest) as -> by congruence. f_equal. apply filter_rest. by eapply pending_NoDup.
Qed.

(** A pending id names one row, of one conversation. *)
Lemma pending_disjoint `{SqlText} d c c' l l' id :
  db_ok d -> c <> c' -> pending_chat d c = Ok l -> pending_chat d c' = Ok l' -> id ∈ l.*1 -> id ∉ l'.*1.
Proof.
  intros Hd Hne E E' Hin Hin'. rewrite pending_chat_Ok in E, E' by done. simplify_eq.
  assert (Hrow : forall c, id ∈ (pending_entry <$> List.filter (is_pending c) (Db.messages d)).*1 ->
    exists m, m ∈ Db.messages d /\ MsgRow.id m = id /\ MsgRow.conversation_id m = c).
  { intros c0 Hx. apply list_elem_of_fmap in Hx as (x & -> & Hx).
    apply list_elem_of_fmap in Hx as (m & -> & Hm). apply list_elem_of_In, filter_In in Hm as [Hm Hp].
    unfold is_pending in Hp. apply andb_true_iff in Hp as [[Hp _]%andb_true_iff _]. reflect_bools.
    exists m. split_and!; [by apply list_elem_of_In|done|done]. }
  destruct (Hrow _ Hin) as (m & Hm & Hi & <-). destruct (Hrow _ Hin') as (m' & Hm' & Hi' & <-).
  apply Hne. f_equal. pose proof (db_msgs _ Hd) as Hn.
  apply list_elem_of_lookup in Hm as [i Hm]. apply list_elem_of_lookup in Hm' as [j Hm'].
  assert (i = j) as ->; [|congruence].
  apply (NoDup_lookup _ _ _ id Hn); rewrite list_lookup_fmap; [rewrite Hm|rewrite Hm']; simpl; congruence.
Qed.

Section sending.
Context `{Platform} `{SqlText} `{LibSignal} `{RatchetLib} `{!Crypto}.

(** A deposit of an encryption of the frame was made with this outcome. *)
Definition tried (convo : Conversation.t) (mailbox : bytes) (f : InnerFrame.t) (o : Result DepositOutcome) : Prop :=
  exists p k k' wire w w', encrypt_message (Conversation.peer_address convo) f p k = (Ok wire, k') /\
    http_deposit (Conversation.relay_url convo) mailbox wire w = (o, w').

(** A row that a flush takes out of the outbox was accepted by the relay, or
    the relay will never take it and the observer has been told. *)
Definition settled (conv : bytes) (convo : Conversation.t) (mailbox : bytes) (s' : Engine.t)
    (x : bytes * InnerFrame.t) : Prop :=
  tried convo mailbox x.2 (Ok Accepted) \/
  exists c, (c = 400 \/ c = 413) /\ tried convo mailbox x.2 (Ok (Other c)) /\
    (Engine.observer s' = true -> OnPermanentSendFailure conv x.1 ∈ Engine.log s').

(** What a flush has done to the state, with the rows it settled and those of
    them whose mark the store took. *)
Record flushed (conv : bytes) (convo : Conversation.t) (mailbox : bytes) (s : Engine.t)
    (sent marked rest : list (bytes * InnerFrame.t)) (r : Result unit) (s' : Engine.t) : Prop := {
  fl_db : Engine.db s' = mark_all marked.*1 (Engine.db s);
  fl_marked : sublist marked sent;
  fl_works : (forall w, store_fault w = (None, w)) -> marked = sent;
  fl_unmarked : forall x, x ∈ sent -> x ∉ marked ->
    exists c, (c = 400 \/ c = 413) /\ tried convo mailbox x.2 (Ok (Other c));
  fl_observer : Engine.observer s' = Engine.observer s;
  fl_log : exists l, Engine.log s' = Engine.log s ++ l;
  fl_settled : Forall (settled conv convo mailbox s') sent;
  fl_stop : r = Ok tt -> rest = [] \/ exists x rest' o, rest = x :: rest' /\ tried convo mailbox x.2 (Ok o) /\
              o <> Accepted /\ o <> Other 400 /\ o <> Other 413
}.

Lemma settled_mono conv convo mailbox s1 s2 x :
  Engine.observer s2 = Engine.observer s1 -> (exists l, Engine.log s2 = Engine.log s1 ++ l) ->
  settled conv convo mailbox s1 x -> settled conv convo mailbox s2 x.
Proof.
  intros Ho [l Hl] [Ha|(c & Hc & Ht & Hn)]; [by left|right]. exists c. split_and!; try done.
  intros Hob. rewrite Hl. apply elem_of_app. left. apply Hn. congruence.
Qed.

Lemma encrypt_eq peer f s :
  encrypt peer f s =
  match store_fault (Engine.world s) with
  | (Some text, w) => (Err (Storage text), Engine.with_world s w)
  | (None, w) => let '(r, k) := encrypt_message peer f (Engine.profile s) (Engine.keys s) in
                 (r, Engine.with_world (Engine.with_keys s k) w)
  end.
Proof.
  unfold encrypt, on_keys, store_call, get, mbind, st_bind. by destruct (store_fault _) as [[text|] w].
Qed.

Lemma encrypt_works `{!StoreWorks} peer f s :
  encrypt peer f s = let '(r, k) := encrypt_message peer f (Engine.profile s) (Engine.keys s) in (r, Engine.with_keys s k).
Proof. unfold encrypt, get, mbind, st_bind. by rewrite on_keys_works. Qed.

Lemma deposit_eq relay mailbox blob s :
  deposit relay mailbox blob s = let '(r, w) := http_deposit relay mailbox blob (Engine.world s) in
                                 (r, Engine.with_world s w).
Proof. done. Qed.

(** Every row of these ids marked sent. *)
Definition marked_one (id : bytes) (d : Db.t) : Db.t :=
  Db.with_messages d (map (fun m => if beq (MsgRow.id m) id then set_status 1 m else m) (Db.messages d)).

Lemma mark_eq id s :
  db_set (fun d => mark_message_sent d id) s =
  match store_fault (Engine.world s) with
  | (Some text, w) => (Err (Storage text), Engine.with_world s w)
  | (None, w) => (Ok tt, Engine.with_world (Engine.with_db s (marked_one id (Engine.db s))) w)
  end.
Proof. unfold db_set, on_db, store_call. by destruct (store_fault _) as [[text|] w]. Qed.

(** Nothing settled: the flush stopped at the first row. *)
Lemma flushed_none conv convo mailbox s s' rest r :
  Engine.db s' = Engine.db s -> Engine.observer s' = Engine.observer s -> Engine.log s' = Engine.log s ->
  (r = Ok tt -> rest = [] \/ exists x rest' o, rest = x :: rest' /\ tried convo mailbox x.2 (Ok o) /\
     o <> Accepted /\ o <> Other 400 /\ o <> Other 413) ->
  flushed conv convo mailbox s [] [] rest r s'.
Proof.
  intros Hd Ho Hl Hs. split; try done.
  - by rewrite Hd, mark_all_nil.
  - exists []. by rewrite app_nil_r.
Qed.

(** One more row settled and marked before the rest of the flush. *)
Lemma flushed_cons conv convo mailbox s s1 x sent marked rest r s' l :
  Engine.db s1 = marked_one x.1 (Engine.db s) ->
  Engine.observer s1 = Engine.observer s -> Engine.log s1 = Engine.log s ++ l ->
  settled conv convo mailbox s1 x ->
  flushed conv convo mailbox s1 sent marked rest r s' ->
  flushed conv convo mailbox s (x :: sent) (x :: marked) rest r s'.
Proof.
  intros Hd Ho Hl Hx [Fd Fm Fw Fu Fo [l' Fl] Fs Fr]. split; try done.
  - rewrite Fd, Hd, fmap_cons. by apply mark_all_cons.
  - by constructor.
  - intros Hw. by rewrite Fw.
  - intros y [->|Hy]%elem_of_cons [? ?]%not_elem_of_cons; [done|]. by apply Fu.
  - congruence.
  - exists (l ++ l'). rewrite Fl, Hl. by rewrite app_assoc.
  - constructor; [|done]. eapply settled_mono; [exact Fo| |exact Hx]. by exists l'.
Qed.

(** One more row settled whose mark the store did not take. *)
Lemma flushed_skip conv convo mailbox s s1 x sent marked rest r s' l c w text w' :
  store_fault w = (Some text, w') -> (c = 400 \/ c = 413) -> tried convo mailbox x.2 (Ok (Other c)) ->
  x ∉ sent ->
  Engine.db s1 = Engine.db s -> Engine.observer s1 = Engine.observer s -> Engine.log s1 = Engine.log s ++ l ->
  settled conv convo mailbox s1 x ->
  flushed conv convo mailbox s1 sent marked rest r s' ->
  flushed conv convo mailbox s (x :: sent) marked rest r s'.
Proof.
  intros Hf Hc Ht Hns Hd Ho Hl Hx [Fd Fm Fw Fu Fo [l' Fl] Fs Fr]. split; try done.
  - by rewrite Fd, Hd.
  - by constructor.
  - intros Hw. by rewrite Hw in Hf.
  - intros y [->|Hy]%elem_of_cons Hn; [by eauto|by apply Fu].
  - congruence.
  - exists (l ++ l'). rewrite Fl, Hl. by rewrite app_assoc.
  - constructor; [|done]. eapply settled_mono; [exact Fo| |exact Hx]. by exists l'.
Qed.

(** A row refused for good is reported before the flush goes on. *)
Lemma refused_reported conv convo mailbox s s1 (x : bytes * InnerFrame.t) c :
  (c =? 400) || (c =? 413) = true -> tried convo mailbox x.2 (Ok (Other c)) ->
  Engine.observer s1 = Engine.observer s -> Engine.log s1 = Engine.log s ->
  exists s2 l, emit_permanent_send_failure conv x.1 s1 = (Ok tt, s2) /\
    Engine.db s2 = Engine.db s1 /\ Engine.observer s2 = Engine.observer s /\ Engine.log s2 = Engine.log s ++ l /\
    settled conv convo mailbox s2 x.
Proof.
  intros Hc Ht Ho Hl. unfold emit_permanent_send_failure, notify, modify.
  assert (Hc' : c = 400 \/ c = 413) by (apply orb_true_iff in Hc as []; reflect_bools; auto).
  eexists _, (if Engine.observer s then [OnPermanentSendFailure conv x.1] else []). split; [done|].
  rewrite Ho. destruct (Engine.observer s) eqn:Hob; simpl; rewrite ?Hl, ?app_nil_r; split_and!; try done;
    right; exists c; split_and!; try done; simpl; [set_solver|congruence].
Qed.

Lemma flush_loop_spec conv convo mailbox : forall pending s r s',
  NoDup pending ->
  flush_loop conv convo mailbox pending s = (r, s') ->
  exists sent marked rest, pending = sent ++ rest /\ flushed conv convo mailbox s sent marked rest r s'.
Proof.
  induction pending as [|[id f] pending IH]; intros s r s' Hnd E.
  { exists [], [], []. split; [done|]. injection E as <- <-. apply flushed_none; auto. }
  apply NoDup_cons in Hnd as [Hni Hnd].
  assert (Hstop : forall s1 r1, Engine.db s1 = Engine.db s -> Engine.observer s1 = Engine.observer s ->
    Engine.log s1 = Engine.log s ->
    (r1 = Ok tt -> exists o, tried convo mailbox f (Ok o) /\ o <> Accepted /\ o <> Other 400 /\ o <> Other 413) ->
    exists sent marked rest, (id, f) :: pending = sent ++ rest /\ flushed conv convo mailbox s sent marked rest r1 s1).
  { intros s1 r1 ? ? ? Ho. exists [], [], ((id, f) :: pending). split; [done|]. apply flushed_none; try done.
    intros Hr. destruct (Ho Hr) as (o & ?). right. by eexists _, _, o. }
  cbn [flush_loop] in E. unfold mbind at 1, st_bind at 1 in E. rewrite encrypt_eq in E.
  destruct (store_fault (Engine.world s)) as [[text|] w0]; [injection E as <- <-; by apply Hstop|].
  destruct (encrypt_message _ f (Engine.profile s) (Engine.keys s)) as [[wire| |] k] eqn:Ee; cbv beta iota in E;
    [|injection E as <- <-; by apply Hstop..].
  unfold mbind at 1, st_bind at 1 in E. rewrite deposit_eq in E.
  destruct (http_deposit _ mailbox wire _) as [[o| |] w] eqn:Eo; cbv beta iota in E;
    [|injection E as <- <-; by apply Hstop..].
  assert (Ht : tried convo mailbox f (Ok o)) by (by eexists _, _, _, _, _, _).
  match type of E with _ ?x = _ => set (s1 := x) in E end.
  destruct o as [| |c].
  - unfold mbind at 1, st_bind at 1 in E. rewrite mark_eq in E.
    destruct (store_fault (Engine.world s1)) as [[text|] w1]; cbv beta iota in E;
      [injection E as <- <-; by apply Hstop|].
    destruct (IH _ _ _ Hnd E) as (sent & marked & rest & -> & Hf).
    exists ((id, f) :: sent), ((id, f) :: marked), rest. split; [done|].
    eapply (flushed_cons _ _ _ _ _ _ _ _ _ _ _ []); [| | | |exact Hf]; try done; [by rewrite app_nil_r|by left].
  - injection E as <- <-. apply Hstop; try done. intros _. by exists NotFound.
  - destruct ((c =? 400) || (c =? 413)) eqn:Ec.
    + unfold mbind at 1, st_bind at 1 in E. rewrite ignore_eq, mark_eq in E.
      destruct (store_fault (Engine.world s1)) as [[text|] w1] eqn:Ew; cbv beta iota in E;
        unfold mbind at 1, st_bind at 1 in E;
        match type of E with context [emit_permanent_send_failure conv id ?x] =>
          destruct (refused_reported conv convo mailbox s x (id, f) c Ec Ht eq_refl eq_refl)
            as (s2 & l & Em & Hdb & Hob & Hlog & Hset) end;
        cbn [fst] in Em; rewrite Em in E; destruct (IH _ _ _ Hnd E) as (sent & marked & rest & -> & Hf).
      * exists ((id, f) :: sent), marked, rest. split; [done|].
        eapply (flushed_skip _ _ _ s s2 (id, f)); try done; [|set_solver].
        apply orb_true_iff in Ec as []; reflect_bools; auto.
      * exists ((id, f) :: sent), ((id, f) :: marked), rest. split; [done|]. by eapply (flushed_cons _ _ _ s s2 (id, f)).
    + injection E as <- <-. apply Hstop; try done. intros _. apply orb_false_iff in Ec as [? ?]; reflect_bools.
      exists (Other c). split_and!; try done; congruence.
Qed.

(** A flush of a conversation whose peer inbox is not known does nothing. *)
Lemma flush_unrouted conv s :
  (forall convo, get_conversation (Engine.db s) conv = Ok (Some convo) -> Conversation.mailbox_send convo = None) ->
  exists r s', flush_pending conv s = (r, s') /\ Engine.db s' = Engine.db s /\
    ((forall w, store_fault w = (None, w)) -> r = Ok tt /\ s' = s).
Proof.
  intros Hn. unfold flush_pending, mbind, st_bind, attempt, db_get, store_call, read_r.
  destruct (store_fault (Engine.world s)) as [[text|] w] eqn:Ew; simpl.
  { eexists _, _. split; [reflexivity|]. split; [by destruct (Engine.observer _)|]. intros Hw. by rewrite Hw in Ew. }
  assert (Hw : (forall w, store_fault w = (None, w)) -> Engine.with_world s w = s).
  { intros Hw. rewrite Hw in Ew. injection Ew as <-. by destruct s. }
  unfold get_conversation in *. destruct (conv_row (Engine.db s) conv) as [row|] eqn:E; simpl; [|by eexists _, _; auto].
  pose proof (Hn _ eq_refl) as Hx. simpl in Hx. rewrite Hx. by eexists _, _; auto.
Qed.

Lemma pending_entries_NoDup d c l : db_ok d -> pending_chat d c = Ok l -> NoDup l.
Proof. intros Hd E. eapply NoDup_fmap_1, pending_NoDup; done. Qed.

Lemma flush_routed conv convo mailbox s r s' :
  db_ok (Engine.db s) -> get_conversation (Engine.db s) conv = Ok (Some convo) ->
  Conversation.mailbox_send convo = Some mailbox -> flush_pending conv s = (r, s') ->
  exists sent marked rest, pending_chat (Engine.db s) conv = Ok (sent ++ rest) /\
    pending_chat (Engine.db s') conv
      = Ok (List.filter (fun x => negb (bool_decide (x.1 ∈ marked.*1))) (sent ++ rest)) /\
    flushed conv convo mailbox s sent marked rest r s'.
Proof.
  intros Hd Hc Hm E.
  assert (Hpc : exists p, pending_chat (Engine.db s) conv = Ok p) by (eexists; by apply pending_chat_Ok).
  destruct Hpc as [p Hpc].
  assert (Hf : exists sent marked rest, p = sent ++ rest /\ flushed conv convo mailbox s sent marked rest r s').
  { assert (Hfail : forall e w, exists sent marked rest, p = sent ++ rest /\
      flushed conv convo mailbox s sent marked rest (Err e)
        (if Engine.observer s then Engine.push (Engine.with_world s w) (OnStorageError e) else Engine.with_world s w)).
    { intros e w. exists [], [], p. split; [done|]. destruct (Engine.observer s) eqn:Ho.
      - split; try done; [by rewrite mark_all_nil|by eexists].
      - by apply flushed_none. }
    unfold flush_pending, mbind, st_bind, attempt, db_get, store_call, read_r in E.
    destruct (store_fault (Engine.world s)) as [[text|] w]; [injection E as <- <-; apply Hfail|].
    change (Engine.db (Engine.with_world s w)) with (Engine.db s) in E. rewrite Hc in E. cbv beta iota in E.
    rewrite Hm in E. cbv beta iota in E. change (Engine.world (Engine.with_world s w)) with w in E.
    destruct (store_fault w) as [[text|] w1]; [injection E as <- <-; apply (Hfail _ w1)|].
    change (Engine.db (Engine.with_world _ w1)) with (Engine.db s) in E. rewrite Hpc in E.
    destruct (flush_loop_spec _ _ _ _ _ _ _ (pending_entries_NoDup _ _ _ Hd Hpc) E) as (sent & marked & rest & -> & [? ? ? ? ? ? ? ?]).
    exists sent, marked, rest. by split. }
  destruct Hf as (sent & marked & rest & -> & Hf). exists sent, marked, rest. split_and!; [done| |done].
  rewrite (fl_db _ _ _ _ _ _ _ _ _ Hf). destruct (mark_all_pending (Engine.db s) marked.*1 conv Hd) as (l & El & ->).
  congruence.
Qed.

(** Where the store works, what is left is what was not settled. *)
Lemma flush_routed_works `{!StoreWorks} conv convo mailbox s r s' :
  db_ok (Engine.db s) -> get_conversation (Engine.db s) conv = Ok (Some convo) ->
  Conversation.mailbox_send convo = Some mailbox -> flush_pending conv s = (r, s') ->
  exists sent rest, pending_chat (Engine.db s) conv = Ok (sent ++ rest) /\
    pending_chat (Engine.db s') conv = Ok rest /\ flushed conv convo mailbox s sent sent rest r s'.
Proof.
  intros Hd Hc Hm E. destruct (flush_routed _ _ _ _ _ _ Hd Hc Hm E) as (sent & marked & rest & Hp & Hp' & Hf).
  assert (marked = sent) as -> by apply (fl_works _ _ _ _ _ _ _ _ _ Hf), store_works.
  exists sent, rest. split_and!; [done| |done]. rewrite Hp', filter_rest; [done|]. by eapply pending_NoDup.
Qed.

(** A row saved and not yet flushed. *)
Lemma save_outgoing_Ok d id conv f now :
  db_ok d -> can_insert d id conv f ->
  exists d' m, save_outgoing d id conv f now = Ok (id, d') /\ db_ok d' /\
    (forall c, conv_row d' c = conv_row d c) /\
    (exists old, list_messages d conv = Ok old /\ list_messages d' conv = Ok (old ++ [m])) /\
    (exists p, pending_chat d conv = Ok p /\ pending_chat d' conv = Ok (p ++ [(id, f)])) /\
    m = stored_entry (message_row id conv Outgoing f 0 (unix_seconds_now now)).
Proof.
  intros Hd Hi. destruct (insert_message_Ok d id conv Outgoing f 0 now Hd Hi) as (E & Hd' & Hr).
  unfold save_outgoing. rewrite E. rsimpl. eexists _, _. split; [reflexivity|]. split; [exact Hd'|].
  split; [done|]. split_and!.
  - exists (stored_entry <$> List.filter (fun m => beq (MsgRow.conversation_id m) conv) (Db.messages d)).
    split; [by apply list_messages_Ok|]. rewrite list_messages_Ok by done. simpl.
    rewrite List.filter_app, fmap_app. simpl. by rewrite beq_refl.
  - exists (pending_entry <$> List.filter (is_pending conv) (Db.messages d)).
    split; [by apply pending_chat_Ok|]. rewrite pending_chat_Ok by done. simpl.
    rewrite List.filter_app, fmap_app. simpl. unfold is_pending at 2. simpl. rewrite beq_refl. simpl.
    unfold pending_entry at 2. simpl. rewrite payload_type_try_from_byte. by destruct f.
  - done.
Qed.

(** What a flush leaves of a conversation, whether or not it is routed. *)
Lemma flush_any `{!StoreWorks} conv s r s' p :
  db_ok (Engine.db s) -> pending_chat (Engine.db s) conv = Ok p -> flush_pending conv s = (r, s') ->
  exists n ids, Engine.db s' = mark_all ids (Engine.db s) /\ pending_chat (Engine.db s') conv = Ok (drop n p).
Proof.
  intros Hd Hp E.
  assert (Hun : (forall convo, get_conversation (Engine.db s) conv = Ok (Some convo) -> Conversation.mailbox_send convo = None) ->
    exists n ids, Engine.db s' = mark_all ids (Engine.db s) /\ pending_chat (Engine.db s') conv = Ok (drop n p)).
  { intros Hn. destruct (flush_unrouted conv s Hn) as (r' & s1 & E1 & Hdb & _). rewrite E in E1. injection E1 as -> ->.
    exists 0%nat, []. by rewrite mark_all_nil, Hdb. }
  destruct (get_conversation (Engine.db s) conv) as [[convo|]| |] eqn:Hc; try (by apply Hun).
  destruct (Conversation.mailbox_send convo) as [mailbox|] eqn:Hm; [|apply Hun; by intros c [= <-]].
  destruct (flush_routed_works _ _ _ _ _ _ Hd Hc Hm E) as (sent & rest & Hp' & Hr & Hf).
  exists (length sent), sent.*1. split; [by apply (fl_db _ _ _ _ _ _ _ _ _ Hf)|].
  rewrite Hr. f_equal. assert (p = sent ++ rest) as -> by congruence. by rewrite drop_app_length.
Qed.

(** A text sent: stored first, then flushed as far as the network goes. *)
Lemma send_chat_saved `{!StoreWorks} conv text id now s s' r w1 w2 :
  db_ok (Engine.db s) -> random_bytes 16 (Engine.world s) = (id, w1) -> system_secs w1 = (now, w2) ->
  can_insert (Engine.db s) id conv (InnerFrame.chat_v1 text) -> send_chat conv text s = (r, s') ->
  let m := stored_entry (message_row id conv Outgoing (InnerFrame.chat_v1 text) 0 (unix_seconds_now now)) in
  (r = Ok tt \/ r = Panic) /\
  (exists old, list_messages (Engine.db s) conv = Ok old /\ list_messages (Engine.db s') conv = Ok (old ++ [m])) /\
  exists p n, pending_chat (Engine.db s) conv = Ok p /\
    pending_chat (Engine.db s') conv = Ok (drop n (p ++ [(id, InnerFrame.chat_v1 text)])).
Proof.
  intros Hd Hr Hn Hi E.
  destruct (save_outgoing_Ok (Engine.db s) id conv _ now Hd Hi)
    as (d' & m & Hs & Hd' & Hrow & (old & Ho & Ho') & (p & Hp & Hp') & ->).
  unfold send_chat, mbind, st_bind, random, clock, on_net, zoom in E. simpl in E.
  rewrite Hr in E. simpl in E. rewrite Hn in E. simpl in E. rewrite on_db_works in E. simpl in E. rewrite Hs in E.
  set (s2 := Engine.with_db _ d') in E.
  rewrite ignore_eq in E. destruct (flush_pending conv s2) as [r2 s3] eqn:Ef.
  assert (Hs' : s' = s3 /\ (r = Ok tt \/ r = Panic))
    by (destruct r2; injection E as <- <-; auto). destruct Hs' as [-> Hres].
  destruct (flush_any conv s2 r2 s3 _ Hd' Hp' Ef) as (n & ids & Hdb & Hpend).
  split_and!; [done| |by exists p, n]. exists old. by rewrite Hdb, mark_all_history.
Qed.

(** What has become of a row that left the outbox. *)
Definition left_outbox (convo : Conversation.t) (mailbox : bytes) (x : bytes * InnerFrame.t) : Prop :=
  tried convo mailbox x.2 (Ok Accepted) \/
  exists c, (c = 400 \/ c = 413) /\ tried convo mailbox x.2 (Ok (Other c)).

(** An outbox that a flush empties was routed, and each row is settled. *)
Lemma flush_emptied `{!StoreWorks} conv s r s' p :
  db_ok (Engine.db s) -> pending_chat (Engine.db s) conv = Ok p -> p <> [] -> flush_pending conv s = (r, s') ->
  pending_chat (Engine.db s') conv = Ok [] ->
  exists convo mailbox, get_conversation (Engine.db s) conv = Ok (Some convo) /\
    Conversation.mailbox_send convo = Some mailbox /\ Forall (left_outbox convo mailbox) p.
Proof.
  intros Hd Hp Hne E Hp'.
  destruct (get_conversation (Engine.db s) conv) as [[convo|]| |] eqn:Hc; try done;
    [destruct (Conversation.mailbox_send convo) as [mailbox|] eqn:Hm|];
    try (destruct (flush_unrouted conv s) as (r1 & s1 & E1 & Hdb & _); [intros c ?; congruence|];
         rewrite E in E1; injection E1 as -> ->; rewrite Hdb in Hp'; congruence).
  destruct (flush_routed_works _ _ _ _ _ _ Hd Hc Hm E) as (sent & rest & Hs & Hr & Hf).
  assert (rest = []) as -> by congruence. rewrite app_nil_r in Hs. assert (p = sent) as -> by congruence.
  exists convo, mailbox. split_and!; [done|done|]. eapply Forall_impl; [apply Hf|].
  intros x [Ha|(c & Hc4 & Ht & _)]; [by left|right; eauto].
Qed.

(** A text sent, whatever comes of it. *)
Lemma send_chat_cases `{!StoreWorks} conv text s s' r :
  db_ok (Engine.db s) -> length conv = 16%nat -> (forall w, length (random_bytes 16 w).1 = 16%nat) ->
  send_chat conv text s = (r, s') ->
  ((exists e, r = Err e) /\ Engine.db s' = Engine.db s) \/
  ((r = Ok tt \/ r = Panic) /\ db_ok (Engine.db s') /\
   exists id p n, pending_chat (Engine.db s) conv = Ok p /\
     pending_chat (Engine.db s') conv = Ok (drop n (p ++ [(id, InnerFrame.chat_v1 text)])) /\
     (pending_chat (Engine.db s') conv = Ok [] ->
      exists convo mailbox, get_conversation (Engine.db s) conv = Ok (Some convo) /\
        Conversation.mailbox_send convo = Some mailbox /\
        Forall (left_outbox convo mailbox) (p ++ [(id, InnerFrame.chat_v1 text)]))).
Proof.
  intros Hd Hl Hid E.
  unfold send_chat, mbind, st_bind, random, clock, on_net, zoom in E. simpl in E.
  specialize (Hid (Engine.world s)). destruct (random_bytes 16 _) as [id w1]. simpl in Hid, E.
  destruct (system_secs w1) as [now w2]. simpl in E. rewrite on_db_works in E. simpl in E.
  destruct (save_outgoing (Engine.db s) id conv _ now) as [[x d']|e|] eqn:Es.
  2: { left. injection E as <- <-. eauto. }
  2: { revert Es. unfold save_outgoing, insert_message. by destruct (_ || _). }
  right. assert (Hi : can_insert (Engine.db s) id conv (InnerFrame.chat_v1 text)).
  { unfold save_outgoing in Es. destruct (insert_message _ _ _ _ _ _ _) as [[m d1]| |] eqn:Em; [|done..].
    eapply insert_message_can; [done|done|simpl; lia|exact Em]. }
  destruct (save_outgoing_Ok _ _ _ _ now Hd Hi) as (d1 & m & Hs & Hd' & Hrow & _ & (p & Hp & Hp') & _).
  rewrite Hs in Es. injection Es as _ <-.
  set (s2 := Engine.with_db _ d1) in E. rewrite ignore_eq in E.
  destruct (flush_pending conv s2) as [r2 s3] eqn:Ef.
  assert (Hs' : s' = s3 /\ (r = Ok tt \/ r = Panic)) by (destruct r2; injection E as <- <-; auto).
  destruct Hs' as [-> Hres].
  destruct (flush_any conv s2 r2 s3 _ Hd' Hp' Ef) as (n & ids & Hdb & Hpend).
  split_and!; [done|rewrite Hdb; by apply mark_all_ok|]. exists id, p, n. split_and!; [done|done|]. intros Hempty.
  destruct (flush_emptied conv s2 r2 s3 _ Hd' Hp' ltac:(by destruct p) Ef Hempty) as (convo & mailbox & Hc & Hm & Hf).
  exists convo, mailbox. split_and!; [|done|done]. revert Hc. unfold get_conversation. simpl. by rewrite Hrow.
Qed.
End sending.

(** ** Properties *)

(** C7: flushing.  On any network and with a store that may fail at any access,
    a flush of a routed conversation settles a prefix of its pending messages,
    in order: a settled message was encrypted and accepted by the relay, or was
    refused for good and reported to the observer; a flush that returns has
    settled all, or stopped at a message the relay refused for now.  The store
    changes in the status of exactly the settled rows whose mark it took, and
    only these leave the outbox; one it did not take was refused for good (an
    accepted one ends the flush).  Where the store works, all of the settled
    ones left, and the rest is pending.  No other conversation's outbox and no
    history changes. *)
Theorem flush_in_order `{Platform} `{SqlText} `{LibSignal} `{RatchetLib} `{!Crypto}
    (conv : bytes) (convo : Conversation.t) (mailbox : bytes) (s s' : Engine.t) (r : Result unit) :
  db_ok (Engine.db s) -> get_conversation (Engine.db s) conv = Ok (Some convo) ->
  Conversation.mailbox_send convo = Some mailbox -> flush_pending conv s = (r, s') ->
  exists sent marked rest,
    pending_chat (Engine.db s) conv = Ok (sent ++ rest) /\
    Engine.db s' = mark_all marked.*1 (Engine.db s) /\ sublist marked sent /\
    pending_chat (Engine.db s') conv
      = Ok (List.filter (fun x => negb (bool_decide (x.1 ∈ marked.*1))) (sent ++ rest)) /\
    (forall x, x ∈ sent -> x ∉ marked -> exists c, (c = 400 \/ c = 413) /\ tried convo mailbox x.2 (Ok (Other c))) /\
    ((forall w, store_fault w = (None, w)) -> marked = sent /\ pending_chat (Engine.db s') conv = Ok rest) /\
    Forall (settled conv convo mailbox s') sent /\
    (r = Ok tt -> rest = [] \/ exists x rest' o, rest = x :: rest' /\ tried convo mailbox x.2 (Ok o) /\
       o <> Accepted /\ o <> Other 400 /\ o <> Other 413) /\
    (forall c, c <> conv -> pending_chat (Engine.db s') c = pending_chat (Engine.db s) c) /\
    (forall c, list_messages (Engine.db s') c = list_messages (Engine.db s) c).
Proof.
  intros Hd Hc Hm E. destruct (flush_routed _ _ _ _ _ _ Hd Hc Hm E)
    as (sent & marked & rest & Hp & Hp' & [Fd Fm Fw Fu _ _ Fs Fr]).
  exists sent, marked, rest. split_and!; try done.
  - intros Hw. pose proof (Fw Hw) as ->. split; [done|]. rewrite Hp', filter_rest; [done|]. by eapply pending_NoDup.
  - intros c Hne. rewrite Fd. destruct (mark_all_pending (Engine.db s) marked.*1 c Hd) as (l & El & ->).
    rewrite El. f_equal. apply filter_all, Forall_forall. intros x Hx.
    rewrite bool_decide_eq_false_2; [done|]. intros Hin.
    apply (pending_disjoint _ _ _ _ _ x.1 Hd Hne El Hp); [by apply list_elem_of_fmap_2|].
    rewrite fmap_app. apply elem_of_app. left. apply list_elem_of_fmap in Hin as (y & -> & Hy).
    apply list_elem_of_fmap_2. by eapply sublist_subseteq.
  - intros c. rewrite Fd. by apply mark_all_history.
Qed.

(** The first message is accepted, the second meets a full relay. *)
Lemma flush_in_order_witness :
  let s := demo_engine two_pending [(202, []); (503, [])] in
  exists s', flush_pending demo_conv s = (Ok tt, s') /\
    pending_chat (Engine.db s') demo_conv = Ok [(replicate 16 2, InnerFrame.chat_v1 (bstr "you"))].
Proof.
  intros s. exists (flush_pending demo_conv s).2.
  assert (Hf : flush_pending demo_conv s = (Ok tt, (flush_pending demo_conv s).2)) by (vm_compute; reflexivity).
  split; [exact Hf|].
  destruct (flush_in_order demo_conv _ peer_box s _ _ two_pending_ok eq_refl eq_refl Hf)
    as (sent & marked & rest & H1 & H2 & _).
  vm_compute; reflexivity.
Defined.

(** C27: nothing sent is lost, where the store works.  Sending a text first stores it, so whatever the
    network, the library or the flush does afterwards (error and panic
    included) the text is the last message of the conversation's history, and
    what is left in the outbox is a suffix of the former outbox followed by
    the new message. *)
Theorem send_chat_durable `{StoreWorks} `{SqlText} `{LibSignal} `{RatchetLib} `{!Crypto}
    (conv text id : bytes) (now : option Z) (s s' : Engine.t) (r : Result unit) (w1 w2 : World) :
  db_ok (Engine.db s) -> random_bytes 16 (Engine.world s) = (id, w1) -> system_secs w1 = (now, w2) ->
  can_insert (Engine.db s) id conv (InnerFrame.chat_v1 text) -> send_chat conv text s = (r, s') ->
  (r = Ok tt \/ r = Panic) /\
  (exists old m, list_messages (Engine.db s) conv = Ok old /\
     list_messages (Engine.db s') conv = Ok (old ++ [m]) /\
     StoredMessage.id m = id /\ StoredMessage.direction m = Outgoing /\ StoredMessage.body m = text) /\
  exists p n, pending_chat (Engine.db s) conv = Ok p /\
    pending_chat (Engine.db s') conv = Ok (drop n (p ++ [(id, InnerFrame.chat_v1 text)])).
Proof.
  intros Hd Hr Hn Hi E. destruct (send_chat_saved _ _ _ _ _ _ _ _ _ Hd Hr Hn Hi E) as (Hres & (old & Ho & Ho') & Hp).
  split_and!; [done| |done]. by eexists _, _.
Qed.

(** The relay is down: the text is stored and stays pending. *)
Lemma send_chat_durable_witness :
  let s := demo_engine two_pending [] in
  exists s', send_chat demo_conv (bstr "hola") s = (Ok tt, s') /\
    exists old m, list_messages (Engine.db s') demo_conv = Ok (old ++ [m]) /\
      StoredMessage.body m = bstr "hola".
Proof.
  intros s. exists (send_chat demo_conv (bstr "hola") s).2.
  assert (Hf : send_chat demo_conv (bstr "hola") s = (Ok tt, (send_chat demo_conv (bstr "hola") s).2))
    by (vm_compute; reflexivity).
  split; [exact Hf|].
  destruct (send_chat_durable demo_conv (bstr "hola") (replicate 16 7) (Some 1000) s _ _ [] []
    two_pending_ok eq_refl eq_refl ltac:(unfold can_insert; by_compute) Hf) as (_ & (old & m & _ & H1 & _ & _ & H2) & _).
  exists old, m. split; [exact H1|exact H2].
Defined.
