(* ===== verification/Ffi.v ===== *)
(** The foreign-function surface ([tezca-core/src/ffi.rs]): the error classes
    the user interface sees, the mirrored records, the callback adapters, and
    every method of [FfiClient] over the client facade.  Ids and keys cross as
    byte vectors and are checked here. *)

From stdpp Require Import pretty.
From S2P Require Import Prelude Errors Utf8 Config Envelope Cursor Pairing Recovery Storage Keys.
From S2P Require Import Transport Tls Open Session Engine Client EngineDemo EngineRuns EngineSend.

(** ** Mirrored types *)

Inductive FfiOfferExpiryDetail := FfiExpired | FfiNotYetValid.

Module TitlanError.
Inductive t :=
  | PairingUnavailable
  | OfferExpired (issued_at ttl_s now : Z) (detail : FfiOfferExpiryDetail)
  | OfferSignatureInvalid
  | ProofOfScanFailed
  | Malformed (msg : string)
  | Protocol (msg : string)
  | Network (msg : string)
  | Other (msg : string).

(** [impl From<CoreError> for TitlanError] *)
Definition from (e : CoreError) : t :=
  match e with
  | Errors.PairingUnavailable => PairingUnavailable
  | Errors.OfferExpired i ttl n d =>
    OfferExpired i ttl n match d with Expired => FfiExpired | NotYetValid => FfiNotYetValid end
  | Errors.OfferSignatureInvalid => OfferSignatureInvalid
  | Errors.ProofOfScanFailed => ProofOfScanFailed
  | Errors.Malformed m => Malformed m
  | UnsupportedVersion got => Malformed ("unsupported version " +:+ pretty got)
  | Signal m => Protocol m
  | Errors.Network m => Network m
  | other => Other (display other)
  end.
End TitlanError.

Module FfiConnectionState.
Inductive t := Connecting | Online | Offline | Backoff (secs : Z) | Recovering | RePairRequired.
Definition from (s : ConnectionState) : t :=
  match s with
  | Engine.Connecting => Connecting
  | Engine.Online => Online
  | Engine.Offline => Offline
  | Engine.Backoff secs => Backoff secs
  | Engine.Recovering => Recovering
  | Engine.RePairRequired => RePairRequired
  end.
End FfiConnectionState.

Module FfiMessage.
Record t := mk {
  id : bytes;
  conversation_id : bytes;
  incoming : bool;
  payload_type : Z;
  type_version : Z;
  body : bytes;
  sent_at : option Z;
  received_at : option Z
}.
Definition from (m : StoredMessage.t) : t :=
  mk (StoredMessage.id m) (StoredMessage.conversation_id m)
     match StoredMessage.direction m with Incoming => true | Outgoing => false end
     (StoredMessage.payload_type m) (StoredMessage.type_version m) (StoredMessage.body m)
     (StoredMessage.sent_at m) (StoredMessage.received_at m).
End FfiMessage.

Module FfiConversation.
Record t := mk { id : bytes; label : option (list Z); created_at : Z; last_activity_at : Z }.
Definition from (c : ConversationSummary.t) : t :=
  mk (ConversationSummary.id c) (ConversationSummary.label c) (ConversationSummary.created_at c)
     (ConversationSummary.last_activity_at c).
End FfiConversation.

Module FfiOfferValidity.
Record t := mk { issued_at : Z; ttl_s : Z }.
End FfiOfferValidity.

(** ** Callbacks *)

(** Calls of [FfiMessageReceiver] and [FfiConnectionObserver]. *)
Inductive FfiCall :=
  | FfiOnMessage (conversation_id : bytes) (message : FfiMessage.t)
  | FfiOnState (conversation_id : bytes) (state : FfiConnectionState.t)
  | FfiOnNeedsRepair (conversation_id : bytes)
  | FfiOnPermanentSendFailure (conversation_id message_id : bytes)
  | FfiOnStorageError (detail : string).

(** [ReceiverAdapter] and [ObserverAdapter]; acks and task starts are not
    calls of either. *)
Definition adapt (n : Notice) : option FfiCall :=
  match n with
  | OnMessage c m => Some (FfiOnMessage c (FfiMessage.from m))
  | OnState c st => Some (FfiOnState c (FfiConnectionState.from st))
  | OnNeedsRepair c => Some (FfiOnNeedsRepair c)
  | OnPermanentSendFailure c m => Some (FfiOnPermanentSendFailure c m)
  | OnStorageError e => Some (FfiOnStorageError (display e))
  | AckSent _ | SpawnListener _ | SpawnPairing _ _ _ => None
  end.

(** What the user interface was told, in order. *)
Definition callbacks `{Platform} (s : Engine.t) : list FfiCall := omap adapt (Engine.log s).

(** ** The client object *)

Abbreviation FfiResult := (result TitlanError.t).

(** [bytes.try_into()] into [\[u8; 16\]] *)
Definition conv_id (b : bytes) : FfiResult bytes :=
  if (length b =? 16)%nat then Ok b else Err (TitlanError.Other "conversation id must be 16 bytes").

Module FfiClient.
Section ffi.
Context `{Platform} `{SqlText} `{LibSignal} `{RatchetLib} `{!Crypto}.

(** The object holds the client; a method returns a value or an error of the
    surface and leaves the client. *)
Definition method (A : Type) : Type := Engine.t -> FfiResult A * Engine.t.

(** [Ok(self.inner.f(..)?)] *)
Definition call {A} (m : st Engine.t A) : method A :=
  fun s => let '(r, s') := m s in (map_err TitlanError.from r, s').

(** [Ok(self.inner.f(&conv_id(&conversation_id)?, ..)?)] *)
Definition call_on {A} (conversation_id : bytes) (m : bytes -> st Engine.t A) : method A :=
  fun s => match conv_id conversation_id with
           | Ok c => call (m c) s
           | Err e => (Err e, s)
           | Panic => (Panic, s)
           end.

Definition map_ok {A B} (f : A -> B) (m : method A) : method B :=
  fun s => let '(r, s') := m s in (f <$> r, s').

Definition generate_db_key : World -> bytes * World :=
  fun w => let '(k, w') := DbKey.generate w in (DbKey.as_bytes k, w').

Section opening.
Context `{!Tls} `{Sqlcipher}.
(** The key's length is checked before the disk is touched. *)
Definition open (a : anchor) (db_path db_key my_relay_url : bytes) (w : World)
    : Disk -> FfiResult Engine.t * Disk :=
  fun d =>
  if (length db_key =? 32)%nat then
    let '(r, d') := TitlanClient.open a db_path (DbKey.from_bytes db_key) my_relay_url w d in
    (map_err TitlanError.from r, d')
  else (Err (TitlanError.Other "db key must be 32 bytes"), d).
End opening.

Definition initialize_identity (g : Generated) (s : Engine.t) : option (FfiResult unit * Engine.t) :=
  '(r, s') ← TitlanClient.initialize_identity g s; Some (map_err TitlanError.from r, s').
Definition is_initialized : method bool := call TitlanClient.is_initialized.
Definition export_pairing_offer (new_record : Z -> PreKeyRecord) : method bytes :=
  map_ok PairingPayload.as_bytes (call (TitlanClient.export_pairing_offer new_record)).
Definition begin_pairing_from_offer (payload : bytes) (ins : list HandoffInput) : method (option bytes) :=
  call (TitlanClient.begin_pairing_from_offer payload ins).
Definition peek_offer_relay (payload : bytes) : method bytes :=
  call (pure_r (TitlanClient.peek_offer_relay payload)).
Definition peek_offer_validity (payload : bytes) : method FfiOfferValidity.t :=
  map_ok (fun v => FfiOfferValidity.mk (OfferValidity.issued_at v) (OfferValidity.ttl_s v))
    (call (pure_r (TitlanClient.peek_offer_validity payload))).
Definition list_conversations : method (list bytes) := call TitlanClient.list_conversations.
Definition list_conversation_summaries : method (list FfiConversation.t) :=
  map_ok (map FfiConversation.from) (call TitlanClient.list_conversation_summaries).
Definition set_conversation_label (conversation_id : bytes) (label : option (list Z)) : method unit :=
  call_on conversation_id (fun c => TitlanClient.set_conversation_label c label).
Definition set_conversation_relay (conversation_id url : bytes) : method unit :=
  call_on conversation_id (fun c => TitlanClient.set_conversation_relay c url).
Definition send_chat (conversation_id text : bytes) : method unit :=
  call_on conversation_id (fun c => TitlanClient.send_chat c text).
Definition messages (conversation_id : bytes) : method (list FfiMessage.t) :=
  map_ok (map FfiMessage.from) (call_on conversation_id TitlanClient.messages).
Definition start_sync : method unit := call TitlanClient.start_sync.
Definition stop_sync : method unit := map_ok (fun _ => tt) (call TitlanClient.stop_sync).
End ffi.
End FfiClient.

(** ** What a parser can complain about *)

Definition structural (e : CoreError) : Prop :=
  match e with Malformed _ | UnsupportedVersion _ => True | _ => False end.

Definition err_structural {A} (r : Result A) : Prop := match r with Err e => structural e | _ => True end.

Definition complains {A} (p : parser A) : Prop := forall c, err_structural (p c).

Lemma complains_bind {A B} (p : parser A) (k : A -> parser B) :
  complains p -> (forall a, complains (k a)) -> complains (mbind k p).
Proof. intros Hp Hk c. unfold mbind, parser_bind. specialize (Hp c). destruct (p c) as [[a c']| |]; [apply Hk|done..]. Qed.

Lemma complains_ret {A} (a : A) : complains (mret a).
Proof. done. Qed.

Lemma complains_lift {A} (r : Result A) : err_structural r -> complains (lift r).
Proof. intros Hr c. unfold lift. by destruct r. Qed.

Lemma complains_finish why : complains (finish why).
Proof. intros c. unfold finish. by destruct (_ =? _). Qed.

Lemma err_structural_bind {A B} (r : Result A) (f : A -> Result B) :
  err_structural r -> (forall a, err_structural (f a)) -> err_structural (mbind f r).
Proof. intros Hr Hf. destruct r; [apply Hf|done..]. Qed.

Lemma ensure_structural b e : structural e -> err_structural (ensure b e).
Proof. by destruct b. Qed.

Lemma ok_or_structural {A} (o : option A) e : structural e -> err_structural (ok_or o e).
Proof. by destruct o. Qed.

Lemma complains_take n : complains (take_n n).
Proof.
  intros c. unfold take_n. apply err_structural_bind; [by apply ok_or_structural|]. intros stop.
  destruct (_ <? _); [done|]. unfold slice. by destruct (_ && _).
Qed.

Create HintDb complains.
#[export] Hint Resolve complains_ret complains_finish complains_take ensure_structural ok_or_structural : complains.

Lemma complains_array n : complains (array_field n).
Proof.
  apply complains_bind; [apply complains_take|]. intros b. apply complains_lift.
  unfold to_array. by destruct (_ =? _).
Qed.

Lemma complains_uint n : complains (uint n).
Proof.
  apply complains_bind; [apply complains_take|]. intros b. apply complains_bind; [|done].
  intros a. apply complains_lift. unfold to_array. by destruct (_ =? _).
Qed.

Lemma complains_u8 : complains u8.
Proof.
  apply complains_bind; [apply complains_take|]. intros b. apply complains_lift. unfold index.
  destruct (_ && _); [|done]. by destruct (_ !! _).
Qed.

Lemma complains_bytes : complains bytes_field.
Proof. apply complains_bind; [apply complains_uint|]. intros n. apply complains_take. Qed.

#[export] Hint Resolve complains_array complains_uint complains_u8 complains_bytes : complains.

#[export] Hint Extern 1 (complains _) => apply complains_uint : complains.

(** Takes a parser apart, one field at a time. *)
Ltac complains :=
  repeat first
    [ solve [auto with complains]
    | apply complains_lift; unfold utf8; solve [auto with complains | by apply ensure_structural | by apply ok_or_structural]
    | apply complains_bind; [|intros ?] ].

Lemma run_cursor_structural {A} (p : parser A) b : complains p -> err_structural (run_cursor p b).
Proof. intros Hp. unfold run_cursor. apply err_structural_bind; [apply Hp|]. by intros []. Qed.

Lemma offer_structure_structural b : err_structural (parse_offer_v3_structure b).
Proof. apply run_cursor_structural. unfold offer_fields. complains. Qed.

Lemma bundle_structural b : err_structural (parse b).
Proof. apply run_cursor_structural. unfold bundle_fields. complains. Qed.

(** ** Why an offer is refused *)

Section faults.
Context `{Platform} `{SqlText} `{LibSignal} `{RatchetLib} `{!Crypto}.

(** The payload is the signed form of [o], signed by the identity in [o]. *)
Definition signed (b : bytes) (o : OfferV3.t) : Prop :=
  exists sig d pk, b = offer_wire o ++ sig /\ parse (OfferV3.bundle o) = Ok d /\
    public_key_deserialize (BundleData.identity_key d) = Ok pk /\
    verify_signature pk (offer_wire o) sig = true.

(** What each error of the surface says about the payload. *)
Inductive offer_fault (b : bytes) (now : Z) : TitlanError.t -> Prop :=
  | not_an_offer m : (forall o, parse_offer_v3_structure b <> Ok o) -> offer_fault b now (TitlanError.Malformed m)
  | bad_bundle o m : parse_offer_v3_structure b = Ok o -> (forall d, parse (OfferV3.bundle o) <> Ok d) ->
      offer_fault b now (TitlanError.Malformed m)
  | bad_lifetime o m : signed b o -> OfferV3.ttl_s o = 0 \/ MAX_OFFER_TTL_S < OfferV3.ttl_s o ->
      offer_fault b now (TitlanError.Malformed m)
  | bad_key o d m : parse_offer_v3_structure b = Ok o -> parse (OfferV3.bundle o) = Ok d ->
      public_key_deserialize (BundleData.identity_key d) = Err (Signal m) ->
      offer_fault b now (TitlanError.Protocol m)
  | bad_signature o sig d pk : b = offer_wire o ++ sig -> parse (OfferV3.bundle o) = Ok d ->
      public_key_deserialize (BundleData.identity_key d) = Ok pk ->
      verify_signature pk (offer_wire o) sig = false ->
      offer_fault b now TitlanError.OfferSignatureInvalid
  | too_early o : signed b o -> now + FUTURE_SKEW_S < OfferV3.issued_at o ->
      offer_fault b now (TitlanError.OfferExpired (OfferV3.issued_at o) (OfferV3.ttl_s o) now FfiNotYetValid)
  | too_late o : signed b o -> OfferV3.issued_at o + OfferV3.ttl_s o <= now ->
      offer_fault b now (TitlanError.OfferExpired (OfferV3.issued_at o) (OfferV3.ttl_s o) now FfiExpired).

Lemma structural_malformed e : structural e -> exists m, TitlanError.from e = TitlanError.Malformed m.
Proof. destruct e; simpl; intros []; eauto. Qed.

(** The tests after the signature. *)
Lemma window_fault b o now e :
  signed b o -> in_u64 (OfferV3.issued_at o) -> 0 <= now < u64_max ->
  (_ ← ensure (negb ((OfferV3.ttl_s o =? 0) || (MAX_OFFER_TTL_S <? OfferV3.ttl_s o)))
              (Malformed "offer ttl_s out of range");
   _ ← ensure (OfferV3.issued_at o <=? saturating_add u64_max now FUTURE_SKEW_S)
              (OfferExpired (OfferV3.issued_at o) (OfferV3.ttl_s o) now NotYetValid);
   _ ← ensure (now <? saturating_add u64_max (OfferV3.issued_at o) (OfferV3.ttl_s o))
              (OfferExpired (OfferV3.issued_at o) (OfferV3.ttl_s o) now Expired);
   Ok o) = Err e -> offer_fault b now (TitlanError.from e).
Proof.
  intros Hs Hi Hnow. unfold saturating_add, in_u64, ensure in *.
  destruct (negb _) eqn:E; rsimpl.
  2: { intros [= <-]. eapply bad_lifetime; [exact Hs|]. reflect_bools. destruct E as [E|E]; reflect_bools; auto. }
  destruct (_ <=? _) eqn:E1; rsimpl; reflect_bools.
  2: { intros [= <-]. apply too_early; [done|]. lia. }
  destruct (now <? _) eqn:E2; rsimpl; reflect_bools; [done|]. intros [= <-]. apply too_late; [done|]. lia.
Qed.

(** Every refusal of the parser is one of these faults. *)
Lemma refusal_fault b now :
  bytes_ok b -> zlen b <= usize_max -> 0 <= now < u64_max ->
  (forall k, match public_key_deserialize k with Err (Signal _) | Ok _ => True | _ => False end) ->
  match parse_pairing_offer_v3 public_key_deserialize verify_signature b now with
  | Ok _ => True
  | Err e => offer_fault b now (TitlanError.from e)
  | Panic => False
  end.
Proof.
  intros Hb Hl Hnow Hk. unfold parse_pairing_offer_v3.
  pose proof (offer_structure_structural b) as Hst.
  destruct (parse_offer_v3_structure b) as [o|e|] eqn:Eo; rsimpl.
  3: { eapply (run_no_panic offer_fields (fun x => x)); [apply yields_offer|exact Hb|exact Eo]. }
  2: { destruct (structural_malformed e Hst) as [m ->]. apply not_an_offer. by rewrite Eo. }
  pose proof Eo as Hw. apply offer_structure_iff in Hw as (sig & -> & Hok & Hsig); [|done..].
  pose proof Hok as ([Hbb Hbl] & _ & _ & _ & _ & Hi & _). pose proof (bundle_structural (OfferV3.bundle o)) as Hst2.
  destruct (parse (OfferV3.bundle o)) as [d|e|] eqn:Ed; rsimpl.
  3: { eapply (run_no_panic bundle_fields finish_bundle); [apply yields_bundle|exact Hbb|exact Ed]. }
  2: { destruct (structural_malformed e Hst2) as [m ->]. eapply bad_bundle; [exact Eo|]. by rewrite Ed. }
  specialize (Hk (BundleData.identity_key d)).
  destruct (public_key_deserialize (BundleData.identity_key d)) as [pk|[]|] eqn:Ek; rsimpl; try done.
  2: { by eapply bad_key. }
  destruct (split_signature (offer_wire o) sig Hsig) as [-> E2]. rsimpl. rewrite E2. rsimpl.
  destruct (verify_signature pk (offer_wire o) sig) eqn:Ev; rsimpl; [|by eapply bad_signature].
  assert (Hs : signed (offer_wire o ++ sig) o) by (by exists sig, d, pk).
  pose proof (fun e => window_fault _ o now e Hs Hi Hnow) as Hwin. revert Hwin.
  match goal with |- _ -> match ?r with _ => _ end => destruct r as [x|e|] eqn:Er end; [done|by auto|].
  intros _. revert Er. unfold ensure. by destruct (negb _), (_ <=? _), (now <? _).
Qed.
End faults.

(** ** Properties *)

(** C16: what a refused offer looks like to the user.  A scanned payload that is
    not an acceptable offer makes pairing fail across the surface after reading
    the clock only (no key, row, request or notice), and the error says what is
    wrong with it: malformed for bytes that are not a version 3 offer (older
    versions included), a bad bundle or lifetime; a crypto class only when the
    bytes are an offer whose key or signature does not check; expired, with the
    offer's own fields, only when it is correctly signed; never network,
    internal, unavailable or proof-of-scan. *)
Theorem pairing_error_surface `{Platform} `{SqlText} `{LibSignal} `{RatchetLib} `{!Crypto}
    (payload : bytes) (ins : list HandoffInput) (s : Engine.t) (now : Z) (w : World) :
  bytes_ok payload -> zlen payload <= usize_max -> 0 <= now < u64_max ->
  (forall k, match public_key_deserialize k with Err (Signal _) | Ok _ => True | _ => False end) ->
  system_secs (Engine.world s) = (Some now, w) ->
  (forall o, parse_pairing_offer_v3 public_key_deserialize verify_signature payload now <> Ok o) ->
  exists e, FfiClient.begin_pairing_from_offer payload ins s = (Err e, Engine.with_world s w) /\
    offer_fault payload now e.
Proof.
  intros Hb Hl Hnow Hk Hc Hno. pose proof (refusal_fault payload now Hb Hl Hnow Hk) as Hf.
  destruct (parse_pairing_offer_v3 _ _ payload now) as [o|e|] eqn:E; [by destruct (Hno o)| |done].
  exists (TitlanError.from e). split; [|exact Hf].
  unfold FfiClient.begin_pairing_from_offer, FfiClient.call, TitlanClient.begin_pairing_from_offer,
    begin_pairing_from_offer, send_pair_ack, unix_now, clock, on_net, zoom, mbind, st_bind.
  rewrite Hc. unfold pure_r. simpl. by rewrite E.
Qed.

Lemma pairing_error_surface_witness :
  exists e, FfiClient.begin_pairing_from_offer [2; 0] [] (demo_engine two_pending [])
            = (Err e, demo_engine two_pending []) /\ offer_fault [2; 0] 1000 e /\
            e = TitlanError.Malformed "unsupported version 2".
Proof.
  destruct (pairing_error_surface [2; 0] [] (demo_engine two_pending []) 1000 []) as (e & He & Hf).
  - by_compute.
  - vm_compute. congruence.
  - vm_compute. split; congruence.
  - intros k. exact I.
  - reflexivity.
  - intros o. vm_compute. congruence.
  - exists e. split; [exact He|]. split; [exact Hf|]. vm_compute in He. by injection He as <-.
Defined.

(** What is sent is shown, where the store works.  A text handed to the surface for a stored
    conversation is the last entry of that conversation's message list read
    back through the surface, with its text, its direction and the local clock,
    after the entries that were there; that holds whatever the network does,
    and a call that returns has not failed.  An id of another length changes
    nothing and is refused as an internal error. *)
Theorem sent_is_shown `{StoreWorks} `{SqlText} `{LibSignal} `{RatchetLib} `{!Crypto}
    (conv text id : bytes) (now : option Z) (s s' : Engine.t) (r : FfiResult unit) (w1 w2 : World) :
  db_ok (Engine.db s) -> random_bytes 16 (Engine.world s) = (id, w1) -> system_secs w1 = (now, w2) ->
  length id = 16%nat -> (id ∉ (MsgRow.id <$> Db.messages (Engine.db s))) -> is_Some (conv_row (Engine.db s) conv) ->
  FfiClient.send_chat conv text s = (r, s') ->
  if (length conv =? 16)%nat then
    (r = Ok tt \/ r = Panic) /\
    exists shown, FfiClient.messages conv s = (Ok shown, s) /\
      FfiClient.messages conv s' = (Ok (shown ++ [FfiMessage.mk id conv false 1 1 text
                                                     (Some (unix_seconds_now now)) None]), s')
  else r = Err (TitlanError.Other "conversation id must be 16 bytes") /\ s' = s.
Proof.
  intros Hd Hr Hn Hid Hfresh Hc E. unfold FfiClient.send_chat, FfiClient.call_on, conv_id in E.
  destruct (length conv =? 16)%nat eqn:El; [|by injection E as <- <-].
  assert (Hl := El). apply Nat.eqb_eq in Hl.
  unfold FfiClient.call, TitlanClient.send_chat in E. destruct (send_chat conv text s) as [r1 s1] eqn:Es.
  assert (Hi : can_insert (Engine.db s) id conv (InnerFrame.chat_v1 text))
    by (unfold can_insert; split_and!; try done; simpl; lia).
  destruct (send_chat_saved _ _ _ _ _ _ _ _ _ Hd Hr Hn Hi Es) as (Hres & (old & Ho & Ho') & _).
  injection E as <- <-. split; [by destruct Hres as [->| ->]; auto|].
  exists (map FfiMessage.from old).
  unfold FfiClient.messages, FfiClient.map_ok, FfiClient.call_on, FfiClient.call, conv_id, TitlanClient.messages.
  rewrite El, !db_get_works, Ho, Ho'. simpl. by rewrite map_app.
Qed.

Lemma sent_is_shown_witness :
  let s := demo_engine two_pending [] in
  exists s' shown, FfiClient.send_chat demo_conv (bstr "hola") s = (Ok tt, s') /\
    FfiClient.messages demo_conv s' = (Ok (shown ++ [FfiMessage.mk (replicate 16 7) demo_conv false 1 1
                                                       (bstr "hola") (Some 1000) None]), s').
Proof.
  intros s. exists (FfiClient.send_chat demo_conv (bstr "hola") s).2.
  assert (Hf : FfiClient.send_chat demo_conv (bstr "hola") s = (Ok tt, (FfiClient.send_chat demo_conv (bstr "hola") s).2))
    by (vm_compute; reflexivity).
  assert (Hc : is_Some (conv_row two_pending demo_conv)) by (vm_compute; eexists; reflexivity).
  destruct (sent_is_shown demo_conv (bstr "hola") (replicate 16 7) (Some 1000) s _ _ [] []
    two_pending_ok eq_refl eq_refl eq_refl ltac:(by_compute) Hc Hf) as (_ & shown & _ & H1).
  exists shown. split; [exact Hf|exact H1].
Defined.
