(* ===== verification/EngineListen.v ===== *)
(** The listeners of the engine: which inputs a run takes and which deliveries
    it acks, that an ack is the last thing a delivery causes, that nothing else
    acks, that cancellation comes between messages, and what an incoming frame
    may do. *)

From S2P Require Import Prelude Errors Utf8 Config Envelope Cursor Pairing Recovery Storage Keys.
From S2P Require Import Transport Backoff Session Engine EngineDemo EngineRuns EngineSend.

(** ** What operations add to the log *)

Section log.
Context `{Platform} `{SqlText} `{LibSignal} `{RatchetLib} `{!Crypto}.

(** The log grows by notices of one kind, and the bookkeeping of the tasks is
    left alone. *)
Definition adds (P : Notice -> Prop) (s s' : Engine.t) : Prop :=
  (exists l, Engine.log s' = Engine.log s ++ l /\ Forall P l) /\
  Engine.listening s' = Engine.listening s /\ Engine.sync s' = Engine.sync s.

#[export] Instance adds_preorder P : PreOrder (adds P).
Proof.
  split.
  - intros s. split; [|done]. exists []. by rewrite app_nil_r.
  - intros s1 s2 s3 [(l & E & Hl) [El Es]] [(l' & E' & Hl') [El' Es']]. split; [|split; congruence].
    exists (l ++ l'). rewrite E', E, app_assoc. split; [done|]. by apply Forall_app.
Qed.

(** The parts that are not the log nor the bookkeeping. *)
Definition same_tasks (s s' : Engine.t) : Prop :=
  Engine.log s' = Engine.log s /\ Engine.listening s' = Engine.listening s /\ Engine.sync s' = Engine.sync s.

Lemma adds_none P s s' : same_tasks s s' -> adds P s s'.
Proof. intros (E & ? & ?). split; [|done]. exists []. by rewrite app_nil_r. Qed.

Variable P : Notice -> Prop.

Lemma log_call {A} (m : st Engine.t A) : always (adds P) m -> always (adds P) (store_call m).
Proof.
  intros Hm s. unfold store_call. destruct (store_fault _) as [[text|] w]; [by apply adds_none|].
  exact (Hm (Engine.with_world s w)).
Qed.
Lemma log_keys {A} (m : store A) : always (adds P) (on_keys m).
Proof. apply log_call. intros s. unfold zoom. destruct (m _). by apply adds_none. Qed.
Lemma log_net {A} (m : st World A) : always (adds P) (on_net m).
Proof. intros s. unfold on_net, zoom. destruct (m _). by apply adds_none. Qed.
Lemma log_db {A} (f : Db.t -> Result (A * Db.t)) : always (adds P) (on_db f).
Proof. apply log_call. intros s. destruct (f _) as [[]| |]; by apply adds_none. Qed.
Lemma log_get {A} (f : Db.t -> Result A) : always (adds P) (db_get f).
Proof. apply log_call. intros s. by apply adds_none. Qed.
Lemma log_modify f : (forall s, same_tasks s (f s)) -> always (adds P) (modify f).
Proof. intros Hf s. apply adds_none, Hf. Qed.
Lemma log_notify n : P n -> always (adds P) (notify n).
Proof.
  intros Hn s. unfold notify, modify. simpl. destruct (Engine.observer s); [|by apply adds_none].
  split; [|done]. exists [n]. split; [done|]. by constructor.
Qed.
End log.

(** Goes through a computation, with [known] for the parts already done;
    leaves the notices to check. *)
Ltac log_with known :=
  repeat first
    [ known
    | apply always_bind; [apply _| |intros ?]
    | apply always_attempt | apply always_ignore; [apply _|]
    | apply log_keys | apply log_net | apply log_db | apply log_get | apply log_notify
    | apply log_modify; done
    | apply always_same; [apply _|done]
    | progress cbv beta iota
    | match goal with |- always _ (match ?x with _ => _ end) => destruct x end
    | match goal with |- always _ (if ?x then _ else _) => destruct x end ].
Ltac log_tac := log_with fail.

(** Everything but an ack. *)
Definition not_ack (n : Notice) : Prop := match n with AckSent _ => False | _ => True end.

Section no_ack.
Context `{Platform} `{SqlText} `{LibSignal} `{RatchetLib} `{!Crypto}.

Abbreviation silent := (always (adds not_ack)).

Lemma silent_flush_loop conv convo mailbox : forall pending,
  silent (flush_loop conv convo mailbox pending).
Proof.
  induction pending as [|[id f] pending IH]; cbn [flush_loop]; unfold encrypt, deposit, db_set, emit_permanent_send_failure.
  - log_tac.
  - log_tac; try exact IH; done.
Qed.

Lemma silent_flush conv : silent (flush_pending conv).
Proof.
  unfold flush_pending, emit_storage_error. log_with ltac:(apply silent_flush_loop); done.
Qed.

Lemma silent_announce_all convo root role hello : forall window,
  silent (announce_all convo root role hello window).
Proof.
  induction window as [|k w IH]; cbn [announce_all]; unfold announce, put_create, encrypt, deposit;
    log_tac; exact IH.
Qed.

Lemma silent_enter conv convo role root g peer : silent (enter_recovery_gen conv convo role root g peer).
Proof.
  unfold enter_recovery_gen, put_create, db_set, random. log_with ltac:(apply silent_announce_all).
Qed.

Lemma silent_recover conv : silent (recover conv).
Proof.
  unfold recover, recover_v1, recover_v2, tracker, create_mailbox, encrypt, deposit, db_set.
  log_with ltac:(apply silent_enter); done.
Qed.

Lemma silent_answer_rotation conv relay inbox : silent (answer_rotation conv relay inbox).
Proof.
  unfold answer_rotation, create_mailbox, delete_mailbox, encrypt, deposit, db_set.
  log_with ltac:(apply silent_flush).
Qed.

Lemma silent_rotation conv payload : silent (handle_rotation conv payload).
Proof.
  unfold handle_rotation, delete_mailbox, db_set.
  log_with ltac:(first [apply silent_flush|apply silent_answer_rotation]).
Qed.

Lemma silent_hello conv payload : silent (handle_recovery_hello conv payload).
Proof.
  unfold handle_recovery_hello, mark_hello_seen, initiate_rotation, create_mailbox, encrypt, deposit, db_set.
  log_with ltac:(first [apply silent_flush|apply silent_enter]).
Qed.

Lemma silent_incoming conv peer envelope : silent (handle_incoming conv peer envelope).
Proof.
  unfold handle_incoming, dispatch, decrypt, random, clock, db_set.
  log_with ltac:(first [apply silent_flush|apply silent_rotation|apply silent_hello]).
  intros s. unfold modify. simpl. destruct (Engine.receiver s); [|by apply adds_none].
  split; [|done]. eexists. split; [done|]. by constructor.
Qed.
End no_ack.

(** ** Steps and runs of the conversation listener *)

Section listener.
Context `{Platform} `{SqlText} `{LibSignal} `{RatchetLib} `{!Crypto}.

(** The ids acked in a piece of the log, and the ids delivered in a piece of
    the input. *)
Definition acks (l : list Notice) : list bytes :=
  omap (fun n => match n with AckSent id => Some id | _ => None end) l.
Definition deliveries (ins : list linput) : list bytes :=
  omap (fun i => match i with SubNext (Ok (Some (Delivery id _))) => Some id | _ => None end) ins.

(** The step on a delivery: handle it, then ack it, nothing in between. *)
Lemma delivery_step conv convo b msg_id envelope s :
  exists m, listener_step conv (LWait convo, b) (SubNext (Ok (Some (Delivery msg_id envelope)))) = Some m /\
  exists r s1, handle_incoming conv (Conversation.peer_address convo) envelope s = (r, s1) /\ adds not_ack s s1 /\
    m s = match r with
          | Ok changed => (Ok (if changed then LTop else LWait convo, b), Engine.push s1 (AckSent msg_id))
          | Err e => (Err e, s1)
          | Panic => (Panic, s1)
          end.
Proof.
  eexists. split; [reflexivity|]. unfold mbind, st_bind.
  pose proof (silent_incoming conv (Conversation.peer_address convo) envelope s) as Hs.
  destruct (handle_incoming _ _ _ s) as [r s1]. exists r, s1. split_and!; [done|done|by destruct r].
Qed.

(** Every other step acks nothing. *)
Lemma other_step conv l i m s :
  listener_step conv l i = Some m -> deliveries [i] = [] -> adds not_ack s (m s).2.
Proof.
  destruct l as [at_ b]. unfold listener_step, back_off, emit_state, emit_needs_repair.
  destruct at_ as [|convo|convo|convo| | |], i as [| | | |[[[msg_id envelope|]|]| |]|]; intros [= <-] Hd; try done;
    match goal with |- adds _ ?s (?m ?s).2 => enough (Ha : always (adds not_ack) m) by exact (Ha s) end;
    log_with ltac:(first [apply silent_flush|apply silent_recover]); done.
Qed.

(** Where a delivery can come. *)
Lemma delivery_point conv l id e m :
  listener_step conv l (SubNext (Ok (Some (Delivery id e)))) = Some m -> exists convo, l.1 = LWait convo.
Proof. destruct l as [[] b]; simpl; intros E; try done. by eexists. Qed.

Lemma acks_none l : Forall not_ack l -> acks l = [].
Proof. induction 1 as [|n l Hn Hl IH]; simpl; [done|]. by destruct n. Qed.

(** A step that goes on has acked exactly what it was delivered; one that does
    not has acked nothing. *)
Lemma step_acks conv l i m s :
  listener_step conv l i = Some m ->
  (exists lg, Engine.log (m s).2 = Engine.log s ++ lg /\
     acks lg = match (m s).1 with Ok _ => deliveries [i] | _ => [] end) /\
  ((forall l', (m s).1 <> Ok l') -> adds not_ack s (m s).2).
Proof.
  intros Em. destruct (deliveries [i]) as [|id ids] eqn:Ed.
  { pose proof (other_step _ _ _ _ s Em Ed) as Ha. split; [|done]. destruct Ha as [(lg & E & Hlg) _].
    exists lg. split; [done|]. rewrite acks_none by done. by destruct (m s).1. }
  destruct i as [| | | |[[[msg_id envelope|]|]| |]|]; try done. injection Ed as <- <-.
  destruct l as [at_ b], (delivery_point _ _ _ _ _ Em) as [convo Hp]. simpl in Hp. subst at_.
  destruct (delivery_step conv convo b msg_id envelope s) as (m' & Em' & r & s1 & _ & Ha & Er).
  assert (m' = m) as -> by congruence. rewrite Er. pose proof Ha as [(lg & El & Hlg) _].
  destruct r as [changed|e|]; simpl; (split; [|try done]).
  - exists (lg ++ [AckSent msg_id]). rewrite El, app_assoc. split; [done|].
    unfold acks. rewrite omap_app. fold (acks lg). by rewrite acks_none.
  - intros Hn. by destruct (Hn (if changed then LTop else LWait convo, b)).
  - exists lg. by rewrite acks_none.
  - exists lg. by rewrite acks_none.
Qed.

(** The steps of a listener over inputs it takes one after the other. *)
Inductive takes (conv : bytes) : listener -> Engine.t -> list linput -> listener -> Engine.t -> Prop :=
  | takes_none l s : takes conv l s [] l s
  | takes_one l s i m l1 s1 ins l2 s2 : listener_step conv l i = Some m -> m s = (Ok l1, s1) ->
      takes conv l1 s1 ins l2 s2 -> takes conv l s (i :: ins) l2 s2.

(** How a run ends after the inputs it took: they were all, or the next one
    cannot come, or the listener failed in the next one. *)
Inductive ends (conv : bytes) (l : listener) (s : Engine.t) : list linput -> Result listener * Engine.t -> Prop :=
  | ends_all : ends conv l s [] (Ok l, s)
  | ends_stuck i rest : listener_step conv l i = None -> ends conv l s (i :: rest) (Ok l, s)
  | ends_failed i rest m e s' : listener_step conv l i = Some m -> m s = (e, s') -> (forall l', e <> Ok l') ->
      adds not_ack s s' -> ends conv l s (i :: rest) (e, s').

Lemma run_acks conv : forall ins l s,
  exists done_ rest l1 s1 lg, ins = done_ ++ rest /\ takes conv l s done_ l1 s1 /\
    Engine.log s1 = Engine.log s ++ lg /\ acks lg = deliveries done_ /\
    ends conv l1 s1 rest (listener_run conv l ins s).
Proof.
  induction ins as [|i ins IH]; intros l s; simpl listener_run.
  { exists [], [], l, s, []. split_and!; rewrite ?app_nil_r; try done; constructor. }
  destruct (listener_step conv l i) as [m|] eqn:Em.
  2: { exists [], (i :: ins), l, s, []. split_and!; rewrite ?app_nil_r; try done; by constructor. }
  unfold mbind, st_bind. destruct (step_acks _ _ _ _ s Em) as [(lg & E & Ha) Hf].
  destruct (m s) as [[l'|e|] s'] eqn:Es; simpl in *.
  - destruct (IH l' s') as (dn & rest & l1 & s1 & lg' & -> & Ht & E' & Ha' & He).
    exists (i :: dn), rest, l1, s1, (lg ++ lg'). rewrite E', E, app_assoc. split_and!; try done.
    + by econstructor.
    + unfold acks. rewrite omap_app. fold (acks lg) (acks lg'). rewrite Ha, Ha'.
      change (i :: dn) with ([i] ++ dn). unfold deliveries. by rewrite omap_app.
  - exists [], (i :: ins), l, s, []. split_and!; rewrite ?app_nil_r; try done; [constructor|].
    eapply ends_failed; [exact Em|exact Es|done|by apply Hf].
  - exists [], (i :: ins), l, s, []. split_and!; rewrite ?app_nil_r; try done; [constructor|].
    eapply ends_failed; [exact Em|exact Es|done|by apply Hf].
Qed.
End listener.

(** ** Incoming frames *)

Section incoming.
Context `{Platform} `{SqlText} `{LibSignal} `{RatchetLib} `{!Crypto}.

(** A flush leaves the conversations as they are. *)
Lemma flush_loop_conversations conv convo mailbox : forall pending s,
  Db.conversations (Engine.db (flush_loop conv convo mailbox pending s).2) = Db.conversations (Engine.db s).
Proof.
  induction pending as [|[id f] pending IH]; intros s; [done|]. cbn [flush_loop]. unfold mbind at 1, st_bind at 1.
  rewrite encrypt_eq. destruct (store_fault (Engine.world s)) as [[text|] w]; [done|].
  destruct (encrypt_message _ _ _ _) as [[wire| |] k]; [|done..]. unfold mbind at 1, st_bind at 1. rewrite deposit_eq.
  destruct (http_deposit _ _ _ _) as [[o| |] w1]; [|done..]. destruct o as [| |c]; [|done|destruct (_ || _); [|done]].
  - unfold mbind at 1, st_bind at 1. rewrite mark_eq. destruct (store_fault _) as [[text|] w2]; [done|]. by rewrite IH.
  - unfold mbind at 1, st_bind at 1. rewrite ignore_eq, mark_eq.
    destruct (store_fault _) as [[text|] w2]; unfold mbind at 1, st_bind at 1, emit_permanent_send_failure, notify, modify;
      rewrite IH; by destruct (Engine.observer _).
Qed.

Lemma flush_conversations conv s :
  Db.conversations (Engine.db (flush_pending conv s).2) = Db.conversations (Engine.db s).
Proof.
  unfold flush_pending, mbind, st_bind, attempt, db_get, store_call, read_r, emit_storage_error, notify, modify, throw,
    pure_r.
  destruct (store_fault (Engine.world s)) as [[text|] w]; [by destruct (Engine.observer _)|].
  destruct (get_conversation _ conv) as [[convo|]|e|]; [|done|by destruct (Engine.observer _)|done].
  destruct (Conversation.mailbox_send convo) as [mailbox|]; [|done].
  destruct (store_fault _) as [[text|] w1]; [by destruct (Engine.observer _)|].
  destruct (pending_chat _ conv) as [pending|e|]; [|by destruct (Engine.observer _)|done].
  by rewrite flush_loop_conversations.
Qed.

Lemma incoming_eq conv peer envelope s :
  handle_incoming conv peer envelope s
  = match store_fault (Engine.world s) with
    | (Some _, w) => (Ok false, Engine.with_world s w)
    | (None, w) =>
      let '(r, k) := decrypt_message peer envelope (Engine.profile s) (Engine.keys s) in
      let s1 := Engine.with_world (Engine.with_keys s k) w in
      match r with Ok f => dispatch conv f s1 | Err _ => (Ok false, s1) | Panic => (Panic, s1) end
    end.
Proof.
  unfold handle_incoming, attempt, decrypt, mbind, st_bind, get, on_keys, store_call.
  destruct (store_fault _) as [[text|] w]; [done|]. unfold zoom. simpl.
  by destruct (decrypt_message _ _ _ _) as [[]].
Qed.

(** A chat frame, of whatever version, is stored, and the receiver gets the
    stored row; one that cannot be stored is dropped. *)
Lemma dispatch_chat conv f s id now w1 w2 fault w3 :
  InnerFrame.payload_type f = Chat ->
  random_bytes 16 (Engine.world s) = (id, w1) -> system_secs w1 = (now, w2) -> store_fault w2 = (fault, w3) ->
  dispatch conv f s
  = (Ok false,
     match fault, save_incoming (Engine.db s) id conv f now with
     | None, Ok (m, d) =>
       let s' := Engine.with_db (Engine.with_world s w3) d in
       if Engine.receiver s then Engine.push s' (OnMessage conv m) else s'
     | _, _ => Engine.with_world s w3
     end).
Proof.
  intros Hf Hr Hn Hw. unfold dispatch. rewrite Hf.
  unfold mbind, st_bind, random, clock, on_net, zoom, on_db, store_call, attempt. simpl. rewrite Hr. simpl. rewrite Hn. simpl.
  rewrite Hw. destruct fault as [text|]; [done|]. simpl.
  destruct (save_incoming _ _ _ _ _) as [[m d]|e|] eqn:Es; [done|done|].
  revert Es. unfold save_incoming, insert_message. by destruct (_ || _).
Qed.

Lemma incoming_chat conv f s id now w1 w2 w3 :
  InnerFrame.payload_type f = Chat ->
  random_bytes 16 (Engine.world s) = (id, w1) -> system_secs w1 = (now, w2) -> store_fault w2 = (None, w3) ->
  db_ok (Engine.db s) -> can_insert (Engine.db s) id conv f ->
  exists s' old m, dispatch conv f s = (Ok false, s') /\
    list_messages (Engine.db s) conv = Ok old /\ list_messages (Engine.db s') conv = Ok (old ++ [m]) /\
    m = stored_entry (message_row id conv Incoming f 2 (unix_seconds_now now)) /\
    Engine.log s' = Engine.log s ++ (if Engine.receiver s then [OnMessage conv m] else []) /\
    db_ok (Engine.db s') /\ Db.conversations (Engine.db s') = Db.conversations (Engine.db s) /\
    (MsgRow.id <$> Db.messages (Engine.db s')) = (MsgRow.id <$> Db.messages (Engine.db s)) ++ [id] /\
    Engine.keys s' = Engine.keys s /\ Engine.world s' = w3 /\ Engine.profile s' = Engine.profile s /\
    Engine.receiver s' = Engine.receiver s /\ Db.foreign_keys (Engine.db s') = Db.foreign_keys (Engine.db s).
Proof.
  intros Hf Hr Hn Hw Hd Hi. rewrite (dispatch_chat _ _ _ _ _ _ _ _ _ Hf Hr Hn Hw).
  destruct (insert_message_Ok _ _ _ Incoming _ 2 now Hd Hi) as (Ei & Hd' & _). unfold save_incoming. rewrite Ei.
  eexists _, _, _. split; [reflexivity|]. split; [by apply list_messages_Ok|].
  simpl; destruct (Engine.receiver s) eqn:Er; simpl; rewrite ?app_nil_r; split_and!;
    first [done | by rewrite fmap_app | rewrite list_messages_Ok by done; simpl;
      rewrite List.filter_app, fmap_app; simpl; by rewrite beq_refl].
Qed.
Lemma dispatch_nothing conv f s :
  InnerFrame.payload_type f ∈ [Posture; Policy; Alert; PairAck] \/
  InnerFrame.payload_type f = MailboxUpdate /\
    (InnerFrame.type_version f <> 1 /\ InnerFrame.type_version f <> 3 \/
     InnerFrame.type_version f = 1 /\ (exists e, parse_mailbox_update (InnerFrame.payload f) = Err e) \/
     InnerFrame.type_version f = 3 /\ (exists e, parse_mailbox_update_v3 (InnerFrame.payload f) = Err e)) ->
  dispatch conv f s = (Ok false, s).
Proof.
  unfold dispatch. intros [Hf|(Hf & [[Hv1 Hv3]|[(Hv1 & e & Hp)|(Hv3 & e & Hp)]])].
  - destruct (InnerFrame.payload_type f); try done; set_solver.
  - rewrite Hf. unfold MAILBOX_UPDATE_V3, MAILBOX_UPDATE_V1. by rewrite !(proj2 (Z.eqb_neq _ _)) by done.
  - rewrite Hf, Hv1. simpl. unfold mbind, st_bind, attempt, pure_r. by rewrite Hp.
  - rewrite Hf, Hv3. simpl. unfold handle_rotation, mbind, st_bind, attempt, pure_r. by rewrite Hp.
Qed.

(** A version-1 update sets the routing if the store takes it. *)
Lemma dispatch_routing conv f s relay inbox row fault w :
  InnerFrame.payload_type f = MailboxUpdate -> InnerFrame.type_version f = 1 ->
  parse_mailbox_update (InnerFrame.payload f) = Ok (relay, inbox) ->
  conv_row (Engine.db s) conv = Some row -> store_fault (Engine.world s) = (fault, w) ->
  conv_row (Engine.db (dispatch conv f s).2) conv
  = Some (if fault is Some _ then row else set_routing relay (Some inbox) (ConvRow.mailbox_recv row) row).
Proof.
  intros Hf Hv Hp Hrow Hw. unfold dispatch. rewrite Hf, Hv. simpl.
  unfold mbind, st_bind, attempt, pure_r. rewrite Hp, !ignore_eq.
  assert (Hflush : forall s2, conv_row (Engine.db (ignore (flush_pending conv) s2).2) conv = conv_row (Engine.db s2) conv).
  { intros s2. rewrite ignore_eq. unfold conv_row. rewrite <- (flush_conversations conv s2).
    by destruct (flush_pending conv s2) as [[] ?]. }
  unfold db_set, on_db, store_call. rewrite Hw. destruct fault as [text|]; simpl.
  - match goal with |- context [ignore (flush_pending conv) ?s2] => pose proof (Hflush s2) as Hx; revert Hx;
      destruct (ignore (flush_pending conv) s2) as [[] s3] end; simpl; by intros ->.
  - match goal with |- context [ignore (flush_pending conv) ?s2] => pose proof (Hflush s2) as Hx; revert Hx;
      destruct (ignore (flush_pending conv) s2) as [[] s3] end; simpl; intros ->;
      rewrite conv_row_update by done; rewrite bool_decide_eq_true_2 by done; by rewrite Hrow.
Qed.
End incoming.

(** ** Properties *)

(** C10: ack discipline of the listener.  Over any inputs, the acks a listener
    sends are exactly, and in order, those of the deliveries it took; it takes
    all inputs up to one that cannot come where it stands, or one in which it
    fails and which it does not ack.  A delivery is taken only while it waits on its subscription, and then its handling
    (decryption, storing, callbacks) is complete, and has acked nothing, when
    its ack is sent as the last action; every other step acks nothing.  The
    cancel signal, which every waiting point accepts, ends the listener and
    changes nothing. *)
Theorem listener_acks_handled `{Platform} `{SqlText} `{LibSignal} `{RatchetLib} `{!Crypto}
    (conv : bytes) (l : listener) (s : Engine.t) (ins : list linput) :
  (exists done_ rest l1 s1 lg, ins = done_ ++ rest /\ takes conv l s done_ l1 s1 /\
     Engine.log s1 = Engine.log s ++ lg /\ acks lg = deliveries done_ /\
     ends conv l1 s1 rest (listener_run conv l ins s)) /\
  (forall msg_id envelope m, listener_step conv l (SubNext (Ok (Some (Delivery msg_id envelope)))) = Some m ->
     exists convo, l.1 = LWait convo) /\
  (forall convo b msg_id envelope, l = (LWait convo, b) ->
     exists m, listener_step conv l (SubNext (Ok (Some (Delivery msg_id envelope)))) = Some m /\
     exists r s1, handle_incoming conv (Conversation.peer_address convo) envelope s = (r, s1) /\ adds not_ack s s1 /\
       m s = match r with
             | Ok changed => (Ok (if changed then LTop else LWait convo, b), Engine.push s1 (AckSent msg_id))
             | Err e => (Err e, s1)
             | Panic => (Panic, s1)
             end) /\
  (forall i m, listener_step conv l i = Some m -> deliveries [i] = [] -> adds not_ack s (m s).2) /\
  (l.1 <> LDone -> exists m, listener_step conv l Cancelled = Some m /\ m s = (Ok (LDone, l.2), s)).
Proof.
  split_and!.
  - apply run_acks.
  - apply delivery_point.
  - intros convo b msg_id envelope ->. apply delivery_step.
  - intros i m. apply other_step.
  - destruct l as [[] b]; simpl; intros Hl; try done; by eexists.
Qed.

(** C21: what an incoming frame may do.  A frame whose decryption fails (in the
    library or at the store), of a type not expected on an inbox, or a mailbox
    update of a version other than 1 and 3 or with a malformed body changes
    nothing but the ratchet.  A chat frame, of any version, is stored with that
    version as the last message of its conversation, and the receiver gets
    exactly the stored row; when the store or the row is refused, the frame is
    dropped without a notice.  A version-1 update sets the relay and the send
    mailbox of its conversation, unless the store fails, and then flushes.  A
    version-3 update and a recovery hello, the latter of any version, are
    handed to the rotation and to the recovery. *)
Theorem incoming_dispatch `{Platform} `{SqlText} `{LibSignal} `{RatchetLib} `{!Crypto}
    (conv peer envelope : bytes) (s : Engine.t) (fault : option string) (w : World)
    (r : Result InnerFrame.t) (k : Keys.t) :
  store_fault (Engine.world s) = (fault, w) ->
  decrypt_message peer envelope (Engine.profile s) (Engine.keys s) = (r, k) ->
  let handled := handle_incoming conv peer envelope s in
  let s1 := Engine.with_world (Engine.with_keys s k) w in
  (forall text, fault = Some text -> handled = (Ok false, Engine.with_world s w)) /\
  (forall e, fault = None -> r = Err e -> handled = (Ok false, s1)) /\
  (forall f, fault = None -> r = Ok f ->
     (InnerFrame.payload_type f ∈ [Posture; Policy; Alert; PairAck] \/
      InnerFrame.payload_type f = MailboxUpdate /\
        (InnerFrame.type_version f <> 1 /\ InnerFrame.type_version f <> 3 \/
         InnerFrame.type_version f = 1 /\ (exists e, parse_mailbox_update (InnerFrame.payload f) = Err e) \/
         InnerFrame.type_version f = 3 /\ (exists e, parse_mailbox_update_v3 (InnerFrame.payload f) = Err e)) ->
      handled = (Ok false, s1)) /\
     (InnerFrame.payload_type f = Chat ->
      forall id now w1 w2 fault' w3,
      random_bytes 16 w = (id, w1) -> system_secs w1 = (now, w2) -> store_fault w2 = (fault', w3) ->
      (fault' = None -> db_ok (Engine.db s) -> can_insert (Engine.db s) id conv f ->
       exists s' old m, handled = (Ok false, s') /\ list_messages (Engine.db s) conv = Ok old /\
         list_messages (Engine.db s') conv = Ok (old ++ [m]) /\
         StoredMessage.id m = id /\ StoredMessage.direction m = Incoming /\
         StoredMessage.body m = InnerFrame.payload f /\ StoredMessage.type_version m = InnerFrame.type_version f /\
         Engine.log s' = Engine.log s ++ (if Engine.receiver s then [OnMessage conv m] else [])) /\
      (is_Some fault' \/ (exists e, save_incoming (Engine.db s) id conv f now = Err e) ->
       handled = (Ok false, Engine.with_world s1 w3))) /\
     (InnerFrame.payload_type f = MailboxUpdate -> InnerFrame.type_version f = 1 ->
      forall relay inbox row fault' w1, parse_mailbox_update (InnerFrame.payload f) = Ok (relay, inbox) ->
      conv_row (Engine.db s) conv = Some row -> store_fault w = (fault', w1) ->
      conv_row (Engine.db handled.2) conv
      = Some (if fault' is Some _ then row else set_routing relay (Some inbox) (ConvRow.mailbox_recv row) row)) /\
     (InnerFrame.payload_type f = MailboxUpdate -> InnerFrame.type_version f = 3 ->
      handled = handle_rotation conv (InnerFrame.payload f) s1) /\
     (InnerFrame.payload_type f = RecoveryHello ->
      handled = handle_recovery_hello conv (InnerFrame.payload f) s1)).
Proof.
  intros Hw E. cbv zeta. pose proof (incoming_eq conv peer envelope s) as Eq. rewrite Hw, E in Eq.
  split_and!; [by intros text ->|by intros e -> ->|]. intros f -> ->. cbv beta iota zeta in Eq. split_and!.
  - intros Hf. rewrite Eq. by apply dispatch_nothing.
  - intros Hf id now w1 w2 fault' w3 Hr Hn Hw'. rewrite Eq. split.
    + intros -> Hd Hi.
      destruct (incoming_chat conv f (Engine.with_world (Engine.with_keys s k) w) _ _ _ _ _ Hf Hr Hn Hw' Hd Hi)
        as (s' & old & m & Hh & Ho & Hl & -> & Hlog & _). by eexists s', old, _.
    + intros Hdrop.
      rewrite (dispatch_chat conv f (Engine.with_world (Engine.with_keys s k) w) _ _ _ _ _ _ Hf Hr Hn Hw').
      destruct fault' as [text|]; [done|]. destruct Hdrop as [[? ?]|[e He]]; [done|]. simpl. by rewrite He.
  - intros Hf Hv relay inbox row fault' w1 Hp Hrow Hw'. rewrite Eq. by eapply dispatch_routing.
  - intros Hf Hv. by rewrite Eq; unfold dispatch; rewrite Hf, Hv.
  - intros Hf. by rewrite Eq; unfold dispatch; rewrite Hf.
Qed.

Definition demo_frame : InnerFrame.t := InnerFrame.chat_v1 (bstr "hola").

Definition demo_wire : bytes :=
  match encrypt_message (bstr "ana") demo_frame toy_profile (toy_keys (bstr "bob")) with
  | (Ok w, _) => w | _ => []
  end.

Lemma incoming_dispatch_witness :
  let s := demo_engine two_pending [] in
  exists s' m, handle_incoming demo_conv (bstr "bob") demo_wire s = (Ok false, s') /\
    Engine.log s' = [OnMessage demo_conv m] /\ StoredMessage.body m = bstr "hola".
Proof.
  intros s.
  assert (Hd : decrypt_message (bstr "bob") demo_wire (Engine.profile s) (Engine.keys s)
               = (Ok demo_frame, toy_keys (bstr "ana"))) by (vm_compute; reflexivity).
  pose proof (incoming_dispatch demo_conv (bstr "bob") demo_wire s None [] _ _ eq_refl Hd) as (_ & _ & Hok).
  destruct (Hok demo_frame eq_refl eq_refl) as (_ & Hchat & _).
  destruct (Hchat eq_refl (replicate 16 7) (Some 1000) [] [] None [] eq_refl eq_refl eq_refl) as [Hs _].
  destruct (Hs eq_refl two_pending_ok ltac:(unfold can_insert; by_compute))
    as (s' & old & m & E & _ & _ & _ & _ & Hb & _ & Hl).
  exists s', m. split; [exact E|]. split; [exact Hl|exact Hb].
Defined.

(** A listener that connects, flushes, takes two deliveries, one of which it
    cannot read, and is cancelled. *)
Definition demo_run : list linput :=
  [Proceed; SubOk; Proceed; SubNext (Ok (Some (Delivery (bstr "m1") demo_wire)));
   SubNext (Ok (Some (Delivery (bstr "m2") [0]))); Cancelled; Proceed].

Lemma listener_acks_handled_witness :
  let s := demo_engine two_pending [(202, []); (202, [])] in
  let run := listener_run demo_conv (LTop, BackoffSchedule.new 1) demo_run s in
  (exists b, run.1 = Ok (LDone, b)) /\
  exists lg, Engine.log run.2 = Engine.log s ++ lg /\ acks lg = [bstr "m1"; bstr "m2"].
Proof.
  intros s run.
  assert (Hr : exists b, run.1 = Ok (LDone, b)) by (eexists; vm_compute; reflexivity).
  split; [exact Hr|]. destruct Hr as [b Hr].
  destruct (listener_acks_handled demo_conv (LTop, BackoffSchedule.new 1) s demo_run)
    as [(dn & rest & l1 & s1 & lg & Hi & Ht & Hl & Ha & He) _].
  assert (Hs : s1 = run.2).
  { clear -He Hr. fold run in He. destruct run as [r s']. simpl in *. subst r. inversion He; subst; [done..|].
    exfalso. naive_solver. }
  rewrite <- Hs. exists lg. split; [exact Hl|]. change (Engine.log s ++ lg) with lg in Hl.
  rewrite <- Hl, Hs. vm_compute. reflexivity.
Defined.
