(* ===== verification/EnginePair.v ===== *)
(** Pairing in the engine: nothing happens before an offer is accepted, a
    wrong proof of scan burns the offer, and two engines that exchange their
    messages end with matching conversations. *)

From S2P Require Import Prelude Errors Utf8 Config Envelope Cursor Pairing Recovery Storage Keys.
From S2P Require Import Base64 RelayApi Transport Session Engine Client EngineDemo EngineRuns.

Section pairing.
Context `{Platform} `{SqlText} `{LibSignal} `{RatchetLib} `{!Crypto}.

(** A frame was encrypted to [peer] and handed to the relay for [mailbox]. *)
Definition handed_over (profile : PaddingProfile.t) (relay mailbox peer : bytes) (f : InnerFrame.t) : Prop :=
  exists k k' wire w o w', encrypt_message peer f profile k = (Ok wire, k') /\
    http_deposit relay mailbox wire w = (Ok o, w').

Definition pair_ack_frame (body : bytes) : InnerFrame.t := InnerFrame.mk PairAck PAIR_ACK_V2 body.
Definition handoff_frame (body : bytes) : InnerFrame.t := InnerFrame.mk MailboxUpdate MAILBOX_UPDATE_V2 body.

(** The row of a conversation whose side of the pairing is stored. *)
Record half_paired (s : Engine.t) (conv peer recv own : bytes) (role : Z) (row : ConvRow.t) : Prop := {
  hp_row : conv_row (Engine.db s) conv = Some row;
  hp_peer : ConvRow.peer_address row = peer;
  hp_recv : ConvRow.mailbox_recv row = Some recv;
  hp_role : ConvRow.recovery_role row = Some role;
  hp_own : ConvRow.recovery_own_contrib row = Some own
}.
End pairing.

(** Closes the conjuncts about a run, then the ones about local steps. *)
Ltac by_or_local :=
  lazymatch goal with
  | |- rtc local_step _ _ => idtac
  | |- half_paired _ _ _ _ _ _ _ => by constructor
  | |- _ => first [done | by eauto]
  end.

Section pairing_runs.
Context `{Platform} `{SqlText} `{LibSignal} `{RatchetLib} `{!Crypto}.

(** What an export did: one request, and a listener for the new inbox. *)
Lemma exported_offer bundle s payload s' :
  export_offer bundle s = (Ok payload, s') ->
  exists inbox w1 secret w2 now w3 w4 key,
    http_create_mailbox (Engine.my_relay s) (Engine.world s) = (Ok inbox, w1) /\
    random_bytes 32 w1 = (secret, w2) /\ system_secs w2 = (Some now, w3) /\ rtc local_step w3 w4 /\
    encode_pairing_offer_v3 calculate_signature
      (OfferV3.mk bundle (Engine.my_relay s) inbox secret now OFFER_DEFAULT_TTL_S) key = Ok payload /\
    s' = Engine.push (Engine.with_world s w4) (SpawnPairing inbox secret OFFER_DEFAULT_TTL_S).
Proof.
  unfold export_offer, create_mailbox. intros E. run_inv. simpl in *.
  eexists _, _, _, _, _, _, _, _. split_and!; by_or_local; local_path.
Qed.

(** What the responder did when its pair-ack was accepted: the requests it
    made, in order, with what it read and drew in between, and what it stored. *)
Lemma sent_pair_ack payload s conv peer own s' :
  send_pair_ack payload s = (Ok (conv, peer, own), s') ->
  exists now w offer k bundle w0 recv w1 w2 body wire row,
    system_secs (Engine.world s) = (Some now, w) /\
    parse_pairing_offer_v3 public_key_deserialize verify_signature payload now = Ok offer /\
    establish_session (OfferV3.bundle offer) (Engine.keys s) = (Ok peer, k) /\
    rtc local_step w w0 /\ http_create_mailbox (Engine.my_relay s) w0 = (Ok recv, w1) /\
    rtc local_step w1 w2 /\ (exists w w', random_bytes 32 w = (own, w')) /\
    export_prekey_bundle k = Ok bundle /\
    encode_pair_ack_v2 mac_finalize bundle (Engine.my_relay s) recv own (OfferV3.pairing_secret offer) = Ok body /\
    encrypt_message peer (pair_ack_frame body) (Engine.profile s) k = (Ok wire, Engine.keys s') /\
    http_deposit (OfferV3.relay_url offer) (OfferV3.pairing_inbox_id offer) wire w2 = (Ok Accepted, Engine.world s') /\
    half_paired s' conv peer recv own ROLE_RESPONDER row /\
    ConvRow.mailbox_send row = None /\ ConvRow.recovery_root row = None /\ Engine.profile s' = Engine.profile s.
Proof.
  unfold send_pair_ack, create_mailbox, deposit, encrypt. intros E.
  run_inv.
  match goal with H : context [match ?o with Accepted => _ | _ => _ end] |- _ => destruct o; try done end.
  run_inv. simpl in *. simplify_eq.
  match goal with
  | Hn : conv_row _ _ = Some _, Hs : set_recovery_pairing _ _ _ _ = Ok _ |- _ =>
    pose proof (set_pairing_row _ _ _ _ _ _ Hn Hs) as Hrow
  end.
  eexists _, _, _, _, _, _, _, _, _, _, _, _. split_and!; by_or_local; local_path.
Qed.

(** What the offerer did when it accepted a pair-ack, likewise. *)
Lemma handled_pair_ack inbox secret envelope s conv s' :
  handle_pair_ack_v2 inbox secret envelope s = (Ok (Some conv), s') ->
  exists peer frame k ack w0 recv w1 w2 r w3 w4 own root update wire o row,
    decrypt_setup_from_unknown envelope (Engine.profile s) (Engine.keys s) = (Ok (peer, frame), k) /\
    parse_pair_ack_v2 (InnerFrame.payload frame) = Ok ack /\
    verify_proof_of_scan mac_finalize secret (PairAckV2.responder_bundle ack)
      (PairAckV2.root_contribution ack) (PairAckV2.proof ack) = Ok tt /\
    rtc local_step (Engine.world s) w0 /\ http_create_mailbox (Engine.my_relay s) w0 = (Ok recv, w1) /\
    rtc local_step w1 w2 /\ (exists w w', random_bytes 32 w = (own, w')) /\
    derive_root mac_finalize own (PairAckV2.root_contribution ack) = Ok root /\
    http_delete_mailbox (Engine.my_relay s) inbox w2 = (r, w3) /\ rtc local_step w3 w4 /\
    encode_mailbox_update_v2 (Engine.my_relay s) recv own = Ok update /\
    encrypt_message peer (handoff_frame update) (Engine.profile s) k = (Ok wire, Engine.keys s') /\
    http_deposit (PairAckV2.relay_url ack) (PairAckV2.inbox_id ack) wire w4 = (Ok o, Engine.world s') /\
    half_paired s' conv peer recv own ROLE_OFFERER row /\
    ConvRow.relay_url row = PairAckV2.relay_url ack /\
    ConvRow.mailbox_send row = Some (PairAckV2.inbox_id ack) /\
    ConvRow.recovery_peer_contrib row = Some (PairAckV2.root_contribution ack) /\
    ConvRow.recovery_root row = Some root /\ conv ∈ Engine.listening s'.
Proof.
  unfold handle_pair_ack_v2, create_mailbox, deposit, encrypt. intros E.
  run_inv.
  match goal with H : (let '(_, _) := ?p in _) _ = _ |- _ => destruct p as [peer frame] end.
  destruct (negb _); run_inv.
  simpl in *. simplify_eq.
  match goal with
  | Hn : conv_row _ _ = Some _, Hs : set_recovery_pairing _ _ _ _ = Ok _, Hr : set_recovery_root _ _ _ _ = Ok _,
    Hsp : spawn_conversation _ _ = _ |- _ =>
    pose proof (set_root_row _ _ _ _ _ _ (set_pairing_row _ _ _ _ _ _ Hn Hs) Hr) as Hrow;
    apply spawn_Ok in Hsp as (Hdb & Hk & Hw & ?); simpl in Hdb, Hk, Hw; rewrite <- Hdb in Hrow; rewrite Hk, Hw
  end.
  repeat match goal with u : unit |- _ => destruct u end.
  match type of Hrow with _ = Some ?row => eexists _, _, _, _, _, _, _, _, _, _, _, _, _, _, _, _, row end.
  split_and!; by_or_local; local_path.
Qed.

(** The responder adopts a delivered handoff, where its store works. *)
Lemma handoff_adopted `{!StoreWorks} conv peer own msg_id envelope rest s update k relay inbox other root row :
  decrypt_message peer envelope (Engine.profile s) (Engine.keys s) = (Ok (handoff_frame update), k) ->
  parse_mailbox_update_v2 update = Ok (relay, inbox, other) ->
  derive_root mac_finalize other own = Ok root ->
  conv_row (Engine.db s) conv = Some row ->
  exists s' row',
    await_inbox_handoff_v2 conv peer own true (HNext (Ok (Some (Delivery msg_id envelope))) :: rest) s
    = (Ok true, s') /\
    conv_row (Engine.db s') conv = Some row' /\
    row' = set_recovery (ConvRow.recovery_role row) (ConvRow.recovery_own_contrib row) (Some other) (Some root)
      (ConvRow.recovery_own_gen row) (ConvRow.recovery_peer_gen row)
      (set_routing relay (Some inbox) (ConvRow.mailbox_recv row) row).
Proof.
  intros Hd Hp Hr Hrow. cbn [await_inbox_handoff_v2].
  unfold read_handoff, decrypt, attempt, mbind, st_bind, get. rewrite on_keys_works. unfold zoom. rewrite Hd.
  cbn [handoff_frame InnerFrame.payload InnerFrame.payload_type InnerFrame.type_version].
  rewrite bool_decide_eq_true_2 by done. cbn [andb MAILBOX_UPDATE_V2 Z.eqb Pos.eqb].
  unfold pure_r. rewrite Hp. cbn [mret st_ret]. rewrite db_set_works. cbn [set_conversation_send].
  rewrite Hr, db_set_works.
  eexists _, _. split; [reflexivity|]. split; [|reflexivity].
  cbn [Engine.db Engine.with_db Engine.with_keys Engine.push].
  by apply (set_root_row _ _ _ _ _ _ (set_send_row _ _ _ _ _ _ Hrow eq_refl)).
Qed.

(** The responder's whole call, when the handoff is the first thing it is
    delivered. *)
Lemma call_completes `{!StoreWorks} payload conv peer own msg_id envelope s s1 update k relay inbox other root row :
  send_pair_ack payload s = (Ok (conv, peer, own), s1) ->
  decrypt_message peer envelope (Engine.profile s1) (Engine.keys s1) = (Ok (handoff_frame update), k) ->
  parse_mailbox_update_v2 update = Ok (relay, inbox, other) ->
  derive_root mac_finalize other own = Ok root ->
  conv_row (Engine.db s1) conv = Some row ->
  exists s',
    begin_pairing_from_offer payload [HSubscribed; HNext (Ok (Some (Delivery msg_id envelope)))] s = (Ok (Some conv), s') /\
    conv_row (Engine.db s') conv = Some (set_recovery (ConvRow.recovery_role row) (ConvRow.recovery_own_contrib row)
      (Some other) (Some root) (ConvRow.recovery_own_gen row) (ConvRow.recovery_peer_gen row)
      (set_routing relay (Some inbox) (ConvRow.mailbox_recv row) row)).
Proof.
  intros Hs Hd Hp Hr Hrow.
  destruct (handoff_adopted conv peer own msg_id envelope [] s1 update k relay inbox other root row Hd Hp Hr Hrow)
    as (s' & row' & E & Hrow' & ->).
  exists s'. split; [|done]. unfold begin_pairing_from_offer. unfold mbind at 1, st_bind at 1. rewrite Hs.
  cbn [await_inbox_handoff_v2] in E |- *. unfold mbind at 1, st_bind at 1. by rewrite E.
Qed.
End pairing_runs.

(** ** Properties *)

(** C6: pairing agrees.  When a responder's pair-ack was accepted, the frame it
    sent leads the offerer that decrypts it, and for which the remaining steps
    succeed, to a stored conversation and a handoff frame; and a responder
    that decrypts this handoff while waiting always finishes, where its store
    works (the steps before may fail at any access to it).  The two stored
    conversations then match: each side sends where the other receives and
    knows the other's relay, the offerer has role 0 and the responder role 1,
    each holds its own and the other's contribution, and both have the same
    recovery root, derived from the two contributions in the same order. *)
Theorem pairing_agrees `{Platform} `{SqlText} `{LibSignal} `{RatchetLib} `{!Crypto}
    (payload conv_b peer_a own_b : bytes) (sb sb1 : Engine.t) :
  (forall n w, length (random_bytes n w).1 = n) ->
  (forall url w id w', http_create_mailbox url w = (Ok id, w') -> inbox_ok id) ->
  utf8_valid (Engine.my_relay sb) = true ->
  send_pair_ack payload sb = (Ok (conv_b, peer_a, own_b), sb1) ->
  exists offer body,
    handed_over (Engine.profile sb) (OfferV3.relay_url offer) (OfferV3.pairing_inbox_id offer) peer_a
      (pair_ack_frame body) /\
    forall inbox envelope sa peer_b ka conv_a sa1,
      utf8_valid (Engine.my_relay sa) = true ->
      decrypt_setup_from_unknown envelope (Engine.profile sa) (Engine.keys sa)
      = (Ok (peer_b, pair_ack_frame body), ka) ->
      handle_pair_ack_v2 inbox (OfferV3.pairing_secret offer) envelope sa = (Ok (Some conv_a), sa1) ->
      exists update recv_b,
        handed_over (Engine.profile sa) (Engine.my_relay sb) recv_b peer_b (handoff_frame update) /\
        forall msg_id envelope' rest sb2 kb,
          StoreWorks -> Engine.db sb2 = Engine.db sb1 ->
          decrypt_message peer_a envelope' (Engine.profile sb2) (Engine.keys sb2) = (Ok (handoff_frame update), kb) ->
          exists sb3 row_a row_b root recv_a own_a,
            await_inbox_handoff_v2 conv_b peer_a own_b true
              (HNext (Ok (Some (Delivery msg_id envelope'))) :: rest) sb2 = (Ok true, sb3) /\
            half_paired sa1 conv_a peer_b recv_a own_a ROLE_OFFERER row_a /\
            half_paired sb3 conv_b peer_a recv_b own_b ROLE_RESPONDER row_b /\
            ConvRow.mailbox_send row_a = Some recv_b /\ ConvRow.mailbox_send row_b = Some recv_a /\
            ConvRow.relay_url row_a = Engine.my_relay sb /\ ConvRow.relay_url row_b = Engine.my_relay sa /\
            ConvRow.recovery_peer_contrib row_a = Some own_b /\
            ConvRow.recovery_peer_contrib row_b = Some own_a /\
            ConvRow.recovery_root row_a = Some root /\ ConvRow.recovery_root row_b = Some root /\
            derive_root mac_finalize own_a own_b = Ok root.
Proof.
  intros Hrand Hbox Hub Hsend.
  assert (Hlen : forall own, (exists w w', random_bytes 32 w = (own, w')) -> zlen own = 32).
  { intros own (w & w' & E). pose proof (Hrand 32%nat w) as Hl. rewrite E in Hl. unfold zlen. simpl in Hl. lia. }
  destruct (sent_pair_ack _ _ _ _ _ _ Hsend) as (now & w & offer & k0 & bundle & w0 & recv_b & w1 & w2 & body & wire & row
    & _ & _ & _ & _ & Hb & _ & Hown & _ & Henc & Hwire & Hdep & Hhalf & _).
  apply Hbox in Hb. exists offer, body. split; [by repeat eexists|].
  intros inbox envelope sa peer_b ka conv_a sa1 Hua Hdec Hhandle.
  destruct (handled_pair_ack _ _ _ _ _ _ Hhandle) as (peer & frame & k & ack & w3 & recv_a & w4 & w5 & r & w6 & w7 & own_a & root
    & update & wire' & o & row_a & Hdec' & Hparse & _ & _ & Ha & _ & Howna & Hroot & _ & _ & Hupd & Hwire' & Hdep' & Hhalf' & Hru & Hse & Hpc & Hrr & _).
  rewrite Hdec in Hdec'. injection Hdec' as <- <- <-. apply Hbox in Ha.
  destruct (pair_ack_read_back _ _ _ _ _ _ _ Henc Hub Hb (Hlen _ Hown)) as (proof & Hback & _).
  simpl in Hparse. rewrite Hback in Hparse. injection Hparse as <-. simpl in *.
  exists update, recv_b. split; [by repeat eexists|].
  intros msg_id envelope' rest sb2 kb Hworks Hdb Hdecb.
  destruct (handoff_adopted conv_b peer_a own_b msg_id envelope' rest sb2 update kb (Engine.my_relay sa) recv_a
    own_a root row Hdecb (handoff_read_back _ _ _ _ Hupd Hua Ha (Hlen _ Howna)) Hroot) as (sb3 & row_b & Hrun & Hrow & ->);
    [by rewrite Hdb; apply (hp_row _ _ _ _ _ _ _ Hhalf)|].
  exists sb3, row_a. eexists _, root, recv_a, own_a. destruct Hhalf as [_ ? ? ? ?].
  split_and!; try done.
Qed.

(** A relay that accepts everything and always creates the same mailbox. *)
Definition willing : Platform := {|
  World := unit;
  http_send m url _ _ :=
    (Ok (match m with PUT => 201 | _ => if beq url (bstr "https://b/v1/mailboxes") then 201 else 202 end,
         Ok (created_json (replicate 43 66))), tt);
  random_bytes n w := (replicate n 7, w);
  system_secs w := (Some 2000, w);
  unixepoch w := (2000, w);
  store_fault w := (None, w);
  status_text _ := "status"%string
|}.

Definition bob_keys : Keys.t :=
  Keys.mk (Some (LocalIdentity.mk (bstr "bob") 5 [5; 2])) ∅ ∅ {[1 := [5; 7]]} {[1 := [5; 8]]} {[1 := ([8; 9], false)]}.

Definition demo_payload : bytes := offer_wire demo_offer ++ take 64 (offer_wire demo_offer ++ replicate 64 0).

#[local] Existing Instance willing.

Definition bob : Engine.t :=
  Engine.mk bob_keys (Db.mk [] [] true) (tt : World) (bstr "wss://b") toy_profile true true [] ∅ ∅ ∅ ∅ None.

Lemma willing_creates url w id w' : http_create_mailbox url w = (Ok id, w') -> inbox_ok id.
Proof.
  unfold http_create_mailbox, call, pure_r, mbind, st_bind. simpl.
  destruct (beq _ _); simpl; [|done]. vm_compute mailbox_id_of_body. simpl. intros [= <- _].
  unfold inbox_ok. by_compute.
Qed.

Lemma pairing_agrees_witness :
  (exists sb1, send_pair_ack demo_payload bob = (Ok (replicate 16 7, bstr "alice", replicate 32 7), sb1)) /\
  exists offer body, handed_over toy_profile (OfferV3.relay_url offer) (OfferV3.pairing_inbox_id offer)
    (bstr "alice") (pair_ack_frame body).
Proof.
  assert (E : (send_pair_ack demo_payload bob).1 = Ok (replicate 16 7, bstr "alice", replicate 32 7))
    by (vm_compute; reflexivity).
  assert (E' : send_pair_ack demo_payload bob
    = (Ok (replicate 16 7, bstr "alice", replicate 32 7), (send_pair_ack demo_payload bob).2))
    by (rewrite <- E; apply surjective_pairing).
  split; [eexists; exact E'|].
  destruct (pairing_agrees demo_payload _ _ _ bob _ (fun n w => length_replicate n 7) willing_creates
    eq_refl E') as (offer & body & Ho & _).
  exists offer, body. exact Ho.
Defined.

(** The offerer's half on the frame [bob] sends: it is accepted, and its
    handoff finishes the responder's wait. *)
Definition alice : Engine.t :=
  Engine.mk (toy_keys (bstr "alice")) (Db.mk [] [] true) (tt : World) (bstr "wss://b") toy_profile true true []
    ∅ ∅ ∅ ∅ None.

Definition sealed (f : InnerFrame.t) : Result bytes :=
  p ← InnerFrame.encode f toy_profile; Ok (Envelope.encode (Envelope.mk SessionSetup (0 :: p))).

Example pairing_runs :
  (bundle ← export_prekey_bundle bob_keys;
   body ← encode_pair_ack_v2 mac_finalize bundle (bstr "wss://b") (replicate 43 66) (replicate 32 7) (replicate 32 9);
   envelope ← sealed (pair_ack_frame body);
   conv ← (handle_pair_ack_v2 (replicate 43 65) (replicate 32 9) envelope alice).1;
   update ← encode_mailbox_update_v2 (bstr "wss://b") (replicate 43 66) (replicate 32 7);
   envelope' ← sealed (handoff_frame update);
   finished ← (await_inbox_handoff_v2 (replicate 16 7) (bstr "alice") (replicate 32 7) true
     [HNext (Ok (Some (Delivery [] envelope')))] (send_pair_ack demo_payload bob).2).1;
   Ok (conv, finished)) = Ok (Some (replicate 16 7), true).
Proof. vm_compute. reflexivity. Qed.

(** A refused handoff.  The relay answers the last deposit with 429: the
    offerer's side completes all the same. *)
Example refused_handoff :
  (bundle ← export_prekey_bundle bob_keys;
   body ← encode_pair_ack_v2 mac_finalize bundle (bstr "wss://b") (replicate 43 66) (replicate 32 7) (replicate 32 9);
   envelope ← sealed (pair_ack_frame body);
   (handle_pair_ack_v2 (H := scripted) (replicate 43 65) (replicate 32 9) envelope
     (demo_engine (Db.mk [] [] true) [(201, created_json (replicate 43 67)); (204, []); (429, [])])).1)
  = Ok (Some (replicate 16 7)).
Proof. vm_compute. reflexivity. Qed.

(** Nothing before the offer is accepted.  A scanned payload that is not an
    acceptable offer at the current time (malformed, wrongly signed, expired
    or not yet valid) makes pairing fail with that error after reading the
    clock only: no key, no row, no request, no notice.  The same holds when
    the call goes through the client. *)
Theorem offer_checked_first `{Platform} `{SqlText} `{LibSignal} `{RatchetLib} `{!Crypto}
    (payload : bytes) (ins : list HandoffInput) (s : Engine.t) (now : Z) (w : World) (e : CoreError) :
  system_secs (Engine.world s) = (Some now, w) ->
  parse_pairing_offer_v3 public_key_deserialize verify_signature payload now = Err e ->
  begin_pairing_from_offer payload ins s = (Err e, Engine.with_world s w) /\
  TitlanClient.begin_pairing_from_offer payload ins s = (Err e, Engine.with_world s w).
Proof.
  intros Hc Hp.
  assert (E : begin_pairing_from_offer payload ins s = (Err e, Engine.with_world s w)).
  { unfold begin_pairing_from_offer, send_pair_ack, unix_now, clock, on_net, zoom, mbind, st_bind.
    rewrite Hc. unfold pure_r. simpl. by rewrite Hp. }
  split; [exact E|]. unfold TitlanClient.begin_pairing_from_offer, mbind, st_bind. by rewrite E.
Qed.

Lemma offer_checked_first_witness :
  begin_pairing_from_offer [3; 0] [HSubscribed] (demo_engine two_pending [])
  = (Err (Malformed "truncated pairing bundle"), demo_engine two_pending []).
Proof.
  refine (proj1 (offer_checked_first [3; 0] [HSubscribed] (demo_engine two_pending []) 1000 [] _ _ _));
    vm_compute; reflexivity.
Defined.

(** C22: a wrong proof burns the offer.  A pair-ack that decrypts (the store
    does not fail at it) and whose proof does not verify makes the handler fail before any mailbox, row or contribution exists; the
    pairing listener then acks the frame, deletes the pairing inbox and ends,
    whatever comes later, and no conversation was stored or started. *)
Theorem bad_proof_burns_offer `{Platform} `{SqlText} `{LibSignal} `{RatchetLib} `{!Crypto}
    (inbox secret envelope msg_id body peer : bytes) (ack : PairAckV2.t) (s : Engine.t) (k : Keys.t) (w0 : World)
    (rest : list PairingInput) :
  store_fault (Engine.world s) = (None, w0) ->
  decrypt_setup_from_unknown envelope (Engine.profile s) (Engine.keys s) = (Ok (peer, pair_ack_frame body), k) ->
  parse_pair_ack_v2 body = Ok ack ->
  verify_proof_of_scan mac_finalize secret (PairAckV2.responder_bundle ack) (PairAckV2.root_contribution ack)
    (PairAckV2.proof ack) = Err ProofOfScanFailed ->
  handle_pair_ack_v2 inbox secret envelope s
  = (Err ProofOfScanFailed, Engine.with_world (Engine.with_keys s k) w0) /\
  (forall r w, http_delete_mailbox (Engine.my_relay s) inbox w0 = (r, w) -> r <> Panic ->
   pairing_listener_v2 inbox secret true (PNext (Ok (Some (Delivery msg_id envelope))) :: rest) s
   = (Ok true, Engine.with_world (Engine.push (Engine.with_keys s k) (AckSent msg_id)) w)).
Proof.
  intros Hf Hd Hp Hv.
  assert (E : handle_pair_ack_v2 inbox secret envelope s
    = (Err ProofOfScanFailed, Engine.with_world (Engine.with_keys s k) w0)).
  { unfold handle_pair_ack_v2, on_keys, store_call, zoom, get, mbind, st_bind. rewrite Hf.
    cbn [Engine.keys Engine.with_world]. rewrite Hd.
    cbn [pair_ack_frame InnerFrame.payload InnerFrame.payload_type InnerFrame.type_version].
    rewrite bool_decide_eq_true_2 by done. cbn [andb negb PAIR_ACK_V2 Z.eqb Pos.eqb].
    unfold pure_r. by rewrite Hp, Hv. }
  split; [exact E|]. intros r w Hdel Hr. cbn [pairing_listener_v2].
  unfold attempt, mbind, st_bind. rewrite E. cbv [Engine.ack modify].
  rewrite ignore_eq. unfold delete_mailbox, get, on_net, zoom, mbind, st_bind. simpl. rewrite Hdel. by destruct r.
Qed.

Definition forged_body : bytes :=
  pair_ack_wire (PairAckV2.mk [1; 2] (bstr "wss://b") (replicate 43 66) (replicate 32 7) (replicate 32 8)).

Lemma bad_proof_burns_offer_witness :
  exists envelope, sealed (pair_ack_frame forged_body) = Ok envelope /\
    (pairing_listener_v2 (replicate 43 65) (replicate 32 9) true
      [PNext (Ok (Some (Delivery [1] envelope)))] alice).1 = Ok true.
Proof.
  eexists. split; [vm_compute; reflexivity|].
  match goal with |- context [Delivery [1] ?e] => set (envelope := e) end.
  set (peer := address_for_identity (drop 8 envelope)).
  set (k := (decrypt_setup_from_unknown envelope toy_profile (Engine.keys alice)).2).
  destruct (bad_proof_burns_offer (replicate 43 65) (replicate 32 9) envelope [1] forged_body peer
    (PairAckV2.mk [1; 2] (bstr "wss://b") (replicate 43 66) (replicate 32 7) (replicate 32 8)) alice k tt []) as [_ H].
  - reflexivity.
  - vm_compute. reflexivity.
  - vm_compute. reflexivity.
  - vm_compute. reflexivity.
  - by rewrite (H (Ok tt) tt).
Defined.
