(* ===== verification/EngineSync.v ===== *)
(** Lifecycle of the engine's listeners ([spawn_conversation], [start_sync],
    [stop_sync]): the tasks as a state machine over sync generations, in which
    spawns, stops, their returns and the steps of the tasks interleave; one
    task per conversation of a generation, all of them handed to the stop that
    ends it; and the ring of recovery hellos already seen. *)

From S2P Require Import Prelude Errors Utf8 Config Envelope Cursor Pairing Recovery Storage Keys.
From S2P Require Import Transport Backoff Session Engine Client EngineDemo EngineRuns EngineListen.

Section lifecycle.
Context `{Platform} `{SqlText} `{LibSignal} `{RatchetLib} `{!Crypto}.

(** The handles of the live generation. *)
Definition handles (s : Engine.t) : list bytes := default [] (Engine.sync s).

(** The handles are those of the conversations listened to, once each. *)
Definition sync_ok (s : Engine.t) : Prop :=
  NoDup (handles s) /\ forall c, c ∈ handles s <-> c ∈ Engine.listening s.

Lemma spawn_eq conv s :
  spawn_conversation conv s
  = (Ok tt, if bool_decide (conv ∈ Engine.listening s) then s
            else Engine.push (Engine.with_sync s ({[conv]} ∪ Engine.listening s) (Some (handles s ++ [conv])))
                   (SpawnListener conv)).
Proof. done. Qed.

Lemma spawn_ok conv s :
  sync_ok s -> sync_ok (spawn_conversation conv s).2 /\ conv ∈ Engine.listening (spawn_conversation conv s).2 /\
  Engine.listening s ⊆ Engine.listening (spawn_conversation conv s).2 /\
  Engine.db (spawn_conversation conv s).2 = Engine.db s.
Proof.
  intros [Hn Hl]. rewrite spawn_eq. case_bool_decide as Hc; simpl; [by split_and!|].
  split_and!; [|set_solver|set_solver|done]. split; unfold handles at 1; simpl.
  - apply NoDup_app. split_and!; [done| |apply NoDup_singleton]. intros x Hx ->%list_elem_of_singleton.
    by apply Hc, Hl.
  - intros c. unfold handles. simpl. rewrite elem_of_app, list_elem_of_singleton, elem_of_union, elem_of_singleton.
    unfold handles in Hl. rewrite Hl. tauto.
Qed.
End lifecycle.

(** ** Listener tasks *)

(** A spawned task: not yet polled, or at a point of its loop. *)
Inductive task := Starting | At (l : listener).

Module Tasks.
Section state.
Context `{Platform}.
(** The engine, the number of the sync generation that is, or will be, live,
    the tasks that have not ended, each with its generation and conversation,
    and the stops that took a generation and have not returned, with the
    handles they join. *)
Record t := mk {
  engine : Engine.t;
  generation : nat;
  live : list (nat * bytes * task);
  stopping : gmap nat (list bytes)
}.
Definition with_engine (x : t) (s : Engine.t) : t := mk s (generation x) (live x) (stopping x).
End state.
End Tasks.

Section machine.
Context `{Platform} `{SqlText} `{LibSignal} `{RatchetLib} `{!Crypto}.

Inductive event :=
  | Other
  | Spawn (conv : bytes)
  | StopBegin
  | StopReturn (g : nat)
  | Turn (g : nat) (conv : bytes).

(** What may end a task's wait: the cancel signal once its generation's stop
    has flipped it, anything else that can come there; the top of the loop
    looks at the signal first. *)
Definition may_come (t : Tasks.t) (g : nat) (l : listener) (i : linput) : Prop :=
  (i = Cancelled -> is_Some (Tasks.stopping t !! g)) /\
  (l.1 = LTop -> i = Proceed -> Tasks.stopping t !! g = None).

(** The task after a step: gone when it is done or has failed. *)
Definition continued (g : nat) (conv : bytes) (r : Result listener) : list (nat * bytes * task) :=
  match r with
  | Ok l => match l.1 with LDone => [] | _ => [(g, conv, At l)] end
  | _ => []
  end.

Inductive step : Tasks.t -> event -> Tasks.t -> Prop :=
  | step_other t s' :
      Engine.listening s' = Engine.listening (Tasks.engine t) -> Engine.sync s' = Engine.sync (Tasks.engine t) ->
      step t Other (Tasks.with_engine t s')
  | step_spawn t conv s' :
      spawn_conversation conv (Tasks.engine t) = (Ok tt, s') ->
      step t (Spawn conv)
        (Tasks.mk s' (Tasks.generation t)
           (if bool_decide (conv ∈ Engine.listening (Tasks.engine t)) then Tasks.live t
            else Tasks.live t ++ [(Tasks.generation t, conv, Starting)])
           (Tasks.stopping t))
  | step_stop t hs s' :
      TitlanClient.stop_sync (Tasks.engine t) = (Ok hs, s') ->
      step t StopBegin
        (if Engine.sync (Tasks.engine t) is Some _
         then Tasks.mk s' (S (Tasks.generation t)) (Tasks.live t) (<[Tasks.generation t := hs]> (Tasks.stopping t))
         else Tasks.with_engine t s')
  | step_return t g hs :
      Tasks.stopping t !! g = Some hs -> (forall c, c ∈ hs -> (g, c) ∉ (Tasks.live t).*1) ->
      step t (StopReturn g)
        (Tasks.mk (Tasks.engine t) (Tasks.generation t) (Tasks.live t) (delete g (Tasks.stopping t)))
  | step_first t l1 l2 g conv seed s' :
      Tasks.live t = l1 ++ (g, conv, Starting) :: l2 -> random_seed (Tasks.engine t) = (Ok seed, s') ->
      step t (Turn g conv)
        (Tasks.mk s' (Tasks.generation t) (l1 ++ [(g, conv, At (LTop, BackoffSchedule.new seed))] ++ l2) (Tasks.stopping t))
  | step_turn t l1 l2 g conv l i m r s' :
      Tasks.live t = l1 ++ (g, conv, At l) :: l2 -> may_come t g l i -> listener_step conv l i = Some m ->
      m (Tasks.engine t) = (r, s') ->
      step t (Turn g conv) (Tasks.mk s' (Tasks.generation t) (l1 ++ continued g conv r ++ l2) (Tasks.stopping t)).

Definition some_step (t t' : Tasks.t) : Prop := exists e, step t e t'.

(** Tasks before any start. *)
Definition idle (t : Tasks.t) : Prop :=
  Engine.sync (Tasks.engine t) = None /\ Engine.listening (Tasks.engine t) = ∅ /\ Tasks.live t = [] /\
  Tasks.stopping t = ∅.

Definition keys_of (t : Tasks.t) : list (nat * bytes) := (Tasks.live t).*1.

Record tasks_ok (t : Tasks.t) : Prop := {
  to_sync : sync_ok (Tasks.engine t);
  to_keys : NoDup (keys_of t);
  to_live : forall g c, (g, c) ∈ keys_of t ->
    (g = Tasks.generation t /\ c ∈ handles (Tasks.engine t)) \/
    exists hs, Tasks.stopping t !! g = Some hs /\ c ∈ hs;
  to_stopping : forall g hs, Tasks.stopping t !! g = Some hs -> (g < Tasks.generation t)%nat;
  to_running : forall g c l, (g, c, At l) ∈ Tasks.live t -> l.1 <> LDone
}.

Lemma idle_ok t : idle t -> tasks_ok t.
Proof.
  intros (Hs & Hl & Hv & Hp). split; unfold keys_of, sync_ok, handles; rewrite ?Hs, ?Hl, ?Hv, ?Hp; simpl.
  - split; [constructor|set_solver].
  - constructor.
  - set_solver.
  - intros g hs. by rewrite lookup_empty.
  - set_solver.
Qed.

(** The bookkeeping is the engine's. *)
Definition same_books (s s' : Engine.t) : Prop :=
  Engine.listening s' = Engine.listening s /\ Engine.sync s' = Engine.sync s.

Lemma same_books_ok s s' : same_books s s' -> sync_ok s -> sync_ok s' /\ handles s' = handles s.
Proof. intros [El Es]. unfold sync_ok, handles. by rewrite El, Es. Qed.

Lemma listener_books conv l i m s r s' :
  listener_step conv l i = Some m -> m s = (r, s') -> same_books s s'.
Proof.
  intros Em E. replace s' with (m s).2 by (by rewrite E). destruct (deliveries [i]) as [|id ids] eqn:Ed.
  { by destruct (other_step _ _ _ _ s Em Ed) as [_ ?]. }
  destruct i as [| | | |[[[msg_id envelope|]|]| |]|]; try done.
  destruct l as [at_ b], (delivery_point _ _ _ _ _ Em) as [convo Hp]. simpl in Hp. subst at_.
  destruct (delivery_step conv convo b msg_id envelope s) as (m' & Em' & r' & s1 & _ & [_ Hb] & Er).
  assert (m' = m) as -> by congruence. rewrite Er. by destruct r'.
Qed.

(** A task replaced by what it goes on as, or by nothing. *)
Lemma replaced_ok t s' l1 l2 g conv k k' :
  Tasks.live t = l1 ++ (g, conv, k) :: l2 -> (k' = [] \/ exists x, k' = [(g, conv, x)]) ->
  (forall l, (g, conv, At l) ∈ k' -> l.1 <> LDone) -> same_books (Tasks.engine t) s' ->
  tasks_ok t ->
  tasks_ok (Tasks.mk s' (Tasks.generation t) (l1 ++ k' ++ l2) (Tasks.stopping t)).
Proof.
  intros Hl Hk Hd Hb [Hs Hn Hv Hp Hr]. destruct (same_books_ok _ _ Hb Hs) as [Hs' Hh].
  assert (Hsub : sublist (l1 ++ k' ++ l2).*1 (keys_of t)).
  { unfold keys_of. rewrite Hl, !fmap_app, fmap_cons. apply sublist_app; [done|].
    destruct Hk as [->|[x ->]]; simpl; by constructor. }
  split; unfold keys_of; simpl; rewrite ?Hh; try done.
  - by eapply sublist_NoDup.
  - intros g' c Hin. apply Hv. by eapply sublist_subseteq.
  - intros g' c l Hin. rewrite !elem_of_app in Hin. destruct Hin as [Hin|[Hin|Hin]].
    + apply (Hr g' c). rewrite Hl. set_solver.
    + apply Hd. destruct Hk as [->|[x ->]]; [set_solver|]. apply list_elem_of_singleton in Hin as [= <- <- <-].
      set_solver.
    + apply (Hr g' c). rewrite Hl. set_solver.
Qed.

Lemma continued_or g conv r : continued g conv r = [] \/ exists x, continued g conv r = [(g, conv, x)].
Proof. destruct r as [[[] b]| |]; simpl; eauto. Qed.

Lemma continued_running g conv r l : (g, conv, At l) ∈ continued g conv r -> l.1 <> LDone.
Proof. destruct r as [[[] b]| |]; simpl; try set_solver; intros [= ->]%list_elem_of_singleton; done. Qed.

Lemma spawned_ok t conv s' :
  tasks_ok t -> spawn_conversation conv (Tasks.engine t) = (Ok tt, s') ->
  tasks_ok (Tasks.mk s' (Tasks.generation t)
    (if bool_decide (conv ∈ Engine.listening (Tasks.engine t)) then Tasks.live t
     else Tasks.live t ++ [(Tasks.generation t, conv, Starting)]) (Tasks.stopping t)).
Proof.
  intros [Hs Hn Hv Hp Hr] E. destruct (spawn_ok conv _ Hs) as (Hs' & _ & _ & _). rewrite E in Hs'. simpl in Hs'.
  rewrite spawn_eq in E. injection E as <-. case_bool_decide as Hc; [by split|].
  assert (Hfresh : (Tasks.generation t, conv) ∉ keys_of t).
  { intros [[_ Hin]|(hs & Hg & _)]%Hv; [by apply Hc, Hs|]. apply Hp in Hg. lia. }
  split; unfold keys_of; simpl; try done; rewrite ?fmap_app.
  - apply NoDup_app. split_and!; [done| |apply NoDup_singleton]. by intros x Hx ->%list_elem_of_singleton.
  - intros g c [Hin|[= -> ->]%list_elem_of_singleton]%elem_of_app.
    + destruct (Hv _ _ Hin) as [[-> Hh]|?]; [left|by right]. split; [done|]. unfold handles. simpl. set_solver.
    + left. split; [done|]. unfold handles. simpl. set_solver.
  - intros g c l [Hin|[=]%list_elem_of_singleton]%elem_of_app. by eapply Hr.
Qed.

Lemma stopped_ok t hs s' :
  tasks_ok t -> TitlanClient.stop_sync (Tasks.engine t) = (Ok hs, s') ->
  tasks_ok (if Engine.sync (Tasks.engine t) is Some _
            then Tasks.mk s' (S (Tasks.generation t)) (Tasks.live t) (<[Tasks.generation t := hs]> (Tasks.stopping t))
            else Tasks.with_engine t s').
Proof.
  intros [Hs Hn Hv Hp Hr] [= <- <-].
  assert (Hs' : sync_ok (Engine.with_sync (Tasks.engine t) ∅ None)) by (split; [constructor|simpl; set_solver]).
  destruct (Engine.sync (Tasks.engine t)) as [hs|] eqn:Es.
  - split; try done; simpl.
    + intros g c Hin. right. destruct (Hv _ _ Hin) as [[-> Hh]|(hs' & Hg & Hc)].
      * exists hs. rewrite lookup_insert_eq. unfold handles in Hh. by rewrite Es in Hh.
      * exists hs'. rewrite lookup_insert_ne; [done|]. apply Hp in Hg. lia.
    + intros g hs'. destruct (decide (g = Tasks.generation t)) as [->|Hne]; [lia|].
      rewrite lookup_insert_ne by done. intros Hg%Hp. lia.
  - split; try done; simpl. intros g c Hin. destruct (Hv _ _ Hin) as [[_ Hh]|?]; [|by right].
    unfold handles in Hh. rewrite Es in Hh. set_solver.
Qed.

Lemma step_ok t e t' : tasks_ok t -> step t e t' -> tasks_ok t'.
Proof.
  intros Hok. destruct 1 as [t s' El Es|t conv s' E|t hs s' E|t g hs Hg Hj|t l1 l2 g conv seed s' Hl E|t l1 l2 g conv l i m r s' Hl Hi Em E].
  - destruct Hok as [Hs Hn Hv Hp Hr], (same_books_ok (Tasks.engine t) s' (conj El Es) Hs) as [Hs' Hh].
    split; try done. simpl. by rewrite Hh.
  - by apply spawned_ok.
  - by apply stopped_ok.
  - destruct Hok as [Hs Hn Hv Hp Hr]. split; try done; simpl.
    + intros g' c Hin. destruct (Hv _ _ Hin) as [?|(hs' & Hg' & Hc)]; [by left|]. right. exists hs'.
      rewrite lookup_delete_ne; [done|]. intros <-. apply (Hj c); [congruence|done].
    + intros g' hs' [_ Hg']%lookup_delete_Some. by eapply Hp.
  - eapply (replaced_ok t s' l1 l2 g conv Starting); try done; [by right; eexists| |].
    + intros l [= ->]%list_elem_of_singleton. done.
    + revert E. unfold random_seed, random, on_net, zoom, mbind, st_bind. destruct (random_bytes 8 _).
      by intros [= _ <-].
  - eapply (replaced_ok t s' l1 l2 g conv (At l)); try done; [apply continued_or|apply continued_running|].
    by eapply listener_books.
Qed.

Lemma steps_ok t t' : tasks_ok t -> rtc some_step t t' -> tasks_ok t'.
Proof. intros Hok. induction 1 as [|t t1 t' [e He] _ IH]; [done|]. eauto using step_ok. Qed.

(** ** A stop returns *)

(** What the tasks of a generation still have to do when they are cancelled. *)
Definition left_to_do (g : nat) (x : nat * bytes * task) : nat :=
  if bool_decide (x.1.1 = g) then match x.2 with Starting => 2 | At _ => 1 end else 0.

Definition turn_of (g : nat) (t t' : Tasks.t) : Prop := exists c, step t (Turn g c) t'.

(** A task of a stopping generation has a step that brings its end nearer. *)
Lemma drain_one t g hs l1 l2 c k :
  tasks_ok t -> Tasks.stopping t !! g = Some hs -> Tasks.live t = l1 ++ (g, c, k) :: l2 ->
  exists t' k', turn_of g t t' /\ Tasks.stopping t' = Tasks.stopping t /\ Tasks.live t' = l1 ++ k' ++ l2 /\
    (sum_list_with (left_to_do g) k' < left_to_do g (g, c, k))%nat.
Proof.
  intros Hok Hg Hl. destruct k as [|l].
  - destruct (random_seed (Tasks.engine t)) as [r s'] eqn:E.
    assert (Hr : exists seed, r = Ok seed).
    { revert E. unfold random_seed, random, on_net, zoom, mbind, st_bind. destruct (random_bytes 8 _).
      intros [= <- _]. by eexists. }
    destruct Hr as [seed ->]. eexists _, _. split; [by eexists; eapply step_first|]. split_and!; [done|done|].
    unfold left_to_do. simpl. rewrite !bool_decide_eq_true_2 by done. lia.
  - assert (Hd : l.1 <> LDone) by (apply (to_running _ Hok g c); rewrite Hl; set_solver).
    assert (Hc : listener_step c l Cancelled = Some (mret (LDone, l.2))) by (by destruct l as [[] b]).
    eexists _, []. split.
    { eexists. eapply (step_turn t l1 l2 g c l Cancelled); [done| |exact Hc|reflexivity].
      split; [by eexists|done]. }
    split_and!; [done|done|]. unfold left_to_do. simpl. rewrite bool_decide_eq_true_2 by done. lia.
Qed.

Lemma drains n : forall t g hs,
  tasks_ok t -> Tasks.stopping t !! g = Some hs -> (sum_list_with (left_to_do g) (Tasks.live t) <= n)%nat ->
  exists t', rtc (turn_of g) t t' /\ Tasks.stopping t' !! g = Some hs /\ (forall c, (g, c) ∉ keys_of t').
Proof.
  induction n as [|n IH]; intros t g hs Hok Hg Hn.
  all: destruct (decide (Exists (fun x => x.1.1 = g) (Tasks.live t))) as [Hx|Hx].
  2, 4: exists t; split_and!; [constructor|done|]; intros c Hin; apply Hx, Exists_exists;
    apply list_elem_of_fmap in Hin as (x & Hxe & Hin); exists x; by rewrite <- Hxe.
  all: apply Exists_exists in Hx as ([[g' c] k] & Hin & Hg'); simpl in Hg'; subst g';
    apply list_elem_of_split in Hin as (l1 & l2 & Hl);
    destruct (drain_one t g hs l1 l2 c k Hok Hg Hl) as (t1 & k' & Ht & Hst & Hl' & Hlt);
    assert (Hn' : (sum_list_with (left_to_do g) (Tasks.live t1) < sum_list_with (left_to_do g) (Tasks.live t))%nat)
      by (rewrite Hl, Hl', !sum_list_with_app; cbn [sum_list_with]; lia).
  - lia.
  - destruct (IH t1 g hs) as (t' & Hr & Hs' & Hk').
    + destruct Ht as [c' Ht]. by eapply step_ok.
    + by rewrite Hst.
    + lia.
    + exists t'. split_and!; [by eapply rtc_l|done|done].
Qed.

(** ** Starting *)

(** A start is a look at the store and one spawn per stored conversation. *)
Lemma spawn_all_steps : forall convs t s',
  TitlanClient.spawn_all convs (Tasks.engine t) = (Ok tt, s') ->
  exists t', rtc some_step t t' /\ Tasks.engine t' = s' /\ Tasks.generation t' = Tasks.generation t /\
    Engine.listening (Tasks.engine t) ⊆ Engine.listening s' /\ keys_of t ⊆ keys_of t' /\
    forall c, c ∈ convs -> c ∈ Engine.listening s' /\
      (c ∉ Engine.listening (Tasks.engine t) -> (Tasks.generation t', c) ∈ keys_of t').
Proof.
  induction convs as [|c convs IH]; intros t s' E; cbn [TitlanClient.spawn_all] in E.
  { injection E as <-. exists t. split_and!; try done. by intros c ?%elem_of_nil. }
  unfold mbind, st_bind in E. destruct (spawn_conversation c (Tasks.engine t)) as [r s1] eqn:Ec.
  pose proof Ec as Es1. rewrite spawn_eq in Es1. injection Es1 as <- Hs1.
  pose proof (step_spawn t c s1 Ec) as Hstep.
  match type of Hstep with step _ _ ?x => set (t1 := x) in * end.
  destruct (IH t1 s' E) as (t' & Hr & He & Hg & Hsub & Hkeys & Hall).
  assert (Hin : c ∈ Engine.listening s1 /\ Engine.listening (Tasks.engine t) ⊆ Engine.listening s1 /\
    (forall c', c' ∈ Engine.listening s1 -> c' ∉ Engine.listening (Tasks.engine t) -> c' = c)).
  { rewrite <- Hs1. case_bool_decide; simpl; set_solver. }
  assert (Hkey : keys_of t ⊆ keys_of t1 /\ (c ∉ Engine.listening (Tasks.engine t) -> (Tasks.generation t, c) ∈ keys_of t1)).
  { unfold keys_of, t1. simpl. case_bool_decide; [done|]. rewrite fmap_app. set_solver. }
  destruct Hin as (Hc & Hmono & Honly), Hkey as [Hk1 Hk2]. exists t'. change (Tasks.generation t1) with (Tasks.generation t) in Hg.
  split_and!; [by eapply rtc_l; [eexists|]|done|done|by etransitivity|by etransitivity|].
  assert (Hnew : c ∉ Engine.listening (Tasks.engine t) -> (Tasks.generation t', c) ∈ keys_of t')
    by (intros Hn; rewrite Hg; apply Hkeys, Hk2, Hn).
  intros c' [->|Hc']%elem_of_cons; [by split; [apply Hsub|]|]. destruct (Hall c' Hc') as [Hl Hk].
  split; [done|]. intros Hn. destruct (decide (c' ∈ Engine.listening s1)) as [Hin|Hin]; [|by apply Hk].
  assert (c' = c) as -> by auto. auto.
Qed.

Lemma start_steps t s' :
  TitlanClient.start_sync (Tasks.engine t) = (Ok tt, s') ->
  exists t' convs, rtc some_step t t' /\ Tasks.engine t' = s' /\ Tasks.generation t' = Tasks.generation t /\
    list_conversation_ids (Engine.db (Tasks.engine t)) = Ok convs /\
    forall c, c ∈ convs -> c ∈ Engine.listening s' /\
      (c ∉ Engine.listening (Tasks.engine t) -> (Tasks.generation t', c) ∈ keys_of t').
Proof.
  unfold TitlanClient.start_sync. intros E. run_inv. simpl in *.
  match goal with Hl : list_conversation_ids _ = Ok ?convs, E : TitlanClient.spawn_all _ ?s1 = _ |- _ =>
    destruct (spawn_all_steps convs (Tasks.with_engine t s1) s' E) as (t' & Hr & He & Hg & _ & _ & Hall);
    exists t', convs end.
  split_and!; try done. eapply rtc_l; [|exact Hr]. exists Other. by apply step_other.
Qed.

(** ** Listeners that ended by themselves *)

(** A conversation listened to by no task. *)
Definition deaf (conv : bytes) (t : Tasks.t) : Prop :=
  conv ∈ Engine.listening (Tasks.engine t) /\ (Tasks.generation t, conv) ∉ keys_of t.

Lemma replaced_keys (l1 l2 : list (nat * bytes * task)) g conv k k' x :
  (k' = [] \/ exists y, k' = [(g, conv, y)]) ->
  x ∈ (l1 ++ k' ++ l2).*1 -> x ∈ (l1 ++ (g, conv, k) :: l2).*1.
Proof. intros [->|[y ->]]; rewrite !fmap_app, ?fmap_cons; simpl; set_solver. Qed.

Lemma deaf_step conv t e t' : step t e t' -> e <> StopBegin -> deaf conv t -> deaf conv t'.
Proof.
  destruct 1 as [t s' El Es|t c s' E|t hs s' E|t g hs Hg Hj|t l1 l2 g c seed s' Hl E|t l1 l2 g c l i m r s' Hl Hi Em E];
    intros He [Hc Hk]; try done; split; unfold keys_of in *; simpl in *; try done.
  - by rewrite El.
  - rewrite spawn_eq in E. injection E as <-. case_bool_decide; [done|]. simpl. set_solver.
  - case_bool_decide as Hn; [done|]. rewrite fmap_app. simpl. intros [?|[= ->]%list_elem_of_singleton]%elem_of_app; done.
  - revert E. unfold random_seed, random, on_net, zoom, mbind, st_bind. destruct (random_bytes 8 _).
    by intros [= _ <-].
  - intros Hin. apply Hk. rewrite Hl. apply (replaced_keys _ _ g c Starting [(g, c, At (LTop, BackoffSchedule.new seed))]); [by right; eexists|exact Hin].
  - by destruct (listener_books _ _ _ _ _ _ _ Em E) as [-> _].
  - intros Hin. apply Hk. rewrite Hl. eapply replaced_keys; [|exact Hin]. apply continued_or.
Qed.

Lemma deaf_steps conv t t' :
  rtc (fun t t' => exists e, step t e t' /\ e <> StopBegin) t t' -> deaf conv t -> deaf conv t'.
Proof. induction 1 as [|t t1 t' (e & Hs & He) _ IH]; [done|]. intros Hd. eauto using deaf_step. Qed.
End machine.

(** ** Properties *)

(** C26: one listener per conversation.  Whatever the interleaving of spawns (of
    a start, of a pairing), stops, returns of stops and steps of the tasks:
    the handles of the live generation are those of the conversations listened
    to, once each; no conversation has two tasks of one generation; a task
    that runs has its handle in the live generation, to be cancelled and
    joined by the next stop, or belongs to a generation whose stop has not
    returned; so when the stop of a generation has returned, none of its tasks
    runs, and until then its tasks can always reach their ends by themselves,
    after which it can return.  A start listens to every stored conversation,
    with a new task for each that was not listened to.  But a task that ended
    by itself (a failed read of the store, a conversation to pair again) stays
    in the bookkeeping: nothing short of a stop gives its conversation a task
    again. *)
Theorem one_listener_each `{Platform} `{SqlText} `{LibSignal} `{RatchetLib} `{!Crypto} (t0 t : Tasks.t) :
  idle t0 -> rtc some_step t0 t ->
  NoDup (handles (Tasks.engine t)) /\
  (forall c, c ∈ handles (Tasks.engine t) <-> c ∈ Engine.listening (Tasks.engine t)) /\
  NoDup (keys_of t) /\
  (forall g c, (g, c) ∈ keys_of t ->
     (g = Tasks.generation t /\ c ∈ handles (Tasks.engine t)) \/
     ((g < Tasks.generation t)%nat /\ exists hs, Tasks.stopping t !! g = Some hs /\ c ∈ hs)) /\
  (forall g, (g < Tasks.generation t)%nat -> Tasks.stopping t !! g = None -> forall c, (g, c) ∉ keys_of t) /\
  (forall g hs, Tasks.stopping t !! g = Some hs ->
     exists t1 t2, rtc (turn_of g) t t1 /\ step t1 (StopReturn g) t2) /\
  (forall s', TitlanClient.start_sync (Tasks.engine t) = (Ok tt, s') ->
     exists t' convs, rtc some_step t t' /\ Tasks.engine t' = s' /\ Tasks.generation t' = Tasks.generation t /\
       list_conversation_ids (Engine.db (Tasks.engine t)) = Ok convs /\
       forall c, c ∈ convs -> c ∈ Engine.listening s' /\
         (c ∉ Engine.listening (Tasks.engine t) -> (Tasks.generation t', c) ∈ keys_of t')) /\
  (forall c t', deaf c t -> rtc (fun t t' => exists e, step t e t' /\ e <> StopBegin) t t' -> deaf c t').
Proof.
  intros Hi Hr. pose proof (steps_ok _ _ (idle_ok _ Hi) Hr) as Hok. pose proof Hok as [[Hn Hl] Hk Hv Hp _].
  split_and!; try done.
  - intros g c Hin. destruct (Hv _ _ Hin) as [?|(hs & Hg & Hc)]; [by left|]. right. split; [by eapply Hp|by exists hs].
  - intros g Hg Hnone c Hin. destruct (Hv _ _ Hin) as [[-> _]|(hs & Hs & _)]; [lia|congruence].
  - intros g hs Hg. destruct (drains _ t g hs Hok Hg (Nat.le_refl _)) as (t1 & Ht & Hg' & Hnone).
    exists t1. eexists. split; [exact Ht|]. by eapply step_return.
  - apply start_steps.
  - intros c t' Hd Hs. by eapply deaf_steps.
Qed.

(** A start, a listener whose first read of the store fails, a stop. *)
#[local] Existing Instance flaky.

Definition deaf_demo (faults : list (option string)) : Engine.t :=
  Engine.mk (toy_keys (bstr "ana")) two_pending (faults, []) (bstr "wss://r") toy_profile true true [] ∅ ∅ ∅ ∅ None.

Definition idle_demo (faults : list (option string)) : Tasks.t := Tasks.mk (deaf_demo faults) 0 [] ∅.

Lemma deaf_reached : exists t, rtc some_step (idle_demo [Some "disk"%string]) t /\ deaf demo_conv t.
Proof.
  eexists. split.
  - eapply rtc_l; [exists (Spawn demo_conv); apply step_spawn; reflexivity|].
    eapply rtc_l; [exists (Turn 0 demo_conv); apply (step_first _ [] []); reflexivity|].
    eapply rtc_l; [|reflexivity]. exists (Turn 0 demo_conv).
    eapply (step_turn _ [] [] 0 demo_conv _ Proceed); [reflexivity|by split|reflexivity|reflexivity].
  - split; [simpl; set_solver|]. vm_compute. set_solver.
Qed.

Lemma one_listener_each_witness :
  exists t, rtc some_step (idle_demo [Some "disk"%string]) t /\ deaf demo_conv t /\
    (forall t', rtc (fun t t' => exists e, step t e t' /\ e <> StopBegin) t t' -> deaf demo_conv t') /\
    forall s', TitlanClient.start_sync (Tasks.engine t) = (Ok tt, s') ->
    exists t', rtc some_step t t' /\ Tasks.engine t' = s'.
Proof.
  destruct deaf_reached as (t & Hr & Hd). exists t. split; [exact Hr|]. split; [exact Hd|].
  assert (Hi : idle (idle_demo [Some "disk"%string])) by (split_and!; reflexivity).
  destruct (one_listener_each _ t Hi Hr) as (_ & _ & _ & _ & _ & _ & Hs & Hdeaf).
  split; [intros t' Ht; exact (Hdeaf demo_conv t' Hd Ht)|]. intros s' E. destruct (Hs s' E) as (t' & convs & Ht & He & _). exists t'. split; [exact Ht|exact He].
Defined.

(** A stop called while another one joins its tasks returns at once: the tasks
    still run. *)
Definition joining : Tasks.t :=
  Tasks.mk (Engine.push (Engine.with_sync (deaf_demo []) ∅ None) (SpawnListener demo_conv)) 1
    [(0%nat, demo_conv, Starting)] {[0%nat := [demo_conv]]}.

Lemma second_stop_returns_early :
  rtc some_step (idle_demo []) joining /\ step joining StopBegin joining /\
  TitlanClient.stop_sync (Tasks.engine joining) = (Ok [], Tasks.engine joining).
Proof.
  split_and!; [|exact (step_stop joining [] (Tasks.engine joining) eq_refl)|done].
  eapply rtc_l; [exists (Spawn demo_conv); apply step_spawn; reflexivity|].
  eapply rtc_l; [exists StopBegin; eapply step_stop; reflexivity|]. reflexivity.
Qed.

(** ** Hellos already seen *)

Section hello.
Context `{Platform} `{SqlText} `{LibSignal} `{RatchetLib} `{!Crypto}.

Definition ring (s : Engine.t) (conv : bytes) : list (Z * bytes) := default [] (Engine.hello_seen s !! conv).

Lemma pop_front_over_drop n : forall l, pop_front_over n l = drop (length l - n) l.
Proof.
  induction l as [|x l IH]; [done|]. cbn [pop_front_over length].
  destruct (n <? S (length l))%nat eqn:E.
  - apply Nat.ltb_lt in E. rewrite IH. by replace (S (length l) - n)%nat with (S (length l - n)) by lia.
  - apply Nat.ltb_ge in E. by replace (S (length l) - n)%nat with 0%nat by lia.
Qed.

Lemma seen_iff (g : Z) (nonce : bytes) l :
  existsb (fun x => (x.1 =? g) && beq x.2 nonce) l = true <-> (g, nonce) ∈ l.
Proof.
  rewrite existsb_exists. split.
  - intros ([g' n'] & Hin & Hb). reflect_bools. simpl in *. subst. by apply list_elem_of_In.
  - intros Hin. exists (g, nonce). split; [by apply list_elem_of_In|]. simpl. by rewrite Z.eqb_refl, beq_refl.
Qed.
End hello.


