(* ===== verification/EngineRecover.v ===== *)
(** Recovery in the engine: both parties of a conversation meet on the derived
    inboxes of the same generation, rotate away from them, and give up after
    three cycles without contact. *)

From S2P Require Import Prelude Errors Utf8 Config Envelope Cursor Pairing Recovery Storage Keys.
From S2P Require Import Base64 RelayApi Transport Backoff Session Engine EngineDemo EngineRuns EngineSend EngineListen EngineSync.

Section recovery.
Context `{StoreWorks} `{SqlText} `{LibSignal} `{RatchetLib} `{!Crypto}.

Abbreviation derived root role g := (derive_mailbox_id mac_finalize root (role_from_u8 role) g).

(** A row moved to a generation: where it receives and sends, and the
    generations it stores. *)
Definition moved (relay recv send : bytes) (g peer_gen : Z) (row : ConvRow.t) : ConvRow.t :=
  set_recovery (ConvRow.recovery_role row) (ConvRow.recovery_own_contrib row) (ConvRow.recovery_peer_contrib row)
    (ConvRow.recovery_root row) g peer_gen (set_routing relay (Some send) (Some recv) row).

Lemma entered conv convo role root g peer_gen s s' row :
  enter_recovery_gen conv convo role root g peer_gen s = (Ok true, s') ->
  conv_row (Engine.db s) conv = Some row ->
  exists recv send, derived root role g = Ok recv /\ derived root (peer_role_u8 role) g = Ok send /\
    conv_row (Engine.db s') conv = Some (moved (Conversation.relay_url convo) recv send g peer_gen row) /\
    Engine.exhaustion s' = Engine.exhaustion s.
Proof.
  unfold enter_recovery_gen, derived_id. intros E Hrow. run_inv.
  match goal with b : bool |- _ => destruct b; cbn [negb] in E; [|by run_inv] end.
  run_inv.
  match goal with o : (unit + CoreError)%type |- _ => destruct o; [|by run_inv] end.
  run_inv. simpl in *.
  eexists _, _. split_and!; try done.
  repeat match goal with Hs : set_conversation_recv _ _ _ = Ok _ |- _ => injection Hs as <- end.
  rewrite !conv_row_update by done. by rewrite bool_decide_eq_true_2, Hrow by done.
Qed.

(** A store read that is known. *)
Lemma attempt_db_get {A} (f : Db.t -> Result A) s a :
  f (Engine.db s) = Ok a -> attempt (db_get f) s = (Ok (inl a), s).
Proof. intros E. unfold attempt. by rewrite db_get_works, E. Qed.

Lemma attempt_db_set f s d :
  f (Engine.db s) = Ok d -> attempt (db_set f) s = (Ok (inl tt), Engine.with_db s d).
Proof. intros E. unfold attempt. by rewrite db_set_works, E. Qed.

Lemma ignored_db_set f s d :
  f (Engine.db s) = Ok d -> ignore (db_set f) s = (Ok tt, Engine.with_db s d).
Proof. intros E. by rewrite ignore_eq, db_set_works, E. Qed.

Lemma get_conversation_row d conv row :
  conv_row d conv = Some row ->
  exists convo, get_conversation d conv = Ok (Some convo) /\ Conversation.relay_url convo = ConvRow.relay_url row /\
    Conversation.mailbox_recv convo = ConvRow.mailbox_recv row.
Proof. intros Hr. unfold get_conversation. rewrite Hr. by eexists. Qed.

(** What is stored for derived recovery. *)
Definition recoverable (s : Engine.t) (conv root : bytes) (role own_gen peer_gen : Z) (row : ConvRow.t) : Prop :=
  conv_row (Engine.db s) conv = Some row /\
  exists own peer, recovery_state (Engine.db s) conv
    = Ok (Some (RecoveryRecord.mk (Some role) own peer (Some root) own_gen peer_gen)).

Lemma recover_derived s conv root role own_gen peer_gen row :
  recoverable s conv root role own_gen peer_gen row ->
  exists convo, Conversation.relay_url convo = ConvRow.relay_url row /\
    recover conv s = recover_v2 conv convo role root own_gen peer_gen s.
Proof.
  intros [Hrow (own & peer & Hrec)]. destruct (get_conversation_row _ _ _ Hrow) as (convo & Hc & Hr & _).
  exists convo. split; [done|]. unfold recover, mbind, st_bind.
  rewrite (attempt_db_get _ _ _ Hc), (attempt_db_get _ _ _ Hrec). done.
Qed.

(** The cycles counted for a conversation. *)
Definition counted (s : Engine.t) (conv : bytes) : Z :=
  ExhaustionTracker.cycles (default ExhaustionTracker.new (Engine.exhaustion s !! conv)).

Lemma recovered s conv root role own_gen peer_gen row s' :
  recoverable s conv root role own_gen peer_gen row -> recover conv s = (Ok ROneSided, s') ->
  let g := saturating_add u32_max own_gen 1 in
  counted s conv < RECOVERY_PROBE_CYCLES /\ counted s' conv = saturating_add u32_max (counted s conv) 1 /\
  exists recv send, derived root role g = Ok recv /\ derived root (peer_role_u8 role) g = Ok send /\
    conv_row (Engine.db s') conv = Some (moved (ConvRow.relay_url row) recv send g peer_gen row).
Proof.
  intros Hrec E g. destruct (recover_derived _ _ _ _ _ _ _ Hrec) as (convo & Hr & Hv2). rewrite Hv2 in E.
  unfold recover_v2, tracker in E. run_inv.
  destruct (ExhaustionTracker.is_exhausted _) eqn:Ht; cbn [orb] in E; [by run_inv|].
  destruct (GenerationState.is_exhausted _); run_inv.
  match goal with b : bool |- _ => destruct b; run_inv end.
  unfold ExhaustionTracker.is_exhausted in Ht. reflect_bools. unfold counted. split; [done|].
  match goal with He : enter_recovery_gen _ _ _ _ _ _ _ = _ |- _ =>
    destruct (entered _ _ _ _ _ _ _ _ _ He (proj1 Hrec)) as (recv & send & Hd & Hd' & Hrow & Hx) end.
  rewrite Hr in Hrow. cbn [Engine.exhaustion Engine.with_exhaustion] in *.
  rewrite Hx, !lookup_insert_eq. cbn [default from_option id ExhaustionTracker.note_probe_cycle ExhaustionTracker.cycles].
  split; [done|]. by exists recv, send.
Qed.

Lemma mark_hello_Ok conv g nonce s b s' :
  mark_hello_seen conv g nonce s = (Ok b, s') -> exists m, s' = Engine.with_hello_seen s m.
Proof. unfold mark_hello_seen. intros E. run_inv. destruct (existsb _ _); run_inv; by eexists. Qed.

(** A hello with a higher generation moves a party to it. *)
Lemma hello_moves s conv root role own_gen peer_gen row payload g nonce s' :
  recoverable s conv root role own_gen peer_gen row -> parse_recovery_hello payload = Ok (g, nonce) ->
  own_gen < g -> handle_recovery_hello conv payload s = (Ok true, s') ->
  exists recv send, derived root role g = Ok recv /\ derived root (peer_role_u8 role) g = Ok send /\
    conv_row (Engine.db s') conv = Some (moved (ConvRow.relay_url row) recv send g (Z.max peer_gen g) row).
Proof.
  intros [Hrow (own & peer & Hrec)] Hp Hg E. unfold handle_recovery_hello in E. rewrite Hp in E.
  apply st_bind_Ok in E as (x & s1 & [= <- <-] & E). cbv beta iota in E.
  apply st_bind_Ok in E as (b & s1 & (m & ->)%mark_hello_Ok & E). destruct b; cbn [negb] in E; [|by run_inv].
  apply st_bind_Ok in E as (r & s1 & Er & E). rewrite (attempt_db_get _ (Engine.with_hello_seen s m) _ Hrec) in Er. injection Er as <- <-.
  cbv beta iota in E. cbn [RecoveryRecord.role RecoveryRecord.root RecoveryRecord.own_gen RecoveryRecord.peer_gen] in E.
  unfold GenerationState.converge in E. cbn [GenerationState.own GenerationState.peer] in E.
  rewrite (proj2 (Z.eqb_neq _ _)), Z.max_r in E by lia. run_inv.
  match goal with Hc : attempt _ ?s1 = _ |- _ =>
    assert (Hrow1 : conv_row (Engine.db s1) conv = Some (set_recovery (ConvRow.recovery_role row)
      (ConvRow.recovery_own_contrib row) (ConvRow.recovery_peer_contrib row) (ConvRow.recovery_root row)
      g (Z.max peer_gen g) row)) by
      (cbn [Engine.db Engine.with_db]; rewrite conv_row_update by done; simpl; by rewrite bool_decide_eq_true_2, Hrow);
    destruct (get_conversation_row _ _ _ Hrow1) as (convo & Hconv & Hrelay & _);
    rewrite (attempt_db_get _ s1 _ Hconv) in Hc; injection Hc as <- <-
  end.
  destruct (entered _ _ _ _ _ _ _ _ _ E Hrow1) as (recv & send & ? & ? & Hrow' & _).
  rewrite Hrelay in Hrow'. by exists recv, send.
Qed.

(** ** When recovery succeeds *)

Lemma bind_step {A B} (m : st Engine.t A) (f : A -> st Engine.t B) s a s1 b :
  m s = (Ok a, s1) -> (exists s', f a s1 = (Ok b, s')) -> exists s', mbind f m s = (Ok b, s').
Proof. intros E [s' E']. exists s'. apply st_bind_Ok. by exists a, s1. Qed.

Lemma random_eq n s :
  random n s = (Ok (random_bytes n (Engine.world s)).1, Engine.with_world s (random_bytes n (Engine.world s)).2).
Proof. unfold random, on_net, zoom. by destruct (random_bytes _ _). Qed.

Lemma mark_hello_fresh conv g nonce s :
  (g, nonce) ∉ ring s conv ->
  mark_hello_seen conv g nonce s = (Ok true, Engine.with_hello_seen s
    (<[conv := pop_front_over 512 (ring s conv ++ [(g, nonce)])]> (Engine.hello_seen s))).
Proof.
  intros Hnew. unfold mark_hello_seen, get, modify, mbind, st_bind. fold (ring s conv).
  destruct (existsb _ _) eqn:E; [|done]. by apply seen_iff in E.
Qed.

(** The network, and encryption under a padding profile, fail with errors
    only. *)
Definition calm (profile : PaddingProfile.t) : Prop :=
  (forall m url body w, (http_send m url body w).1 <> Panic) /\
  (forall peer f k, (encrypt_message peer f profile k).1 <> Panic).

Section calm.
Variable profile : PaddingProfile.t.
Hypothesis Hcalm : calm profile.

Abbreviation padded := (fun s : Engine.t => Engine.profile s = profile).

Lemma calm_net {A} (m : st World A) : (forall w, (m w).1 <> Panic) -> no_panic padded (on_net m).
Proof. intros Hm s Hs. specialize (Hm (Engine.world s)). unfold on_net, zoom. by destruct (m _). Qed.

Lemma calm_request {A} m url body (f : Z -> A) :
  no_panic padded (on_net ('(status, _) ← call m url body; mret (f status))).
Proof.
  apply calm_net. intros w. destruct Hcalm as [Hn _]. specialize (Hn m url body w).
  unfold call, mbind, st_bind. by destruct (http_send _ _ _ _) as [[[]| |]].
Qed.

Lemma calm_put relay id : total padded (put_create relay id).
Proof. apply total_bind; [apply total_attempt, calm_request|]. intros a. apply total_ret. Qed.

Lemma calm_encrypt peer f : no_panic padded (encrypt peer f).
Proof.
  intros s Hs. unfold encrypt, get, mbind, st_bind. rewrite on_keys_works. unfold zoom. rewrite Hs.
  destruct Hcalm as [_ He]. specialize (He peer f (Engine.keys s)). by destruct (encrypt_message _ _ _ _).
Qed.

Lemma calm_announce_all convo root role hello :
  (forall g, exists id, derived root role g = Ok id) ->
  forall window, total padded (announce_all convo root role hello window).
Proof.
  intros Hd. induction window as [|k window IH]; cbn [announce_all]; [apply total_ret|].
  apply total_bind; [|intros _; exact IH]. unfold announce, derived_id. destruct (Hd k) as [id ->].
  apply total_bind; [intros s Hs; by eexists _, _|]. intros a. apply total_bind; [apply calm_put|].
  intros [|]; [|apply total_ret]. apply total_bind; [apply total_attempt, calm_encrypt|].
  intros [w|e]; [apply total_ignore, calm_request|apply total_ret].
Qed.
End calm.

Lemma enters conv convo role root g peer_gen s recv w :
  calm (Engine.profile s) -> (forall role g, exists id, derived root role g = Ok id) ->
  derived root role g = Ok recv ->
  http_put_mailbox (Engine.my_relay s) recv (Engine.world s) = (Ok Created, w) ->
  exists s', enter_recovery_gen conv convo role root g peer_gen s = (Ok true, s').
Proof.
  intros Hc Hd Hr Hput. unfold enter_recovery_gen, derived_id. rewrite Hr.
  destruct (Hd (peer_role_u8 role) g) as [send ->].
  assert (Hp : put_create (Engine.my_relay s) recv s = (Ok true, Engine.with_world s w)).
  { unfold put_create, attempt, on_net, zoom, mbind, st_bind. by rewrite Hput. }
  eapply bind_step; [reflexivity|]. eapply bind_step; [reflexivity|]. eapply bind_step; [exact Hp|].
  eapply bind_step; [by apply attempt_db_set|]. eapply bind_step; [apply random_eq|].
  edestruct (calm_announce_all _ Hc convo root (peer_role_u8 role)) as ([] & s1 & E & _); [done| |].
  2: eapply bind_step; [exact E|]. { reflexivity. }
  eapply bind_step; [reflexivity|]. eapply bind_step; [by apply ignored_db_set|].
  eapply bind_step; [by apply ignored_db_set|]. by eexists.
Qed.

Lemma tracker_eq conv s :
  tracker conv s = let t := default ExhaustionTracker.new (Engine.exhaustion s !! conv) in
    (Ok t, Engine.with_exhaustion s (<[conv := t]> (Engine.exhaustion s))).
Proof. done. Qed.

Lemma recover_succeeds s conv root role own_gen peer_gen row recv w :
  calm (Engine.profile s) -> (forall role g, exists id, derived root role g = Ok id) ->
  recoverable s conv root role own_gen peer_gen row ->
  counted s conv < RECOVERY_PROBE_CYCLES -> Z.abs (own_gen - peer_gen) < RECOVERY_WINDOW ->
  derived root role (saturating_add u32_max own_gen 1) = Ok recv ->
  http_put_mailbox (Engine.my_relay s) recv (Engine.world s) = (Ok Created, w) ->
  exists s', recover conv s = (Ok ROneSided, s').
Proof.
  intros Hc Hd Hrec Hcnt Hgap Hr Hput. destruct (recover_derived _ _ _ _ _ _ _ Hrec) as (convo & _ & ->).
  unfold recover_v2. eapply bind_step; [apply tracker_eq|]. unfold counted in Hcnt. simpl.
  unfold ExhaustionTracker.is_exhausted, GenerationState.is_exhausted. simpl.
  rewrite !(proj2 (Z.leb_gt _ _)) by done. simpl.
  match goal with |- exists s', mbind _ (enter_recovery_gen ?c ?co ?r ?ro ?g ?p) ?st = _ =>
    destruct (enters c co r ro g p st recv w) as [s1 E]; try done; eapply bind_step; [exact E|] end.
  eapply bind_step; [apply tracker_eq|]. eapply bind_step; [reflexivity|]. by eexists.
Qed.

Lemma hello_succeeds s conv root role own_gen peer_gen row payload g nonce recv w :
  calm (Engine.profile s) -> (forall role g, exists id, derived root role g = Ok id) ->
  recoverable s conv root role own_gen peer_gen row -> parse_recovery_hello payload = Ok (g, nonce) ->
  own_gen < g -> (g, nonce) ∉ ring s conv ->
  derived root role g = Ok recv ->
  http_put_mailbox (Engine.my_relay s) recv (Engine.world s) = (Ok Created, w) ->
  exists s', handle_recovery_hello conv payload s = (Ok true, s').
Proof.
  intros Hc Hd [Hrow (own & peer & Hrec)] Hp Hg Hnew Hr Hput. unfold handle_recovery_hello.
  eapply bind_step; [unfold attempt, pure_r; by rewrite Hp|]. cbv beta iota.
  eapply bind_step; [by apply mark_hello_fresh|]. cbn [negb].
  eapply bind_step; [by apply attempt_db_get|]. cbn [RecoveryRecord.role RecoveryRecord.root].
  unfold GenerationState.converge. cbn [GenerationState.own GenerationState.peer RecoveryRecord.own_gen].
  rewrite (proj2 (Z.eqb_neq _ _)), Z.max_r by lia.
  eapply bind_step; [reflexivity|]. eapply bind_step; [by apply ignored_db_set|].
  match goal with |- exists s', mbind _ _ ?s1 = _ =>
    assert (Hrow1 : exists row', conv_row (Engine.db s1) conv = Some row') by
      (eexists; cbn [Engine.db Engine.with_db]; rewrite conv_row_update by done; simpl;
       by rewrite bool_decide_eq_true_2, Hrow)
  end.
  destruct Hrow1 as [row' Hrow1]. destruct (get_conversation_row _ _ _ Hrow1) as (convo & Hconv & _).
  eapply bind_step; [by apply attempt_db_get|]. cbv beta iota.
  by apply (enters _ _ _ _ _ _ _ recv w).
Qed.

(** ** Rotation *)

Lemma ignore_flush_Ok conv s u s' :
  ignore (flush_pending conv) s = (Ok u, s') -> Db.conversations (Engine.db s') = Db.conversations (Engine.db s).
Proof.
  rewrite ignore_eq. pose proof (flush_conversations conv s) as Hf.
  destruct (flush_pending conv s) as [[]]; intros [=]; by subst.
Qed.

Lemma conv_row_same d d' conv : Db.conversations d' = Db.conversations d -> conv_row d' conv = conv_row d conv.
Proof. unfold conv_row. by intros ->. Qed.

(** The offerer's last leg. *)
Lemma rotation_finished conv payload relay inbox a s s' row :
  parse_mailbox_update_v3 payload = Ok (relay, inbox) -> Engine.rotation s !! conv = Some a ->
  conv_row (Engine.db s) conv = Some row -> handle_rotation conv payload s = (Ok true, s') ->
  conv_row (Engine.db s') conv = Some (set_routing relay (Some inbox) (Some (OffererAwaitingFb.f_a a)) row).
Proof.
  intros Hp Ha Hrow E. unfold handle_rotation in E. rewrite Hp in E.
  apply st_bind_Ok in E as (x & s1 & [= <- <-] & E). cbv beta iota in E.
  apply st_bind_Ok in E as (x & s1 & [= <- <-] & E). rewrite Ha in E. run_inv.
  match goal with Hf : ignore (flush_pending _) _ = _ |- _ => apply ignore_flush_Ok in Hf end.
  erewrite conv_row_same by eassumption. cbn [Engine.db Engine.with_world Engine.with_db Engine.with_rotation].
  rewrite !conv_row_update by done. by rewrite bool_decide_eq_true_2, Hrow.
Qed.

(** The responder's leg: it moves to a fresh inbox and announces it. *)
Lemma rotation_answered conv payload relay inbox root role own_gen peer_gen s s' row :
  parse_mailbox_update_v3 payload = Ok (relay, inbox) -> Engine.rotation s !! conv = None ->
  recoverable s conv root role own_gen peer_gen row -> handle_rotation conv payload s = (Ok true, s') ->
  exists f_b update,
    (exists w w', http_create_mailbox (Engine.my_relay s) w = (Ok f_b, w')) /\
    encode_mailbox_update_v3 (Engine.my_relay s) f_b = Ok update /\
    conv_row (Engine.db s') conv = Some (set_routing relay (Some inbox) (Some f_b) row).
Proof.
  intros Hp Ha [Hrow (own & peer & Hrec)] E. unfold handle_rotation in E. rewrite Hp in E.
  apply st_bind_Ok in E as (x & s1 & [= <- <-] & E). cbv beta iota in E.
  apply st_bind_Ok in E as (x & s1 & [= <- <-] & E). rewrite Ha in E. cbv beta iota in E.
  unfold answer_rotation in E. set (s1 := Engine.with_rotation s _) in E.
  apply st_bind_Ok in E as (x & s2 & Er & E). rewrite (attempt_db_get _ s1 _ Hrec) in Er. injection Er as <- <-.
  destruct (get_conversation_row _ _ _ Hrow) as (convo & Hconv & _ & _).
  cbv beta iota in E. cbn [RecoveryRecord.role RecoveryRecord.root RecoveryRecord.own_gen] in E.
  apply st_bind_Ok in E as (x & s2 & Er & E). rewrite (attempt_db_get _ s1 _ Hconv) in Er. injection Er as <- <-.
  unfold derived_id, create_mailbox in E. run_inv.
  match goal with o : (bytes + CoreError)%type |- _ => destruct o as [f_b|]; run_inv end.
  match goal with o : (unit + CoreError)%type |- _ => destruct o; run_inv end.
  repeat match goal with
  | Hk : ?m ?st = (Ok ?a, ?st') |- _ => is_var st'; apply kept_Ok in Hk as (? & ? & ->); [|by kept]
  end.
  simpl in *.
  repeat match goal with
  | Hf : ignore (flush_pending _) _ = _ |- _ => apply ignore_flush_Ok in Hf
  | Hs : set_conversation_recv _ _ _ = Ok _ |- _ => injection Hs as <-
  end.
  eexists f_b, _. split; [by eauto|]. split; [eassumption|].
  erewrite conv_row_same by eassumption. cbn [Engine.db Engine.with_world Engine.with_keys Engine.with_db].
  rewrite !conv_row_update by done. by rewrite bool_decide_eq_true_2, Hrow.
Qed.
(** ** A hello that is not news *)

(** The rows of the conversations stay. *)
Definition same_rows (s s' : Engine.t) : Prop := Db.conversations (Engine.db s') = Db.conversations (Engine.db s).

#[local] Instance same_rows_preorder : PreOrder same_rows.
Proof. split; [done|]. unfold same_rows. intros s1 s2 s3 E1 E2. congruence. Qed.

Lemma rows_keys {A} (m : store A) : always same_rows (on_keys m).
Proof. intros s. rewrite on_keys_works. unfold zoom. by destruct (m _). Qed.
Lemma rows_net {A} (m : st World A) : always same_rows (on_net m).
Proof. intros s. unfold on_net, zoom. by destruct (m _). Qed.
Lemma rows_modify f : (forall s, Engine.db (f s) = Engine.db s) -> always same_rows (modify f).
Proof. intros Hf s. unfold same_rows, modify. simpl. by rewrite Hf. Qed.

Lemma rows_initiate conv convo role root g : always same_rows (initiate_rotation conv convo role root g).
Proof.
  unfold initiate_rotation, create_mailbox, encrypt, deposit.
  repeat first
    [ apply always_bind; [apply _| |intros ?] | apply always_attempt | apply always_ignore; [apply _|]
    | apply rows_keys | apply rows_net | apply rows_modify; done | apply always_same; [apply _|done]
    | match goal with |- always _ (match ?x with _ => _ end) => destruct x end ].
Qed.

Lemma initiate_stays conv convo role root g s s' : initiate_rotation conv convo role root g s <> (Ok true, s').
Proof.
  intros E. unfold initiate_rotation in E. run_inv.
  match goal with o : (bytes + CoreError)%type |- _ => destruct o; run_inv end.
Qed.

(** A hello of no higher generation leaves a party where it is; it notes the
    generation as the peer's. *)
Lemma hello_not_ahead s conv root role own_gen peer_gen row payload g nonce r s' :
  recoverable s conv root role own_gen peer_gen row -> parse_recovery_hello payload = Ok (g, nonce) ->
  g <= own_gen -> (g, nonce) ∉ ring s conv -> handle_recovery_hello conv payload s = (r, s') ->
  r <> Ok true /\
  conv_row (Engine.db s') conv = Some (set_recovery (ConvRow.recovery_role row) (ConvRow.recovery_own_contrib row)
    (ConvRow.recovery_peer_contrib row) (ConvRow.recovery_root row) own_gen (Z.max peer_gen g) row).
Proof.
  intros [Hrow (own & peer & Hrec)] Hp Hg Hnew E. unfold handle_recovery_hello, mbind, st_bind in E.
  unfold attempt at 1, pure_r at 1 in E. rewrite Hp, mark_hello_fresh in E by done. cbn [negb] in E.
  match type of E with context [attempt (db_get (fun d => recovery_state d conv)) ?s1] =>
    rewrite (attempt_db_get _ s1 _ Hrec) in E end.
  cbn [RecoveryRecord.role RecoveryRecord.root RecoveryRecord.own_gen RecoveryRecord.peer_gen] in E.
  unfold GenerationState.converge in E. cbn [GenerationState.own GenerationState.peer] in E.
  rewrite Z.max_l, Z.eqb_refl in E by lia. cbn [negb] in E. unfold modify in E.
  erewrite ignored_db_set in E by reflexivity.
  match type of E with context [attempt (db_get (fun d => get_conversation d conv)) ?s1] => set (s2 := s1) in E end.
  set (row' := set_recovery (ConvRow.recovery_role row) (ConvRow.recovery_own_contrib row)
    (ConvRow.recovery_peer_contrib row) (ConvRow.recovery_root row) own_gen (Z.max peer_gen g) row).
  assert (Hrow' : conv_row (Engine.db s2) conv = Some row')
    by (unfold s2; cbn [Engine.db Engine.with_db]; rewrite conv_row_update by done; simpl; by rewrite bool_decide_eq_true_2, Hrow).
  destruct (get_conversation_row _ _ _ Hrow') as (convo & Hconv & _). rewrite (attempt_db_get _ s2 _ Hconv) in E.
  destruct (_ && _) in E.
  - match type of E with initiate_rotation _ _ _ _ ?k _ = _ =>
      pose proof (rows_initiate conv convo role root k s2) as Hs end. rewrite E in Hs. simpl in Hs.
    split; [intros ->; by apply initiate_stays in E|]. by rewrite (conv_row_same _ _ _ Hs).
  - rewrite ignore_eq in E. pose proof (flush_conversations conv s2) as Hf.
    destruct (flush_pending conv s2) as [[] s3]; injection E as <- <-; (split; [done|]);
      by rewrite (conv_row_same _ _ _ Hf).
Qed.
End recovery.

(** ** Properties *)

(** Two parties of one conversation, each with its role. *)
Definition party_row (role : Z) : ConvRow.t :=
  set_recovery (Some role) (Some (replicate 32 1)) (Some (replicate 32 2)) (Some (replicate 32 3)) 0 0
    (new_row demo_conv (bstr "bob") (bstr "wss://r") (Some peer_box) (Some (bstr "in")) 1000).

Definition party (role : Z) (script : list (Z * bytes)) : Engine.t :=
  demo_engine (Db.mk [party_row role] [] true) script.

Lemma party_recoverable role script :
  0 <= role <= 255 -> recoverable (party role script) demo_conv (replicate 32 3) role 0 0 (party_row role).
Proof.
  intros Hr. split; [reflexivity|]. exists (Some (replicate 32 1)), (Some (replicate 32 2)).
  unfold recovery_state. change (conv_row _ _) with (Some (party_row role)). cbn -[get_uint].
  by rewrite !get_uint_Ok.
Qed.

(** C11: recovery meets.  Two parties with the same recovery root and opposite
    roles, whose stores work.  When one lost its inbox, has not given up, and
    its relay grants its derived inbox, its recovery succeeds and moves it to
    the next generation.  The other, when the hello is new to it, moves to that
    generation if its own is lower and its relay grants its derived inbox: then
    each sends to the derived inbox at which the other receives.  If its own
    generation is not lower it stays where it is, and only notes the hello's
    generation as the peer's.  Peers' relays and everything else in the rows
    stay.  Announcements may fail: this needs only that network and ratchet
    fail with errors. *)
Theorem recovery_meets `{StoreWorks} `{SqlText} `{LibSignal} `{RatchetLib} `{!Crypto}
    (ca cb root payload nonce : bytes) (role_a role_b gen_a peer_a gen_b peer_b g : Z)
    (sa sb : Engine.t) (row_a row_b : ConvRow.t) (box_a box_b : bytes) (wa : World) :
  calm (Engine.profile sa) -> calm (Engine.profile sb) -> (forall k m, 32 <= zlen (mac_finalize k m)) ->
  (role_a = ROLE_OFFERER /\ role_b = ROLE_RESPONDER \/ role_a = ROLE_RESPONDER /\ role_b = ROLE_OFFERER) ->
  recoverable sa ca root role_a gen_a peer_a row_a -> recoverable sb cb root role_b gen_b peer_b row_b ->
  counted sa ca < 3 -> Z.abs (gen_a - peer_a) < 4 ->
  gen_a < u32_max -> g = gen_a + 1 ->
  parse_recovery_hello payload = Ok (g, nonce) -> (g, nonce) ∉ ring sb cb ->
  derive_mailbox_id mac_finalize root (role_from_u8 role_a) g = Ok box_a ->
  derive_mailbox_id mac_finalize root (role_from_u8 role_b) g = Ok box_b ->
  http_put_mailbox (Engine.my_relay sa) box_a (Engine.world sa) = (Ok Created, wa) ->
  (exists sa', recover ca sa = (Ok ROneSided, sa') /\
     conv_row (Engine.db sa') ca = Some (moved (ConvRow.relay_url row_a) box_a box_b g peer_a row_a)) /\
  (gen_b < g -> forall wb, http_put_mailbox (Engine.my_relay sb) box_b (Engine.world sb) = (Ok Created, wb) ->
   exists sb', handle_recovery_hello cb payload sb = (Ok true, sb') /\
     conv_row (Engine.db sb') cb = Some (moved (ConvRow.relay_url row_b) box_b box_a g (Z.max peer_b g) row_b)) /\
  (g <= gen_b -> forall r sb', handle_recovery_hello cb payload sb = (r, sb') ->
   r <> Ok true /\
   conv_row (Engine.db sb') cb = Some (set_recovery (ConvRow.recovery_role row_b) (ConvRow.recovery_own_contrib row_b)
     (ConvRow.recovery_peer_contrib row_b) (ConvRow.recovery_root row_b) gen_b (Z.max peer_b g) row_b)).
Proof.
  intros Hcalm Hcalm' Hmac Hroles Ha Hb Hcnt Hgap Hmax Hg Hp Hnew Hbox_a Hbox_b Hput_a.
  assert (Hd : forall role g, exists id, derive_mailbox_id mac_finalize root (role_from_u8 role) g = Ok id).
  { intros role k. unfold derive_mailbox_id, hmac_sha256. rewrite slice_Ok; [by eexists|lia|lia|apply Hmac]. }
  assert (Hsat : saturating_add u32_max gen_a 1 = g) by (unfold saturating_add; lia).
  assert (peer_role_u8 role_a = role_b /\ peer_role_u8 role_b = role_a) as [E1 E2]
    by (by destruct Hroles as [[-> ->]|[-> ->]]).
  split_and!.
  - destruct (recover_succeeds sa ca root role_a gen_a peer_a row_a box_a wa) as [sa' Hrec]; try done.
    { by rewrite Hsat. }
    exists sa'. split; [done|].
    destruct (recovered _ _ _ _ _ _ _ _ Ha Hrec) as (_ & _ & recv & send & Hda & Hdb & Hrow). rewrite Hsat in *.
    rewrite E1 in Hdb. congruence.
  - intros Hlt wb Hput_b.
    destruct (hello_succeeds sb cb root role_b gen_b peer_b row_b payload g nonce box_b wb) as [sb' Hh]; try done.
    exists sb'. split; [done|].
    destruct (hello_moves _ _ _ _ _ _ _ _ _ _ _ Hb Hp Hlt Hh) as (recv' & send' & Hda' & Hdb' & Hrow').
    rewrite E2 in Hdb'. congruence.
  - intros Hle r sb' Hh. by eapply hello_not_ahead.
Qed.

Lemma demo_calm : calm toy_profile.
Proof.
  split; [by intros m url body [|[] w]|]. intros peer f k.
  unfold encrypt_message, mbind, st_bind, pure_r.
  destruct (inner_encode_cases f toy_profile toy_profile_wf) as (b & _ & Hc).
  assert (Hn : InnerFrame.encode f toy_profile <> Panic).
  { rewrite Hc. repeat (destruct (_ <? _); [done|]). by destruct (PaddingProfile.bucket_for _ _). }
  destruct (InnerFrame.encode f toy_profile); [|done|done]. simpl.
  unfold local_protocol_address, read_r, mbind, st_bind, pure_r, local_address, local_row.
  by destruct (Keys.local_identity k).
Qed.

Lemma recovery_meets_witness :
  let box r := derive_mailbox_id mac_finalize (replicate 32 3) (role_from_u8 r) 1 in
  exists box_a box_b sa' sb', box 0 = Ok box_a /\ box 1 = Ok box_b /\
    recover demo_conv (party 0 [(201, [])]) = (Ok ROneSided, sa') /\
    handle_recovery_hello demo_conv (encode_recovery_hello 1 (replicate 16 9)) (party 1 [(201, [])]) = (Ok true, sb') /\
    conv_row (Engine.db sa') demo_conv = Some (moved (bstr "wss://r") box_a box_b 1 0 (party_row 0)) /\
    conv_row (Engine.db sb') demo_conv = Some (moved (bstr "wss://r") box_b box_a 1 1 (party_row 1)).
Proof.
  intros box.
  set (hello := encode_recovery_hello 1 (replicate 16 9)).
  assert (Hp : parse_recovery_hello hello = Ok (1, replicate 16 9)) by (vm_compute; reflexivity).
  assert (Hmac : forall k m, 32 <= zlen (mac_finalize k m)).
  { intros k m. unfold zlen. cbn [mac_finalize toy_crypto].
    rewrite length_take, !length_app, length_replicate. lia. }
  eexists _, _.
  destruct (recovery_meets demo_conv demo_conv (replicate 32 3) hello (replicate 16 9) 0 1 0 0 0 0 1
    (party 0 [(201, [])]) (party 1 [(201, [])]) (party_row 0) (party_row 1) _ _ []
    demo_calm demo_calm Hmac (or_introl (conj eq_refl eq_refl)) (party_recoverable 0 _ ltac:(lia))
    (party_recoverable 1 _ ltac:(lia)) ltac:(by vm_compute) ltac:(by vm_compute) ltac:(unfold u32_max; lia)
    ltac:(lia) Hp ltac:(apply not_elem_of_nil) eq_refl eq_refl eq_refl)
    as ((sa' & E1 & H1) & Hb & _).
  destruct (Hb ltac:(lia) [] eq_refl) as (sb' & E2 & H2).
  exists sa', sb'. split; [reflexivity|]. split; [reflexivity|]. split; [exact E1|]. split; [exact E2|].
  split; [exact H1|exact H2].
Defined.

(** C23: rotation completes, where the stores work.  When the offerer waits for the answer to its fresh
    inbox, the responder that handles the announcement and succeeds ends up
    receiving at a mailbox it created on its own relay and sending to the
    offerer's fresh inbox; and the offerer that handles any answer naming that
    mailbox ends up sending to it and receiving at its fresh inbox.  The pair
    has left the derived inboxes and each sends where the other receives. *)
Theorem rotation_completes `{StoreWorks} `{SqlText} `{LibSignal} `{RatchetLib} `{!Crypto}
    (ca cb payload root relay_a f_a : bytes) (role gen peer_gen : Z) (a : OffererAwaitingFb.t)
    (sa sb sb' : Engine.t) (row_a row_b : ConvRow.t) :
  Engine.rotation sa !! ca = Some a -> OffererAwaitingFb.f_a a = f_a -> conv_row (Engine.db sa) ca = Some row_a ->
  Engine.rotation sb !! cb = None -> recoverable sb cb root role gen peer_gen row_b ->
  parse_mailbox_update_v3 payload = Ok (relay_a, f_a) ->
  handle_rotation cb payload sb = (Ok true, sb') ->
  exists f_b update,
    (exists w w', http_create_mailbox (Engine.my_relay sb) w = (Ok f_b, w')) /\
    encode_mailbox_update_v3 (Engine.my_relay sb) f_b = Ok update /\
    conv_row (Engine.db sb') cb = Some (set_routing relay_a (Some f_a) (Some f_b) row_b) /\
    forall answer sa', parse_mailbox_update_v3 answer = Ok (Engine.my_relay sb, f_b) ->
      handle_rotation ca answer sa = (Ok true, sa') ->
      conv_row (Engine.db sa') ca = Some (set_routing (Engine.my_relay sb) (Some f_b) (Some f_a) row_a).
Proof.
  intros Hrot <- Hra Hnone Hrec Hp Hh.
  destruct (rotation_answered _ _ _ _ _ _ _ _ _ _ _ Hp Hnone Hrec Hh) as (f_b & update & Hc & Hu & Hrow).
  exists f_b, update. split_and!; [done|done|done|]. intros answer sa' Hpa Hha.
  by apply (rotation_finished _ _ _ _ _ _ _ _ Hpa Hrot Hra Hha).
Qed.

Lemma rotation_completes_witness :
  exists f_b sb',
    handle_rotation demo_conv (routing_wire 3 (bstr "wss://a") (replicate 43 65))
      (party 1 [(201, created_json (replicate 43 66))]) = (Ok true, sb') /\
    conv_row (Engine.db sb') demo_conv
    = Some (set_routing (bstr "wss://a") (Some (replicate 43 65)) (Some f_b) (party_row 1)).
Proof.
  set (payload := routing_wire 3 (bstr "wss://a") (replicate 43 65)).
  set (sb := party 1 [(201, created_json (replicate 43 66))]).
  set (a := OffererAwaitingFb.mk (replicate 43 65) (replicate 43 67)).
  set (sa := Engine.with_rotation (party 0 []) {[demo_conv := a]}).
  assert (Eb : (handle_rotation demo_conv payload sb).1 = Ok true) by (vm_compute; reflexivity).
  assert (Eb' : handle_rotation demo_conv payload sb = (Ok true, (handle_rotation demo_conv payload sb).2))
    by (rewrite <- Eb; apply surjective_pairing).
  assert (Hp : parse_mailbox_update_v3 payload = Ok (bstr "wss://a", replicate 43 65)) by (vm_compute; reflexivity).
  assert (Ha : Engine.rotation sa !! demo_conv = Some a) by (vm_compute; reflexivity).
  destruct (rotation_completes demo_conv demo_conv payload (replicate 32 3) (bstr "wss://a") (replicate 43 65) 1 0 0
    a sa sb _ (party_row 0) (party_row 1) Ha eq_refl eq_refl eq_refl (party_recoverable 1 _ ltac:(lia)) Hp Eb')
    as (f_b & update & _ & _ & H & _).
  exists f_b. eexists. split; [exact Eb'|exact H].
Defined.

(** C24: recovery gives up, where the store works.  With three cycles counted since the last contact,
    or generations a full window apart, recovery asks for re-pairing without
    touching keys, store or network, and the listener then reports this and
    ends.  A recovery that succeeds had fewer cycles counted and counts one
    more. *)
Theorem recovery_gives_up `{StoreWorks} `{SqlText} `{LibSignal} `{RatchetLib} `{!Crypto}
    (conv root : bytes) (role own_gen peer_gen : Z) (s : Engine.t) (row : ConvRow.t) (b : BackoffSchedule.t) :
  recoverable s conv root role own_gen peer_gen row ->
  (forall s', recover conv s = (Ok ROneSided, s') ->
     counted s conv < 3 /\ counted s' conv = counted s conv + 1) /\
  (3 <= counted s conv \/ 4 <= Z.abs (own_gen - peer_gen) ->
   exists m, recover conv s = (Ok RNeedsRepair, Engine.with_exhaustion s m) /\
   exists step s', listener_step conv (LRecover, b) Proceed = Some step /\ step s = (Ok (LDone, b), s') /\
     Engine.db s' = Engine.db s /\ Engine.world s' = Engine.world s /\ Engine.keys s' = Engine.keys s /\
     Engine.log s' = Engine.log s ++
       (if Engine.observer s then [OnState conv RePairRequired; OnNeedsRepair conv] else [])).
Proof.
  intros Hrec. split.
  - intros s' E. destruct (recovered _ _ _ _ _ _ _ _ Hrec E) as (Hc & -> & _).
    unfold RECOVERY_PROBE_CYCLES in Hc. split; [done|]. unfold saturating_add, u32_max. lia.
  - intros Hex. destruct (recover_derived _ _ _ _ _ _ _ Hrec) as (convo & _ & Hv2).
    set (m := <[conv := default ExhaustionTracker.new (Engine.exhaustion s !! conv)]> (Engine.exhaustion s)).
    assert (E : recover conv s = (Ok RNeedsRepair, Engine.with_exhaustion s m)).
    { rewrite Hv2. unfold recover_v2, tracker, get, modify, mbind, st_bind, mret, st_ret.
      replace (_ || _) with true; [done|]. symmetry. apply orb_true_iff.
      unfold ExhaustionTracker.is_exhausted, GenerationState.is_exhausted, RECOVERY_WINDOW. simpl.
      rewrite !Z.leb_le. exact Hex. }
    exists m. split; [exact E|]. eexists _, _. split; [reflexivity|].
    cbn [listener_step]. unfold mbind at 1, st_bind at 1. rewrite E.
    unfold emit_state, emit_needs_repair, notify, modify, mbind, st_bind. simpl.
    split; [reflexivity|]. destruct (Engine.observer s) eqn:Eo; simpl; rewrite ?Eo; simpl.
    + by rewrite <- app_assoc.
    + by rewrite app_nil_r.
Qed.

Lemma recovery_gives_up_witness :
  let s := Engine.with_exhaustion (party 0 []) {[demo_conv := ExhaustionTracker.mk 3]} in
  exists m, recover demo_conv s = (Ok RNeedsRepair, Engine.with_exhaustion s m).
Proof.
  intros s.
  assert (Hr : recoverable s demo_conv (replicate 32 3) 0 0 0 (party_row 0)) by (apply (party_recoverable 0 []); lia).
  assert (Hc : 3 <= counted s demo_conv) by (vm_compute; congruence).
  destruct (recovery_gives_up demo_conv (replicate 32 3) 0 0 0 s (party_row 0) (BackoffSchedule.new 1) Hr)
    as [_ H]. destruct (H (or_introl Hc)) as (m & E & _). exists m. exact E.
Defined.
