(* ===== verification/EngineCut.v ===== *)
(** Tasks of the engine that are dropped at an await: a listener's recovery when
    synchronisation stops ([tokio::select!] in [conversation_listener]) and an
    offer's pairing listener at the end of its lifetime ([tokio::time::timeout]
    in [spawn_pairing_v2]).  The awaits of these tasks are their requests.  A
    dropped task leaves the state it had reached, runs none of the code after
    the await and handles no error; so in the model it is a run in which the
    answer of that request is a panic, which nothing catches.  [cut] makes such
    a platform of any other one. *)

From S2P Require Import Prelude Errors Utf8 Config Envelope Cursor Pairing Recovery Storage Keys.
From S2P Require Import Base64 Transport Session Engine EngineDemo EngineRuns EngineRecover.

(** One request never answers: the one after the given number of them.
    [reached]: whether it still takes effect.  Later requests are those of
    other tasks. *)
Definition cut (P : Platform) (reached : bool) : Platform := {|
  World := option nat * World (Platform := P);
  http_send m url body w :=
    match w.1 with
    | Some O => (Panic, (None, if reached then (http_send m url body w.2).2 else w.2))
    | Some (S n) => let '(r, w') := http_send m url body w.2 in (r, (Some n, w'))
    | None => let '(r, w') := http_send m url body w.2 in (r, (None, w'))
    end;
  random_bytes n w := let '(b, w') := random_bytes n w.2 in (b, (w.1, w'));
  system_secs w := let '(t, w') := system_secs w.2 in (t, (w.1, w'));
  unixepoch w := let '(t, w') := unixepoch w.2 in (t, (w.1, w'));
  store_fault w := let '(f, w') := store_fault w.2 in (f, (w.1, w'));
  status_text := status_text
|}.

(** ** Lemmas *)

Lemma st_bind_Panic {S A B} (m : st S A) (f : A -> st S B) s s' :
  mbind f m s = (Panic, s') <->
  m s = (Panic, s') \/ exists a s1, m s = (Ok a, s1) /\ f a s1 = (Panic, s').
Proof.
  unfold mbind, st_bind. destruct (m s) as [[a|e|] s1]; split.
  - intros E. right. by exists a, s1.
  - intros [[=]|(a' & s1' & [= <- <-] & E)]. exact E.
  - intros [=].
  - intros [[=]|(a' & s1' & [=] & _)].
  - intros [= <-]. by left.
  - intros [[= <-]|(a' & s1' & [=] & _)]. done.
Qed.

Section cut.
Context `{Platform} `{SqlText} `{LibSignal} `{RatchetLib} `{!Crypto}.

Abbreviation derived root role g := (derive_mailbox_id mac_finalize root (role_from_u8 role) g).

Lemma kept_out {A} (m : st Engine.t A) s r s' :
  always store_kept m -> m s = (r, s') ->
  Engine.db s' = Engine.db s /\ Engine.exhaustion s' = Engine.exhaustion s.
Proof. intros Hm E. destruct (Hm s) as (k & w & Hs). rewrite E in Hs. simpl in Hs. by subst. Qed.

Lemma attempt_Panic {A} (m : st Engine.t A) s s' : attempt m s = (Panic, s') -> m s = (Panic, s').
Proof. unfold attempt. destruct (m s) as [[]]; congruence. Qed.

Lemma db_set_not_Panic f s s' : (forall d, f d <> Panic) -> db_set f s <> (Panic, s').
Proof.
  intros Hf. unfold db_set, on_db, store_call. destruct (store_fault _) as [[text|] w]; [done|]. simpl.
  specialize (Hf (Engine.db s)). by destruct (f (Engine.db s)).
Qed.

Lemma ignore_db_set_not_Panic f s s' : (forall d, f d <> Panic) -> ignore (db_set f) s <> (Panic, s').
Proof.
  intros Hf. rewrite ignore_eq. destruct (db_set f s) as [[]] eqn:E; try done. by apply db_set_not_Panic in E.
Qed.

(** What a dropped recovery may have written. *)
Lemma enter_cut conv convo role root g peer_gen s s' :
  enter_recovery_gen conv convo role root g peer_gen s = (Panic, s') ->
  Engine.exhaustion s' = Engine.exhaustion s /\
  (Engine.db s' = Engine.db s \/
   exists recv, derived root role g = Ok recv /\ set_conversation_recv (Engine.db s) conv recv = Ok (Engine.db s')).
Proof.
  unfold enter_recovery_gen, derived_id.
  intros [[= _ ->]|(recv & s1 & [= Hr <-] & E)]%st_bind_Panic; [by split; [|left]|].
  apply st_bind_Panic in E as [[=]|(x & s1 & [= -> <-] & E)].
  apply st_bind_Panic in E as [E|(b & s1 & (w & ->)%put_create_Ok & E)].
  { apply kept_out in E as [-> ->]; [|by kept]. by split; [|left]. }
  destruct b; [|by injection E]. cbn [negb] in E.
  apply st_bind_Panic in E as [E%attempt_Panic|(b & s1 & Ea & E)]; [by apply db_set_not_Panic in E|].
  destruct b as [[]|]; [|by injection E]. apply attempt_inl, db_set_Ok in Ea as (d & wd & _ & Hd & ->).
  apply st_bind_Panic in E as [E|(nonce & s1 & (w1 & _ & ->)%random_Ok & E)].
  { unfold random, on_net, zoom in E. by destruct (random_bytes _ _). }
  assert (Hrest : Engine.db s' = d /\ Engine.exhaustion s' = Engine.exhaustion x).
  { apply st_bind_Panic in E as [E|(u & s1 & E1 & E)].
    { apply kept_out in E as [-> ->]; [done|apply kept_announce_all]. }
    apply kept_out in E1 as [Hd1 He1]; [|apply kept_announce_all].
    apply st_bind_Panic in E as [[= _ <-]|(send & s2 & [= _ <-] & E)]; [by rewrite Hd1, He1|].
    apply st_bind_Panic in E as [E|(u2 & s2 & _ & E)]; [by apply ignore_db_set_not_Panic in E|].
    apply st_bind_Panic in E as [E|(u3 & s3 & _ & [=])]. by apply ignore_db_set_not_Panic in E. }
  destruct Hrest as [-> ->]. split; [done|]. right. exists recv. split; [done|exact Hd].
Qed.

Lemma recover_cut `{!StoreWorks} s conv root role own_gen peer_gen row s' :
  recoverable s conv root role own_gen peer_gen row -> recover conv s = (Panic, s') ->
  counted s' conv = counted s conv /\
  (Engine.db s' = Engine.db s \/
   exists recv, derived root role (saturating_add u32_max own_gen 1) = Ok recv /\
     set_conversation_recv (Engine.db s) conv recv = Ok (Engine.db s')).
Proof.
  intros Hrec E. destruct (recover_derived _ _ _ _ _ _ _ Hrec) as (convo & Hr & Hv2). rewrite Hv2 in E.
  unfold recover_v2 in E. apply st_bind_Panic in E as [[=]|(t & s1 & Ht & E)].
  rewrite tracker_eq in Ht. injection Ht as <- <-. destruct (_ || _) in E; [by injection E|].
  apply st_bind_Panic in E as [E|(b & s2 & _ & E)].
  - apply enter_cut in E as [He Hd]. split; [|exact Hd]. unfold counted. rewrite He. simpl. by rewrite lookup_insert_eq.
  - destruct b; [|by injection E]. apply st_bind_Panic in E as [[=]|(t & s3 & _ & E)].
    apply st_bind_Panic in E as [[=]|(u & s4 & _ & [=])].
Qed.

(** ** Pairing *)

(** What the offerer stores for a pair-ack: complete with its recovery root. *)
Definition paired_row (conv peer my_inbox a_contrib root : bytes) (ack : PairAckV2.t) (now : Z) : ConvRow.t :=
  set_recovery (Some ROLE_OFFERER) (Some a_contrib) (Some (PairAckV2.root_contribution ack)) (Some root) 0 0
    (new_row conv peer (PairAckV2.relay_url ack) (Some (PairAckV2.inbox_id ack)) (Some my_inbox) now).

Lemma update_appended d row conv f :
  conv_row d conv = None -> ConvRow.id row = conv ->
  update_conv (Db.with_conversations d (Db.conversations d ++ [row])) conv f
  = Db.with_conversations d (Db.conversations d ++ [f row]).
Proof.
  intros Hn <-. unfold update_conv, Db.with_conversations. simpl. f_equal. rewrite map_app. simpl. rewrite beq_refl.
  f_equal. unfold conv_row in Hn. induction (Db.conversations d) as [|r l IH]; simpl in *; [done|].
  destruct (beq (ConvRow.id r) (ConvRow.id row)); [done|]. by rewrite IH.
Qed.

Lemma new_conversation_cut peer relay send recv s s' :
  new_conversation peer relay send recv s = (Panic, s') -> Engine.db s' = Engine.db s.
Proof.
  unfold new_conversation, sql_now. intros [E|(id & s1 & (w1 & _ & ->)%random_Ok & E)]%st_bind_Panic.
  { by destruct (kept_out _ _ _ _ (kept_net _) E). }
  apply st_bind_Panic in E as [E|(now & s2 & (w2 & _ & ->)%on_net_Ok & E)].
  { by destruct (kept_out _ _ _ _ (kept_net _) E). }
  unfold on_db, store_call in E. destruct (store_fault _) as [[text|] w]; [done|].
  destruct (create_routed_conversation _ _ _ _ _ _ _) as [[]| |]; by simplify_eq.
Qed.

Lemma new_conversation_row peer relay send recv s conv s' :
  new_conversation peer relay send recv s = (Ok conv, s') ->
  conv_row (Engine.db s) conv = None /\ exists now,
    Engine.db s' = Db.with_conversations (Engine.db s)
                     (Db.conversations (Engine.db s) ++ [new_row conv peer relay send (Some recv) now]).
Proof.
  unfold new_conversation, sql_now. intros (id & s1 & (w1 & _ & ->)%random_Ok & E)%st_bind_Ok.
  apply st_bind_Ok in E as (now & s2 & (w2 & _ & ->)%on_net_Ok & (d & wd & _ & E & ->)%on_db_Ok).
  unfold create_routed_conversation, insert_conv in E. simpl in E.
  destruct (conv_row (Engine.db s) id) eqn:Er; simpl in E; [done|]. injection E as -> <-. eauto.
Qed.

(** From the stored row on, only requests and the ratchet. *)
Lemma handoff_cut pairing_inbox peer relay inbox my_inbox contrib conv s s' :
  (_ ← ignore (delete_mailbox pairing_inbox);
   s ← get;
   payload ← pure_r (encode_mailbox_update_v2 (Engine.my_relay s) my_inbox contrib);
   wire ← encrypt peer (InnerFrame.mk MailboxUpdate MAILBOX_UPDATE_V2 payload);
   _ ← deposit relay inbox wire;
   _ ← spawn_conversation conv;
   mret (Some conv)) s = (Panic (A := option bytes), s') -> Engine.db s' = Engine.db s.
Proof.
  intros [E|(u & s1 & E1 & E)]%st_bind_Panic; [apply kept_out in E as [-> _]; [done|by kept]|].
  apply kept_out in E1 as [<- _]; [|by kept].
  apply st_bind_Panic in E as [[=]|(x & s2 & [= -> <-] & E)].
  apply st_bind_Panic in E as [[= _ <-]|(payload & s2 & [= _ <-] & E)]; [done|].
  apply st_bind_Panic in E as [E|(wire & s2 & E1 & E)]; [apply kept_out in E as [-> _]; [done|by kept]|].
  apply kept_out in E1 as [<- _]; [|by kept].
  apply st_bind_Panic in E as [E|(o & s3 & E1 & E)]; [apply kept_out in E as [-> _]; [done|by kept]|].
  apply st_bind_Panic in E as [[=]|(v & s4 & _ & [=])].
Qed.

Lemma pair_ack_cut pairing_inbox secret envelope s s' :
  (forall k m, 32 <= zlen (mac_finalize k m)) ->
  handle_pair_ack_v2 pairing_inbox secret envelope s = (Panic, s') ->
  Engine.db s' = Engine.db s \/
  exists conv peer my_inbox a_contrib root ack now,
    conv_row (Engine.db s) conv = None /\
    derive_root mac_finalize a_contrib (PairAckV2.root_contribution ack) = Ok root /\
    Engine.db s' = Db.with_conversations (Engine.db s)
      (Db.conversations (Engine.db s) ++ [paired_row conv peer my_inbox a_contrib root ack now]).
Proof.
  intros Hmac. unfold handle_pair_ack_v2.
  intros [[=]|(x & s1 & [= -> <-] & E)]%st_bind_Panic.
  apply st_bind_Panic in E as [E|([peer frame] & s1 & E1 & E)].
  { left. by destruct (kept_out _ _ _ _ (kept_keys _) E). }
  apply kept_out in E1 as [Hd1 _]; [|apply kept_keys]. rewrite <- Hd1. clear Hd1 x.
  destruct (negb _) in E; [by injection E|].
  apply st_bind_Panic in E as [[= _ <-]|(ack & s2 & [= _ <-] & E)]; [by left|].
  apply st_bind_Panic in E as [[= _ <-]|(u & s2 & [= _ <-] & E)]; [by left|].
  unfold create_mailbox in E.
  apply st_bind_Panic in E as [E|(my_inbox & s2 & E1 & E)]; [left; apply kept_out in E as [-> _]; [done|by kept]|].
  apply kept_out in E1 as [<- _]; [|by kept].
  apply st_bind_Panic in E as [E|(conv & s3 & (Hn & now & Hd)%new_conversation_row & E)];
    [left; by apply new_conversation_cut in E|].
  apply st_bind_Panic in E as [E|(a_contrib & s4 & (w4 & _ & ->)%random_Ok & E)].
  { unfold random, on_net, zoom in E. by destruct (random_bytes _ _). }
  apply st_bind_Panic in E as [E|([] & s4 & (d1 & wd1 & _ & [= <-] & ->)%db_set_Ok & E)]; [by apply db_set_not_Panic in E|].
  apply st_bind_Panic in E as [[= Hr _]|(root & s4 & [= Hr <-] & E)].
  { unfold derive_root, hmac_sha256, slice in Hr. specialize (Hmac a_contrib (PairAckV2.root_contribution ack)).
    rewrite (proj2 (Z.leb_le 32 _)) in Hr by done. done. }
  apply st_bind_Panic in E as [E|([] & s4 & (d2 & wd2 & _ & [= <-] & ->)%db_set_Ok & E)]; [by apply db_set_not_Panic in E|].
  apply handoff_cut in E. right. exists conv, peer, my_inbox, a_contrib, root, ack, now.
  split; [done|]. split; [done|]. rewrite E. cbn [Engine.db Engine.with_db Engine.with_world].
  rewrite Hd, !update_appended by done. done.
Qed.
End cut.

Section resumed.
Context `{Platform} `{SqlText} `{LibSignal} `{RatchetLib} `{!Crypto}.

Abbreviation derived root role g := (derive_mailbox_id mac_finalize root (role_from_u8 role) g).

Lemma set_routing_same row :
  set_routing (ConvRow.relay_url row) (ConvRow.mailbox_send row) (ConvRow.mailbox_recv row) row = row.
Proof. by destruct row. Qed.

(** The row a dropped recovery leaves. *)
Lemma recover_cut_row `{!StoreWorks} s conv root role own_gen peer_gen row s' :
  recoverable s conv root role own_gen peer_gen row -> recover conv s = (Panic, s') ->
  counted s' conv = counted s conv /\ Db.messages (Engine.db s') = Db.messages (Engine.db s) /\
  (forall c, c <> conv -> conv_row (Engine.db s') c = conv_row (Engine.db s) c) /\
  exists recv', conv_row (Engine.db s') conv
                = Some (set_routing (ConvRow.relay_url row) (ConvRow.mailbox_send row) recv' row) /\
    (recv' = ConvRow.mailbox_recv row \/
     exists recv, derived root role (saturating_add u32_max own_gen 1) = Ok recv /\ recv' = Some recv).
Proof.
  intros Hrec E. destruct (recover_cut _ _ _ _ _ _ _ _ Hrec E) as [Hc [Hd|(recv & Hr & Hd)]].
  - rewrite Hd. split_and!; [done|done|done|]. exists (ConvRow.mailbox_recv row). rewrite set_routing_same.
    split; [apply Hrec|by left].
  - injection Hd as <-. split_and!; [done|done| |].
    + intros c Hne. rewrite conv_row_update by done. by rewrite bool_decide_eq_false_2.
    + exists (Some recv). split; [|right; by exists recv].
      rewrite conv_row_update by done. rewrite bool_decide_eq_true_2 by done. by rewrite (proj1 Hrec).
Qed.

Lemma routed_recoverable s s2 conv root role own_gen peer_gen row relay send recv' :
  recoverable s conv root role own_gen peer_gen row ->
  conv_row (Engine.db s2) conv = Some (set_routing relay send recv' row) ->
  recoverable s2 conv root role own_gen peer_gen (set_routing relay send recv' row).
Proof.
  intros [Hrow (own & peer & Hrec)] Hrow2. split; [done|]. exists own, peer.
  unfold recovery_state in *. by rewrite Hrow in Hrec; rewrite Hrow2.
Qed.
End resumed.

(** ** Properties *)

(** C25: tasks dropped at an await.  A recovery, where the store works, that is
    dropped at any of its requests has counted no cycle and has changed at most where its own
    conversation receives, to the derived inbox of the next generation; when a
    later recovery succeeds, the conversation ends in exactly the row that the
    undisturbed one would have left.  An offerer's handling of a pair-ack that
    is dropped at any of its requests has stored nothing, or one new
    conversation complete with role, contributions and recovery root: never a
    conversation that cannot recover. *)
Theorem dropped_tasks `{Platform} `{SqlText} `{LibSignal} `{RatchetLib} `{!Crypto}
    (conv root inbox secret envelope : bytes) (role own_gen peer_gen : Z) (row : ConvRow.t) (s s' : Engine.t)
    (g := saturating_add u32_max own_gen 1) :
  (forall k m, 32 <= zlen (mac_finalize k m)) ->
  (StoreWorks -> recoverable s conv root role own_gen peer_gen row -> recover conv s = (Panic, s') ->
     counted s' conv = counted s conv /\ Db.messages (Engine.db s') = Db.messages (Engine.db s) /\
     (forall c, c <> conv -> conv_row (Engine.db s') c = conv_row (Engine.db s) c) /\
     (exists recv', conv_row (Engine.db s') conv
                    = Some (set_routing (ConvRow.relay_url row) (ConvRow.mailbox_send row) recv' row) /\
        (recv' = ConvRow.mailbox_recv row \/
         exists recv, derive_mailbox_id mac_finalize root (role_from_u8 role) g = Ok recv /\ recv' = Some recv)) /\
     forall s2 s3, Engine.db s2 = Engine.db s' -> recover conv s2 = (Ok ROneSided, s3) ->
       exists recv send, derive_mailbox_id mac_finalize root (role_from_u8 role) g = Ok recv /\
         derive_mailbox_id mac_finalize root (role_from_u8 (peer_role_u8 role)) g = Ok send /\
         conv_row (Engine.db s3) conv = Some (moved (ConvRow.relay_url row) recv send g peer_gen row)) /\
  (handle_pair_ack_v2 inbox secret envelope s = (Panic, s') ->
     Engine.db s' = Engine.db s \/
     exists new peer my_inbox a_contrib new_root ack now,
       conv_row (Engine.db s) new = None /\
       derive_root mac_finalize a_contrib (PairAckV2.root_contribution ack) = Ok new_root /\
       Engine.db s' = Db.with_conversations (Engine.db s)
         (Db.conversations (Engine.db s) ++ [paired_row new peer my_inbox a_contrib new_root ack now])).
Proof.
  intros Hmac. split; [|by apply pair_ack_cut]. intros Hworks Hrec E.
  destruct (recover_cut_row _ _ _ _ _ _ _ _ Hrec E) as (Hc & Hm & Ho & recv' & Hrow & Hrecv).
  split_and!; [done|done|done|by exists recv'|]. intros s2 s3 Hdb E2. rewrite <- Hdb in Hrow.
  destruct (recovered _ _ _ _ _ _ _ _ (routed_recoverable _ _ _ _ _ _ _ _ _ _ _ Hrec Hrow) E2)
    as (_ & _ & recv & send & Hr & Hs & Hend).
  exists recv, send. by split_and!.
Qed.

#[local] Existing Instance toy_crypto.

Lemma toy_mac_long k m : 32 <= zlen (mac_finalize (Crypto := toy_crypto) k m).
Proof. unfold zlen. cbn [mac_finalize toy_crypto]. rewrite length_take, !length_app, length_replicate. lia. Qed.

(** A party whose second request never answers. *)
Definition cut_party : Engine.t (H := cut scripted false) :=
  let s := party ROLE_OFFERER [] in
  Engine.mk (H := cut scripted false) (Engine.keys s) (Engine.db s) ((Some 1%nat, replicate 20 (201, [])) : World (Platform := cut scripted false))
    (Engine.my_relay s) (Engine.profile s) true true [] ∅ ∅ ∅ ∅ None.

Lemma cut_works : StoreWorks (H := cut scripted false).
Proof. by intros [n w]. Qed.

Lemma dropped_tasks_witness :
  exists s', recover (H := cut scripted false) demo_conv cut_party = (Panic, s') /\
    Engine.db s' <> Engine.db cut_party /\ counted (H := cut scripted false) s' demo_conv = 0 /\
    exists s3, recover (H := cut scripted false) demo_conv s' = (Ok ROneSided, s3) /\
      exists recv send, conv_row (Engine.db s3) demo_conv
        = Some (moved (bstr "wss://r") recv send 1 0 (party_row ROLE_OFFERER)).
Proof.
  destruct (recover (H := cut scripted false) demo_conv cut_party) as [r s'] eqn:E.
  assert (Hr : (recover (H := cut scripted false) demo_conv cut_party).1 = Panic) by (vm_compute; reflexivity).
  rewrite E in Hr. simpl in Hr. subst r.
  assert (Hrec : recoverable (H := cut scripted false) cut_party demo_conv (replicate 32 3) ROLE_OFFERER 0 0 (party_row ROLE_OFFERER)).
  { apply (party_recoverable ROLE_OFFERER []). by_compute. }
  destruct (proj1 (dropped_tasks (H := cut scripted false) demo_conv (replicate 32 3) [] [] [] ROLE_OFFERER 0 0
    (party_row ROLE_OFFERER) cut_party s' toy_mac_long) cut_works Hrec E) as (Hc & _ & _ & _ & Hretry).
  exists s'. split; [done|]. split.
  { intros Hd. apply (f_equal (fun d => ConvRow.mailbox_recv <$> conv_row d demo_conv)) in Hd.
    replace s' with (recover (H := cut scripted false) demo_conv cut_party).2 in Hd by (by rewrite E).
    vm_compute in Hd. discriminate Hd. }
  split; [rewrite Hc; vm_compute; reflexivity|].
  destruct (recover (H := cut scripted false) demo_conv s') as [r s3] eqn:E3.
  assert (Hr : r = Ok ROneSided).
  { replace s' with (recover (H := cut scripted false) demo_conv cut_party).2 in E3 by (by rewrite E).
    apply (f_equal fst) in E3. simpl in E3. rewrite <- E3. vm_compute. reflexivity. }
  subst r. exists s3. split; [done|]. destruct (Hretry s' s3 eq_refl E3) as (recv & send & _ & _ & Hrow).
  by exists recv, send.
Defined.
