(* ===== verification/EngineConc.v ===== *)
(** Flushes that run at the same time ([flush_pending] and [flush_locks] of
    [relay_client/mod.rs]): the inline flush of a send, the flushes of the
    listeners and of recovery, any number of them, interleaved at every store
    access and every await, cancelled while they wait, with the rest of the
    engine running in between.  The lock of a conversation keeps a message
    from being encrypted twice while an attempt for it is under way.  An
    encryption is one step here. *)

From S2P Require Import Prelude Errors Utf8 Config Envelope Cursor Pairing Recovery Storage Keys.
From S2P Require Import Transport Session Engine EngineDemo EngineRuns EngineSend.

(** ** One flush, from await to await *)

(** Where a flush is: waiting for the lock, before reading the conversation,
    before reading its outbox, before the next row, with a request under way,
    with its answer in hand, over. *)
Inductive fphase :=
  | FLock
  | FRead
  | FPending (convo : Conversation.t) (mailbox : bytes)
  | FNext (convo : Conversation.t) (mailbox : bytes) (pending : list (bytes * InnerFrame.t))
  | FDeposit (convo : Conversation.t) (mailbox msg_id wire : bytes) (rest : list (bytes * InnerFrame.t))
  | FMark (convo : Conversation.t) (mailbox msg_id : bytes) (outcome : DepositOutcome)
      (rest : list (bytes * InnerFrame.t))
  | FDone.

(** The flush holds the lock of its conversation. *)
Definition holds (p : fphase) : bool := match p with FLock | FDone => false | _ => true end.

(** The row whose ciphertext is out. *)
Definition current (p : fphase) : option bytes :=
  match p with FDeposit _ _ id _ _ | FMark _ _ id _ _ => Some id | _ => None end.

(** Rows the flush has read and not come to. *)
Definition ahead (p : fphase) : list bytes :=
  match p with
  | FNext _ _ rest | FDeposit _ _ _ _ rest | FMark _ _ _ _ rest => rest.*1
  | _ => []
  end.

Section step.
Context `{Platform} `{SqlText} `{LibSignal} `{RatchetLib} `{!Crypto}.

Abbreviation eng := (st Engine.t).

Definition flush_step (conv : bytes) (p : fphase) : eng fphase :=
  match p with
  | FLock | FDone => mret p
  | FRead =>
    c ← attempt (db_get (fun d => get_conversation d conv));
    match c with
    | inr e => _ ← emit_storage_error e; throw e
    | inl None => mret FDone
    | inl (Some convo) =>
      mret match Conversation.mailbox_send convo with Some mailbox => FPending convo mailbox | None => FDone end
    end
  | FPending convo mailbox =>
    p ← attempt (db_get (fun d => pending_chat d conv));
    match p with
    | inr e => _ ← emit_storage_error e; throw e
    | inl pending => mret (FNext convo mailbox pending)
    end
  | FNext _ _ [] => mret FDone
  | FNext convo mailbox ((msg_id, frame) :: rest) =>
    wire ← encrypt (Conversation.peer_address convo) frame;
    mret (FDeposit convo mailbox msg_id wire rest)
  | FDeposit convo mailbox msg_id wire rest =>
    outcome ← deposit (Conversation.relay_url convo) mailbox wire;
    mret (FMark convo mailbox msg_id outcome rest)
  | FMark convo mailbox msg_id outcome rest =>
    match outcome with
    | Accepted =>
      _ ← db_set (fun d => mark_message_sent d msg_id);
      mret (FNext convo mailbox rest)
    | Other status =>
      if (status =? 400) || (status =? 413) then
        _ ← ignore (db_set (fun d => mark_message_sent d msg_id));
        _ ← emit_permanent_send_failure conv msg_id;
        mret (FNext convo mailbox rest)
      else mret FDone
    | NotFound => mret FDone
    end
  end.

(** A flush that nobody interrupts; [None] when [n] steps are not enough. *)
Fixpoint alone (n : nat) (conv : bytes) (p : fphase) (s : Engine.t) : option (Result unit * Engine.t) :=
  match p, n with
  | FDone, _ => Some (Ok tt, s)
  | _, O => None
  | _, S n =>
    match flush_step conv p s with
    | (Ok p', s') => alone n conv p' s'
    | (Err e, s') => Some (Err e, s')
    | (Panic, s') => Some (Panic, s')
    end
  end.
End step.

(** ** Many flushes *)

(** What is seen of the attempts for a row: its ciphertext is made, the row is
    settled, or the attempt ends without that. *)
Inductive event := Encrypted (msg_id : bytes) | Settled (msg_id : bytes) | GaveUp (msg_id : bytes).

#[export] Instance event_eq_dec : EqDecision event.
Proof. solve_decision. Defined.

(** A row of this id still waits to be sent. *)
Definition unmarked (d : Db.t) (id : bytes) : bool :=
  existsb (fun m => beq (MsgRow.id m) id && (MsgRow.status m =? 0)) (Db.messages d).

(** [d]: the store after the step.  A flush may go on past a row whose mark the
    store did not take: that attempt too has ended without settling it. *)
Definition observe (p : fphase) (r : Result fphase) (d : Db.t) : list event :=
  match r, current p with
  | Ok (FDeposit _ _ id _ _), _ => [Encrypted id]
  | Ok (FNext _ _ _), Some id => if unmarked d id then [GaveUp id] else [Settled id]
  | (Ok FDone | Err _ | Panic), Some id => [GaveUp id]
  | _, _ => []
  end.

(** Rows are only added. *)
Definition rows_kept (d d' : Db.t) : Prop :=
  db_ok d' /\ exists l, Db.messages d' = Db.messages d ++ l.

Module Flushes.
Section flushes.
Context `{Platform}.
Record t := mk {
  engine : Engine.t;
  locks : gmap bytes nat;              (* conversation to the task in its critical section *)
  tasks : gmap nat (bytes * fphase);
  trace : list event
}.
End flushes.
End Flushes.

Section system.
Context `{Platform} `{SqlText} `{LibSignal} `{RatchetLib} `{!Crypto}.

(** A task goes on at [r]: when it is over, its guard is dropped. *)
Definition resume (y : Flushes.t) (t : nat) (conv : bytes) (p : fphase) (r : Result fphase) (s : Engine.t)
    : Flushes.t :=
  let over := Flushes.mk s (delete conv (Flushes.locks y)) (delete t (Flushes.tasks y))
                (Flushes.trace y ++ observe p r (Engine.db s)) in
  match r with
  | Ok FDone | Err _ | Panic => over
  | Ok p' => Flushes.mk s (Flushes.locks y) (<[t := (conv, p')]> (Flushes.tasks y))
               (Flushes.trace y ++ observe p r (Engine.db s))
  end.

(** A flush starts; takes the free lock; runs to its next store access or
    await; is cancelled while it waits for the lock, or while its request is
    under way, which the relay may have served; and anything else the engine
    does. *)
Inductive step : Flushes.t -> Flushes.t -> Prop :=
  | step_start y t conv :
    Flushes.tasks y !! t = None ->
    step y (Flushes.mk (Flushes.engine y) (Flushes.locks y) (<[t := (conv, FLock)]> (Flushes.tasks y)) (Flushes.trace y))
  | step_acquire y t conv :
    Flushes.tasks y !! t = Some (conv, FLock) -> Flushes.locks y !! conv = None ->
    step y (Flushes.mk (Flushes.engine y) (<[conv := t]> (Flushes.locks y))
              (<[t := (conv, FRead)]> (Flushes.tasks y)) (Flushes.trace y))
  | step_run y t conv p r s :
    Flushes.tasks y !! t = Some (conv, p) -> holds p = true ->
    flush_step conv p (Flushes.engine y) = (r, s) ->
    step y (resume y t conv p r s)
  | step_cancel_wait y t conv :
    Flushes.tasks y !! t = Some (conv, FLock) ->
    step y (Flushes.mk (Flushes.engine y) (Flushes.locks y) (delete t (Flushes.tasks y)) (Flushes.trace y))
  | step_cancel_request y t conv convo mailbox id wire rest w :
    Flushes.tasks y !! t = Some (conv, FDeposit convo mailbox id wire rest) ->
    step y (Flushes.mk (Engine.with_world (Flushes.engine y) w) (delete conv (Flushes.locks y))
              (delete t (Flushes.tasks y)) (Flushes.trace y ++ [GaveUp id]))
  | step_other y s :
    rows_kept (Engine.db (Flushes.engine y)) (Engine.db s) ->
    step y (Flushes.mk s (Flushes.locks y) (Flushes.tasks y) (Flushes.trace y)).

Definition started (s : Engine.t) : Flushes.t := Flushes.mk s ∅ ∅ [].

Inductive reachable (s0 : Engine.t) : Flushes.t -> Prop :=
  | reach_start : reachable s0 (started s0)
  | reach_step y y' : reachable s0 y -> step y y' -> reachable s0 y'.
End system.

(** ** What a trace may look like *)

Inductive attempts := InFlight | Sent.

Definition advance (m : gmap bytes attempts) (e : event) : option (gmap bytes attempts) :=
  match e with
  | Encrypted id => match m !! id with None => Some (<[id := InFlight]> m) | Some _ => None end
  | Settled id => match m !! id with Some InFlight => Some (<[id := Sent]> m) | _ => None end
  | GaveUp id => match m !! id with Some InFlight => Some (delete id m) | _ => None end
  end.

Fixpoint replay (m : gmap bytes attempts) (l : list event) : option (gmap bytes attempts) :=
  match l with
  | [] => Some m
  | e :: l => m' ← advance m e; replay m' l
  end.

Lemma replay_app m l1 l2 : replay m (l1 ++ l2) = m' ← replay m l1; replay m' l2.
Proof. revert m. induction l1 as [|e l1 IH]; intros m; simpl; [done|]. destruct (advance m e); simpl; auto. Qed.

(** A settled row stays settled, and no attempt for it begins. *)
Lemma sent_stays id : forall l m m', replay m l = Some m' -> m !! id = Some Sent ->
  m' !! id = Some Sent /\ Encrypted id ∉ l.
Proof.
  induction l as [|e l IH]; intros m m' E Hs; simpl in E; [split; [congruence|apply not_elem_of_nil]|].
  apply bind_Some in E as (m1 & Ea & E).
  assert (m1 !! id = Some Sent /\ Encrypted id <> e) as [H1 H2].
  { destruct e as [i|i|i]; simpl in Ea; destruct (m !! i) as [[]|] eqn:Ei; simplify_eq;
      destruct (decide (i = id)) as [->|]; simplify_map_eq; split; congruence. }
  destruct (IH _ _ E H1). split; [done|]. by apply not_elem_of_cons.
Qed.

(** While an attempt for a row is not given up, no other one begins. *)
Lemma flight_stays id : forall l m m', replay m l = Some m' -> is_Some (m !! id) -> GaveUp id ∉ l ->
  is_Some (m' !! id) /\ Encrypted id ∉ l.
Proof.
  induction l as [|e l IH]; intros m m' E Hs Hg; simpl in E; [split; [naive_solver|apply not_elem_of_nil]|].
  apply not_elem_of_cons in Hg as [He Hg]. apply bind_Some in E as (m1 & Ea & E).
  assert (is_Some (m1 !! id) /\ Encrypted id <> e) as [H1 H2].
  { destruct e as [i|i|i]; simpl in Ea; destruct (m !! i) as [[]|] eqn:Ei; simplify_eq;
      (destruct (decide (i = id)) as [->|Hne]; [|split; [|congruence]]); simplify_map_eq; try done;
      try (destruct Hs; congruence); split; (done || eauto). }
  destruct (IH _ _ E H1 Hg). split; [done|]. by apply not_elem_of_cons.
Qed.

(** ** The outbox *)

Definition pending_row (d : Db.t) (c id : bytes) : Prop :=
  exists m, m ∈ Db.messages d /\ MsgRow.id m = id /\ is_pending c m = true.

Lemma row_unique d m m' :
  db_ok d -> m ∈ Db.messages d -> m' ∈ Db.messages d -> MsgRow.id m = MsgRow.id m' -> m = m'.
Proof.
  intros Hd Hm Hm' E. pose proof (db_msgs _ Hd) as Hn.
  apply list_elem_of_lookup in Hm as [i Hm]. apply list_elem_of_lookup in Hm' as [j Hm'].
  assert (i = j) as ->; [|congruence].
  apply (NoDup_lookup _ _ _ (MsgRow.id m) Hn); rewrite list_lookup_fmap; [rewrite Hm|rewrite Hm']; simpl; congruence.
Qed.

Lemma pending_unique d c c' id : db_ok d -> pending_row d c id -> pending_row d c' id -> c = c'.
Proof.
  intros Hd (m & Hm & Hi & Hp) (m' & Hm' & Hi' & Hp'). assert (m = m') as <- by (eapply row_unique; eauto; congruence).
  unfold is_pending in *. apply andb_true_iff in Hp as [[Hp _]%andb_true_iff _].
  apply andb_true_iff in Hp' as [[Hp' _]%andb_true_iff _]. reflect_bools. congruence.
Qed.

Lemma pending_read `{SqlText} d c l :
  db_ok d -> pending_chat d c = Ok l -> NoDup l.*1 /\ forall id, id ∈ l.*1 -> pending_row d c id.
Proof.
  intros Hd E. split; [by eapply pending_NoDup|]. rewrite pending_chat_Ok in E by done. injection E as <-.
  intros id Hx. apply list_elem_of_fmap in Hx as (x & -> & Hx). apply list_elem_of_fmap in Hx as (m & -> & Hm).
  apply list_elem_of_In, filter_In in Hm as [Hm Hp]. exists m. split; [by apply list_elem_of_In|done].
Qed.

Lemma pending_marked d id d' c i :
  mark_message_sent d id = Ok d' -> pending_row d' c i <-> pending_row d c i /\ i <> id.
Proof.
  intros [= <-]. unfold pending_row. simpl. split.
  - intros (m & Hm & Hi & Hp). apply list_elem_of_fmap in Hm as (m0 & -> & Hm). unfold beq in *.
    case_bool_decide as E; [|subst; naive_solver]. exfalso. unfold is_pending in Hp. simpl in Hp.
    by rewrite andb_false_r in Hp.
  - intros [(m & Hm & Hi & Hp) Hne]. exists m. split_and!; [|done|done].
    apply list_elem_of_fmap. exists m. unfold beq. by rewrite bool_decide_eq_false_2 by congruence.
Qed.

Lemma marked_unmarked d id d' : mark_message_sent d id = Ok d' -> unmarked d' id = false.
Proof.
  intros [= <-]. apply not_true_iff_false. unfold unmarked. simpl. rewrite existsb_exists. intros (m & Hm & Hb).
  apply in_map_iff in Hm as (m0 & <- & _). destruct (beq (MsgRow.id m0) id) eqn:E; simpl in Hb; [|by rewrite E in Hb].
  by rewrite andb_false_r in Hb.
Qed.

Lemma pending_unmarked d c id : pending_row d c id -> unmarked d id = true.
Proof.
  intros (m & Hm & <- & Hp). apply existsb_exists. exists m. split; [by apply list_elem_of_In|]. rewrite beq_refl.
  unfold is_pending in Hp. by apply andb_true_iff in Hp as [_ ->].
Qed.

Lemma marked_ids d id d' : mark_message_sent d id = Ok d' -> MsgRow.id <$> Db.messages d' = MsgRow.id <$> Db.messages d.
Proof.
  intros [= <-]. simpl. rewrite <- list_fmap_compose. apply list_fmap_ext. intros i m _. simpl. by destruct (beq _ _).
Qed.

Lemma pending_kept d d' c i : rows_kept d d' -> pending_row d c i -> pending_row d' c i.
Proof. intros (_ & l & E) (m & Hm & Hi). exists m. rewrite E, elem_of_app. eauto. Qed.

Lemma pending_kept_inv d d' c i :
  rows_kept d d' -> i ∈ MsgRow.id <$> Db.messages d -> pending_row d' c i -> pending_row d c i.
Proof.
  intros (Hd & l & E) Hin (m & Hm & Hi & Hp). apply list_elem_of_fmap in Hin as (m' & -> & Hm').
  assert (m = m') as -> by (eapply row_unique; eauto; rewrite E, elem_of_app; eauto). by exists m'.
Qed.

Lemma pending_id d c i : pending_row d c i -> i ∈ MsgRow.id <$> Db.messages d.
Proof. intros (m & Hm & <- & _). by apply list_elem_of_fmap_2. Qed.

(** What the rest of the engine does to the table of messages: a save appends
    a row, and the other statements do not touch it. *)
Lemma save_kept `{SqlText} d id conv dir f status now d' x :
  db_ok d -> can_insert d id conv f -> insert_message d id conv dir f status now = Ok (x, d') -> rows_kept d d'.
Proof.
  intros Hd Hi E. destruct (insert_message_Ok d id conv dir f status now Hd Hi) as (E' & Hd' & _).
  rewrite E' in E. injection E as _ <-. split; [exact Hd'|]. by eexists.
Qed.

Lemma routing_kept d d' : db_ok d' -> Db.messages d' = Db.messages d -> rows_kept d d'.
Proof. intros Hd E. split; [done|]. exists []. by rewrite E, app_nil_r. Qed.

(** ** One step *)

Definition over (r : Result fphase) : Prop := match r with Ok FDone | Err _ | Panic => True | _ => False end.

(** How a step of a flush goes, with the store before and after. *)
Inductive moves `{SqlText} (conv : bytes) (d : Db.t) : fphase -> Result fphase -> Db.t -> Prop :=
  | mv_over p r : over r -> moves conv d p r d
  | mv_read convo mailbox : moves conv d FRead (Ok (FPending convo mailbox)) d
  | mv_pending convo mailbox l :
    pending_chat d conv = Ok l -> moves conv d (FPending convo mailbox) (Ok (FNext convo mailbox l)) d
  | mv_encrypt convo mailbox id f wire rest :
    moves conv d (FNext convo mailbox ((id, f) :: rest)) (Ok (FDeposit convo mailbox id wire rest)) d
  | mv_answer convo mailbox id wire o rest :
    moves conv d (FDeposit convo mailbox id wire rest) (Ok (FMark convo mailbox id o rest)) d
  | mv_settle convo mailbox id o rest d' :
    mark_message_sent d id = Ok d' -> moves conv d (FMark convo mailbox id o rest) (Ok (FNext convo mailbox rest)) d'
  | mv_skip convo mailbox id o rest :
    moves conv d (FMark convo mailbox id o rest) (Ok (FNext convo mailbox rest)) d.

Section moves.
Context `{Platform} `{SqlText} `{LibSignal} `{RatchetLib} `{!Crypto}.

Lemma flush_step_moves conv p s r s' :
  holds p = true -> flush_step conv p s = (r, s') -> moves conv (Engine.db s) p r (Engine.db s').
Proof.
  intros Hp. destruct p as [| |convo mb|convo mb [|[id f] rest]|convo mb id wire rest|convo mb id o rest|]; try done;
    cbn [flush_step]; unfold mbind, st_bind.
  - unfold attempt, db_get, store_call, read_r.
    destruct (store_fault _) as [[text|] w]; [intros [= <- <-]; simpl; destruct (Engine.observer s); by apply mv_over|].
    destruct (get_conversation _ _) as [[c|]| |]; intros [= <- <-].
    + destruct (Conversation.mailbox_send c); [apply mv_read|by apply mv_over].
    + by apply mv_over.
    + simpl. destruct (Engine.observer s); by apply mv_over.
    + by apply mv_over.
  - unfold attempt, db_get, store_call, read_r.
    destruct (store_fault _) as [[text|] w]; [intros [= <- <-]; simpl; destruct (Engine.observer s); by apply mv_over|].
    destruct (pending_chat _ _) eqn:E; intros [= <- <-].
    + by apply mv_pending.
    + simpl. destruct (Engine.observer s); by apply mv_over.
    + by apply mv_over.
  - intros [= <- <-]. by apply mv_over.
  - rewrite encrypt_eq. destruct (store_fault _) as [[text|] w0]; [intros [= <- <-]; by apply mv_over|].
    destruct (encrypt_message _ _ _ _) as [[w| |] k]; intros [= <- <-]; [apply mv_encrypt|by apply mv_over..].
  - rewrite deposit_eq. destruct (http_deposit _ _ _ _) as [[o| |] k]; intros [= <- <-];
      [apply mv_answer|by apply mv_over..].
  - destruct o as [| |c].
    + rewrite mark_eq. destruct (store_fault _) as [[text|] w]; intros [= <- <-]; [by apply mv_over|by apply mv_settle].
    + intros [= <- <-]. by apply mv_over.
    + destruct (_ || _); [|intros [= <- <-]; by apply mv_over].
      rewrite ignore_eq, mark_eq. unfold emit_permanent_send_failure, notify, modify.
      destruct (store_fault _) as [[text|] w]; intros [= <- <-]; simpl; destruct (Engine.observer s);
        first [apply mv_skip | by apply mv_settle].
Qed.
End moves.

(** ** The invariant *)

Definition task_ok (d : Db.t) (m : gmap bytes attempts) (conv : bytes) (p : fphase) : Prop :=
  (forall id, current p = Some id -> pending_row d conv id /\ m !! id = Some InFlight) /\
  NoDup (ahead p) /\ (forall id, id ∈ ahead p -> pending_row d conv id /\ m !! id = None).

(** Rows of other conversations are not touched. *)
Definition frame (conv : bytes) (d : Db.t) (m : gmap bytes attempts) (d' : Db.t) (m' : gmap bytes attempts) : Prop :=
  forall c i, c <> conv -> pending_row d c i -> pending_row d' c i /\ m' !! i = m !! i.

Section invariant.
Context `{Platform} `{SqlText} `{LibSignal} `{RatchetLib} `{!Crypto}.

Abbreviation db y := (Engine.db (Flushes.engine y)).

Record Inv (y : Flushes.t) (m : gmap bytes attempts) : Prop := {
  inv_trace : replay ∅ (Flushes.trace y) = Some m;
  inv_db : db_ok (db y);
  inv_ids : forall i a, m !! i = Some a -> i ∈ MsgRow.id <$> Db.messages (db y);
  inv_sent : forall i c, m !! i = Some Sent -> ~ pending_row (db y) c i;
  inv_flight : forall i, m !! i = Some InFlight ->
    exists t conv p, Flushes.tasks y !! t = Some (conv, p) /\ current p = Some i;
  inv_lock : forall t conv p, Flushes.tasks y !! t = Some (conv, p) -> holds p = true ->
    Flushes.locks y !! conv = Some t;
  inv_free : forall t conv, Flushes.locks y !! conv = Some t ->
    exists p, Flushes.tasks y !! t = Some (conv, p) /\ holds p = true;
  inv_task : forall t conv p, Flushes.tasks y !! t = Some (conv, p) -> holds p = true -> task_ok (db y) m conv p
}.

Lemma current_holds p i : current p = Some i -> holds p = true.
Proof. by destruct p. Qed.

Lemma task_ok_frame conv c d m d' m' p :
  frame conv d m d' m' -> c <> conv -> task_ok d m c p -> task_ok d' m' c p.
Proof.
  intros Hf Hc (Hcur & Hn & Ha). split_and!; [|done|]; intros i Hi;
    [destruct (Hcur i Hi) as [Hp Hm]|destruct (Ha i Hi) as [Hp Hm]];
    destruct (Hf c i Hc Hp) as [? ->]; done.
Qed.

(** Two flushes of a conversation are not in its critical section together. *)
Lemma exclusive y m t t' conv p p' :
  Inv y m -> Flushes.tasks y !! t = Some (conv, p) -> holds p = true ->
  Flushes.tasks y !! t' = Some (conv, p') -> holds p' = true -> t = t'.
Proof. intros I E Hp E' Hp'. pose proof (inv_lock _ _ I _ _ _ E Hp). pose proof (inv_lock _ _ I _ _ _ E' Hp'). congruence. Qed.

(** The holder of a lock goes on holding it. *)
Lemma inv_move y m t conv p p' s ev m' :
  Inv y m -> Flushes.tasks y !! t = Some (conv, p) -> holds p = true -> holds p' = true ->
  replay m ev = Some m' -> db_ok (Engine.db s) ->
  (forall i a, m' !! i = Some a -> i ∈ MsgRow.id <$> Db.messages (Engine.db s)) ->
  (forall i c, m' !! i = Some Sent -> ~ pending_row (Engine.db s) c i) ->
  (forall i, m' !! i = Some InFlight -> (m !! i = Some InFlight /\ current p <> Some i) \/ current p' = Some i) ->
  frame conv (db y) m (Engine.db s) m' -> task_ok (Engine.db s) m' conv p' ->
  Inv (Flushes.mk s (Flushes.locks y) (<[t := (conv, p')]> (Flushes.tasks y)) (Flushes.trace y ++ ev)) m'.
Proof.
  intros I Et Hp Hp' Hr Hd Hi Hs Hf Hfr Ht. split; simpl; try done.
  - by rewrite replay_app, (inv_trace _ _ I).
  - intros i [[Hm Hc]|Hc]%Hf; [|exists t, conv, p'; by simplify_map_eq].
    destruct (inv_flight _ _ I i Hm) as (t0 & c0 & p0 & E0 & Hc0).
    destruct (decide (t0 = t)) as [->|]; [congruence|]. exists t0, c0, p0. by simplify_map_eq.
  - intros t0 c0 p0 E0 Hp0. destruct (decide (t0 = t)) as [->|]; simplify_map_eq; eapply inv_lock; eauto.
  - intros t0 c0 E0. destruct (inv_free _ _ I _ _ E0) as (p0 & Ep & Hp0).
    destruct (decide (t0 = t)) as [->|]; simplify_map_eq; eauto.
  - intros t0 c0 p0 E0 Hp0. destruct (decide (t0 = t)) as [->|Hne]; simplify_map_eq; [done|].
    eapply task_ok_frame; [exact Hfr| |by eapply inv_task]. intros ->. apply Hne. symmetry. by eapply exclusive.
Qed.

(** The holder ends, or is cancelled, and drops its guard. *)
Lemma inv_over y m t conv p s :
  Inv y m -> Flushes.tasks y !! t = Some (conv, p) -> holds p = true -> Engine.db s = db y ->
  exists m', Inv (Flushes.mk s (delete conv (Flushes.locks y)) (delete t (Flushes.tasks y))
    (Flushes.trace y ++ match current p with Some id => [GaveUp id] | None => [] end)) m'.
Proof.
  intros I Et Hp Hd. pose proof (inv_task _ _ I _ _ _ Et Hp) as (Hcur & _ & _).
  set (m' := match current p with Some id => delete id m | None => m end). exists m'.
  assert (Hsub : forall i a, m' !! i = Some a -> m !! i = Some a /\ current p <> Some i).
  { intros i a Hi. unfold m' in Hi. destruct (current p) as [id|]; [|done].
    destruct (decide (i = id)) as [->|]; simplify_map_eq; split; congruence. }
  assert (Hfr : frame conv (db y) m (db y) m').
  { intros c i Hc Hi. split; [done|]. unfold m'. destruct (current p) as [id|] eqn:Ec; [|done].
    apply lookup_delete_ne. intros ->. apply Hc. eapply pending_unique; [apply (inv_db _ _ I)|done|by apply Hcur]. }
  split; simpl; rewrite ?Hd.
  - rewrite replay_app, (inv_trace _ _ I). simpl. unfold m'. destruct (current p) as [id|] eqn:Ec; [|done]. simpl.
    by rewrite (proj2 (Hcur id eq_refl)).
  - apply I.
  - intros i a [Hi _]%Hsub. by eapply inv_ids.
  - intros i c [Hi _]%Hsub. by eapply inv_sent.
  - intros i [Hi Hc]%Hsub. destruct (inv_flight _ _ I i Hi) as (t0 & c0 & p0 & E0 & Hc0).
    assert (t <> t0) by congruence. exists t0, c0, p0. by simplify_map_eq.
  - intros t0 c0 p0 E0 Hp0. apply lookup_delete_Some in E0 as [Hne E0].
    rewrite lookup_delete_ne; [by eapply inv_lock|]. intros <-. apply Hne. by eapply exclusive.
  - intros t0 c0 E0. apply lookup_delete_Some in E0 as [Hne E0]. destruct (inv_free _ _ I _ _ E0) as (p0 & Ep & Hp0).
    exists p0. split; [|done]. apply lookup_delete_Some. split; [|done]. intros ->. congruence.
  - intros t0 c0 p0 E0 Hp0. apply lookup_delete_Some in E0 as [Hne E0].
    eapply task_ok_frame; [exact Hfr| |by eapply inv_task]. intros ->. apply Hne. by eapply exclusive.
Qed.

Lemma frame_same conv d m : frame conv d m d m.
Proof. by intros c i _ ?. Qed.

(** The row of a conversation changes its state of attempts. *)
Lemma frame_insert conv d m id a : db_ok d -> pending_row d conv id -> frame conv d m d (<[id := a]> m).
Proof.
  intros Hd Hp c i Hc Hi. split; [done|]. apply lookup_insert_ne. intros <-. apply Hc. by eapply pending_unique.
Qed.

(** An outbox read under the lock has no row under way. *)
Lemma read_idle y m t conv p l i :
  Inv y m -> Flushes.tasks y !! t = Some (conv, p) -> holds p = true -> current p = None ->
  pending_chat (db y) conv = Ok l -> i ∈ l.*1 -> pending_row (db y) conv i /\ m !! i = None.
Proof.
  intros I Et Hp Hc El Hi. destruct (pending_read _ _ _ (inv_db _ _ I) El) as [_ Hl].
  split; [by apply Hl|]. destruct (m !! i) as [[]|] eqn:Em; [|by destruct (inv_sent _ _ I _ conv Em); apply Hl|done].
  destruct (inv_flight _ _ I _ Em) as (t' & c' & p' & E' & Hc'). pose proof (current_holds _ _ Hc') as Hp'.
  destruct (inv_task _ _ I _ _ _ E' Hp') as (Hcur & _ & _). destruct (Hcur _ Hc') as [Hrow _].
  assert (c' = conv) as -> by (eapply pending_unique; [apply (inv_db _ _ I)|done|by apply Hl]).
  assert (t = t') as <- by (by eapply exclusive). congruence.
Qed.

Lemma inv_run y m t conv p r s :
  Inv y m -> Flushes.tasks y !! t = Some (conv, p) -> holds p = true -> moves conv (db y) p r (Engine.db s) ->
  exists m', Inv (resume y t conv p r s) m'.
Proof.
  intros I Et Hp Hmv. pose proof (inv_task _ _ I _ _ _ Et Hp) as (Hcur & Hnd & Ha). pose proof (inv_db _ _ I) as Hd.
  assert (Hfl : forall i, m !! i = Some InFlight -> current p = None -> m !! i = Some InFlight /\ current p <> Some i)
    by (intros; split; congruence).
  remember (Engine.db s) as d' eqn:Ed. destruct Hmv as [p r Ho|convo mb|convo mb l El|convo mb id f w rest|convo mb id w o rest|convo mb id o rest d' Em|convo mb id o rest].
  - destruct (inv_over y m t conv p s I Et Hp (eq_sym Ed)) as [m' I']. exists m'.
    destruct r as [[]| |]; try done; unfold resume, observe; by destruct (current p).
  - exists m. apply (inv_move y m t conv FRead); rewrite <- ?Ed; auto using frame_same; try apply I.
    split; [done|]. split; [constructor|]. by intros i ?%not_elem_of_nil.
  - exists m. apply (inv_move y m t conv (FPending convo mb)); rewrite <- ?Ed; auto using frame_same; try apply I.
    split; [done|]. split; [by eapply pending_NoDup|]. intros i Hi. by eapply read_idle.
  - exists (<[id := InFlight]> m). simpl in Ha, Hnd. apply NoDup_cons in Hnd as [Hid Hnd].
    destruct (Ha id) as [Hrow Hm]; [by left|].
    apply (inv_move y m t conv (FNext convo mb ((id, f) :: rest))); rewrite <- ?Ed; auto using frame_insert.
    + simpl. by rewrite Hm.
    + intros i a Hi. destruct (decide (i = id)) as [->|]; simplify_map_eq; [by eapply pending_id|by eapply inv_ids].
    + intros i c Hi. destruct (decide (i = id)) as [->|]; simplify_map_eq. by eapply inv_sent.
    + intros i Hi. destruct (decide (i = id)) as [->|]; simplify_map_eq; auto.
    + split_and!; [intros i [= <-]; by simplify_map_eq|done|]. simpl. intros i Hi. destruct (Ha i) as [? ?]; [by right|].
      rewrite lookup_insert_ne by (intros <-; done). done.
  - exists m. destruct (Hcur id eq_refl) as [Hrow Hm].
    apply (inv_move y m t conv (FDeposit convo mb id w rest)); rewrite <- ?Ed; auto using frame_same; try apply I; [|done].
    intros i Hi. destruct (decide (i = id)) as [->|]; [by right|]. left. simpl. split; congruence.
  - exists (<[id := Sent]> m). destruct (Hcur id eq_refl) as [Hrow Hm].
    subst d'. apply (inv_move y m t conv (FMark convo mb id o rest)); auto.
    + simpl. rewrite (marked_unmarked _ _ _ Em). simpl. by rewrite Hm.
    + by eapply mark_sent_ok.
    + intros i a Hi. rewrite (marked_ids _ _ _ Em).
      destruct (decide (i = id)) as [->|]; simplify_map_eq; [by eapply pending_id|by eapply inv_ids].
    + intros i c Hi. rewrite (pending_marked _ _ _ c i Em). intros [Hx Hne].
      simplify_map_eq. by eapply inv_sent.
    + intros i Hi. destruct (decide (i = id)) as [->|]; simplify_map_eq. left. simpl. split; congruence.
    + intros c i Hc Hi. rewrite (pending_marked _ _ _ c i Em).
      assert (i <> id) by (intros ->; apply Hc; by eapply pending_unique). by simplify_map_eq.
    + split_and!; [done|done|]. simpl. intros i Hi. destruct (Ha i Hi) as [Hr Hn].
      assert (i <> id) by congruence. rewrite (pending_marked _ _ _ conv i Em). by simplify_map_eq.
  - exists (delete id m). destruct (Hcur id eq_refl) as [Hrow Hm].
    apply (inv_move y m t conv (FMark convo mb id o rest)); rewrite <- ?Ed; auto.
    + simpl. rewrite (pending_unmarked _ _ _ Hrow). simpl. by rewrite Hm.
    + intros i a [_ Hi]%lookup_delete_Some. by eapply inv_ids.
    + intros i c [_ Hi]%lookup_delete_Some. by eapply inv_sent.
    + intros i [Hne Hi]%lookup_delete_Some. left. simpl. split; congruence.
    + intros c i Hc Hi. split; [done|]. apply lookup_delete_ne. intros ->. apply Hc. by eapply pending_unique.
    + split_and!; [done|done|]. simpl. intros i Hi. destruct (Ha i Hi) as [Hr Hn].
      split; [done|]. apply lookup_delete_None. by right.
Qed.

(** A task that holds no lock comes, waits or goes. *)
Lemma inv_idle y m t tasks :
  Inv y m -> (forall t0, t0 <> t -> tasks !! t0 = Flushes.tasks y !! t0) ->
  (forall c p, tasks !! t = Some (c, p) \/ Flushes.tasks y !! t = Some (c, p) -> holds p = false) ->
  Inv (Flushes.mk (Flushes.engine y) (Flushes.locks y) tasks (Flushes.trace y)) m.
Proof.
  intros I Ho Hi.
  assert (Heq : forall t0 c p, holds p = true -> tasks !! t0 = Some (c, p) <-> Flushes.tasks y !! t0 = Some (c, p)).
  { intros t0 c p Hp. destruct (decide (t0 = t)) as [->|Hne]; [|by rewrite Ho].
    split; intros E; rewrite (Hi c p) in Hp; auto; done. }
  destruct I as [I1 I2 I3 I4 I5 I6 I7 I8]. split; simpl; try done.
  - intros i Him. destruct (I5 i Him) as (t0 & c0 & p0 & E0 & Hc). exists t0, c0, p0. split; [|done].
    apply Heq; [by eapply current_holds|done].
  - intros t0 c0 p0 E0 Hp0. eapply I6; [by apply Heq|done].
  - intros t0 c0 E0. destruct (I7 t0 c0 E0) as (p0 & Ep & Hp0). exists p0. split; [by apply Heq|done].
  - intros t0 c0 p0 E0 Hp0. eapply I8; [by apply Heq|done].
Qed.

Lemma inv_acquire y m t conv :
  Inv y m -> Flushes.tasks y !! t = Some (conv, FLock) -> Flushes.locks y !! conv = None ->
  Inv (Flushes.mk (Flushes.engine y) (<[conv := t]> (Flushes.locks y))
        (<[t := (conv, FRead)]> (Flushes.tasks y)) (Flushes.trace y)) m.
Proof.
  intros [I1 I2 I3 I4 I5 I6 I7 I8] Et El. split; simpl; try done.
  - intros i Hi. destruct (I5 i Hi) as (t0 & c0 & p0 & E0 & Hc). exists t0, c0, p0. split; [|done].
    rewrite lookup_insert_ne; [done|]. intros <-. simplify_eq.
  - intros t0 c0 p0 E0 Hp0. destruct (decide (t0 = t)) as [->|]; simplify_map_eq; [done|].
    rewrite lookup_insert_ne; [eauto|]. intros <-. specialize (I6 _ _ _ E0 Hp0). congruence.
  - intros t0 c0 E0. destruct (decide (c0 = conv)) as [->|]; simplify_map_eq; [eauto|].
    destruct (I7 t0 c0 E0) as (p0 & Ep & Hp0). exists p0. split; [|done].
    rewrite lookup_insert_ne; [done|]. congruence.
  - intros t0 c0 p0 E0 Hp0. destruct (decide (t0 = t)) as [->|]; simplify_map_eq; [|eauto].
    split; [done|]. split; [constructor|]. by intros i ?%not_elem_of_nil.
Qed.

Lemma inv_other y m s :
  Inv y m -> rows_kept (db y) (Engine.db s) ->
  Inv (Flushes.mk s (Flushes.locks y) (Flushes.tasks y) (Flushes.trace y)) m.
Proof.
  intros [I1 I2 I3 I4 I5 I6 I7 I8] Hk. split; simpl; try done.
  - apply Hk.
  - intros i a Hi. destruct Hk as (_ & l & ->). rewrite fmap_app, elem_of_app. eauto.
  - intros i c Hi Hx. eapply (I4 i c Hi), pending_kept_inv; eauto.
  - intros t0 c0 p0 E0 Hp0. destruct (I8 _ _ _ E0 Hp0) as (Hc & Hn & Ha).
    split_and!; [|done|]; intros i Hi; [destruct (Hc i Hi)|destruct (Ha i Hi)]; split; eauto using pending_kept.
Qed.

Lemma inv_step y m y' : Inv y m -> step y y' -> exists m', Inv y' m'.
Proof.
  intros I Hst. destruct Hst as [y t conv Et|y t conv Et El|y t conv p r s Et Hp E|y t conv Et|y t conv c b id w rest w' Et|y s Hk].
  - exists m. apply (inv_idle y m t); [done|intros; by simplify_map_eq|].
    intros c p [E|E]; simplify_map_eq; congruence.
  - exists m. by apply inv_acquire.
  - eapply inv_run; eauto using flush_step_moves.
  - exists m. apply (inv_idle y m t); [done|intros; by simplify_map_eq|].
    intros c p [E|E]; simplify_map_eq; congruence.
  - by apply (inv_over y m t conv _ (Engine.with_world (Flushes.engine y) w') I Et).
  - exists m. by apply inv_other.
Qed.

Lemma inv_reachable s0 y : db_ok (Engine.db s0) -> reachable s0 y -> exists m, Inv y m.
Proof.
  intros Hd. induction 1 as [|y y' _ [m I] Hst]; [|by eapply inv_step].
  exists ∅. split; simpl; try done.
Qed.
End invariant.

(** ** Schedules *)

Inductive action := Start (t : nat) (conv : bytes) | Acquire (t : nat) | Run (t : nat).

Section schedules.
Context `{Platform} `{SqlText} `{LibSignal} `{RatchetLib} `{!Crypto}.

(** An action that is not possible does nothing. *)
Definition perform (y : Flushes.t) (a : action) : Flushes.t :=
  match a with
  | Start t conv =>
    match Flushes.tasks y !! t with
    | None => Flushes.mk (Flushes.engine y) (Flushes.locks y) (<[t := (conv, FLock)]> (Flushes.tasks y)) (Flushes.trace y)
    | Some _ => y
    end
  | Acquire t =>
    match Flushes.tasks y !! t with
    | Some (conv, FLock) =>
      match Flushes.locks y !! conv with
      | None => Flushes.mk (Flushes.engine y) (<[conv := t]> (Flushes.locks y))
                  (<[t := (conv, FRead)]> (Flushes.tasks y)) (Flushes.trace y)
      | Some _ => y
      end
    | _ => y
    end
  | Run t =>
    match Flushes.tasks y !! t with
    | Some (conv, p) =>
      if holds p then let '(r, s) := flush_step conv p (Flushes.engine y) in resume y t conv p r s else y
    | None => y
    end
  end.

Lemma perform_reachable s0 y a : reachable s0 y -> reachable s0 (perform y a).
Proof.
  intros Hr. destruct a as [t conv|t|t]; simpl; destruct (Flushes.tasks y !! t) as [[c p]|] eqn:Et; try done.
  - eapply reach_step; [done|by apply step_start].
  - destruct p; try done. destruct (Flushes.locks y !! c) eqn:El; [done|]. eapply reach_step; [done|by apply step_acquire].
  - destruct (holds p) eqn:Hp; [|done]. destruct (flush_step c p _) as [r s] eqn:E.
    eapply reach_step; [done|by eapply step_run].
Qed.

Lemma schedule_reachable s0 l y : reachable s0 y -> reachable s0 (foldl perform y l).
Proof. revert y. induction l as [|a l IH]; intros y Hr; simpl; auto using perform_reachable. Qed.

(** ** A flush alone *)

Lemma alone_loop conv convo mailbox : forall pending n s, (3 * length pending + 1 <= n)%nat ->
  alone n conv (FNext convo mailbox pending) s = Some (flush_loop conv convo mailbox pending s).
Proof.
  induction pending as [|[id f] rest IH]; intros n s Hn; simpl in Hn.
  { destruct n as [|n]; [lia|]. by destruct n. }
  destruct n as [|[|[|n]]]; try lia. cbn [alone flush_step flush_loop]. unfold mbind, st_bind.
  rewrite encrypt_eq. destruct (store_fault _) as [[text|] w0]; [done|].
  destruct (encrypt_message _ _ _ _) as [[wire| |] k]; try done. cbn [mret st_ret].
  cbn [alone flush_step]. unfold mbind, st_bind. rewrite deposit_eq.
  destruct (http_deposit _ _ _ _) as [[o| |] w]; try done. cbn [alone flush_step mret st_ret].
  destruct o as [| |c]; unfold mbind, st_bind.
  - destruct (db_set _ _) as [[]]; try done. apply IH. lia.
  - by destruct n.
  - destruct (_ || _); [|by destruct n].
    destruct (ignore _ _) as [[]]; try done. destruct (emit_permanent_send_failure _ _ _) as [[]]; try done.
    apply IH. lia.
Qed.

Lemma collect_pending_length rows : forall l, collect_pending rows = Ok l -> length l = length rows.
Proof.
  induction rows as [|m rows IH]; intros l E; simpl in E; [by injection E as <-|].
  repeat (apply bind_Ok in E as (? & ? & E)). injection E as <-. simpl. f_equal. auto.
Qed.

Lemma pending_chat_length d c l : pending_chat d c = Ok l -> (length l <= length (Db.messages d))%nat.
Proof. intros ->%collect_pending_length. apply filter_length_le. Qed.
End schedules.

(** ** Properties *)

(** C8: one flush at a time.  However flushes of any conversations start, wait,
    run, fail and are cancelled, and whatever else the engine does in between:
    a message is encrypted again only after the attempt before was given up
    (its request failed, was refused for now or was cancelled, or the store
    failed at its mark); once settled
    it is never encrypted again and is in no outbox; two flushes of a
    conversation are never past its lock together; and a lock is held only by
    a flush that is still running, so a cancelled one never blocks the next. *)
Theorem one_flush_at_a_time `{Platform} `{SqlText} `{LibSignal} `{RatchetLib} `{!Crypto}
    (s0 : Engine.t) (y : Flushes.t) :
  db_ok (Engine.db s0) -> reachable s0 y ->
  (forall l1 l2 l3 id, Flushes.trace y = l1 ++ Encrypted id :: l2 ++ Encrypted id :: l3 -> GaveUp id ∈ l2) /\
  (forall l1 l2 id, Flushes.trace y = l1 ++ Settled id :: l2 ->
     (Encrypted id ∉ l2) /\
     (forall c p, pending_chat (Engine.db (Flushes.engine y)) c = Ok p -> id ∉ p.*1)) /\
  (forall t t' conv p p', Flushes.tasks y !! t = Some (conv, p) -> Flushes.tasks y !! t' = Some (conv, p') ->
     holds p = true -> holds p' = true -> t = t') /\
  (forall conv t, Flushes.locks y !! conv = Some t -> exists p, Flushes.tasks y !! t = Some (conv, p) /\ holds p = true).
Proof.
  intros Hd Hr. destruct (inv_reachable s0 y Hd Hr) as [m I]. pose proof (inv_trace _ _ I) as Ht.
  split_and!.
  - intros l1 l2 l3 id E. rewrite E, replay_app in Ht. apply bind_Some in Ht as (m1 & _ & Ht).
    simpl in Ht. destruct (m1 !! id); [done|]. simpl in Ht.
    rewrite replay_app in Ht. apply bind_Some in Ht as (m2 & E2 & Ht).
    destruct (decide (GaveUp id ∈ l2)) as [|Hg]; [done|].
    destruct (flight_stays id _ _ _ E2) as [[a Ha] _]; [by simplify_map_eq|done|]. simpl in Ht. by rewrite Ha in Ht.
  - intros l1 l2 id E. rewrite E, replay_app in Ht. apply bind_Some in Ht as (m1 & _ & Ht).
    simpl in Ht. destruct (m1 !! id) as [[]|]; try done. simpl in Ht.
    destruct (sent_stays id _ _ _ Ht) as [Hs Hl]; [by simplify_map_eq|]. split; [done|].
    intros c p Hp Hin. apply (inv_sent _ _ I id c Hs). destruct (pending_read _ _ _ (inv_db _ _ I) Hp) as [_ Hx]. by apply Hx.
  - intros t t' conv p p' E E' Hp Hp'. by eapply exclusive.
  - intros conv t El. by eapply inv_free.
Qed.

(** Two flushes of a conversation with two messages: the second waits, gets the
    lock when the first met a full relay, and sends what is left. *)
Definition overlap : list action :=
  [Start 1 demo_conv; Start 2 demo_conv; Acquire 1; Acquire 2] ++ replicate 8 (Run 1) ++
  [Acquire 2] ++ replicate 6 (Run 2).

Lemma one_flush_at_a_time_witness :
  let s0 := demo_engine two_pending [(202, []); (503, []); (202, [])] in
  let y := foldl perform (started s0) overlap in
  let one := replicate 16 1 in let two := replicate 16 2 in
  Flushes.trace y = [Encrypted one; Settled one; Encrypted two; GaveUp two; Encrypted two; Settled two] /\
  Encrypted one ∉ [Encrypted two; GaveUp two; Encrypted two; Settled two].
Proof.
  intros s0 y one two.
  assert (E : Flushes.trace y = [Encrypted one; Settled one; Encrypted two; GaveUp two; Encrypted two; Settled two])
    by (vm_compute; reflexivity).
  split; [exact E|].
  destruct (one_flush_at_a_time s0 y two_pending_ok) as (_ & Hs & _).
  { apply schedule_reachable, reach_start. }
  exact (proj1 (Hs [Encrypted one] _ one E)).
Defined.

(** The steps of a flush are the flush.  Run without interruption from the
    moment it has the lock, a flush is exactly [flush_pending]: the same result,
    store, keys, requests and notices, within three steps for each stored
    message and three more. *)
Theorem alone_is_flush `{Platform} `{SqlText} `{LibSignal} `{RatchetLib} `{!Crypto}
    (conv : bytes) (n : nat) (s : Engine.t) :
  (3 * length (Db.messages (Engine.db s)) + 3 <= n)%nat ->
  alone n conv FRead s = Some (flush_pending conv s).
Proof.
  intros Hn. destruct n as [|[|n]]; try lia. unfold flush_pending.
  cbn [alone flush_step]. unfold mbind, st_bind, attempt, db_get, store_call, read_r.
  destruct (store_fault _) as [[text|] w]; [done|].
  destruct (get_conversation _ _) as [[convo|]| |]; try done; cbn [mret st_ret].
  destruct (Conversation.mailbox_send convo) as [mailbox|]; [|done].
  cbn [alone flush_step]. unfold mbind, st_bind, attempt, db_get, store_call, read_r.
  destruct (store_fault _) as [[text|] w1]; [done|].
  destruct (pending_chat _ _) as [l| |] eqn:El; try done; cbn [mret st_ret].
  apply alone_loop. apply pending_chat_length in El. cbn [Engine.db Engine.with_world] in El. lia.
Qed.

Lemma alone_is_flush_witness :
  let s := demo_engine two_pending [(202, []); (503, [])] in
  alone 9 demo_conv FRead s = Some (flush_pending demo_conv s).
Proof. intros s. apply (alone_is_flush demo_conv 9 s). vm_compute. lia. Defined.
