(* ===== verification/EndToEnd.v ===== *)
(** The client against the relay: a frame encrypted by one party, deposited,
    replayed to the subscriber, decrypted and acknowledged by the other.  The
    client's half is proved against the channel interface of [Transport]. *)

From S2P Require Import Prelude Errors Config Envelope Base64 RelayWire RelayConfig RelayLimits.
From S2P Require Import RelayState RelayApi RelayConc Storage Keys Transport Session.

(** The relay's blind check admits every envelope with a ciphertext. *)
Lemma encoded_admissible kind c :
  c <> [] -> deposit_admissible (Envelope.encode (Envelope.mk kind c)) = Ok true.
Proof.
  intros Hc. rewrite deposit_admissible_eq. unfold Envelope.encode. simpl Envelope.kind.
  simpl Envelope.ciphertext. f_equal.
  rewrite (proj2 (Z.leb_le _ _)); [by destruct kind|].
  destruct c; [done|]. unfold MIN_ENVELOPE. rewrite !zlen_app. change (zlen MAGIC) with 4.
  zlen_lia.
Qed.

(** What the receiver does with a frame off its socket: read the delivery,
    decrypt it, and build the ack. *)
Definition client_receive `{SqlText} `{LibSignal} `{RatchetLib}
    (sender : bytes) (profile : PaddingProfile.t) (data : bytes) : store (InnerFrame.t * bytes) :=
  e ← pure_r (parse_delivery data);
  match e with
  | Delivery id wire => frame ← decrypt_message sender wire profile; mret (frame, ack_frame id)
  | Idle => pure_r Panic
  end.

(** Over any channel: a delivered encryption is received, and its ack names
    the message. *)
Lemma client_receive_ok `{SqlText} `{LibSignal} `{RatchetLib} frame_of acked
    `{!DeliveryChannel frame_of acked}
    ks ks' kr sender receiver f profile wire id :
  PaddingProfile.wf profile -> in_step ks kr sender receiver ->
  local_protocol_address ks = (Ok sender, ks) -> local_protocol_address kr = (Ok receiver, kr) ->
  encrypt_message receiver f profile ks = (Ok wire, ks') -> length id = 16%nat ->
  exists kr', client_receive sender profile (frame_of id wire) kr = (Ok (f, ack_frame id), kr') /\
    acked (ack_frame id) = Ok (Some id).
Proof.
  intros Hwf Hs Hls Hlr E Hid.
  destruct (decrypt_encrypted _ _ _ _ _ _ _ _ Hwf Hs Hls Hlr E) as [[kr' Hd] _].
  exists kr'. split; [|by apply ack_is_read].
  unfold client_receive, mbind, st_bind, pure_r. by rewrite frame_delivers, Hd.
Qed.

Lemma remove_first_snoc q m :
  Forall (fun x => QueuedMsg.id x <> QueuedMsg.id m) q ->
  remove_first (QueuedMsg.id m) (q ++ [m]) = q.
Proof.
  induction 1 as [|x q Hx Hq IH]; simpl; [by rewrite beq_refl|].
  unfold beq at 1. rewrite bool_decide_eq_false_2 by done. by rewrite IH.
Qed.

(** ** Properties *)

(** End to end.  Two parties whose ratchets are in step, a mailbox on the
    relay, and an accepted deposit of an encrypted frame: the wire bytes pass
    the relay's blind check; a receiver that then subscribes is sent, after
    the messages queued before, a frame from which it recovers exactly the
    sender's frame; and its ack makes the relay forget exactly that message,
    so the mailbox holds what it held before. *)
Theorem message_delivered `{SqlText} `{LibSignal} `{RatchetLib}
    (p now : Z) (s s1 : AppState.t) (ip : IpAddr) (box : bytes) (e : Env) (mb : Mailbox.t)
    (resp : Response.t) (wake : option nat) (tx : nat) (t : Z)
    (ks ks' kr : Keys.t) (sender receiver : bytes) (f : InnerFrame.t) (profile : PaddingProfile.t)
    (wire : bytes) :
  PaddingProfile.wf profile -> in_step ks kr sender receiver ->
  local_protocol_address ks = (Ok sender, ks) -> local_protocol_address kr = (Ok receiver, kr) ->
  encrypt_message receiver f profile ks = (Ok wire, ks') ->
  Inv p now s -> ids16 s -> zlen wire <= Config.max_blob_bytes (AppState.cfg s) ->
  now <= deposited_now e <= activity_now e -> length (msg_id e) = 16%nat ->
  AppState.boxes s !! box = Some mb ->
  Forall (fun m => QueuedMsg.id m <> msg_id e) (Mailbox.queue mb) ->
  deposit s ip box wire e = Ok (resp, wake, s1) -> Response.status resp = 202 ->
  activity_now e <= t ->
  deposit_admissible wire = Ok true /\
  exists sent s2 frame kr' s3,
    drive (4 + length (Mailbox.queue mb)) s1 tx (Conn.mk box 0%nat PRegister []) t
    = Some (Ok (Some (Conn.mk box 0%nat (PSelect sent)
        (((fun m => delivery_frame (QueuedMsg.id m) (QueuedMsg.data m)) <$> Mailbox.queue mb)
         ++ [frame])), s2)) /\
    client_receive sender profile frame kr = (Ok (f, ack_frame (msg_id e)), kr') /\
    handle_ack s2 box (ack_frame (msg_id e)) t = Ok (true, s3) /\
    box_queue s3 box = Some (Mailbox.queue mb).
Proof.
  intros Hwf Hs Hls Hlr Eenc HI H16 Hlen Hnow Hmid Hbox Hfresh Edep Hst Ht.
  destruct (decrypt_encrypted _ _ _ _ _ _ _ _ Hwf Hs Hls Hlr Eenc) as [_ (kind & c & Hw & Hc)].
  split; [rewrite Hw; by apply encoded_admissible|].
  destruct (deposit_ok p now s ip box wire e HI Hlen Hnow) as (r & w & s' & E' & HI1 & Heff & _).
  rewrite Edep in E'. injection E' as <- <- <-.
  destruct Heff as [(_ & mb' & Hb' & _ & Hs1 & _)|(Hbad & _)].
  2: { exfalso. rewrite Hst in Hbad. set_solver. }
  assert (mb' = mb) as -> by congruence.
  set (m := QueuedMsg.mk (msg_id e) wire (deposited_now e)).
  assert (Hbox1 : AppState.boxes s1 !! box = Some (deposited wire e mb))
    by (rewrite Hs1; apply lookup_insert_eq).
  assert (H161 : ids16 s1).
  { unfold ids16. rewrite Hs1. apply map_Forall_insert_2; [|done]. simpl.
    apply Forall_app. split; [by apply (H16 box)|]. by repeat constructor. }
  destruct (drive_replay s1 box tx (deposited wire e mb) t H161 Hbox1)
    as (sent & s2 & Hdrive & Hq2 & _ & Hs2).
  assert (Hqlen : length (Mailbox.queue (deposited wire e mb)) = S (length (Mailbox.queue mb)))
    by (simpl; rewrite length_app; simpl; lia).
  rewrite Hqlen in Hdrive. simpl Mailbox.queue in Hdrive. rewrite fmap_app in Hdrive.
  destruct (client_receive_ok delivery_frame parse_ack_frame ks ks' kr sender receiver f profile
              wire (msg_id e) Hwf Hs Hls Hlr Eenc Hmid) as (kr' & Hrecv & Hack).
  assert (HI2 : Inv p t s2) by (rewrite Hs2; by eapply register_ok).
  destruct (handle_ack_ok p t s2 box (ack_frame (msg_id e)) t HI2 ltac:(lia))
    as (b & s3 & Hh & _ & _ & Heff). rewrite Hack in Heff. destruct Heff as [-> Hq3].
  exists sent, s2, (delivery_frame (msg_id e) wire), kr', s3.
  split_and!; [exact Hdrive|exact Hrecv|exact Hh|].
  rewrite Hq3, bool_decide_eq_true_2, Hq2 by done. simpl. f_equal.
  apply (remove_first_snoc (Mailbox.queue mb) m Hfresh).
Qed.

(** A concrete run for the witness, over a ratchet that passes plaintext
    through. *)
#[local] Existing Instances toy_sql toy_lib toy_ratchet.

Definition e2e_frame : InnerFrame.t := InnerFrame.mk Chat 1 (bstr "hola").

Definition e2e_wire : bytes :=
  match encrypt_message (bstr "bob") e2e_frame toy_profile (toy_keys (bstr "ana")) with
  | (Ok w, _) => w
  | _ => []
  end.

Lemma e2e_deposit : exists resp wake s1,
  deposit demo_relay (V4 [10; 0; 0; 1]) demo_id e2e_wire demo_env = Ok (resp, wake, s1) /\
  Response.status resp = 202.
Proof.
  assert (H : (fun x => Response.status x.1.1) <$>
    deposit demo_relay (V4 [10; 0; 0; 1]) demo_id e2e_wire demo_env = Ok 202) by (vm_compute; reflexivity).
  destruct (deposit _ _ _ _ _) as [[[resp wake] s1]| |]; [|done|done].
  injection H as H. by exists resp, wake, s1.
Qed.

Lemma message_delivered_witness :
  exists s1 sent s2 frame kr',
    drive 4 s1 7%nat (Conn.mk demo_id 0%nat PRegister []) 130
    = Some (Ok (Some (Conn.mk demo_id 0%nat (PSelect sent) [frame]), s2)) /\
    client_receive (bstr "ana") toy_profile frame (toy_keys (bstr "bob"))
    = (Ok (e2e_frame, ack_frame (replicate 16 3)), kr').
Proof.
  destruct e2e_deposit as (resp & wake & s1 & Hdep & Hst).
  destruct (message_delivered 0 100 demo_relay s1 (V4 [10; 0; 0; 1]) demo_id demo_env
    (Mailbox.fresh 100) resp wake 7 130 (toy_keys (bstr "ana")) _ (toy_keys (bstr "bob"))
    (bstr "ana") (bstr "bob") e2e_frame toy_profile e2e_wire toy_profile_wf
    (toy_in_step _ _ _ _) ltac:(vm_compute; reflexivity) ltac:(vm_compute; reflexivity)
    ltac:(vm_compute; reflexivity) demo_relay_Inv) as (_ & sent & s2 & frame & kr' & s3 & H1 & H2 & _).
  - apply map_Forall_insert_2; [constructor|apply map_Forall_empty].
  - vm_compute; congruence.
  - vm_compute; intuition congruence.
  - reflexivity.
  - vm_compute; reflexivity.
  - constructor.
  - exact Hdep.
  - exact Hst.
  - vm_compute; congruence.
  - exists s1, sent, s2, frame, kr'. split; [exact H1|exact H2].
Defined.
