(* ===== verification/EngineRelay.v ===== *)
(** The engine on the relay: the platform whose network is the relay of
    [RelayApi], behind a line that may lose requests or answers.  What the
    client deposits is what the relay queues, in order; the outbox and the
    mailbox together lose nothing. *)

From S2P Require Import Prelude Errors Utf8 Config Envelope Base64 Cursor Pairing Recovery Storage Keys.
From S2P Require Import RelayWire RelayConfig RelayLimits RelayState RelayApi RelayConc.
From S2P Require Import Transport Session Engine EngineDemo EngineRuns EngineSend EndToEnd.

(** What becomes of a request: lost on the way, answered, or handled with the
    answer lost; with the readings the relay takes when it handles it. *)
Inductive Fate :=
  | Dropped
  | Answered (e : Env) (draws : list bytes)
  | AnswerLost (e : Env) (draws : list bytes).

Module RelayWorld.
Record t := mk {
  app : AppState.t;
  now : Z;
  fates : list Fate;
  draws : list bytes;      (* the client's random draws *)
  secs : Z                 (* the client's clock *)
}.
End RelayWorld.

(** The route table of [router] for the methods the client uses: the path
    after the origin. *)
Definition route (m : Method) (path body : bytes) (ip : IpAddr) (draws : list bytes) : option Request :=
  rest ← strip_prefix (bstr "/v1/mailboxes") path;
  match rest with
  | [] => match m with POST => Some (PostMailboxes ip draws) | _ => None end
  | 47 :: r =>
    match split_once [47] r, m with
    | None, PUT => Some (PutMailbox ip r)
    | None, DELETE => Some (DeleteMailbox r)
    | Some (id, tail), POST => if beq tail (bstr "messages") then Some (PostMessage ip id body) else None
    | _, _ => None
    end
  | _ => None
  end.

Section platform.
(** The relay's public origin, the client's address as the relay sees it, the
    framework's answer to an oversize body, and how a status is shown. *)
Variables (origin : bytes) (ip : IpAddr) (too_large : Response.t) (show : Z -> string).

Definition relay_send (m : Method) (url body : bytes) (w : RelayWorld.t)
    : result string (Z * result string bytes) * RelayWorld.t :=
  let '(RelayWorld.mk app now fates dr secs) := w in
  match fates with
  | [] => (Err "unreachable"%string, w)
  | Dropped :: rest => (Err "unreachable"%string, RelayWorld.mk app now rest dr secs)
  | (Answered e draws | AnswerLost e draws) as f :: rest =>
    match (path ← strip_prefix origin url; route m path body ip draws) with
    | None => (Err "not routed"%string, RelayWorld.mk app now rest dr secs)
    | Some req =>
      match router too_large app req e with
      | Ok (Some resp, _, app') =>
        (match f with
         | Answered _ _ => Ok (Response.status resp, Ok (Response.body resp))
         | _ => Err "answer lost"%string
         end, RelayWorld.mk app' (activity_now e) rest dr secs)
      | Ok (None, _, app') => (Err "closed"%string, RelayWorld.mk app' (activity_now e) rest dr secs)
      | Err _ | Panic => (Err "closed"%string, RelayWorld.mk app now rest dr secs)
      end
    end
  end.

Definition relay_platform : Platform := {|
  World := RelayWorld.t;
  http_send := relay_send;
  random_bytes n w :=
    match RelayWorld.draws w with
    | [] => (replicate n 0, w)
    | b :: r => (take n (b ++ replicate n 0),
                 RelayWorld.mk (RelayWorld.app w) (RelayWorld.now w) (RelayWorld.fates w) r (RelayWorld.secs w))
    end;
  system_secs w := (Some (RelayWorld.secs w), w);
  unixepoch w := (RelayWorld.secs w, w);
  store_fault w := (None, w);
  status_text := show
|}.
End platform.

(** The readings of the requests to come follow the relay's clock, and its
    draws are 256 bits each. *)
Fixpoint fates_ok (now : Z) (l : list Fate) : Prop :=
  match l with
  | [] => True
  | Dropped :: r => fates_ok now r
  | (Answered e draws | AnswerLost e draws) :: r =>
    env_ok now e /\ Forall (fun d => length d = 32%nat) draws /\ fates_ok (activity_now e) r
  end.

Definition world_ok (w : RelayWorld.t) : Prop :=
  Inv 0 (RelayWorld.now w) (RelayWorld.app w) /\ ids16 (RelayWorld.app w) /\
  fates_ok (RelayWorld.now w) (RelayWorld.fates w).

(** ** One deposit *)

Lemma slash_not_base64 id : mailbox_id_shape_ok id = true -> 47 ∉ id.
Proof.
  unfold mailbox_id_shape_ok. intros H Hin. reflect_bools. rewrite forallb_forall in H0.
  specialize (H0 47). rewrite <- list_elem_of_In in H0. specialize (H0 Hin). by vm_compute in H0.
Qed.

Lemma route_deposit id body ip draws :
  mailbox_id_shape_ok id = true ->
  route POST (bstr "/v1/mailboxes/" ++ id ++ bstr "/messages") body ip draws = Some (PostMessage ip id body).
Proof.
  intros Hs. unfold route. change (bstr "/v1/mailboxes/" ++ id ++ bstr "/messages")
    with (bstr "/v1/mailboxes" ++ (47 :: id ++ [47] ++ bstr "messages")).
  rewrite strip_prefix_app. rsimpl. rewrite (split_once_found 47 [] id) by by apply slash_not_base64. done.
Qed.

(** An admissible body is never refused as malformed, and the configuration
    stays. *)
Lemma deposit_shape s ip id body e r w s' :
  deposit_admissible body = Ok true -> RelayApi.deposit s ip id body e = Ok (r, w, s') ->
  Response.status r <> 400 /\ Response.status r <> 413 /\ AppState.cfg s' = AppState.cfg s.
Proof.
  intros Ha. unfold RelayApi.deposit, deposit_locked. destruct (negb _); [by intros [= <- _ <-]|].
  destruct (too_many_requests_Ok (unix_secs e)) as [v Hv].
  destruct (SourceLimiter.admit_deposit _ _ _) as [[[] l]|?|]; rsimpl; [|rewrite Hv; by intros [= <- _ <-]|done..].
  rewrite Ha. rsimpl. simpl AppState.boxes. destruct (AppState.boxes s !! id) as [mb|]; [|by intros [= <- _ <-]].
  destruct (BoxLimiter.admit_deposit _ _ _) as [[[] l']|?|]; rsimpl; [|rewrite Hv; by intros [= <- _ <-]|done..].
  match goal with |- mbind _ ?x = _ -> _ => destruct x as [[]|?|] end; rsimpl; try done; [by intros [= <- _ <-]|].
  destruct (expect _) as [?|?|]; rsimpl; try done. by intros [= <- _ <-].
Qed.

(** The database of a client on the relay works. *)
#[export] Instance relay_works origin ip too_large show : StoreWorks (H := relay_platform origin ip too_large show).
Proof. done. Qed.

Section on_relay.
Variables (origin : bytes) (ip : IpAddr) (too_large : Response.t) (show : Z -> string).

#[local] Instance on_relay : Platform := relay_platform origin ip too_large show.

(** The relay handles a deposit: queued exactly when the status is 202. *)
Lemma relay_handles app now rest dr secs box wire e q :
  Inv 0 now app -> ids16 app -> zlen wire <= Config.max_blob_bytes (AppState.cfg app) -> deposit_admissible wire = Ok true ->
  box_queue app box = Some q -> env_ok now e -> fates_ok (activity_now e) rest ->
  exists resp wake app', router too_large app (PostMessage ip box wire) e = Ok (Some resp, wake, app') /\
    world_ok (RelayWorld.mk app' (activity_now e) rest dr secs) /\ AppState.cfg app' = AppState.cfg app /\
    Response.status resp <> 400 /\ Response.status resp <> 413 /\
    (forall b, b <> box -> box_queue app' b = box_queue app b) /\
    if Response.status resp =? 202
    then exists m, QueuedMsg.data m = wire /\ box_queue app' box = Some (q ++ [m])
    else box_queue app' box = Some q.
Proof.
  intros HI H16 Hl Ha Hq [He Hm16] Hr.
  destruct (deposit_ok 0 now app ip box wire e HI Hl He) as (resp & wake & app' & E & HI' & Heff & _).
  destruct (deposit_shape _ _ _ _ _ _ _ _ Ha E) as (H4 & H13 & Hcfg).
  exists resp, wake, app'. unfold router. rewrite (proj2 (Z.ltb_ge _ _)) by done. rewrite E. rsimpl.
  split; [done|]. assert (H16' : ids16 app').
  { unfold ids16. destruct Heff as [(_ & mb & Hb & _ & -> & _)|(_ & _ & _ & -> & _)]; [|done].
    apply map_Forall_insert_2; [|done]. simpl. apply Forall_app. split; [by apply (H16 box)|]. by repeat constructor. }
  split; [by split|]. split_and!; try done; unfold box_queue in *.
  { intros b Hb. destruct Heff as [(_ & mb & _ & _ & -> & _)|(_ & _ & _ & -> & _)]; [by rewrite lookup_insert_ne|done]. }
  destruct Heff as [(-> & mb & Hb & _ & Hb' & _)|(Hst & _ & _ & Hb' & _)].
  - simpl. exists (QueuedMsg.mk (msg_id e) wire (deposited_now e)). split; [done|].
    rewrite Hb', lookup_insert_eq. rewrite Hb in Hq. by injection Hq as <-.
  - destruct (Z.eqb_spec (Response.status resp) 202) as [E2|_]; [rewrite E2 in Hst; set_solver|]. by rewrite Hb'.
Qed.

(** What the client learns of a deposit, and what became of it. *)
Definition deposit_result (q q' : list QueuedMsg.t) (wire : bytes) (o : Result DepositOutcome) : Prop :=
  (q' = q /\ o <> Ok Accepted /\ o <> Ok (Other 400) /\ o <> Ok (Other 413)) \/
  (exists m, QueuedMsg.data m = wire /\ q' = q ++ [m] /\ (o = Ok Accepted \/ exists e, o = Err e)).

Lemma relay_deposit relay_url box wire (w : World) o (w' : World) q :
  to_http relay_url = origin -> mailbox_id_shape_ok box = true -> world_ok w ->
  zlen wire <= Config.max_blob_bytes (AppState.cfg (RelayWorld.app w)) -> deposit_admissible wire = Ok true ->
  box_queue (RelayWorld.app w) box = Some q -> http_deposit relay_url box wire w = (o, w') ->
  world_ok w' /\ AppState.cfg (RelayWorld.app w') = AppState.cfg (RelayWorld.app w) /\
  (forall b, b <> box -> box_queue (RelayWorld.app w') b = box_queue (RelayWorld.app w) b) /\
  exists q', box_queue (RelayWorld.app w') box = Some q' /\ deposit_result q q' wire o.
Proof.
  intros Hu Hs (HI & H16 & Hf) Hl Ha Hq. destruct w as [app now fates dr secs]. simpl in HI, H16, Hf, Hl, Hq.
  unfold http_deposit, call, mbind, st_bind. cbn [http_send on_relay relay_platform]. unfold relay_send.
  assert (Hkeep : forall (o1 : Result DepositOutcome), o1 <> Ok Accepted -> o1 <> Ok (Other 400) -> o1 <> Ok (Other 413) ->
    exists q', box_queue app box = Some q' /\ deposit_result q q' wire o1)
    by (intros; exists q; split; [done|by left]).
  destruct fates as [|f rest]; [intros [= <- <-]; split; [by split|]; split; [done|]; split; [done|]; by apply Hkeep|].
  destruct f as [|e d|e d]; simpl in Hf;
    [intros [= <- <-]; split; [by split|]; split; [done|]; split; [done|]; by apply Hkeep|..];
    destruct Hf as (He & _ & Hr);
    destruct (relay_handles app now rest dr secs box wire e q HI H16 Hl Ha Hq He Hr)
      as (resp & wake & app' & E & Hw & Hcfg & H4 & H13 & Hoth & Hst);
    rewrite Hu, strip_prefix_app; rsimpl; rewrite route_deposit by done; rewrite E; cbn [map_err];
    intros [= <- <-]; (split; [exact Hw|]); (split; [exact Hcfg|]); (split; [exact Hoth|]).
  - destruct (Response.status resp =? 202) eqn:E2.
    + destruct Hst as (m & ? & ?). exists (q ++ [m]). split; [done|right]. exists m. auto.
    + exists q. split; [done|left]. split; [done|]. bool_case; [done|]. split_and!; congruence.
  - destruct (Response.status resp =? 202).
    + destruct Hst as (m & ? & ?). exists (q ++ [m]). split; [done|right]. exists m. eauto.
    + exists q. split; [done|by left].
Qed.
End on_relay.

(** ** A flush *)

Section flushing.
Context `{SqlText} `{LibSignal} `{RatchetLib} `{!Crypto}.
Variables (origin : bytes) (ip : IpAddr) (too_large : Response.t) (show : Z -> string).

#[local] Instance line : Platform := relay_platform origin ip too_large show.
#[local] Instance line_works : StoreWorks.
Proof. done. Qed.

(** The frames encrypted one after the other to a peer. *)
Inductive enciphered (peer : bytes) (profile : PaddingProfile.t) : Keys.t -> list InnerFrame.t -> list bytes -> Keys.t -> Prop :=
  | enciphered_nil k : enciphered peer profile k [] [] k
  | enciphered_cons k f w k1 fs ws k2 :
      encrypt_message peer f profile k = (Ok w, k1) -> enciphered peer profile k1 fs ws k2 ->
      enciphered peer profile k (f :: fs) (w :: ws) k2.

(** The relay behind an engine, and the queue of a mailbox there. *)
Definition relay_of (s : Engine.t) : AppState.t := RelayWorld.app (Engine.world s).

(** What encryption produces fits the relay. *)
Definition fits (cfg : Config.t) (peer : bytes) (profile : PaddingProfile.t) : Prop :=
  forall f k w k', encrypt_message peer f profile k = (Ok w, k') ->
    zlen w <= Config.max_blob_bytes cfg /\ deposit_admissible w = Ok true.

(** The mailbox after a flush that settled the messages sent as [ms]: exactly
    those were added, or one more whose answer was lost. *)
Definition mailbox_after (s' : Engine.t) (peer box : bytes) (profile : PaddingProfile.t) (k : Keys.t)
    (q ms : list QueuedMsg.t) (rest : list (bytes * InnerFrame.t)) (r : Result unit) : Prop :=
  box_queue (relay_of s') box = Some (q ++ ms) \/
  exists m x rest' e, rest = x :: rest' /\ encrypt_message peer x.2 profile k = (Ok (QueuedMsg.data m), Engine.keys s') /\
    box_queue (relay_of s') box = Some (q ++ ms ++ [m]) /\ r = Err e.

Section loop.
Variables (conv : bytes) (convo : Conversation.t) (box : bytes) (cfg : Config.t) (profile : PaddingProfile.t).
Hypotheses (Hurl : to_http (Conversation.relay_url convo) = origin) (Hbox : mailbox_id_shape_ok box = true).
Hypothesis Hfits : fits cfg (Conversation.peer_address convo) profile.

(** The engine is on a well-formed relay with this configuration. *)
Definition online (s : Engine.t) (q : list QueuedMsg.t) : Prop :=
  world_ok (Engine.world s) /\ Engine.profile s = profile /\ AppState.cfg (relay_of s) = cfg /\
  box_queue (relay_of s) box = Some q.

(** A run from [s] with queue [q] that ended in [s'] settled a prefix of the
    pending rows and left the mailbox accordingly. *)
Definition relayed (s : Engine.t) (q : list QueuedMsg.t) (pending : list (bytes * InnerFrame.t)) (r : Result unit)
    (s' : Engine.t) : Prop :=
  exists sent rest ms k, pending = sent ++ rest /\ Engine.db s' = mark_all sent.*1 (Engine.db s) /\
    enciphered (Conversation.peer_address convo) profile (Engine.keys s) sent.*2 (QueuedMsg.data <$> ms) k /\
    world_ok (Engine.world s') /\
    mailbox_after s' (Conversation.peer_address convo) box profile k q ms rest r.

Lemma relayed_none s q pending r s' :
  Engine.db s' = Engine.db s -> world_ok (Engine.world s') ->
  mailbox_after s' (Conversation.peer_address convo) box profile (Engine.keys s) q [] pending r ->
  relayed s q pending r s'.
Proof.
  intros Hd Hw Hm. exists [], pending, [], (Engine.keys s). rewrite mark_all_nil. split_and!; try done. constructor.
Qed.

Lemma relayed_cons s q id f wire k m d1 s1 pending r s' :
  encrypt_message (Conversation.peer_address convo) f profile (Engine.keys s) = (Ok wire, k) ->
  QueuedMsg.data m = wire -> Engine.keys s1 = k -> mark_message_sent (Engine.db s) id = Ok d1 -> Engine.db s1 = d1 ->
  relayed s1 (q ++ [m]) pending r s' -> relayed s q ((id, f) :: pending) r s'.
Proof.
  intros He Hm Hk Hd Hd1 (sent & rest & ms & k' & -> & Hdb & Hen & Hw & Haft).
  exists ((id, f) :: sent), rest, (m :: ms), k'. split; [done|]. split_and!.
  - rewrite Hdb, Hd1, fmap_cons. by apply mark_all_cons.
  - rewrite !fmap_cons, Hm. econstructor; [exact He|]. by rewrite <- Hk.
  - done.
  - unfold mailbox_after in *. change (q ++ m :: ms) with (q ++ [m] ++ ms). rewrite (app_assoc q [m] ms).
    destruct Haft as [Ha|(m' & x & rest' & e & Hx & Hx' & Hb & Hr)]; [by left|right].
    exists m', x, rest', e. split_and!; try done. rewrite Hb. by rewrite <- !app_assoc.
Qed.

Lemma flush_loop_relay : forall pending s r s' q,
  online s q -> flush_loop conv convo box pending s = (r, s') -> relayed s q pending r s'.
Proof.
  induction pending as [|[id f] pending IH]; intros s r s' q (Hw & Hp & Hc & Hq) E.
  { injection E as <- <-. apply relayed_none; [done..|left; by rewrite app_nil_r]. }
  cbn [flush_loop] in E. unfold mbind at 1, st_bind at 1 in E. rewrite encrypt_works, Hp in E.
  destruct (encrypt_message _ f profile (Engine.keys s)) as [[wire| |] k] eqn:Ee; cbv beta iota in E.
  2,3: injection E as <- <-; apply relayed_none; [done..|left; by rewrite app_nil_r].
  destruct (Hfits _ _ _ _ Ee) as [Hl Ha]. rewrite <- Hc in Hl.
  unfold mbind at 1, st_bind at 1 in E. rewrite deposit_eq in E. cbn [Engine.world Engine.with_keys] in E.
  destruct (http_deposit _ box wire _) as [o w] eqn:Eo.
  destruct (relay_deposit origin ip too_large show _ box wire (Engine.world s) o w q Hurl Hbox Hw Hl Ha Hq Eo)
    as (Hw' & Hc' & _ & q' & Hq' & [(-> & Hn1 & Hn2 & Hn3)|(m & Hm & -> & Ho)]).
  - assert (Hs' : s' = Engine.with_world (Engine.with_keys s k) w).
    { destruct o as [[| |c]|e|]; [done|by injection E| |by injection E..].
      destruct (Z.eqb_spec c 400), (Z.eqb_spec c 413); [congruence..|]. by injection E. }
    rewrite Hs'. apply relayed_none; [done..|left]. by rewrite app_nil_r.
  - destruct Ho as [->|[e ->]]; cbv beta iota in E.
    + set (s1 := Engine.with_world (Engine.with_keys s k) w) in E. unfold mbind at 1, st_bind at 1 in E.
      set (d1 := Db.with_messages (Engine.db s)
        (map (fun m => if beq (MsgRow.id m) id then set_status 1 m else m) (Db.messages (Engine.db s)))).
      rewrite db_set_works in E. change (mark_message_sent (Engine.db s1) id) with (Ok d1 : Result Db.t) in E. cbv beta iota in E.
      eapply (relayed_cons _ _ _ _ _ _ _ d1); [exact Ee|exact Hm| | | |eapply IH; [|exact E]]; try done.
      split_and!; try done. unfold relay_of. simpl. by rewrite Hc'.
    + injection E as <- <-. apply relayed_none; [done..|right]. exists m, (id, f), pending, e.
      split_and!; try done. by rewrite Hm.
Qed.
End loop.
End flushing.

(** A flush is the loop over the outbox it read. *)
Lemma flush_relayed `{SqlText} `{LibSignal} `{RatchetLib} `{!Crypto}
    (origin : bytes) (ip : IpAddr) (too_large : Response.t) (show : Z -> string)
    (conv box : bytes) (convo : Conversation.t) (cfg : Config.t) (profile : PaddingProfile.t)
    (s s' : @Engine.t (relay_platform origin ip too_large show)) (q : list QueuedMsg.t)
    (p : list (bytes * InnerFrame.t)) (r : Result unit) :
  get_conversation (Engine.db s) conv = Ok (Some convo) -> pending_chat (Engine.db s) conv = Ok p ->
  Conversation.mailbox_send convo = Some box -> mailbox_id_shape_ok box = true ->
  to_http (Conversation.relay_url convo) = origin -> fits cfg (Conversation.peer_address convo) profile ->
  online origin ip too_large show box cfg profile s q -> flush_pending conv s = (r, s') ->
  relayed origin ip too_large show convo box profile s q p r s'.
Proof.
  intros Hc Hp Hm Hs Hu Hf Ho E. unfold flush_pending, mbind, st_bind, attempt in E.
  rewrite (db_get_works (H0 := relay_works _ _ _ _)) in E. cbv beta in E. rewrite Hc in E. cbv beta iota in E.
  rewrite Hm, (db_get_works (H0 := relay_works _ _ _ _)) in E. cbv beta in E. rewrite Hp in E. cbv beta iota in E.
  by eapply flush_loop_relay.
Qed.

(** ** Properties *)

(** C13: the outbox and the mailbox.  An engine that flushes a conversation
    over the relay, on a line that loses requests and answers at will: the
    messages it takes out of the outbox are a prefix, and exactly their
    encryptions, in that order, were appended to the peer's mailbox, behind
    what was queued there; what is not taken out is still pending.  The one
    exception is a message whose answer was lost: it is in the mailbox and
    still pending, and the flush failed.  The relay stays well formed. *)
Theorem outbox_to_mailbox `{SqlText} `{LibSignal} `{RatchetLib} `{!Crypto}
    (origin : bytes) (ip : IpAddr) (too_large : Response.t) (show : Z -> string)
    (conv box : bytes) (convo : Conversation.t) (cfg : Config.t) (profile : PaddingProfile.t)
    (s s' : @Engine.t (relay_platform origin ip too_large show)) (q : list QueuedMsg.t) (r : Result unit) :
  db_ok (Engine.db s) -> get_conversation (Engine.db s) conv = Ok (Some convo) ->
  Conversation.mailbox_send convo = Some box -> mailbox_id_shape_ok box = true ->
  to_http (Conversation.relay_url convo) = origin -> fits cfg (Conversation.peer_address convo) profile ->
  online origin ip too_large show box cfg profile s q -> flush_pending conv s = (r, s') ->
  exists sent rest ms k,
    pending_chat (Engine.db s) conv = Ok (sent ++ rest) /\ pending_chat (Engine.db s') conv = Ok rest /\
    enciphered (Conversation.peer_address convo) profile (Engine.keys s) sent.*2 (QueuedMsg.data <$> ms) k /\
    mailbox_after origin ip too_large show s' (Conversation.peer_address convo) box profile k q ms rest r /\
    world_ok (Engine.world s').
Proof.
  intros Hd Hc Hm Hs Hu Hf Ho E. pose proof (pending_chat_Ok (Engine.db s) conv Hd) as Hp.
  destruct (flush_relayed _ _ _ _ _ _ _ _ _ _ _ _ _ _ Hc Hp Hm Hs Hu Hf Ho E)
    as (sent & rest & ms & k & Hsr & Hdb & Hen & Hw & Haft). rewrite Hsr in Hp.
  exists sent, rest, ms, k. split_and!; try done.
  assert (Hdb' : Engine.db s' = mark_all sent.*1 (Engine.db s)) by exact Hdb. rewrite Hdb'. by apply mark_prefix.
Qed.

(** Two pending messages for a mailbox of the relay; the first deposit is
    answered, the answer to the second is lost. *)
Definition relay_db : Db.t :=
  Db.mk [new_row demo_conv (bstr "bob") (bstr "wss://r") (Some demo_id) (Some (bstr "in")) 1000]
        (Db.messages two_pending) true.

Definition later_env : Env := mkEnv demo_clk demo_clk 425 (replicate 16 4) 130 140.

Definition relay_line : Platform := relay_platform (bstr "https://r") (V4 [10; 0; 0; 1]) (Response.plain 413) (fun _ => "status"%string).

Definition relay_engine : @Engine.t relay_line :=
  @Engine.mk relay_line (toy_keys (bstr "ana")) relay_db
    (RelayWorld.mk demo_relay 100 [Answered demo_env []; AnswerLost later_env []] [] 1000)
    (bstr "wss://mine") toy_profile true true [] ∅ ∅ ∅ ∅ None.

Lemma relay_db_ok : db_ok relay_db.
Proof.
  split; [by_compute|by_compute| |apply two_pending_ok].
  constructor; [|constructor]. unfold conv_row_ok, in_u32. by_compute.
Qed.

Lemma demo_ids16 : ids16 demo_relay.
Proof. unfold ids16, demo_relay. simpl. apply map_Forall_singleton. constructor. Qed.

(** A library whose ciphertexts are [n] bytes longer than the plaintext. *)
Lemma expansion_fits `{SqlText} `{LibSignal} `{RatchetLib} cfg peer profile n :
  PaddingProfile.wf profile ->
  (forall local m ty c k k', message_encrypt peer local m k = (Ok (ty, c), k') -> c <> [] /\ zlen c <= zlen m + n) ->
  Forall (fun b => b + n + OUTER_HEADER_LEN <= Config.max_blob_bytes cfg) (PaddingProfile.buckets profile) ->
  fits cfg peer profile.
Proof.
  intros Hwf Hn Hb f k w k' (p & local & ty & c & kind & Hp & _ & (Hc & Hl)%Hn & -> & _)%encrypt_inv.
  apply inner_encode_parse in Hp as [_ Hin]; [|done]. rewrite Forall_forall in Hb. apply Hb in Hin.
  split; [|by apply encoded_admissible]. unfold Envelope.encode, OUTER_HEADER_LEN in *.
  cbn [Envelope.ciphertext Envelope.kind]. rewrite !zlen_app. change (zlen MAGIC) with 4. zlen_lia.
Qed.

Lemma toy_fits : fits Config.default (bstr "bob") toy_profile.
Proof.
  apply (expansion_fits _ _ _ 1 toy_profile_wf).
  - intros local m ty c k k' [= <- <- _]. split; [done|]. zlen_lia.
  - by_compute.
Qed.

Lemma outbox_to_mailbox_witness :
  exists rest ms, pending_chat (Engine.db (flush_pending demo_conv relay_engine).2) demo_conv = Ok rest /\
    length rest = 1%nat /\ length ms = 2%nat /\
    box_queue (relay_of _ _ _ _ (flush_pending demo_conv relay_engine).2) demo_id = Some ms.
Proof.
  assert (Hp : (length <$> pending_chat (Engine.db (flush_pending demo_conv relay_engine).2) demo_conv) = Ok 1%nat)
    by (vm_cast_no_check (eq_refl (@Ok CoreError nat 1%nat))).
  assert (Hb : (length <$> box_queue (relay_of _ _ _ _ (flush_pending demo_conv relay_engine).2) demo_id) = Some 2%nat)
    by (vm_cast_no_check (eq_refl (Some 2%nat))).
  destruct (flush_pending demo_conv relay_engine) as [r s'] eqn:E. cbn [snd] in *.
  assert (Ho : online (bstr "https://r") (V4 [10; 0; 0; 1]) (Response.plain 413) (fun _ => "status"%string) demo_id
                 Config.default toy_profile relay_engine []).
  { split; [|split; [reflexivity|split; reflexivity]]. split; [exact demo_relay_Inv|]. split; [exact demo_ids16|].
    simpl. split_and!; by_compute. }
  destruct (outbox_to_mailbox (bstr "https://r") (V4 [10; 0; 0; 1]) (Response.plain 413) (fun _ => "status"%string)
    demo_conv demo_id (Conversation.mk demo_conv (bstr "bob") (bstr "wss://r") (Some demo_id) (Some (bstr "in")) None)
    Config.default toy_profile relay_engine s' [] r relay_db_ok eq_refl eq_refl eq_refl eq_refl toy_fits Ho E)
    as (sent & rest & ms & k & _ & Hrest & _).
  destruct (box_queue _ demo_id) as [q|] eqn:Eq; [|discriminate Hb]. injection Hb as Hb.
  exists rest, q. split; [exact Hrest|]. split; [|split; [exact Hb|reflexivity]].
  change (pending_chat (Engine.db s') demo_conv = Ok rest) in Hrest. rewrite Hrest in Hp. by injection Hp as ->.
Defined.
