(* ===== verification/EngineDeliver.v ===== *)
(** From one engine's outbox to the other's history: what a flush left in the
    mailbox is replayed to the peer's subscription, its listener stores each
    message and acks it, and the acks empty the mailbox. *)

From S2P Require Import Prelude Errors Utf8 Config Envelope Base64 Cursor Pairing Recovery Storage Keys.
From S2P Require Import RelayWire RelayConfig RelayLimits RelayState RelayApi RelayConc.
From S2P Require Import Transport Backoff Session Engine EngineDemo EngineRuns EngineSend EngineListen EndToEnd EngineRelay.

(** ** The receiver *)

Section receiving.
Context `{Platform} `{SqlText} `{LibSignal} `{RatchetLib} `{!Crypto}.

(** The next [n] messages meet a store that works and new message ids. *)
Fixpoint draws_ok (n : nat) (w : World) (used : list bytes) : Prop :=
  match n with
  | O => True
  | S n =>
    let '(fault, w0) := store_fault w in
    let '(id, w1) := random_bytes 16 w0 in
    let '(_, w2) := system_secs w1 in
    let '(fault', w3) := store_fault w2 in
    fault = None /\ length id = 16%nat /\ (id ∉ used) /\ fault' = None /\ draws_ok n w3 (used ++ [id])
  end.

(** What a delivery frame off the socket is to the listener. *)
Definition delivered (frame : bytes) : linput := SubNext (Some <$> parse_delivery frame).

(** A stored conversation of an engine that can take [n] more messages. *)
Record ready (conv : bytes) (profile : PaddingProfile.t) (n : nat) (s : Engine.t) : Prop := {
  rd_db : db_ok (Engine.db s);
  rd_conv : length conv = 16%nat;
  rd_row : is_Some (conv_row (Engine.db s) conv);
  rd_profile : Engine.profile s = profile;
  rd_draws : draws_ok n (Engine.world s) (MsgRow.id <$> Db.messages (Engine.db s))
}.

(** A row of the history that shows a frame of the peer. *)
Definition shows (f : InnerFrame.t) (m : StoredMessage.t) : Prop :=
  StoredMessage.direction m = Storage.Incoming /\ StoredMessage.body m = InnerFrame.payload f.

(** One delivery: stored, shown, acked. *)
Lemma receive_one conv convo b profile n s id wire f k :
  ready conv profile (S n) s -> InnerFrame.payload_type f = Chat -> inner_frame_ok f -> length id = 16%nat ->
  decrypt_message (Conversation.peer_address convo) wire profile (Engine.keys s) = (Ok f, k) ->
  exists m s' old row, listener_step conv (LWait convo, b) (delivered (delivery_frame id wire)) = Some m /\
    m s = (Ok (LWait convo, b), s') /\ ready conv profile n s' /\ Engine.keys s' = k /\
    list_messages (Engine.db s) conv = Ok old /\ list_messages (Engine.db s') conv = Ok (old ++ [row]) /\
    shows f row /\ acks (Engine.log s') = acks (Engine.log s) ++ [id].
Proof.
  intros [Hd Hc Hr Hp Hw] Hf Hok Hid E. simpl in Hw.
  destruct (store_fault (Engine.world s)) as [fault w0] eqn:Ef. destruct (random_bytes 16 w0) as [mid w1] eqn:Er.
  destruct (system_secs w1) as [now w2] eqn:Es. destruct (store_fault w2) as [fault' w3] eqn:Ef'.
  destruct Hw as (-> & Hmid & Hfresh & -> & Hw).
  assert (Hi : can_insert (Engine.db s) mid conv f).
  { unfold can_insert. split_and!; try done; destruct Hok as [Hv _]; unfold byte_ok in Hv; lia. }
  rewrite <- Hp in E.
  destruct (incoming_chat conv f (Engine.with_world (Engine.with_keys s k) w0) _ _ _ _ _ Hf Er Es Ef' Hd Hi)
    as (s1 & old & row & Hh & Ho & Hl & -> & Hlog & Hd1 & Hcs & Hms & Hk & Hw1 & Hp1 & _ & _).
  unfold delivered. rewrite parse_delivery_frame by done. cbn [fmap result_fmap].
  eexists _, (Engine.push s1 (AckSent id)), old, _. split; [reflexivity|]. split.
  { unfold mbind, st_bind. rewrite incoming_eq, Ef, E. cbv beta iota zeta. rewrite Hh. reflexivity. }
  split_and!; try done.
  - split; simpl; try done; [unfold conv_row in *; simpl; by rewrite Hcs|by rewrite Hp1|]. rewrite Hw1, Hms. exact Hw.
  - simpl. rewrite Hlog. unfold acks. rewrite !omap_app. simpl.
    destruct (Engine.receiver s); simpl; by rewrite ?app_nil_r.
Qed.

(** A run of deliveries. *)
Lemma receive_all conv convo b profile receiver : forall ms fs ks ks' s,
  PaddingProfile.wf profile -> enciphered receiver profile ks fs (QueuedMsg.data <$> ms) ks' ->
  Forall (fun f => InnerFrame.payload_type f = Chat /\ inner_frame_ok f) fs ->
  Forall (fun m => length (QueuedMsg.id m) = 16%nat) ms ->
  in_step_for (length fs) ks (Engine.keys s) (Conversation.peer_address convo) receiver ->
  ready conv profile (length fs) s ->
  exists s' old shown,
    listener_run conv (LWait convo, b)
      (delivered <$> ((fun m => delivery_frame (QueuedMsg.id m) (QueuedMsg.data m)) <$> ms)) s
    = (Ok (LWait convo, b), s') /\
    list_messages (Engine.db s) conv = Ok old /\ list_messages (Engine.db s') conv = Ok (old ++ shown) /\
    Forall2 shows fs shown /\ acks (Engine.log s') = acks (Engine.log s) ++ (QueuedMsg.id <$> ms).
Proof.
  induction ms as [|m ms IH]; intros fs ks ks' s Hwf Hen Hfs Hids Hst Hr.
  - inversion Hen; subst. eexists s, _, []. rewrite app_nil_r.
    split; [done|]. split; [apply list_messages_Ok, Hr|]. split_and!; try done; [|by rewrite app_nil_r].
    apply list_messages_Ok, Hr.
  - rewrite fmap_cons in Hen. inversion Hen as [|? f ? ks1 fs' ? ? Hf Hen']; subst.
    apply Forall_cons in Hfs as [[Hc Hok] Hfs]. apply Forall_cons in Hids as [Hid Hids].
    destruct (decrypt_next _ _ _ _ _ _ _ _ _ Hwf Hst Hf) as (kr & Hd & Hst').
    destruct (receive_one conv convo b profile _ s (QueuedMsg.id m) _ f kr Hr Hc Hok Hid Hd)
      as (c & s1 & old & row & Hs & Hm & Hr1 & Hk & Ho & Hl & Hsh & Ha).
    destruct (IH fs' ks1 ks' s1 Hwf Hen' Hfs Hids) as (s2 & old1 & shown & Hrun & Ho1 & Hl1 & Hsh1 & Ha1);
      [by rewrite Hk|done|].
    exists s2, old, (row :: shown). rewrite !fmap_cons. cbn [listener_run]. rewrite Hs. unfold mbind, st_bind. rewrite Hm.
    split; [exact Hrun|]. split; [done|]. rewrite Hl1. assert (old1 = old ++ [row]) as -> by congruence.
    rewrite <- app_assoc. split_and!; [done|by constructor|]. rewrite Ha1, Ha. by rewrite <- app_assoc.
Qed.
End receiving.

(** ** The relay *)

(** The relay reads the acks of a subscriber, one after the other. *)
Fixpoint relay_acks (s : AppState.t) (box : bytes) (ids : list bytes) (now : Z) : run AppState.t :=
  match ids with
  | [] => Ok s
  | id :: r => '(_, s) ← handle_ack s box (ack_frame id) now; relay_acks s box r now
  end.

Lemma acks_empty box t p : forall ms s,
  Inv p t s -> box_queue s box = Some ms -> Forall (fun m => length (QueuedMsg.id m) = 16%nat) ms ->
  exists s', relay_acks s box (QueuedMsg.id <$> ms) t = Ok s' /\ box_queue s' box = Some [] /\ Inv p t s'.
Proof.
  induction ms as [|m ms IH]; intros s HI Hq Hids; [by exists s|].
  apply Forall_cons in Hids as [Hid Hids]. rewrite fmap_cons. cbn [relay_acks].
  destruct (handle_ack_ok p t s box (ack_frame (QueuedMsg.id m)) t HI ltac:(lia)) as (b & s1 & -> & HI1 & _ & Heff).
  rewrite (ack_is_read (acked := parse_ack_frame)) in Heff by done. destruct Heff as [_ Hq1]. rsimpl.
  apply IH; [done| |done]. rewrite Hq1, bool_decide_eq_true_2, Hq by done. simpl. by rewrite beq_refl.
Qed.

(** ** Both ends *)

Lemma in_step_for_le `{SqlText} `{LibSignal} `{RatchetLib} sender receiver : forall n m ks kr,
  (n <= m)%nat -> in_step_for m ks kr sender receiver -> in_step_for n ks kr sender receiver.
Proof.
  induction n as [|n IH]; intros [|m] ks kr Hle; simpl; try done; [lia|].
  intros (Hs & Hr & Hn). split_and!; [done..|]. intros plaintext ty c ks' Hm.
  destruct (Hn _ _ _ _ Hm) as (Hc & kr' & kind & Hd & Ht & Hi). split; [done|].
  exists kr', kind. split_and!; [done..|]. apply (IH m); [lia|done].
Qed.

Lemma ready_le `{Platform} conv profile s n m : (n <= m)%nat -> ready conv profile m s -> ready conv profile n s.
Proof.
  intros Hle [Hd Hc Hr Hp Hw]. split; try done. clear Hd Hr Hp. revert Hw Hle.
  generalize (MsgRow.id <$> Db.messages (Engine.db s)). generalize (Engine.world s).
  revert m. induction n as [|n IH]; intros [|m] w used Hw Hle; try done; [lia|]. simpl in *.
  destruct (store_fault w) as [fault w0]. destruct (random_bytes 16 w0) as [id w1].
  destruct (system_secs w1) as [now w2]. destruct (store_fault w2) as [fault' w3].
  destruct Hw as (? & ? & ? & ? & Hw). split_and!; [done..|]. apply (IH m); [done|lia].
Qed.

Lemma enciphered_length `{SqlText} `{LibSignal} `{RatchetLib} peer profile k fs ws k' :
  enciphered peer profile k fs ws k' -> length ws = length fs.
Proof. induction 1; simpl; congruence. Qed.

(** C12: what one side sends the other shows.  A flush over the relay that
    succeeds, into an empty mailbox; the peer then subscribes, and its listener
    is given what the relay replays, in order; the sessions are in step for
    that many messages.  Then the messages that left the outbox are exactly
    those added to the peer's history, each once, in order and as incoming,
    and the acks of the listener leave the mailbox empty; the rest is still in
    the outbox. *)
Theorem chats_arrive `{PB : Platform} `{SqlText} `{LibSignal} `{RatchetLib} `{!Crypto}
    (origin : bytes) (ip : IpAddr) (too_large : Response.t) (show : Z -> string)
    (convA convB box : bytes) (convoA convoB : Conversation.t) (cfg : Config.t) (profile : PaddingProfile.t)
    (sA sA' : @Engine.t (relay_platform origin ip too_large show)) (sB : @Engine.t PB)
    (p : list (bytes * InnerFrame.t)) (b : BackoffSchedule.t) (tx : nat) (t : Z) :
  db_ok (Engine.db sA) -> get_conversation (Engine.db sA) convA = Ok (Some convoA) ->
  Conversation.mailbox_send convoA = Some box -> mailbox_id_shape_ok box = true ->
  to_http (Conversation.relay_url convoA) = origin -> fits cfg (Conversation.peer_address convoA) profile ->
  online origin ip too_large show box cfg profile sA [] -> PaddingProfile.wf profile ->
  pending_chat (Engine.db sA) convA = Ok p ->
  Forall (fun x => InnerFrame.payload_type x.2 = Chat /\ inner_frame_ok x.2) p ->
  flush_pending convA sA = (Ok tt, sA') ->
  in_step_for (length p) (Engine.keys sA) (Engine.keys sB)
    (Conversation.peer_address convoB) (Conversation.peer_address convoA) ->
  ready convB profile (length p) sB -> RelayWorld.now (Engine.world sA') <= t ->
  exists sent rest sel app1 frames sB' old shown app2,
    p = sent ++ rest /\ pending_chat (Engine.db sA') convA = Ok rest /\
    drive (3 + length sent) (relay_of origin ip too_large show sA') tx (Conn.mk box 0%nat PRegister []) t
    = Some (Ok (Some (Conn.mk box 0%nat (PSelect sel) frames), app1)) /\
    listener_run convB (LWait convoB, b) (delivered <$> frames) sB = (Ok (LWait convoB, b), sB') /\
    list_messages (Engine.db sB) convB = Ok old /\ list_messages (Engine.db sB') convB = Ok (old ++ shown) /\
    Forall2 shows sent.*2 shown /\
    relay_acks app1 box (drop (length (acks (Engine.log sB))) (acks (Engine.log sB'))) t = Ok app2 /\
    box_queue app2 box = Some [].
Proof.
  intros Hd Hc Hm Hs Hu Hf Ho Hwf Hp Hchat E Hst Hr Ht.
  destruct (flush_relayed _ _ _ _ _ _ _ _ _ _ _ _ _ _ Hc Hp Hm Hs Hu Hf Ho E)
    as (sent & rest & ms & k & -> & Hdb & Hen & (HI & H16 & _) & Haft).
  assert (Hdb' : Engine.db sA' = mark_all sent.*1 (Engine.db sA)) by exact Hdb.
  assert (Hp1 : pending_chat (Engine.db sA') convA = Ok rest) by (rewrite Hdb'; by apply mark_prefix).
  destruct Haft as [Hq|(? & ? & ? & ? & _ & _ & _ & [=])]. simpl in Hq.
  pose proof (enciphered_length _ _ _ _ _ _ Hen) as Hlen. rewrite length_fmap, length_fmap in Hlen.
  unfold box_queue in Hq. destruct (AppState.boxes _ !! box) as [mb|] eqn:Hb; [|done]. injection Hq as Hq.
  assert (Hids : Forall (fun m => length (QueuedMsg.id m) = 16%nat) ms) by (rewrite <- Hq; by apply (H16 box)).
  destruct (drive_replay _ box tx mb t H16 Hb) as (sel & app1 & Hdrive & Hq1 & _ & Happ1).
  rewrite Hq in Hdrive, Hq1. rewrite Hlen in Hdrive.
  assert (HI1 : Inv 0 t app1) by (rewrite Happ1; by eapply register_ok).
  rewrite length_app in Hst, Hr. apply Forall_app in Hchat as [Hchat _].
  destruct (receive_all convB convoB b profile (Conversation.peer_address convoA) ms sent.*2 _ k sB Hwf Hen)
    as (sB' & old & shown & Hrun & Hold & Hnew & Hsh & Ha).
  { by apply Forall_fmap. }
  { done. }
  { rewrite length_fmap. eapply in_step_for_le; [|exact Hst]. lia. }
  { rewrite length_fmap. eapply ready_le; [|exact Hr]. lia. }
  destruct (acks_empty box t 0 ms app1 HI1 Hq1 Hids) as (app2 & Hacks & Hempty & _).
  eexists sent, rest, sel, app1, _, sB', old, shown, app2. split_and!; [done|done|exact Hdrive|exact Hrun|done..| |done].
  rewrite Ha, drop_app_length. exact Hacks.
Qed.

(** A ratchet that passes plaintext through stays in step. *)
Lemma toy_in_step_for sender receiver : forall n ks kr,
  local_protocol_address ks = (Ok sender, ks) -> local_protocol_address kr = (Ok receiver, kr) ->
  in_step_for n ks kr sender receiver.
Proof.
  induction n as [|n IH]; intros ks kr Hs Hr; [done|]. split_and!; [done..|].
  intros m ty c ks' [= <- <- <-]. split; [done|]. exists kr, Ratchet. split_and!; try done.
  apply IH; [|done]. revert Hs. unfold local_protocol_address, read_r, pure_r, mbind, st_bind. simpl.
  destruct (local_address ks) as [a| |] eqn:El; simpl; try done.
  assert (local_address (put_session ks receiver 1 (0 :: m)) = Ok a) as -> by exact El.
  by intros [= ->].
Qed.

Definition ana_engine : @Engine.t relay_line :=
  @Engine.mk relay_line (toy_keys (bstr "ana")) relay_db
    (RelayWorld.mk demo_relay 100 [Answered demo_env []; Answered later_env []] [] 1000)
    (bstr "wss://mine") toy_profile true true [] ∅ ∅ ∅ ∅ None.

Definition bob_db : Db.t :=
  Db.mk [new_row demo_conv (bstr "ana") (bstr "wss://mine") None (Some demo_id) 1000] [] true.

Definition bob_engine : @Engine.t relay_line :=
  @Engine.mk relay_line (toy_keys (bstr "bob")) bob_db
    (RelayWorld.mk demo_relay 100 [] [replicate 16 8; replicate 16 9] 2000)
    (bstr "wss://r") toy_profile true true [] ∅ ∅ ∅ ∅ None.

Lemma bob_ready : ready demo_conv toy_profile 2 bob_engine.
Proof.
  split; [|done|by eexists|done|].
  - split; [by_compute|by_compute| |constructor].
    constructor; [|constructor]. unfold conv_row_ok, in_u32. by_compute.
  - by_compute.
Qed.

Lemma ana_online :
  online (bstr "https://r") (V4 [10; 0; 0; 1]) (Response.plain 413) (fun _ => "status"%string) demo_id
    Config.default toy_profile ana_engine [].
Proof.
  split; [|split; [reflexivity|split; reflexivity]]. split; [exact demo_relay_Inv|]. split; [exact demo_ids16|].
  simpl. split_and!; by_compute.
Qed.

Definition ana_convo : Conversation.t :=
  Conversation.mk demo_conv (bstr "bob") (bstr "wss://r") (Some demo_id) (Some (bstr "in")) None.
Definition bob_convo : Conversation.t :=
  Conversation.mk demo_conv (bstr "ana") (bstr "wss://mine") None (Some demo_id) None.

Lemma ana_flush : exists s', flush_pending demo_conv ana_engine = (Ok tt, s') /\
  RelayWorld.now (Engine.world s') <= 200 /\ pending_chat (Engine.db s') demo_conv = Ok [].
Proof.
  exists (flush_pending demo_conv ana_engine).2.
  assert (Hr : (flush_pending demo_conv ana_engine).1 = Ok tt) by (vm_cast_no_check (eq_refl (@Ok CoreError unit tt))).
  split; [rewrite <- Hr; by destruct (flush_pending demo_conv ana_engine)|]. split.
  - assert (E : RelayWorld.now (Engine.world (flush_pending demo_conv ana_engine).2) = 140)
      by (vm_cast_no_check (eq_refl 140)). rewrite E. lia.
  - vm_cast_no_check (eq_refl (@Ok CoreError (list (bytes * InnerFrame.t)) [])).
Qed.

(** Ana flushes two messages to Bob's mailbox, both deposits are answered, and
    Bob's listener is given the two frames. *)
Lemma chats_arrive_witness :
  exists frames sB' shown,
    listener_run demo_conv (LWait bob_convo, BackoffSchedule.new 7) (delivered <$> frames) bob_engine
    = (Ok (LWait bob_convo, BackoffSchedule.new 7), sB') /\
    list_messages (Engine.db sB') demo_conv = Ok shown /\ StoredMessage.body <$> shown = [bstr "hi"; bstr "you"].
Proof.
  destruct ana_flush as (s' & E & Hnow & Hrest).
  destruct (chats_arrive (bstr "https://r") (V4 [10; 0; 0; 1]) (Response.plain 413) (fun _ => "status"%string)
    demo_conv demo_conv demo_id ana_convo bob_convo Config.default toy_profile ana_engine s' bob_engine
    [(replicate 16 1, InnerFrame.chat_v1 (bstr "hi")); (replicate 16 2, InnerFrame.chat_v1 (bstr "you"))]
    (BackoffSchedule.new 7) 5%nat 200 relay_db_ok eq_refl eq_refl eq_refl eq_refl toy_fits ana_online toy_profile_wf eq_refl)
    as (sent & rest & sel & app1 & frames & sB' & old & shown & app2 & Hp & Hr & _ & Hrun & Ho & Hn & Hs & _);
    [by_compute|exact E|apply toy_in_step_for; reflexivity|exact bob_ready|exact Hnow|].
  change (pending_chat (Engine.db s') demo_conv = Ok rest) in Hr. rewrite Hr in Hrest. injection Hrest as ->.
  rewrite app_nil_r in Hp. subst sent.
  exists frames, sB', shown. split; [exact Hrun|]. injection Ho as <-. split; [exact Hn|].
  inversion Hs as [|? m1 ? ? [_ H1] Hs1]; subst. inversion Hs1 as [|? m2 ? ? [_ H2] Hs2]; subst.
  inversion Hs2; subst. simpl. by rewrite H1, H2.
Defined.
