(* ===== verification/EnginePairRelay.v ===== *)
(** Pairing over the relay: an offer is exported, scanned, answered and
    completed by two engines whose network is the relay of [RelayApi].  The
    frames each side is handed are those the relay replays on its inbox. *)

From S2P Require Import Prelude Errors Utf8 Config Envelope Base64 Cursor Pairing Recovery Storage Keys.
From S2P Require Import RelayWire RelayConfig RelayLimits RelayState RelayApi RelayConc.
From S2P Require Import Transport Session Engine EngineDemo EngineRuns EnginePair EndToEnd EngineRelay EngineDeliver.

(** ** Requests of a client to the relay *)

(** The relay is well formed, its configuration and every mailbox but [x] are
    as they were. *)
Definition touched (x : bytes) (w w' : RelayWorld.t) : Prop :=
  world_ok w' /\ AppState.cfg (RelayWorld.app w') = AppState.cfg (RelayWorld.app w) /\
  forall b, b <> x -> box_queue (RelayWorld.app w') b = box_queue (RelayWorld.app w) b.

Lemma touched_same x w w' :
  RelayWorld.app w' = RelayWorld.app w -> world_ok w' -> touched x w w'.
Proof. intros E Hw. split; [done|]. by rewrite E. Qed.

Lemma route_delete id body ip draws :
  mailbox_id_shape_ok id = true ->
  route DELETE (bstr "/v1/mailboxes/" ++ id) body ip draws = Some (DeleteMailbox id).
Proof.
  intros Hs. unfold route. change (bstr "/v1/mailboxes/" ++ id) with (bstr "/v1/mailboxes" ++ (47 :: id)).
  rewrite strip_prefix_app. rsimpl. rewrite <- (app_nil_r id) at 1.
  rewrite (split_once_skip 47 [] id []) by by apply slash_not_base64. done.
Qed.

Section requests.
Variables (origin : bytes) (ip : IpAddr) (too_large : Response.t) (show : Z -> string).

#[local] Instance wire_line : Platform := relay_platform origin ip too_large show.

(** A creation the client learned of made a new, empty mailbox. *)
Lemma relay_create relay_url (w : World) id (w' : World) :
  to_http relay_url = origin -> world_ok w -> http_create_mailbox relay_url w = (Ok id, w') ->
  touched id w w' /\ mailbox_id_shape_ok id = true /\
  box_queue (RelayWorld.app w) id = None /\ box_queue (RelayWorld.app w') id = Some [].
Proof.
  intros Hu (HI & H16 & Hf). destruct w as [app now fates dr secs]. simpl in HI, H16, Hf.
  unfold http_create_mailbox, call, mbind, st_bind. cbn [http_send wire_line relay_platform]. unfold relay_send.
  destruct fates as [|f rest]; [done|]. destruct f as [|e d|e d]; simpl in Hf; [done|..];
    destruct Hf as ([He Hm] & Hd & Hr); rewrite Hu, strip_prefix_app; rsimpl;
    assert (Hroute : route POST (bstr "/v1/mailboxes") [] ip d = Some (PostMailboxes ip d)) by reflexivity;
    rewrite Hroute; rsimpl; unfold router.
  2: { destruct (RelayApi.create_mailbox app ip e d (activity_now e)) as [[[]]| |]; by rsimpl. }
  assert (Hle : now <= activity_now e) by lia.
  destruct (create_handler_ok 0 now app ip e d HI Hle) as (o & app' & E & HI'). rewrite E. rsimpl.
  unfold RelayApi.create_mailbox in E.
  destruct (SourceLimiter.admit_create _ _ _) as [[b l]| |]; rsimpl; [|done..]. revert E. rsimpl.
  destruct (negb b); [destruct (too_many_requests_Ok (unix_secs e)) as [v ->]; rsimpl; by intros [= <- <-]|].
  unfold AppState.create_mailbox. destruct (_ <=? _); [by intros [= <- <-]|].
  destruct (AppState.create_loop _ d _) as [[id' s']|] eqn:El; rsimpl; [|by intros [= <- <-]].
  intros [= <- <-]. apply create_loop_spec in El as (Hn & -> & raw & Hraw & ->).
  assert (Hs : mailbox_id_shape_ok (encode_mailbox_id raw) = true)
    by (apply encoded_shape_ok; by apply (proj1 (Forall_forall _ _) Hd)).
  cbn [map_err Response.status Response.body]. unfold pure_r. rsimpl. rewrite created_json_id by done. rsimpl.
  intros [= <- <-]. simpl in Hn.
  split; [split_and!; try done|].
  - split; [done|]. split; [|done]. unfold ids16. simpl. by apply map_Forall_insert_2; [constructor|].
  - intros b' Hb'. unfold box_queue. simpl. by rewrite lookup_insert_ne.
  - split; [done|]. unfold box_queue. simpl. by rewrite Hn, lookup_insert_eq.
Qed.

(** A deletion concerns its mailbox only, whatever becomes of the request. *)
Lemma relay_delete relay_url id (w : World) r (w' : World) :
  to_http relay_url = origin -> mailbox_id_shape_ok id = true -> world_ok w ->
  http_delete_mailbox relay_url id w = (r, w') -> touched id w w'.
Proof.
  intros Hu Hs (HI & H16 & Hf). destruct w as [app now fates dr secs]. simpl in HI, H16, Hf.
  unfold http_delete_mailbox, call, mbind, st_bind. cbn [http_send wire_line relay_platform]. unfold relay_send.
  destruct fates as [|f rest]; [intros [= <- <-]; by apply touched_same|].
  assert (Hkeep : forall e, now <= activity_now e -> fates_ok (activity_now e) rest ->
    touched id (RelayWorld.mk app now (f :: rest) dr secs)
      (RelayWorld.mk (RelayApi.delete_mailbox app id).2 (activity_now e) rest dr secs)).
  { intros e Hle Hr. assert (Hb : AppState.boxes (RelayApi.delete_mailbox app id).2 = delete id (AppState.boxes app) /\
      AppState.cfg (RelayApi.delete_mailbox app id).2 = AppState.cfg app).
    { unfold RelayApi.delete_mailbox. rewrite Hs. simpl. by destruct (AppState.boxes app !! id). }
    destruct Hb as [Hb Hc]. split_and!; [|done|].
    - split_and!; [|by unfold ids16; cbn [RelayWorld.app]; rewrite Hb; apply map_Forall_delete|done].
      cbn [RelayWorld.app RelayWorld.now]. eapply Inv_mono; [exact Hle|]. by apply delete_handler_ok.
    - intros b Hne. unfold box_queue. cbn [RelayWorld.app]. by rewrite Hb, lookup_delete_ne. }
  destruct f as [|e d|e d]; simpl in Hf;
    [intros [= <- <-]; by apply touched_same|..];
    destruct Hf as ([He _] & _ & Hr); rewrite Hu, strip_prefix_app; rsimpl; rewrite route_delete by done;
    unfold router; specialize (Hkeep e ltac:(lia) Hr); destruct (RelayApi.delete_mailbox app id) as [resp app'];
    rsimpl; by intros [= <- <-].
Qed.
End requests.

(** ** An honest answer is not taken for a forged one *)

Section burning.
Context `{Platform} `{SqlText} `{LibSignal} `{RatchetLib} `{!Crypto}.

(** A computation that does not report a failed proof of scan. *)
Definition no_burn {S A} (m : st S A) : Prop := forall s s', m s <> (Err ProofOfScanFailed, s').

Lemma no_burn_bind {S A B} (m : st S A) (f : A -> st S B) :
  no_burn m -> (forall a, no_burn (f a)) -> no_burn (m ≫= f).
Proof.
  intros Hm Hf s s'. unfold mbind, st_bind. specialize (Hm s). destruct (m s) as [[a|e|] s1]; [apply Hf| |done].
  intros [= -> ->]. by apply (Hm s').
Qed.

Lemma no_burn_pure {S A} (r : Result A) : r <> Err ProofOfScanFailed -> no_burn (S := S) (pure_r r).
Proof. intros Hr s s' [= E _]. by apply Hr. Qed.

Lemma no_burn_zoom {S T A} (get : S -> T) (put : S -> T -> S) (m : st T A) : no_burn m -> no_burn (zoom get put m).
Proof. intros Hm s s'. unfold zoom. specialize (Hm (get s)). destruct (m _) as [r t]. intros [= -> _]. by apply (Hm t). Qed.

Lemma no_burn_ignore {A} (m : st Engine.t A) : no_burn (ignore m).
Proof. intros s s'. rewrite ignore_eq. by destruct (m s) as [[]]. Qed.

Lemma no_burn_store {A} (m : st Engine.t A) : no_burn m -> no_burn (store_call m).
Proof. intros Hm s s'. unfold store_call. destruct (store_fault _) as [[text|] w]; [done|]. apply Hm. Qed.

Lemma no_burn_db {A} (f : Db.t -> Result (A * Db.t)) : (forall d, f d <> Err ProofOfScanFailed) -> no_burn (on_db f).
Proof.
  intros Hf. apply no_burn_store. intros s s'. specialize (Hf (Engine.db s)). destruct (f _) as [[]| |]; naive_solver.
Qed.

Lemma no_burn_call m url body : no_burn (call m url body).
Proof. intros w w'. unfold call. destruct (http_send _ _ _ _) as [[] ?]; naive_solver. Qed.

Lemma no_burn_lib {A} (f : Keys.t -> SignalResult A * Keys.t) : no_burn (lib f).
Proof. intros k k'. unfold lib. destruct (f k) as [[|[]|] ?]; naive_solver. Qed.

Lemma burn_bind {A B} (r : Result A) (f : A -> Result B) :
  r <> Err ProofOfScanFailed -> (forall a, f a <> Err ProofOfScanFailed) -> (r ≫= f) <> Err ProofOfScanFailed.
Proof. intros Hr Hf. destruct r as [a|e|]; [apply Hf| |done]. intros [= ->]. by apply Hr. Qed.

Lemma no_burn_create : no_burn create_mailbox.
Proof.
  unfold create_mailbox. apply no_burn_bind; [by intros ? ?|]. intros s. apply no_burn_zoom.
  unfold http_create_mailbox. apply no_burn_bind; [apply no_burn_call|]. intros [status body].
  apply no_burn_bind; [apply no_burn_pure; by destruct (status =? 201)|]. intros _.
  apply no_burn_bind; [apply no_burn_pure; by destruct body|]. intros text.
  apply no_burn_pure. by destruct (mailbox_id_of_body text).
Qed.

Lemma no_burn_conversation peer relay send recv : no_burn (new_conversation peer relay send recv).
Proof.
  unfold new_conversation, random, sql_now. apply no_burn_bind; [apply no_burn_zoom; intros w w'; by destruct (random_bytes _ _)|].
  intros id. apply no_burn_bind; [apply no_burn_zoom; intros w w'; by destruct (unixepoch _)|]. intros now.
  apply no_burn_db. intros d. unfold create_routed_conversation, insert_conv. by destruct (conv_row _ _).
Qed.

Lemma encode_burn f profile : InnerFrame.encode f profile <> Err ProofOfScanFailed.
Proof.
  unfold InnerFrame.encode, PaddingProfile.max_payload.
  repeat first [ apply burn_bind; [|intros ?] | done
               | match goal with |- ok_or ?x _ <> _ => by destruct x | |- expect ?x <> _ => by destruct x
                               | |- ensure ?x _ <> _ => by destruct x end ].
Qed.

Lemma address_burn name device : address name device <> Err ProofOfScanFailed.
Proof. unfold address, device_id. apply burn_bind; [|done]. by destruct (match _ with Some _ => _ | None => _ end). Qed.

Lemma no_burn_encrypt peer f : no_burn (encrypt peer f).
Proof.
  unfold encrypt. apply no_burn_bind; [by intros ? ?|]. intros s. apply no_burn_store, no_burn_zoom. unfold encrypt_message.
  apply no_burn_bind; [apply no_burn_pure, encode_burn|]. intros plaintext.
  apply no_burn_bind; [apply no_burn_pure, address_burn|]. intros remote.
  apply no_burn_bind.
  { unfold local_protocol_address. apply no_burn_bind; [|intros a; apply no_burn_pure, address_burn].
    intros k k'. unfold read_r, local_address, local_row, query_row. by destruct (Keys.local_identity k). }
  intros local. apply no_burn_bind; [apply no_burn_lib|]. intros [ty c].
  apply no_burn_bind; [apply no_burn_pure; by destruct ty|]. intros kind. by intros ? ?.
Qed.

Lemma burnt_bind {S A B} (m : st S A) (f : A -> st S B) s s' :
  (m ≫= f) s = (Err ProofOfScanFailed, s') ->
  m s = (Err ProofOfScanFailed, s') \/ exists a s1, m s = (Ok a, s1) /\ f a s1 = (Err ProofOfScanFailed, s').
Proof. unfold mbind, st_bind. destruct (m s) as [[a|e|] s1]; naive_solver. Qed.

(** Past a proof that verifies, nothing reports a failed one. *)
Lemma verified_no_burn inbox secret envelope s peer body ack k s' :
  decrypt_setup_from_unknown envelope (Engine.profile s) (Engine.keys s) = (Ok (peer, pair_ack_frame body), k) ->
  parse_pair_ack_v2 body = Ok ack ->
  verify_proof_of_scan mac_finalize secret (PairAckV2.responder_bundle ack) (PairAckV2.root_contribution ack)
    (PairAckV2.proof ack) = Ok tt ->
  handle_pair_ack_v2 inbox secret envelope s <> (Err ProofOfScanFailed, s').
Proof.
  intros Hd Hp Hv E. unfold handle_pair_ack_v2 in E.
  apply burnt_bind in E as [[=]|(? & ? & [= <- <-] & E)].
  apply burnt_bind in E as [E|(x & s1 & (k' & wk & _ & E1 & ->)%on_keys_Ok & E)];
    [unfold on_keys, store_call, zoom in E; destruct (store_fault _) as [[text|] w]; [done|];
     cbn [Engine.keys Engine.with_world] in E; by rewrite Hd in E|].
  rewrite Hd in E1. injection E1 as <- <-. cbn [pair_ack_frame InnerFrame.payload_type InnerFrame.type_version] in E.
  rewrite bool_decide_eq_true_2 in E by done. cbn [andb negb PAIR_ACK_V2 Z.eqb Pos.eqb InnerFrame.payload] in E.
  apply burnt_bind in E as [[= E _]|(x & ? & [= Hx <-] & E)]; [congruence|].
  assert (x = ack) as -> by congruence.
  apply burnt_bind in E as [[= E _]|([] & ? & [= _ <-] & E)]; [congruence|].
  match type of E with ?m ?s = _ => assert (Hm : no_burn m); [|by apply (Hm _ _ E)] end.
  clear. apply no_burn_bind; [apply no_burn_create|]. intros recv.
  apply no_burn_bind; [apply no_burn_conversation|]. intros conv.
  apply no_burn_bind; [apply no_burn_zoom; intros w w'; by destruct (random_bytes _ _)|]. intros own.
  apply no_burn_bind; [by apply no_burn_db|]. intros _.
  apply no_burn_bind; [apply no_burn_pure; unfold derive_root, hmac_sha256, slice; by destruct (_ && _)|]. intros root.
  apply no_burn_bind; [by apply no_burn_db|]. intros _.
  apply no_burn_bind; [apply no_burn_ignore|]. intros _.
  apply no_burn_bind; [by intros ? ?|]. intros s.
  apply no_burn_bind.
  { apply no_burn_pure. unfold encode_mailbox_update_v2, put_bytes. by destruct (try_from_max _ _). }
  intros update. apply no_burn_bind; [apply no_burn_encrypt|]. intros wire.
  apply no_burn_bind.
  { apply no_burn_zoom. unfold http_deposit. apply no_burn_bind; [apply no_burn_call|]. intros []. by intros ? ?. }
  intros o. apply no_burn_bind; [|by intros _ ? ?]. by intros ? ?.
Qed.
End burning.

(** ** The steps of a pairing, at the relay *)

(** Two stored conversations of a finished pairing: crossed routing, opposite
    roles, each side's contribution known to the other, one recovery root. *)
Definition matched `{Platform} `{SqlText} `{LibSignal} `{RatchetLib} `{!Crypto}
    (sA : Engine.t) (relayA convA peerB : bytes) (sB : Engine.t) (relayB convB peerA : bytes) : Prop :=
  exists rowA rowB root recvA recvB ownA ownB,
    half_paired sA convA peerB recvA ownA ROLE_OFFERER rowA /\
    half_paired sB convB peerA recvB ownB ROLE_RESPONDER rowB /\
    ConvRow.mailbox_send rowA = Some recvB /\ ConvRow.mailbox_send rowB = Some recvA /\
    ConvRow.relay_url rowA = relayB /\ ConvRow.relay_url rowB = relayA /\
    ConvRow.recovery_peer_contrib rowA = Some ownB /\ ConvRow.recovery_peer_contrib rowB = Some ownA /\
    ConvRow.recovery_root rowA = Some root /\ ConvRow.recovery_root rowB = Some root /\
    derive_root mac_finalize ownA ownB = Ok root.

Section steps.
Context `{SqlText} `{LibSignal} `{RatchetLib} `{!Crypto}.
Variables (origin : bytes) (ip : IpAddr) (too_large : Response.t) (show : Z -> string).

#[local] Instance shared : Platform := relay_platform origin ip too_large show.

(** An engine goes on with the relay as others left it. *)
Definition visits (app : AppState.t) (now : Z) (s : Engine.t) : Engine.t :=
  Engine.with_world s (RelayWorld.mk app now (RelayWorld.fates (Engine.world s)) (RelayWorld.draws (Engine.world s))
                         (RelayWorld.secs (Engine.world s))).

Definition clock_of (s : Engine.t) : Z := RelayWorld.now (Engine.world s).

(** A client of this relay. *)
Definition client_of (profile : PaddingProfile.t) (s : Engine.t) : Prop :=
  utf8_valid (Engine.my_relay s) = true /\ to_http (Engine.my_relay s) = origin /\ Engine.profile s = profile.

Lemma local_quiet (w w' : World) :
  rtc local_step w w' -> RelayWorld.app w' = RelayWorld.app w /\ RelayWorld.now w' = RelayWorld.now w /\
    RelayWorld.fates w' = RelayWorld.fates w /\ RelayWorld.secs w' = RelayWorld.secs w.
Proof.
  induction 1 as [|w w1 w' Hs _ (-> & -> & -> & ->)]; [done|].
  destruct Hs as [[n <-]|[<-|[<-|<-]]]; [|done..]. simpl. by destruct (RelayWorld.draws w).
Qed.

Lemma local_ok (w w' : World) : rtc local_step w w' -> world_ok w -> world_ok w'.
Proof. intros (Ha & Hn & Hf & _)%local_quiet. unfold world_ok. by rewrite Ha, Hn, Hf. Qed.

Lemma drawn_length n (w : World) b w' : random_bytes n w = (b, w') -> length b = n.
Proof.
  simpl. destruct (RelayWorld.draws w) as [|d r]; intros [= <- _]; [apply length_replicate|].
  rewrite length_take, length_app, length_replicate. lia.
Qed.

Lemma shape_inbox_ok id : mailbox_id_shape_ok id = true -> inbox_ok id.
Proof.
  intros [Hl Hf]%shape_ok_spec. split; [|unfold zlen; rewrite Hl; done].
  assert (Ha : Forall (fun b => 0 <= b <= 127) B64URL) by by_compute. rewrite Forall_forall in Ha.
  apply utf8_valid_ascii. eapply Forall_impl; [exact Hf|]. auto.
Qed.

(** An offer: a new inbox at the relay, empty. *)
Lemma offer_at_relay profile bundle s payload s' :
  client_of profile s -> world_ok (Engine.world s) -> export_offer bundle s = (Ok payload, s') ->
  exists inbox secret now key,
    touched inbox (Engine.world s) (Engine.world s') /\ mailbox_id_shape_ok inbox = true /\
    box_queue (RelayWorld.app (Engine.world s')) inbox = Some [] /\ length secret = 32%nat /\
    now = RelayWorld.secs (Engine.world s') /\
    encode_pairing_offer_v3 calculate_signature
      (OfferV3.mk bundle (Engine.my_relay s) inbox secret now OFFER_DEFAULT_TTL_S) key = Ok payload /\
    exists w, s' = Engine.push (Engine.with_world s w) (SpawnPairing inbox secret OFFER_DEFAULT_TTL_S).
Proof.
  intros (_ & Hu & _) Hw E.
  destruct (exported_offer _ _ _ _ E) as (inbox & w1 & secret & w2 & now & w3 & w4 & key & Hc & Hr & [= <- <-] & Hl & Henc & ->).
  destruct (relay_create _ _ _ _ _ _ _ _ Hu Hw Hc) as ((Hw1 & Hcfg & Hoth) & Hs & _ & Hq).
  assert (Hl4 : rtc local_step w1 w4) by (eapply rtc_l; [by eapply random_local|exact Hl]).
  destruct (local_quiet w1 w4 Hl4) as (Ha & _). destruct (local_quiet w2 w4 Hl) as (_ & _ & _ & Hsecs).
  exists inbox, secret, (RelayWorld.secs w2), key. cbn [Engine.push Engine.with_world Engine.world].
  unfold touched. rewrite Ha. split_and!; try done; [|by eapply drawn_length|by exists w4].
  by eapply local_ok.
Qed.

(** A responder that answered: its own inbox, new and empty, and its pair-ack
    alone in the inbox of the offer. *)
Lemma answer_at_relay profile payload s conv peer own s' offer :
  client_of profile s -> world_ok (Engine.world s) ->
  (forall now o, parse_pairing_offer_v3 public_key_deserialize verify_signature payload now = Ok o -> o = offer) ->
  to_http (OfferV3.relay_url offer) = origin -> mailbox_id_shape_ok (OfferV3.pairing_inbox_id offer) = true ->
  box_queue (RelayWorld.app (Engine.world s)) (OfferV3.pairing_inbox_id offer) = Some [] ->
  fits (AppState.cfg (RelayWorld.app (Engine.world s))) peer profile ->
  send_pair_ack payload s = (Ok (conv, peer, own), s') ->
  exists k bundle recv body m row,
    world_ok (Engine.world s') /\ AppState.cfg (RelayWorld.app (Engine.world s')) = AppState.cfg (RelayWorld.app (Engine.world s)) /\
    establish_session (OfferV3.bundle offer) (Engine.keys s) = (Ok peer, k) /\
    encode_pair_ack_v2 mac_finalize bundle (Engine.my_relay s) recv own (OfferV3.pairing_secret offer) = Ok body /\
    encrypt_message peer (pair_ack_frame body) profile k = (Ok (QueuedMsg.data m), Engine.keys s') /\
    mailbox_id_shape_ok recv = true /\ recv <> OfferV3.pairing_inbox_id offer /\ length own = 32%nat /\
    box_queue (RelayWorld.app (Engine.world s')) recv = Some [] /\
    box_queue (RelayWorld.app (Engine.world s')) (OfferV3.pairing_inbox_id offer) = Some [m] /\
    half_paired s' conv peer recv own ROLE_RESPONDER row /\ Engine.profile s' = profile.
Proof.
  intros (Hut & Hu & Hp) Hw Hoffer Hou Hsh Hq Hfits E.
  destruct (sent_pair_ack _ _ _ _ _ _ E) as (now & w0 & o & k & bundle & w0' & recv & w1 & w2 & body & wire & row
    & [= _ <-] & Ho & Hest & Hl0 & Hc & Hl & (w & w' & Hown) & _ & Henc & Hwire & Hdep & Hhalf & _ & _ & Hprof).
  apply Hoffer in Ho as ->. rewrite Hp in Hwire.
  destruct (local_quiet _ _ Hl0) as (Ha0 & _). pose proof (local_ok _ _ Hl0 Hw) as Hw0.
  destruct (relay_create _ _ _ _ _ _ _ _ Hu Hw0 Hc) as ((Hw1 & Hcfg & Hoth) & Hs & Hnone & Hempty).
  destruct (local_quiet _ _ Hl) as (Ha & _). pose proof (local_ok _ _ Hl Hw1) as Hw2.
  assert (Hne : recv <> OfferV3.pairing_inbox_id offer) by (intros ->; rewrite Ha0 in Hnone; congruence).
  destruct (Hfits _ _ _ _ Hwire) as [Hlen Hadm].
  destruct (relay_deposit origin ip too_large show _ _ wire w2 _ _ [] Hou Hsh Hw2 ltac:(by rewrite Ha, Hcfg, Ha0) Hadm
    ltac:(by rewrite Ha, Hoth, Ha0) Hdep) as (Hw' & Hcfg' & Hoth' & q' & Hq' & Hres).
  destruct Hres as [(_ & [] & _)|(m & Hm & -> & _)]; [done|]. simpl in Hq'. subst wire.
  exists k, bundle, recv, body, m, row. split_and!; try done.
  - by rewrite Hcfg', Ha, Hcfg, Ha0.
  - by eapply drawn_length.
  - by rewrite Hoth', Ha.
  - by rewrite Hprof.
Qed.

(** The offerer that accepted: its handoff is alone in the responder's inbox,
    or the relay refused it. *)
Lemma accept_at_relay profile inbox secret envelope s conv s' peer body k ack :
  client_of profile s -> world_ok (Engine.world s) -> mailbox_id_shape_ok inbox = true ->
  decrypt_setup_from_unknown envelope profile (Engine.keys s) = (Ok (peer, pair_ack_frame body), k) ->
  parse_pair_ack_v2 body = Ok ack -> to_http (PairAckV2.relay_url ack) = origin ->
  mailbox_id_shape_ok (PairAckV2.inbox_id ack) = true -> PairAckV2.inbox_id ack <> inbox ->
  box_queue (RelayWorld.app (Engine.world s)) (PairAckV2.inbox_id ack) = Some [] ->
  fits (AppState.cfg (RelayWorld.app (Engine.world s))) peer profile ->
  handle_pair_ack_v2 inbox secret envelope s = (Ok (Some conv), s') ->
  exists recv own root update wire row,
    world_ok (Engine.world s') /\ mailbox_id_shape_ok recv = true /\ length own = 32%nat /\
    derive_root mac_finalize own (PairAckV2.root_contribution ack) = Ok root /\
    encode_mailbox_update_v2 (Engine.my_relay s) recv own = Ok update /\
    encrypt_message peer (handoff_frame update) profile k = (Ok wire, Engine.keys s') /\
    (box_queue (RelayWorld.app (Engine.world s')) (PairAckV2.inbox_id ack) = Some [] \/
     exists m, QueuedMsg.data m = wire /\ box_queue (RelayWorld.app (Engine.world s')) (PairAckV2.inbox_id ack) = Some [m]) /\
    half_paired s' conv peer recv own ROLE_OFFERER row /\
    ConvRow.relay_url row = PairAckV2.relay_url ack /\ ConvRow.mailbox_send row = Some (PairAckV2.inbox_id ack) /\
    ConvRow.recovery_peer_contrib row = Some (PairAckV2.root_contribution ack) /\
    ConvRow.recovery_root row = Some root /\ conv ∈ Engine.listening s'.
Proof.
  intros (Hut & Hu & Hp) Hw Hin Hdec Hparse Hru Hsb Hne Hq Hfits E.
  destruct (handled_pair_ack _ _ _ _ _ _ E) as (peer' & frame & k' & ack' & w0 & recv & w1 & w2 & r & w3 & w4 & own & root & update
    & wire & o & row & Hdec' & Hparse' & _ & Hl0 & Hc & Hl & (wr & wr' & Hown) & Hroot & Hdel & Hl4 & Hupd & Hwire & Hdep & Hhalf & Hrow).
  rewrite Hp in Hdec', Hwire. rewrite Hdec in Hdec'. injection Hdec' as <- <- <-. simpl in Hparse'.
  assert (ack' = ack) as -> by congruence. destruct Hrow as (Hr1 & Hr2 & Hr3 & Hr4 & Hlis).
  destruct (local_quiet _ _ Hl0) as (Ha0 & _). pose proof (local_ok _ _ Hl0 Hw) as Hw0.
  destruct (relay_create _ _ _ _ _ _ _ _ Hu Hw0 Hc) as ((Hw1 & Hcfg & Hoth) & Hs & Hnone & _).
  destruct (local_quiet _ _ Hl) as (Ha & _). pose proof (local_ok _ _ Hl Hw1) as Hw2.
  destruct (relay_delete _ _ _ _ _ _ _ _ _ Hu Hin Hw2 Hdel) as (Hw3 & Hcfg3 & Hoth3).
  assert (Hq3 : box_queue (RelayWorld.app w3) (PairAckV2.inbox_id ack) = Some []).
  { rewrite Hoth3, Ha, Hoth, ?Ha0; try done. intros Heq. rewrite Heq, <- Ha0 in Hq. congruence. }
  destruct (Hfits _ _ _ _ Hwire) as [Hlen Hadm].
  destruct (local_quiet _ _ Hl4) as (Ha4 & _). pose proof (local_ok _ _ Hl4 Hw3) as Hw4.
  destruct (relay_deposit origin ip too_large show _ _ wire w4 _ _ [] Hru Hsb Hw4
    ltac:(by rewrite Ha4, Hcfg3, Ha, Hcfg, Ha0) Hadm ltac:(by rewrite Ha4) Hdep) as (Hw' & _ & _ & q' & Hq' & Hres).
  exists recv, own, root, update, wire, row. split_and!; try done; [by eapply drawn_length|].
  destruct Hres as [(-> & _)|(m & Hm & -> & _)]; [by left|right]. by exists m.
Qed.

(** A relay that holds one message for a mailbox replays it to a subscriber;
    every queue stays. *)
Lemma replay_one (s : Engine.t) app now id tx m t :
  Inv 0 now app -> ids16 app -> box_queue app id = Some [m] -> now <= t -> fates_ok t (RelayWorld.fates (Engine.world s)) ->
  exists sel app',
    drive 4 app tx (Conn.mk id 0%nat PRegister []) t
    = Some (Ok (Some (Conn.mk id 0%nat (PSelect sel) [delivery_frame (QueuedMsg.id m) (QueuedMsg.data m)]), app')) /\
    world_ok (Engine.world (visits app' t s)) /\ AppState.cfg app' = AppState.cfg app /\
    length (QueuedMsg.id m) = 16%nat /\ forall b, box_queue app' b = box_queue app b.
Proof.
  intros HI H16 Hq Ht Hf. unfold box_queue in Hq. destruct (AppState.boxes app !! id) as [mb|] eqn:Hb; [|done].
  injection Hq as Hq. destruct (drive_replay app id tx mb t H16 Hb) as (sel & app' & Hd & Hq' & _ & ->).
  rewrite Hq in Hd, Hq'. exists sel. eexists. split; [exact Hd|].
  assert (Hids : Forall (fun m => length (QueuedMsg.id m) = 16%nat) [m]) by (rewrite <- Hq; by apply (H16 id)).
  unfold deliver_register in *. rewrite Hb in *. split_and!; [split_and!|..]; simpl; try done.
  - pose proof (register_ok 0 now app id tx t HI Ht) as HI'. unfold deliver_register in HI'. by rewrite Hb in HI'.
  - apply map_Forall_insert_2; [by rewrite <- Hq in Hids|done].
  - by apply Forall_cons in Hids as [? _].
  - intros b. unfold box_queue. simpl. destruct (decide (b = id)) as [->|Hn];
      [by rewrite lookup_insert_eq, Hb|by rewrite lookup_insert_ne].
Qed.

(** A pairing task that is given one genuine pair-ack and ends has paired. *)
Lemma listener_paired inbox secret id envelope s peer body ack k s' :
  decrypt_setup_from_unknown envelope (Engine.profile s) (Engine.keys s) = (Ok (peer, pair_ack_frame body), k) ->
  parse_pair_ack_v2 body = Ok ack ->
  verify_proof_of_scan mac_finalize secret (PairAckV2.responder_bundle ack) (PairAckV2.root_contribution ack)
    (PairAckV2.proof ack) = Ok tt ->
  pairing_listener_v2 inbox secret false [PSubscribed; PNext (Ok (Some (Delivery id envelope)))] s = (Ok true, s') ->
  exists conv s1, handle_pair_ack_v2 inbox secret envelope s = (Ok (Some conv), s1) /\ s' = Engine.push s1 (AckSent id).
Proof.
  intros Hd Hp Hv. cbn [pairing_listener_v2]. unfold attempt, mbind, st_bind.
  pose proof (verified_no_burn inbox secret envelope s peer body ack k) as Hnb.
  destruct (handle_pair_ack_v2 inbox secret envelope s) as [[[conv|]|e|] s1]; [| | |done].
  - intros [= <-]. by exists conv, s1.
  - done.
  - destruct e; try done. by edestruct Hnb.
Qed.
(** What a finished pairing task leaves: its own row, and the handoff for the
    responder, queued unless the relay refused it. *)
Record offerer_done (s : Engine.t) (conv peer relay box other url : bytes) (kb : Keys.t) (name : bytes)
    (profile : PaddingProfile.t) (recv own root : bytes) (row : ConvRow.t) : Prop := {
  od_world : world_ok (Engine.world s);
  od_listening : conv ∈ Engine.listening s;
  od_row : half_paired s conv peer recv own ROLE_OFFERER row;
  od_relay : ConvRow.relay_url row = relay;
  od_send : ConvRow.mailbox_send row = Some box;
  od_contrib : ConvRow.recovery_peer_contrib row = Some other;
  od_root : ConvRow.recovery_root row = Some root;
  od_derived : derive_root mac_finalize own other = Ok root;
  od_queue : box_queue (RelayWorld.app (Engine.world s)) box = Some [] \/
    exists m update k, box_queue (RelayWorld.app (Engine.world s)) box = Some [m] /\
      decrypt_message name (QueuedMsg.data m) profile kb = (Ok (handoff_frame update), k) /\
      parse_mailbox_update_v2 update = Ok (url, recv, own)
}.

(** The offerer's task on a genuine pair-ack. *)
Lemma offerer_pairs profile inbox secret id wire s s' k kb a b bundle url recv own body :
  PaddingProfile.wf profile -> client_of profile s -> world_ok (Engine.world s) -> mailbox_id_shape_ok inbox = true ->
  setup_for (Engine.keys s) k a b -> encrypt_message a (pair_ack_frame body) profile k = (Ok wire, kb) ->
  encode_pair_ack_v2 mac_finalize bundle url recv own secret = Ok body ->
  utf8_valid url = true -> to_http url = origin -> mailbox_id_shape_ok recv = true -> recv <> inbox ->
  length own = 32%nat -> box_queue (RelayWorld.app (Engine.world s)) recv = Some [] ->
  fits (AppState.cfg (RelayWorld.app (Engine.world s))) b profile ->
  pairing_listener_v2 inbox secret false [PSubscribed; PNext (Ok (Some (Delivery id wire)))] s = (Ok true, s') ->
  exists conv recvA ownA root row,
    offerer_done s' conv b url recv own (Engine.my_relay s) kb a profile recvA ownA root row.
Proof.
  intros Hwf Hs Hw Hin Hset Hwire Hbody Hutf Hurl Hsr Hne Hown Hq Hfits Hrun.
  assert (Hp : Engine.profile s = profile) by apply Hs.
  destruct (setup_decrypts _ _ _ _ _ _ _ _ Hwf Hset Hwire) as (ka & Hdec & Hstep).
  destruct (pair_ack_read_back _ _ _ _ _ _ _ Hbody Hutf (shape_inbox_ok _ Hsr) ltac:(unfold zlen; lia))
    as (proof & Hparse & Hproof).
  destruct (listener_paired inbox secret id wire s b body _ ka s' ltac:(by rewrite Hp) Hparse Hproof Hrun)
    as (conv & s1 & Hhandle & ->).
  destruct (accept_at_relay profile inbox secret wire s conv s1 b body ka _ Hs Hw Hin Hdec Hparse Hurl Hsr Hne Hq Hfits
    Hhandle) as (recvA & ownA & root & update & wire' & row & Hw' & HshA & HownA & Hroot & Hupd & Hwire' & Hq' & Hh
      & Hr1 & Hr2 & Hr3 & Hr4 & Hlis).
  exists conv, recvA, ownA, root, row. split; try done; [by destruct Hh|].
  destruct Hq' as [Hq'|(m & <- & Hq')]; [by left|right].
  destruct (decrypt_next 0 ka _ kb a b _ profile _ Hwf Hstep Hwire') as (k' & Hdec' & _).
  exists m, update, k'. split_and!; [exact Hq'|done|].
  apply (handoff_read_back _ _ _ _ Hupd (proj1 Hs) (shape_inbox_ok _ HshA)). unfold zlen. lia.
Qed.

(** The responder's call on the queued handoff. *)
Lemma responder_pairs profile payload sA sB sB1 convA convB a b recvB ownB rowB recvA ownA root rowA urlA urlB id wire update k :
  send_pair_ack payload sB = (Ok (convB, a, ownB), sB1) -> Engine.profile sB1 = profile ->
  half_paired sB1 convB a recvB ownB ROLE_RESPONDER rowB ->
  offerer_done sA convA b urlB recvB ownB urlA (Engine.keys sB1) a profile recvA ownA root rowA ->
  decrypt_message a wire profile (Engine.keys sB1) = (Ok (handoff_frame update), k) ->
  parse_mailbox_update_v2 update = Ok (urlA, recvA, ownA) ->
  exists sB2, begin_pairing_from_offer payload [HSubscribed; HNext (Ok (Some (Delivery id wire)))] sB = (Ok (Some convB), sB2) /\
    matched sA urlA convA b sB2 urlB convB a.
Proof.
  intros Hsend Hp Hb [_ _ Ha Hr Hs Hc Hroot Hder _] Hdec Hparse.
  destruct (call_completes payload convB a ownB id wire sB sB1 update k urlA recvA ownA root rowB Hsend)
    as (sB2 & Hrun & Hrow); [by rewrite Hp|done|done|apply Hb|].
  exists sB2. split; [exact Hrun|]. eexists rowA, _, root, recvA, recvB, ownA, ownB.
  destruct Hb as [_ ? ? ? ?]. by split_and!.
Qed.
End steps.

(** ** Properties *)


(** A session library in which a first message carries the sender's identity
    and the plaintext, and an answer the plaintext. *)
Definition pq_ratchet : RatchetLib := {|
  identity_decode _ := Ok tt; public_deserialize _ := Ok tt; kem_deserialize _ := Ok tt;
  device_id_valid d := (1 <=? d) && (d <=? 127); bundle_new _ := Ok tt;
  process_prekey_bundle _ _ _ k := (Ok tt, k);
  message_encrypt remote local m k :=
    match Keys.sessions k !! (remote, 1), Keys.local_identity k with
    | None, Some i => (Ok (PreKeyMessage, take 2 (LocalIdentity.identity_keypair i ++ [0; 0]) ++ m), k)
    | _, _ => (Ok (SignalMessage, 0 :: m), k)
    end;
  message_decrypt remote local kind c k :=
    match kind with
    | SessionSetup => (Ok (drop 2 c), put_session k remote 1 [1])
    | Ratchet => (Ok (drop 1 c), k)
    end;
  prekey_message_identity c := Ok (take 2 c);
  signal_message_check _ := Ok tt
|}.

#[local] Existing Instance pq_ratchet.

Definition scanner_name : bytes := address_for_identity [5; 2].
Definition scanner_keys : Keys.t :=
  Keys.mk (Some (LocalIdentity.mk scanner_name 5 [5; 2])) ∅ ∅ {[1 := [5; 7]]} {[1 := [5; 8]]} {[1 := ([8; 9], false)]}.

Definition at_time (d a : Z) (id : Z) : Env := mkEnv demo_clk demo_clk 425 (replicate 16 id) d a.

Definition demo_line : Platform :=
  relay_platform (bstr "https://r") (V4 [10; 0; 0; 1]) (Response.plain 413) (fun _ => "status"%string).

Definition offerer : @Engine.t demo_line :=
  @Engine.mk demo_line (toy_keys (bstr "alice")) (Db.mk [] [] true)
    (RelayWorld.mk demo_relay 100
       [Answered (at_time 110 110 1) [replicate 32 1]; Answered (at_time 160 160 1) [replicate 32 3];
        Answered (at_time 170 170 1) []; Answered (at_time 180 180 4) []]
       [replicate 32 9; replicate 16 5; replicate 32 6] 1000)
    (bstr "wss://r") toy_profile true true [] ∅ ∅ ∅ ∅ None.

Definition scanner : @Engine.t demo_line :=
  @Engine.mk demo_line scanner_keys (Db.mk [] [] true)
    (RelayWorld.mk demo_relay 100 [Answered (at_time 120 120 1) [replicate 32 2]; Answered (at_time 130 130 3) []]
       [replicate 16 7; replicate 32 8] 1001)
    (bstr "wss://r") toy_profile true true [] ∅ ∅ ∅ ∅ None.

Definition offered : bytes := bundle_wire demo_bundle 3 [5; 6].

Lemma pq_fits peer : fits Config.default peer toy_profile.
Proof.
  apply (expansion_fits _ _ _ 2 toy_profile_wf); [|by_compute].
  intros local m ty c k k'. simpl. destruct (Keys.sessions k !! _), (Keys.local_identity k) as [i|]; intros [= <- <- _];
    (split; [by destruct (LocalIdentity.identity_keypair i)|]) || (split; [done|]);
    rewrite ?zlen_app, ?zlen_cons; try lia; unfold zlen; rewrite length_take; lia.
Qed.

Lemma pq_setup k :
  establish_session offered scanner_keys = (Ok (bstr "alice"), k) ->
  setup_for (toy_keys (bstr "alice")) k (bstr "alice") scanner_name.
Proof.
  intros E. assert (k = scanner_keys) as -> by (vm_compute in E |- *; congruence).
  split; [reflexivity|]. split; [reflexivity|]. intros m ty c kb' [= <- <- <-]. split; [done|]. split; [done|].
  exists [5; 2], (put_session (toy_keys (bstr "alice")) scanner_name 1 [1]).
  split; [done|]. split; [done|]. split; [done|]. split; [reflexivity|]. split; [reflexivity|].
  intros m' ty c ks' E'.
  cbn [message_encrypt pq_ratchet put_session Keys.with_sessions Keys.sessions toy_keys] in E'.
  rewrite lookup_insert_eq in E'. injection E' as <- <- <-.
  split; [congruence|]. exists scanner_keys, Ratchet. split; [reflexivity|]. split; [split; reflexivity|exact I].
Qed.

(** The run of the offerer, then of the scanner on the relay it left. *)
Definition demo_visits := visits (bstr "https://r") (V4 [10; 0; 0; 1]) (Response.plain 413) (fun _ => "status"%string).
Definition demo_payload2 : bytes := match (export_offer offered offerer).1 with Ok b => b | _ => [] end.
Definition offerer1 := (export_offer offered offerer).2.
Definition scanner0 := demo_visits (RelayWorld.app (Engine.world offerer1)) (RelayWorld.now (Engine.world offerer1)) scanner.
Definition scanner1 := (send_pair_ack demo_payload2 scanner0).2.
Definition scanner_inbox : bytes := encode_mailbox_id (replicate 32 2).

(** What the relay replays on the offer's inbox, and the offerer's task on it. *)
Definition offer_inbox : bytes := encode_mailbox_id (replicate 32 1).
Definition demo_replay := drive 4 (RelayWorld.app (Engine.world scanner1)) 7 (Conn.mk offer_inbox 0%nat PRegister []) 150.
Definition replayed_frame : bytes := match demo_replay with Some (Ok (Some (Conn.mk _ _ _ [f]), _)) => f | _ => [] end.
Definition replayed_app : AppState.t := match demo_replay with Some (Ok (_, a)) => a | _ => demo_relay end.
Definition offerer_run :=
  pairing_listener_v2 offer_inbox (replicate 32 9) false [PSubscribed; PNext (Some <$> parse_delivery replayed_frame)]
    (demo_visits replayed_app 150 offerer1).

