(* ===== verification/FuzzTargets.v ===== *)
(** The fuzz targets of both crates ([tezca-core/fuzz], [tezca-relay/fuzz]):
    each as the closure the fuzzer calls, whose assertions panic.  The theorem
    is what fuzzing looks for: on no input does one of them fail. *)

From S2P Require Import Prelude Errors Config Envelope RelayWire.

(** [assert!] *)
Definition assert {E : Type} (b : bool) : result E unit := if b then Ok tt else Panic.

(** [Result::expect] in a closure that returns nothing. *)
Definition unwrapped {E A : Type} (r : Result A) : result E A :=
  match r with Ok a => Ok a | _ => Panic end.

#[export] Instance InnerFrame_eq_dec : EqDecision InnerFrame.t.
Proof. solve_decision. Defined.

(** What parses re-encodes to the same bytes. *)
Definition fuzz_envelope_parse (data : bytes) : run unit :=
  match Envelope.parse data with
  | Ok envelope => assert (beq (Envelope.encode envelope) data)
  | Err _ => Ok tt
  | Panic => Panic
  end.

(** What parses re-encodes, and parses again to the same frame. *)
Definition fuzz_inner_parse (data : bytes) : run unit :=
  profile ← unwrapped PaddingProfile.default_profile;
  match InnerFrame.parse data profile with
  | Ok frame =>
    reencoded ← unwrapped (InnerFrame.encode frame profile);
    reparsed ← unwrapped (InnerFrame.parse reencoded profile);
    assert (bool_decide (reparsed = frame))
  | Err _ => Ok tt
  | Panic => Panic
  end.

(** An ack comes from a well-formed frame of 17 bytes. *)
Definition fuzz_ack_frame (data : bytes) : run unit :=
  o ← parse_ack_frame data;
  match o with
  | Some id =>
    _ ← assert (zlen data =? 17);
    b0 ← index data 0;
    _ ← assert (b0 =? 2);
    rest ← slice data 1 17;
    assert (beq rest id)
  | None => Ok tt
  end.

(** What is admitted has the magic, the version and the least length. *)
Definition fuzz_deposit_admissible (data : bytes) : run unit :=
  admitted ← deposit_admissible data;
  if (admitted : bool) then
    _ ← assert (9 <=? zlen data);
    magic ← slice data 0 4;
    _ ← assert (beq magic (bstr "TZCA"));
    v ← index data 4;
    assert (v =? 1)
  else Ok tt.

Definition fuzz_targets : list (bytes -> run unit) :=
  [fuzz_envelope_parse; fuzz_inner_parse; fuzz_ack_frame; fuzz_deposit_admissible].

(** ** Lemmas *)

Lemma assert_true {E} (b : bool) : b = true -> @assert E b = Ok tt.
Proof. by intros ->. Qed.

Lemma default_profile_wf : exists p, PaddingProfile.default_profile = Ok p /\ PaddingProfile.wf p.
Proof.
  eexists. split; [reflexivity|]. unfold PaddingProfile.wf. simpl. split_and!; [done|repeat constructor; lia|].
  repeat constructor; unfold INNER_HEADER_LEN, u32_max; lia.
Qed.

(** A frame that was parsed fits the profile it was parsed with. *)
Lemma parsed_reencodes profile bs f :
  PaddingProfile.wf profile -> bytes_ok bs -> InnerFrame.parse bs profile = Ok f ->
  exists bs', InnerFrame.encode f profile = Ok bs'.
Proof.
  intros Hwf Hok Hp.
  destruct (inner_parse_Ok_split _ _ _ Hwf Hok Hp) as (lb & rest & -> & Hl & Hlb & Hin & Hle & Hpay & _).
  destruct (inner_encode_cases f profile Hwf) as (b & Hb & ->).
  destruct (PaddingProfileFacts.max_payload_Ok _ Hwf) as (b' & Hb' & _ & _ & Hmax).
  assert (b' = b) as -> by congruence. specialize (Hmax _ Hin).
  pose proof (bucket_bounds _ _ Hwf Hin) as Hbd.
  assert (Hn : zlen (InnerFrame.payload f) <= zlen rest).
  { rewrite Hpay. unfold zlen. rewrite length_take. lia. }
  assert (Hr : 6 + zlen rest <= b) by (unfold zlen in *; simpl in Hmax; rewrite length_app in Hmax; lia).
  pose proof (bucket_bounds profile b Hwf) as Hbb.
  rewrite (proj2 (Z.ltb_ge _ _)), (proj2 (Z.ltb_ge _ _)).
  - destruct (bucket_for_total profile b (6 + zlen (InnerFrame.payload f)) Hb) as [k ->]; [lia|]. by eexists.
  - lia.
  - unfold zlen in *. simpl in Hbd. rewrite length_app in Hbd. lia.
Qed.

Lemma fuzz_envelope_passes data : fuzz_envelope_parse data = Ok tt.
Proof.
  unfold fuzz_envelope_parse. pose proof (envelope_no_panic data).
  destruct (Envelope.parse data) as [e| |] eqn:E; [|done|done].
  apply envelope_parse_iff in E as [-> _]. by rewrite beq_refl.
Qed.

Lemma fuzz_inner_passes data : bytes_ok data -> fuzz_inner_parse data = Ok tt.
Proof.
  intros Hok. unfold fuzz_inner_parse. destruct default_profile_wf as (p & -> & Hwf). simpl.
  destruct (parsers_never_panic p data Hwf Hok) as [_ Hnp].
  destruct (InnerFrame.parse data p) as [f| |] eqn:E; [|done|done].
  destruct (parsed_reencodes _ _ _ Hwf Hok E) as [bs Hbs]. rewrite Hbs. simpl.
  destruct (inner_encode_parse _ _ _ Hwf Hbs) as [-> _]. simpl. apply assert_true. by apply bool_decide_eq_true.
Qed.

Lemma fuzz_ack_passes data : fuzz_ack_frame data = Ok tt.
Proof.
  unfold fuzz_ack_frame. destruct (parse_ack_frame_total data) as [[id|] E]; rewrite E; simpl; [|done].
  apply parse_ack_frame_inv in E as [-> Hl].
  rewrite assert_true by (apply Z.eqb_eq; unfold zlen; simpl; lia). rsimpl.
  pose proof (index_app_head (E := Empty_set) [] 2 id) as Hi. cbn [app] in Hi. rewrite zlen_nil in Hi.
  cbn [app]. rewrite Hi. rsimpl.
  pose proof (slice_mid (E := Empty_set) [2] id []) as Hs. rewrite app_nil_r in Hs.
  change (zlen [2]) with 1 in Hs. replace (1 + zlen id) with 17 in Hs by (unfold zlen; lia).
  simpl in Hs. rewrite Hs. simpl. by rewrite beq_refl.
Qed.

Lemma fuzz_deposit_passes data : fuzz_deposit_admissible data = Ok tt.
Proof.
  unfold fuzz_deposit_admissible. rewrite deposit_admissible_eq. simpl.
  destruct (_ && _) eqn:E; [|done]. reflect_bools. unfold MIN_ENVELOPE in *.
  rewrite assert_true by (apply Z.leb_le; lia). simpl. rewrite slice_Ok by lia. rsimpl.
  change (Z.to_nat (4 - 0)) with 4%nat. change (Z.to_nat 0) with 0%nat. rewrite drop_0.
  rewrite assert_true by (by apply bool_decide_eq_true). simpl.
  unfold index. rewrite (proj2 (Z.ltb_lt _ _)) by lia. simpl. change (Z.to_nat 4) with 4%nat.
  match goal with H : data !! 4%nat = _ |- _ => rewrite H end. done.
Qed.

(** ** Property *)

(** C40: no fuzz target of either crate fails on any byte string: the parsers
    return, an envelope that parses is the encoding of what it parsed to, a
    frame that parses encodes again and parses to itself, an ack was a
    well-formed frame, and an admitted deposit has magic, version and length. *)
Theorem fuzz_targets_pass (data : bytes) :
  bytes_ok data -> Forall (fun target => target data = Ok tt) fuzz_targets.
Proof.
  intros Hok. repeat constructor;
    auto using fuzz_envelope_passes, fuzz_inner_passes, fuzz_ack_passes, fuzz_deposit_passes.
Qed.

Lemma fuzz_targets_pass_witness :
  Forall (fun target => target (bstr "TZCA" ++ [1; 2; 0; 0; 7]) = Ok tt) fuzz_targets.
Proof. apply fuzz_targets_pass. by_compute. Defined.
