(* ===== verification/HarnessCodec.v ===== *)
(** The base64url codec of the deposit harness
    ([tezca-core/examples/deposit_harness.rs]): encoder, decoder and the self
    test.  The decoder is compared with a reference that knows nothing of
    chunks: the characters' six-bit values written one after the other and
    cut into bytes. *)

From S2P Require Import Prelude Utf8 Base64 RelayWire FuzzTargets.

Definition ALPHABET : bytes :=
  bstr "ABCDEFGHIJKLMNOPQRSTUVWXYZabcdefghijklmnopqrstuvwxyz0123456789-_".

(** The body of the encoding loop; an absent byte is zero. *)
Definition b64url_encode_chunk (chunk : bytes) : bytes :=
  let b0 := default 0 (chunk !! 0%nat) in
  let b1 := default 0 (chunk !! 1%nat) in
  let b2 := default 0 (chunk !! 2%nat) in
  let n := Z.lor (Z.lor (Z.shiftl b0 16) (Z.shiftl b1 8)) b2 in
  let char i := default 0 (ALPHABET !! Z.to_nat (Z.land i 63)) in
  [char (Z.shiftr n 18); char (Z.shiftr n 12)]
  ++ (if 1 <? zlen chunk then [char (Z.shiftr n 6)] else [])
  ++ (if 2 <? zlen chunk then [char n] else []).

Definition b64url_encode (data : bytes) : bytes := concat (map b64url_encode_chunk (chunks3 data)).

(** The inner [fn val]. *)
Definition val (c : Z) : option Z :=
  if between 65 90 c then Some (c - 65)
  else if between 97 122 c then Some (c - 97 + 26)
  else if between 48 57 c then Some (c - 48 + 52)
  else if c =? 45 then Some 62
  else if c =? 95 then Some 63
  else None.

(** [slice::chunks(4)] *)
Fixpoint chunks4 (l : bytes) : list bytes :=
  match l with
  | [] => []
  | c0 :: c1 :: c2 :: c3 :: r => [c0; c1; c2; c3] :: chunks4 r
  | short => [short]
  end.

(** [n = (n << 6) | val(c)?] over a chunk, from zero.  [u32] shifts drop what
    they push out. *)
Definition push_value (n : option Z) (c : Z) : option Z :=
  n ← n; v ← val c; Some (Z.lor (Z.shiftl n 6 mod 2 ^ 32) v).

(** The body of the decoding loop. *)
Definition b64url_decode_chunk (chunk : bytes) : option bytes :=
  if zlen chunk =? 1 then None else
  n ← foldl push_value (Some 0) chunk;
  let group := to_be 4 (Z.shiftl n (6 * (4 - zlen chunk)) mod 2 ^ 32) in
  let at_ i := default 0 (group !! i) in
  Some ([at_ 1%nat] ++ (if 2 <? zlen chunk then [at_ 2%nat] else [])
        ++ (if 3 <? zlen chunk then [at_ 3%nat] else [])).

Definition b64url_decode (s : bytes) : option bytes :=
  groups ← mapM b64url_decode_chunk (chunks4 s); Some (concat groups).

(** [assert_eq!] on a decoding that is [expect]ed to succeed. *)
Definition decodes_to (enc raw : bytes) : run unit :=
  d ← expect (b64url_decode enc); assert (beq d raw).

Definition VECTORS : list (bytes * bytes) :=
  [([], []); (bstr "f", bstr "Zg"); (bstr "fo", bstr "Zm8"); (bstr "foo", bstr "Zm9v");
   (bstr "foob", bstr "Zm9vYg"); (bstr "fooba", bstr "Zm9vYmE"); (bstr "foobar", bstr "Zm9vYmFy")].

Fixpoint check_vectors (vs : list (bytes * bytes)) : run unit :=
  match vs with
  | [] => Ok tt
  | (raw, enc) :: r =>
    _ ← assert (beq (b64url_encode raw) enc);
    _ ← decodes_to enc raw;
    check_vectors r
  end.

(** [for i in 0..=257] *)
Fixpoint check_lengths (is_ : list nat) (data : bytes) : run unit :=
  match is_ with
  | [] => Ok tt
  | i :: r =>
    let data := data ++ [Z.of_nat i mod 251] in
    _ ← decodes_to (b64url_encode data) data;
    check_lengths r data
  end.

(** The line it prints, when every assertion holds. *)
Definition selftest : run bytes :=
  _ ← check_vectors VECTORS;
  let hi := [251; 255] in
  _ ← assert (beq (b64url_encode hi) (bstr "-_8"));
  _ ← decodes_to (bstr "-_8") hi;
  _ ← check_lengths (seq 0 258) [];
  _ ← assert (negb (bool_decide (is_Some (b64url_decode (bstr "Zg==")))));
  _ ← assert (negb (bool_decide (is_Some (b64url_decode (bstr "Zm9+")))));
  _ ← assert (negb (bool_decide (is_Some (b64url_decode (bstr "A")))));
  Ok (bstr "selftest ok").

(** ** Links *)

(** A [String]: its scalar values; [as_bytes] is their UTF-8. *)
Abbreviation str := (list Z).

Definition utf8_char (c : Z) : bytes :=
  if c <? 128 then [c]
  else if c <? 2048 then [192 + c / 64; 128 + c mod 64]
  else if c <? 65536 then [224 + c / 4096; 128 + c / 64 mod 64; 128 + c mod 64]
  else [240 + c / 262144; 128 + c / 4096 mod 64; 128 + c / 64 mod 64; 128 + c mod 64].

Definition as_bytes (s : str) : bytes := concat (map utf8_char s).

Definition LINK_PREFIX : str := bstr "titlan://pair#".

(** [link.strip_prefix(LINK_PREFIX).unwrap_or(link).trim()], decoded. *)
Definition strip_link (link : str) : str :=
  if bool_decide (LINK_PREFIX `prefix_of` link) then drop (length LINK_PREFIX) link else link.

Definition link_payload (link : str) : option bytes := b64url_decode (as_bytes (trim (strip_link link))).

(** ** The reference decoder *)

(** The low [w] bits of a number, the highest first. *)
Fixpoint bits_of (w : nat) (z : Z) : list bool :=
  match w with O => [] | S k => Z.testbit z (Z.of_nat k) :: bits_of k z end.

Definition bits_value (l : list bool) : Z := foldl (fun acc b => 2 * acc + Z.b2z b) 0 l.

(** Whole bytes of a bit string; up to seven bits at the end are dropped. *)
Fixpoint bytes_of_bits (l : list bool) : bytes :=
  match l with
  | b7 :: b6 :: b5 :: b4 :: b3 :: b2 :: b1 :: b0 :: r =>
    bits_value [b7; b6; b5; b4; b3; b2; b1; b0] :: bytes_of_bits r
  | _ => []
  end.

(** Six bits per character of the alphabet, and a length that unpadded base64
    can have. *)
Definition reference_decode (s : bytes) : option bytes :=
  vs ← mapM val s;
  if (length s mod 4 =? 1)%nat then None else Some (bytes_of_bits (concat (map (bits_of 6) vs))).

#[global] Arguments bits_of : simpl never.
#[global] Arguments bytes_of_bits : simpl never.

(** ** Lemmas *)

Lemma val_range c v : val c = Some v -> 0 <= v < 64.
Proof. unfold val, between. intros. repeat bool_case; simplify_eq; reflect_bools; lia. Qed.

(** The table and [val] are inverse to each other. *)
Lemma val_char i : 0 <= i < 64 -> val (b64_char i) = Some i.
Proof.
  intros Hi. assert (Hall : Forall (fun k => val (b64_char k) = Some k) (seqZ 0 64)) by by_compute.
  rewrite Forall_forall in Hall. apply Hall, elem_of_seqZ. lia.
Qed.

Lemma char_val c v : val c = Some v -> b64_char v = c.
Proof.
  intros Hv. pose proof (val_range _ _ Hv) as Hr.
  assert (Hall : Forall (fun k => match val k with Some v => b64_char v = k | None => True end) (seqZ 0 256)).
  { apply Forall_forall. intros k Hk.
    assert (Hd : forallb (fun k => match val k with Some v => b64_char v =? k | None => true end) (seqZ 0 256) = true)
      by (vm_compute; reflexivity).
    rewrite forallb_forall in Hd. specialize (Hd k). rewrite <- list_elem_of_In in Hd. specialize (Hd Hk).
    destruct (val k); [by apply Z.eqb_eq|done]. }
  rewrite Forall_forall in Hall. specialize (Hall c). rewrite Hv in Hall. apply Hall, elem_of_seqZ.
  unfold val, between in Hv. repeat bool_case; simplify_eq; reflect_bools; lia.
Qed.

(** The decoding loop's 24-bit word. *)
Lemma push_value_arith n c v :
  0 <= n < 2 ^ 24 -> val c = Some v -> push_value (Some n) c = Some (n * 64 + v).
Proof.
  intros Hn Hv. pose proof (val_range _ _ Hv). unfold push_value. simpl. rewrite Hv. simpl. f_equal.
  rewrite Z.mod_small by (rewrite Z.shiftl_mul_pow2; lia). rewrite lor_shift_add by lia. lia.
Qed.

Lemma group_bytes n : 0 <= n < 2 ^ 24 ->
  to_be 4 (Z.shiftl n 0 mod 2 ^ 32) = [0; n / 65536; n / 256 mod 256; n mod 256].
Proof.
  intros Hn. rewrite Z.shiftl_0_r, Z.mod_small by lia.
  change (to_be 4 n) with [n / 256 / 256 / 256 mod 256; n / 256 / 256 mod 256; n / 256 mod 256; n mod 256].
  rewrite !Z.div_div by lia.
  replace (n / (256 * (256 * 256))) with 0 by (symmetry; apply Z.div_small; lia).
  rewrite (Z.mod_small (n / (256 * 256))); [done|].
  split; [apply Z.div_pos; lia|apply Z.div_lt_upper_bound; lia].
Qed.

(** The bytes of a four-character group, as far as they are determined. *)
Definition group3 (a b c d : Z) : bytes := [a * 4 + b / 16; b mod 16 * 16 + c / 4; c mod 4 * 64 + d].

Lemma word_bytes a b c d :
  0 <= a < 64 -> 0 <= b < 64 -> 0 <= c < 64 -> 0 <= d < 64 ->
  to_be 4 ((((a * 64 + b) * 64 + c) * 64 + d) mod 2 ^ 32) = 0 :: group3 a b c d.
Proof.
  intros. set (n := ((a * 64 + b) * 64 + c) * 64 + d). assert (0 <= n < 2 ^ 24) by (unfold n; lia).
  replace n with (Z.shiftl n 0) by apply Z.shiftl_0_r. rewrite group_bytes by done. unfold n, group3.
  f_equal. f_equal; [|f_equal; [|f_equal]]; Z.to_euclidean_division_equations; lia.
Qed.

Ltac push_values :=
  cbn [foldl]; repeat (erewrite push_value_arith by (first [eassumption|lia])); cbn [mbind option_bind].

Lemma decode_chunk4 x y z t a b c d :
  val x = Some a -> val y = Some b -> val z = Some c -> val t = Some d ->
  b64url_decode_chunk [x; y; z; t] = Some (group3 a b c d).
Proof.
  intros Ha Hb Hc Hd.
  pose proof (val_range _ _ Ha); pose proof (val_range _ _ Hb);
    pose proof (val_range _ _ Hc); pose proof (val_range _ _ Hd).
  unfold b64url_decode_chunk. change (zlen [x; y; z; t]) with 4. simpl (4 =? 1). cbv iota. push_values.
  rewrite Z.shiftl_0_r. change (0 * 64 + a) with a. rewrite word_bytes by done. done.
Qed.

Lemma decode_chunk3 x y z a b c :
  val x = Some a -> val y = Some b -> val z = Some c ->
  b64url_decode_chunk [x; y; z] = Some (take 2 (group3 a b c 0)).
Proof.
  intros Ha Hb Hc.
  pose proof (val_range _ _ Ha); pose proof (val_range _ _ Hb); pose proof (val_range _ _ Hc).
  unfold b64url_decode_chunk. change (zlen [x; y; z]) with 3. simpl (3 =? 1). cbv iota. push_values.
  change (0 * 64 + a) with a. rewrite Z.shiftl_mul_pow2 by lia.
  replace (((a * 64 + b) * 64 + c) * 2 ^ (6 * (4 - 3))) with (((a * 64 + b) * 64 + c) * 64 + 0) by lia.
  rewrite word_bytes by lia. done.
Qed.

Lemma decode_chunk2 x y a b :
  val x = Some a -> val y = Some b -> b64url_decode_chunk [x; y] = Some (take 1 (group3 a b 0 0)).
Proof.
  intros Ha Hb. pose proof (val_range _ _ Ha); pose proof (val_range _ _ Hb).
  unfold b64url_decode_chunk. change (zlen [x; y]) with 2. simpl (2 =? 1). cbv iota. push_values.
  change (0 * 64 + a) with a. rewrite Z.shiftl_mul_pow2 by lia.
  replace ((a * 64 + b) * 2 ^ (6 * (4 - 2))) with (((a * 64 + b) * 64 + 0) * 64 + 0) by lia.
  rewrite word_bytes by lia. done.
Qed.

(** A chunk with a character outside the alphabet has no decoding. *)
Lemma push_value_None chunk n : mapM val chunk = None -> foldl push_value n chunk = None.
Proof.
  revert n. induction chunk as [|c r IH]; intros n; simpl; [done|].
  destruct (val c) as [v|] eqn:Ev; simpl.
  - intros Hr. apply IH. by destruct (mapM val r).
  - intros _. replace (push_value n c) with (@None Z) by (unfold push_value; destruct n; simpl; by rewrite ?Ev).
    clear. induction r; done.
Qed.

Lemma decode_chunk_None chunk : mapM val chunk = None -> b64url_decode_chunk chunk = None.
Proof. intros H. unfold b64url_decode_chunk. bool_case; [done|]. by rewrite push_value_None. Qed.

(** Induction four characters at a time. *)
Lemma chunks4_ind (P : bytes -> Prop) :
  P [] -> (forall a, P [a]) -> (forall a b, P [a; b]) -> (forall a b c, P [a; b; c]) ->
  (forall a b c d r, P r -> P (a :: b :: c :: d :: r)) -> forall l, P l.
Proof.
  intros H0 H1 H2 H3 H4 l. induction l as [l IH] using (induction_ltof1 _ length).
  destruct l as [|a [|b [|c [|d r]]]]; auto. apply H4, IH. unfold ltof. simpl. lia.
Qed.

Lemma decode_cons4 a b c d r :
  b64url_decode (a :: b :: c :: d :: r) =
  g ← b64url_decode_chunk [a; b; c; d]; ds ← b64url_decode r; Some (g ++ ds).
Proof.
  unfold b64url_decode. cbn [chunks4 mapM]. destruct (b64url_decode_chunk _); simpl; [|done].
  destruct (mapM _ (chunks4 r)); done.
Qed.

Lemma decode_short a : b64url_decode [a] = None.
Proof. done. Qed.

Lemma decode_last chunk : (2 <= length chunk <= 3)%nat -> b64url_decode chunk = b64url_decode_chunk chunk.
Proof.
  intros Hl. destruct chunk as [|a [|b [|c [|]]]]; simpl in Hl; try lia; unfold b64url_decode; cbn [chunks4 mapM];
    (destruct (b64url_decode_chunk _); simpl; [by rewrite app_nil_r|done]).
Qed.

(** ** Against the reference *)

Lemma pair_check (P : Z -> Z -> bool) a b :
  forallb (fun x => forallb (P x) (seqZ 0 64)) (seqZ 0 64) = true ->
  0 <= a < 64 -> 0 <= b < 64 -> P a b = true.
Proof.
  rewrite forallb_forall. intros Hall Ha Hb.
  assert (Hin : forall k, 0 <= k < 64 -> In k (seqZ 0 64)).
  { intros k Hk. apply list_elem_of_In, elem_of_seqZ. lia. }
  specialize (Hall a (Hin a Ha)). rewrite forallb_forall in Hall. apply Hall, Hin, Hb.
Qed.

Lemma bits_high a b : 0 <= a < 64 -> 0 <= b < 64 ->
  bits_value (bits_of 6 a ++ take 2 (bits_of 6 b)) = a * 4 + b / 16.
Proof.
  intros. apply Z.eqb_eq.
  apply (pair_check (fun a b => bits_value (bits_of 6 a ++ take 2 (bits_of 6 b)) =? a * 4 + b / 16)); [|lia..].
  vm_compute. reflexivity.
Qed.

Lemma bits_mid b c : 0 <= b < 64 -> 0 <= c < 64 ->
  bits_value (drop 2 (bits_of 6 b) ++ take 4 (bits_of 6 c)) = b mod 16 * 16 + c / 4.
Proof.
  intros. apply Z.eqb_eq.
  apply (pair_check (fun b c => bits_value (drop 2 (bits_of 6 b) ++ take 4 (bits_of 6 c)) =? b mod 16 * 16 + c / 4));
    [|lia..].
  vm_compute. reflexivity.
Qed.

Lemma bits_low c d : 0 <= c < 64 -> 0 <= d < 64 ->
  bits_value (drop 4 (bits_of 6 c) ++ bits_of 6 d) = c mod 4 * 64 + d.
Proof.
  intros. apply Z.eqb_eq.
  apply (pair_check (fun c d => bits_value (drop 4 (bits_of 6 c) ++ bits_of 6 d) =? c mod 4 * 64 + d)); [|lia..].
  vm_compute. reflexivity.
Qed.

Lemma sextets_bytes a b c d r :
  0 <= a < 64 -> 0 <= b < 64 -> 0 <= c < 64 -> 0 <= d < 64 ->
  bytes_of_bits (bits_of 6 a ++ bits_of 6 b ++ bits_of 6 c ++ bits_of 6 d ++ r)
  = group3 a b c d ++ bytes_of_bits r.
Proof.
  intros. unfold group3. rewrite <- bits_high, <- (bits_mid b c), <- (bits_low c d) by done. done.
Qed.

Lemma sextets_bytes3 a b c :
  0 <= a < 64 -> 0 <= b < 64 -> 0 <= c < 64 ->
  bytes_of_bits (bits_of 6 a ++ bits_of 6 b ++ bits_of 6 c ++ []) = take 2 (group3 a b c 0).
Proof. intros. unfold group3. cbn [take]. rewrite <- bits_high, <- (bits_mid b c) by done. done. Qed.

Lemma sextets_bytes2 a b :
  0 <= a < 64 -> 0 <= b < 64 -> bytes_of_bits (bits_of 6 a ++ bits_of 6 b ++ []) = take 1 (group3 a b 0 0).
Proof. intros. unfold group3. cbn [take]. rewrite <- bits_high by done. done. Qed.

Lemma reference_cons4 a b c d r :
  reference_decode (a :: b :: c :: d :: r) =
  vs ← mapM val [a; b; c; d];
  ws ← mapM val r;
  if (length r mod 4 =? 1)%nat then None
  else Some (bytes_of_bits (concat (map (bits_of 6) (vs ++ ws)))).
Proof.
  unfold reference_decode. cbn [length].
  replace (S (S (S (S (length r)))) mod 4)%nat with (length r mod 4)%nat
    by (replace (S (S (S (S (length r))))) with (length r + 1 * 4)%nat by lia; by rewrite Nat.Div0.mod_add).
  change (a :: b :: c :: d :: r) with ([a; b; c; d] ++ r). cbn [app mapM].
  destruct (val a), (val b), (val c), (val d), (mapM val r); done.
Qed.

Lemma decode_reference s : b64url_decode s = reference_decode s.
Proof.
  induction s as [|a|a b|a b c|a b c d r IH] using chunks4_ind.
  - done.
  - unfold reference_decode. simpl. by destruct (val a).
  - rewrite decode_last by (simpl; lia). unfold reference_decode.
    destruct (mapM val [a; b]) as [vs|] eqn:E; [|by rewrite decode_chunk_None]. simpl in E.
    destruct (val a) as [va|] eqn:Ea, (val b) as [vb|] eqn:Eb; simpl in E; try discriminate E; injection E as <-.
    rewrite (decode_chunk2 _ _ _ _ Ea Eb). simpl. f_equal. symmetry. apply sextets_bytes2; by eapply val_range.
  - rewrite decode_last by (simpl; lia). unfold reference_decode.
    destruct (mapM val [a; b; c]) as [vs|] eqn:E; [|by rewrite decode_chunk_None]. simpl in E.
    destruct (val a) as [va|] eqn:Ea, (val b) as [vb|] eqn:Eb, (val c) as [vc|] eqn:Ec; simpl in E; try discriminate E; injection E as <-.
    rewrite (decode_chunk3 _ _ _ _ _ _ Ea Eb Ec). simpl. f_equal. symmetry. apply sextets_bytes3; by eapply val_range.
  - rewrite decode_cons4, reference_cons4, IH. unfold reference_decode.
    destruct (mapM val [a; b; c; d]) as [vs|] eqn:E; [|by rewrite decode_chunk_None]. simpl in E.
    destruct (val a) as [va|] eqn:Ea, (val b) as [vb|] eqn:Eb, (val c) as [vc|] eqn:Ec, (val d) as [vd|] eqn:Ed;
      simpl in E; try discriminate E; injection E as <-.
    rewrite (decode_chunk4 _ _ _ _ _ _ _ _ Ea Eb Ec Ed).
    destruct (mapM val r) as [ws|]; [|done]. cbn [mbind option_bind]. bool_case; [done|].
    cbn [mbind option_bind]. f_equal. symmetry. apply sextets_bytes; by eapply val_range.
Qed.

(** ** The encoder *)

Lemma encode_relay data : b64url_encode data = encode_mailbox_id data.
Proof. done. Qed.

(** The characters of a full group. *)
Lemma encode_group a b c :
  byte_ok a -> byte_ok b -> byte_ok c ->
  let n := a * 65536 + b * 256 + c in
  encode_chunk [a; b; c] =
  [b64_char (n / 2 ^ 18 mod 64); b64_char (n / 2 ^ 12 mod 64); b64_char (n / 2 ^ 6 mod 64); b64_char (n mod 64)].
Proof.
  intros Ha Hb Hc n. unfold encode_chunk, chunk_word. cbn [lookup list_lookup default id].
  rewrite chunk_word_arith by done. fold n. by rewrite !group_arith, group0_arith by lia.
Qed.

(** Short groups are the full ones with zero bytes, cut. *)
Lemma encode_group2 a b : encode_chunk [a; b] = take 3 (encode_chunk [a; b; 0]).
Proof. done. Qed.
Lemma encode_group1 a : encode_chunk [a] = take 2 (encode_chunk [a; 0; 0]).
Proof. done. Qed.

Lemma group3_bytes a b c (n := a * 65536 + b * 256 + c) :
  byte_ok a -> byte_ok b -> byte_ok c ->
  group3 (n / 2 ^ 18 mod 64) (n / 2 ^ 12 mod 64) (n / 2 ^ 6 mod 64) (n mod 64) = [a; b; c].
Proof.
  unfold byte_ok, group3, n. intros Ha Hb Hc.
  f_equal; [|f_equal; [|f_equal]]; Z.to_euclidean_division_equations; lia.
Qed.

Lemma group3_cut2 a b c d : take 2 (group3 a b c 0) = take 2 (group3 a b c d).
Proof. done. Qed.
Lemma group3_cut1 a b c d : take 1 (group3 a b 0 0) = take 1 (group3 a b c d).
Proof. done. Qed.

Lemma decode_encode data : bytes_ok data -> b64url_decode (b64url_encode data) = Some data.
Proof.
  rewrite encode_relay. assert (H0 : byte_ok 0) by (unfold byte_ok; lia).
  induction data as [|a|a b|a b c r IH] using chunks3_ind; intros Hok; [done|..];
    apply Forall_cons_1 in Hok as [Ha Hok]; try (apply Forall_cons_1 in Hok as [Hb Hok]).
  - unfold encode_mailbox_id. cbn [chunks3 map concat]. rewrite app_nil_r, encode_group1, encode_group by done.
    cbn [take]. rewrite decode_last by (simpl; lia).
    erewrite decode_chunk2 by (apply val_char, group_range).
    erewrite group3_cut1, group3_bytes by done. done.
  - unfold encode_mailbox_id. cbn [chunks3 map concat]. rewrite app_nil_r, encode_group2, encode_group by done.
    cbn [take]. rewrite decode_last by (simpl; lia).
    erewrite decode_chunk3 by (apply val_char, group_range).
    erewrite group3_cut2, group3_bytes by done. done.
  - apply Forall_cons_1 in Hok as [Hc Hok]. rewrite encode_mailbox_id_cons3, encode_group by done. cbn [app].
    rewrite decode_cons4. erewrite decode_chunk4 by (apply val_char, group_range).
    rewrite group3_bytes by done. cbn [mbind option_bind]. by rewrite IH.
Qed.

(** ** Links *)

(** No character of the alphabet is whitespace, part of a link's prefix, or
    more than one byte. *)
Lemma alphabet_plain : Forall (fun c => 0 <= c < 128 /\ is_whitespace c = false /\ c <> 58) B64URL.
Proof. by_compute. Qed.

Lemma encoded_plain data : Forall (fun c => 0 <= c < 128 /\ is_whitespace c = false /\ c <> 58) (b64url_encode data).
Proof.
  rewrite encode_relay. eapply Forall_impl; [apply encode_mailbox_id_in|]. intros c Hc.
  pose proof alphabet_plain as Hp. rewrite Forall_forall in Hp. by apply Hp.
Qed.

Lemma as_bytes_ascii s : Forall (fun c => 0 <= c < 128) s -> as_bytes s = s.
Proof.
  induction 1 as [|c s Hc _ IH]; [done|]. unfold as_bytes in *. simpl. rewrite IH. unfold utf8_char.
  by rewrite (proj2 (Z.ltb_lt _ _)) by lia.
Qed.

Lemma prefix_not_plain s : 58 ∉ s -> ~ LINK_PREFIX `prefix_of` s.
Proof. intros Hn [k ->]. apply Hn. apply elem_of_app. left. by_compute. Qed.

Lemma link_payload_encoded data ws :
  bytes_ok data -> Forall (fun c => is_whitespace c = true) ws ->
  link_payload (LINK_PREFIX ++ b64url_encode data ++ ws) = Some data /\
  link_payload (b64url_encode data ++ ws) = Some data.
Proof.
  intros Hok Hws. pose proof (encoded_plain data) as Hp.
  assert (Ht : b64url_decode (as_bytes (trim (b64url_encode data ++ ws))) = Some data).
  { rewrite trim_end_spaces; [|by eapply Forall_impl; [exact Hp|naive_solver]|done].
    rewrite as_bytes_ascii by (eapply Forall_impl; [exact Hp|naive_solver]). by apply decode_encode. }
  unfold link_payload, strip_link. split.
  - rewrite bool_decide_eq_true_2 by (by apply prefix_app_r). by rewrite drop_app_length.
  - rewrite bool_decide_eq_false_2; [done|]. apply prefix_not_plain. rewrite not_elem_of_app. split.
    + intros Hin. rewrite Forall_forall in Hp. by apply Hp in Hin as (_ & _ & ?).
    + intros Hin. rewrite Forall_forall in Hws. by apply Hws in Hin.
Qed.

(** ** Properties *)

(** C39: pairing links.  The link printed for an offer is read back as the same
    payload, with or without its prefix and with whitespace after it.  On every
    string the chunked decoder with its word arithmetic computes what the
    reference does: each character's six bits in a row, cut into bytes, refused
    for a character outside the alphabet and for the one length that unpadded
    base64 cannot have.  The encoder writes exactly what the relay's mailbox-id
    encoder writes, and the self test passes. *)
Theorem link_codec_correct :
  (forall payload spaces, bytes_ok payload -> Forall (fun c => is_whitespace c = true) spaces ->
     link_payload (LINK_PREFIX ++ b64url_encode payload ++ spaces) = Some payload /\
     link_payload (b64url_encode payload ++ spaces) = Some payload) /\
  (forall s, b64url_decode s = reference_decode s) /\
  (forall data, b64url_encode data = encode_mailbox_id data) /\
  selftest = Ok (bstr "selftest ok").
Proof.
  split_and!; [exact link_payload_encoded|exact decode_reference|exact encode_relay|]. vm_compute. reflexivity.
Qed.
