(* ===== verification/Harness.v ===== *)
(** The deposit harness ([tezca-core/examples/deposit_harness.rs]): the command
    line, its state directory, and its three commands over the client facade.
    A run is a function of the machine's state; it returns, exits with a code
    or panics, and what it printed is part of the state. *)

From stdpp Require Import pretty.
From S2P Require Import Prelude Errors Utf8 Config Envelope Cursor Pairing Recovery Storage Keys.
From S2P Require Import Transport Tls Open Session Engine Client EngineDemo EngineRuns EngineSend.
From S2P Require Import Base64 RelayWire RelayApi FuzzTargets HarnessCodec.

Definition DB_FILE : bytes := bstr "titlan.db".
Definition KEY_FILE : bytes := bstr "db.key".
Definition DEFAULT_TEXT : str := bstr "doze-latency checklist deposit".

(** [Path::join] with a relative name. *)
Definition join (dir name : bytes) : bytes :=
  match last dir with
  | None => name
  | Some c => if c =? 47 then dir ++ name else dir ++ [47] ++ name
  end.

(** ** The command line *)

Definition FLAGS : list str := map bstr ["--dir"; "--relay"; "--offer"; "--conv"; "--text"]%string.

(** The loop; what went wrong is printed before the usage. *)
Fixpoint parse_loop (args : list str) (flags : gmap str str) : result bytes (gmap str str) :=
  match args with
  | [] => Ok flags
  | flag :: rest =>
    if bool_decide (flag ∈ FLAGS) then
      match rest with
      | value :: rest => parse_loop rest (<[flag := value]> flags)
      | [] => Err (bstr "missing value for " ++ as_bytes flag)
      end
    else Err (bstr "unknown flag: " ++ as_bytes flag)
  end.

Definition parse_flags (args : list str) : result bytes (gmap str str) := parse_loop args ∅.

Definition USAGE : bytes :=
  bstr "usage: deposit_harness <offer|respond|send|selftest> --dir <state-dir> --relay <url> [--offer <link>] [--conv <hex>] [--text <s>]".

#[local] Arguments bstr : simpl never.

(** ** The machine *)

(** What the database library writes of the tables that an engine holds. *)
Class SqlcipherWrites `{Sqlcipher} := { write_tables : bytes -> Keys.t * Db.t -> Disk -> Disk }.

Module Vm.
Section vm.
Context `{Platform} `{Sqlcipher}.
(** Plain files by path, which directories can be made and which files
    written, the encrypted files, the outside, and the two outputs. *)
Record t := mk {
  files : gmap bytes bytes;
  mkdir_ok : bytes -> bool;
  write_ok : bytes -> bool;
  disk : Disk;
  world : World;
  stdout : list bytes;
  stderr : list bytes
}.
Definition with_files (v : t) (f : gmap bytes bytes) : t :=
  mk f (mkdir_ok v) (write_ok v) (disk v) (world v) (stdout v) (stderr v).
Definition with_disk (v : t) (d : Disk) : t :=
  mk (files v) (mkdir_ok v) (write_ok v) d (world v) (stdout v) (stderr v).
Definition with_world (v : t) (w : World) : t :=
  mk (files v) (mkdir_ok v) (write_ok v) (disk v) w (stdout v) (stderr v).
Definition say (v : t) (line : bytes) : t :=
  mk (files v) (mkdir_ok v) (write_ok v) (disk v) (world v) (stdout v ++ [line]) (stderr v).
Definition complain (v : t) (line : bytes) : t :=
  mk (files v) (mkdir_ok v) (write_ok v) (disk v) (world v) (stdout v) (stderr v ++ [line]).
End vm.
End Vm.

(** A run: [None] while it is still waiting for an input; an error is the code
    the process exits with. *)
Definition prog `{Platform} `{Sqlcipher} (A : Type) : Type := Vm.t -> option (result Z A * Vm.t).

#[export] Instance prog_ret `{Platform} `{Sqlcipher} : MRet prog := fun A a v => Some (Ok a, v).
#[export] Instance prog_bind `{Platform} `{Sqlcipher} : MBind prog := fun A B f m v =>
  match m v with
  | Some (Ok a, v') => f a v'
  | Some (Err code, v') => Some (Err code, v')
  | Some (Panic, v') => Some (Panic, v')
  | None => None
  end.

(** What a run is given from outside besides the machine: what [initialize]
    and the offer generate, the engine's own tasks during each second of the
    wait, the socket of the responder, and the clock in milliseconds. *)
Module Inputs.
Section inputs.
Context `{Platform} `{LibSignal}.
Record t := mk {
  generated : Generated;
  new_record : Z -> PreKeyRecord;
  background : nat -> Engine.t -> Engine.t;
  handoff : list HandoffInput;
  clock_ms : list (option Z)
}.
End inputs.
End Inputs.

Module Harness.
Section harness.
Context `{Platform} `{SqlText} `{LibSignal} `{RatchetLib} `{!Crypto} `{!Tls} `{Sqlcipher} `{!SqlcipherWrites}.
Variable build : anchor.
Variable inputs : Inputs.t.

Definition exit {A} (code : Z) : prog A := fun v => Some (Err code, v).
Definition panic {A} : prog A := fun v => Some (Panic, v).
Definition say (line : bytes) : prog unit := fun v => Some (Ok tt, Vm.say v line).
Definition complain (line : bytes) : prog unit := fun v => Some (Ok tt, Vm.complain v line).
Definition expect_some {A} (o : option A) : prog A := match o with Some a => mret a | None => panic end.

Definition usage_exit {A} : prog A := _ ← complain USAGE; exit 2.

Definition required (flags : gmap str str) (key : str) : prog str :=
  match flags !! key with
  | Some v => mret v
  | None => _ ← complain (bstr "missing required flag " ++ as_bytes key); usage_exit
  end.

(** The [i]-th reading of the clock. *)
Definition now_ms (i : nat) : prog Z := expect_some (mjoin (Inputs.clock_ms inputs !! i)).

Definition load_or_create_key (dir : bytes) : prog bytes :=
  fun v =>
  let path := join dir KEY_FILE in
  match Vm.files v !! path with
  | Some content =>
    (s ← expect_some (utf8_decode content);
     b ← expect_some (hex_decode (trim s));
     if (length b =? 32)%nat then mret b else panic) v
  | None =>
    let '(b, w) := random_bytes 32 (Vm.world v) in
    let v := Vm.with_world v w in
    if Vm.write_ok v path
    then Some (Ok b, Vm.with_files v (<[path := hex_encode b ++ [10]]> (Vm.files v)))
    else Some (Panic, v)
  end.

(** A call of the client that is [expect]ed to succeed; what it wrote to its
    tables is in the file, whatever it returned. *)
Definition call {A} (path : bytes) (s : Engine.t) (m : st Engine.t A) : prog (A * Engine.t) :=
  fun v =>
  let '(r, s') := m s in
  let v' := Vm.with_world (Vm.with_disk v (write_tables path (Engine.keys s', Engine.db s') (Vm.disk v)))
                          (Engine.world s') in
  match r with Ok a => Some (Ok (a, s'), v') | _ => Some (Panic, v') end.

Definition on_disk {A} (m : st Disk A) : prog A :=
  fun v => match m (Vm.disk v) with
           | (Ok a, d) => Some (Ok a, Vm.with_disk v d)
           | (_, d) => Some (Panic, Vm.with_disk v d)
           end.

Definition create_dir_all (dir : bytes) : prog unit :=
  fun v => if Vm.mkdir_ok v dir then Some (Ok tt, v) else Some (Panic, v).

Definition open_client (dir relay : bytes) : prog Engine.t :=
  _ ← create_dir_all dir;
  key ← load_or_create_key dir;
  s ← (fun v => on_disk (TitlanClient.open build (join dir DB_FILE) (DbKey.from_bytes key) relay (Vm.world v)) v);
  '(ready, s) ← call (join dir DB_FILE) s TitlanClient.is_initialized;
  if (ready : bool) then mret s
  else match TitlanClient.initialize_identity (Inputs.generated inputs) s with
       | None => fun _ => None
       | Some (r, s') => '(_, s') ← call (join dir DB_FILE) s (fun _ => (r, s')); mret s'
       end.

(** The wait of [offer]: a second of the background, then the list. *)
Fixpoint wait_loop (path : bytes) (before : gset bytes) (secs i : nat) (s : Engine.t) : prog (option bytes) :=
  match secs with
  | O => mret None
  | S secs =>
    '(now, s) ← call path (Inputs.background inputs i s) TitlanClient.list_conversations;
    match List.find (fun c => negb (bool_decide (c ∈ before))) now with
    | Some new => mret (Some new)
    | None => wait_loop path before secs (S i) s
    end
  end.

Definition offer (flags : gmap str str) : prog unit :=
  dir ← required flags (bstr "--dir"); let dir := as_bytes dir in
  relay ← required flags (bstr "--relay"); let relay := as_bytes relay in
  let path := join dir DB_FILE in
  s ← open_client dir relay;
  '(convs, s) ← call path s TitlanClient.list_conversations;
  '(payload, s) ← call path s (TitlanClient.export_pairing_offer (Inputs.new_record inputs));
  let payload := PairingPayload.as_bytes payload in
  '(validity, s) ← call path s (pure_r (TitlanClient.peek_offer_validity payload));
  let wait_secs := OfferValidity.ttl_s validity in
  let shown := bstr (pretty wait_secs) in
  _ ← say (LINK_PREFIX ++ b64url_encode payload);
  _ ← say (bstr "offer minted — scan/paste it on the device within " ++ shown ++ bstr "s (single-use)");
  found ← wait_loop path (list_to_set convs) (Z.to_nat wait_secs) 0 s;
  match found with
  | Some new => say (bstr "paired: conversation " ++ hex_encode new)
  | None =>
    _ ← complain (bstr "no pairing completed within " ++ shown ++ bstr "s (the offer is dead past its TTL)");
    exit 1
  end.

Definition respond (flags : gmap str str) : prog unit :=
  dir ← required flags (bstr "--dir"); let dir := as_bytes dir in
  relay ← required flags (bstr "--relay"); let relay := as_bytes relay in
  link ← required flags (bstr "--offer");
  match link_payload link with
  | None => _ ← complain (bstr "--offer is not a titlan://pair# link or base64url payload"); exit 2
  | Some payload =>
    s ← open_client dir relay;
    '(conv, _) ← call (join dir DB_FILE) s
                   (TitlanClient.begin_pairing_from_offer payload (Inputs.handoff inputs));
    match conv with
    | Some conv => say (bstr "paired: conversation " ++ hex_encode conv)
    | None => fun _ => None
    end
  end.

(** The conversation to send to: named, or the only one. *)
Definition choose_conversation (flags : gmap str str) (dir : bytes) (convs : list bytes) : prog bytes :=
  match flags !! bstr "--conv" with
  | Some h =>
    b ← expect_some (hex_decode (trim h));
    if (length b =? 16)%nat then mret b else panic
  | None =>
    match convs with
    | [conv] => mret conv
    | _ =>
      _ ← complain (bstr (pretty (zlen convs)) ++ bstr " conversations in " ++ dir
                    ++ bstr " — pass --conv <hex-id> (pair first with `offer`/`respond` if there are none)");
      exit 2
    end
  end.

(** What the check of [send] says of the rows still pending. *)
Definition report (pending : list (bytes * InnerFrame.t)) : prog unit :=
  if (length pending =? 0)%nat then
    t ← now_ms 1;
    say (bstr "deposit-confirmed epoch_ms=" ++ bstr (pretty t))
  else
    _ ← complain (bstr "deposit NOT confirmed: " ++ bstr (pretty (zlen pending))
                  ++ bstr " chat message(s) still pending — relay unreachable or peer mailbox gone. Do not re-run blindly: the next send would flush this backlog and deposit more than one message.");
    exit 1.

(** The check, through a second handle on the store. *)
Definition confirm (dir conv : bytes) : prog unit :=
  key ← load_or_create_key dir;
  conn ← on_disk (open_store (join dir DB_FILE) (DbKey.from_bytes key));
  pending ← on_disk (read_r (fun d => pending_chat (snd (read_tables conn d)) conv));
  report pending.

(** The deposit between its two lines. *)
Definition deposit_one (dir : bytes) (s : Engine.t) (conv text : bytes) : prog unit :=
  t ← now_ms 0;
  _ ← say (bstr "deposit-start epoch_ms=" ++ bstr (pretty t));
  _ ← call (join dir DB_FILE) s (TitlanClient.send_chat conv text);
  confirm dir conv.

Definition send (flags : gmap str str) : prog unit :=
  dir ← required flags (bstr "--dir"); let dir := as_bytes dir in
  relay ← required flags (bstr "--relay"); let relay := as_bytes relay in
  let text := default DEFAULT_TEXT (flags !! bstr "--text") in
  s ← open_client dir relay;
  '(convs, s) ← call (join dir DB_FILE) s TitlanClient.list_conversations;
  conv ← choose_conversation flags dir convs;
  deposit_one dir s conv (as_bytes text).

Definition print_line (r : run bytes) : prog unit := match r with Ok line => say line | _ => panic end.
Definition run_selftest : prog unit := print_line selftest.

(** [args] without the program's name. *)
Definition main (args : list str) : prog unit :=
  match args with
  | [] => usage_exit
  | cmd :: rest =>
    match parse_flags rest with
    | Err e => _ ← complain e; usage_exit
    | Panic => panic
    | Ok flags =>
      if beq cmd (bstr "selftest") then run_selftest
      else if beq cmd (bstr "offer") then offer flags
      else if beq cmd (bstr "respond") then respond flags
      else if beq cmd (bstr "send") then send flags
      else usage_exit
    end
  end.
End harness.
End Harness.

(** ** What the libraries promise the harness *)

(** [hex::decode] reads back what [hex::encode] wrote; the tables an engine
    writes are what its file then holds, under the same key and schema. *)
Class HarnessLaws `{Tls} `{SqlcipherLaws} `{!SqlcipherWrites} := {
  hex_law : forall b, bytes_ok b -> hex_decode (hex_encode b) = Some b;
  write_law : forall path t d q,
    file_at (write_tables path t d) q =
    if beq q path then (fun f => DbFile.mk (DbFile.key_hex f) (DbFile.schema f) t) <$> file_at d path
    else file_at d q
}.

(** ** Text files *)

Lemma hex_digit_plain n : 0 <= n < 16 -> 0 <= hex_digit n < 128 /\ is_whitespace (hex_digit n) = false.
Proof.
  intros Hn. assert (Hall : Forall (fun n => 0 <= hex_digit n < 128 /\ is_whitespace (hex_digit n) = false) (seqZ 0 16))
    by by_compute.
  rewrite Forall_forall in Hall. apply Hall, elem_of_seqZ. lia.
Qed.

Lemma hex_encode_plain b :
  bytes_ok b -> Forall (fun c => 0 <= c < 128 /\ is_whitespace c = false) (hex_encode b).
Proof.
  induction 1 as [|x b Hx _ IH]; [constructor|]. unfold hex_encode, byte_ok in *. simpl.
  repeat constructor; try apply hex_digit_plain; try apply IH;
    try (split; [apply Z.div_pos; lia|apply Z.div_lt_upper_bound; lia]); apply Z.mod_pos_bound; lia.
Qed.

Lemma utf8_decode_ascii l : Forall (fun b => 0 <= b < 128) l -> utf8_decode l = Some l.
Proof.
  induction 1 as [|b l Hb _ IH]; [done|]. simpl. unfold between.
  by rewrite (proj2 (Z.leb_le 0 b)), (proj2 (Z.leb_le b 127)), IH by lia.
Qed.

(** A line of hexadecimal text reads back as its bytes. *)
Lemma hex_line_reads `{HarnessLaws} b :
  bytes_ok b -> (s ← utf8_decode (hex_encode b ++ [10]); hex_decode (trim s)) = Some b.
Proof.
  intros Hb. pose proof (hex_encode_plain b Hb) as Hp. rewrite utf8_decode_ascii.
  - simpl. rewrite trim_end_spaces; [by apply hex_law| |by repeat constructor].
    eapply Forall_impl; [exact Hp|naive_solver].
  - apply Forall_app. split; [eapply Forall_impl; [exact Hp|naive_solver]|repeat constructor; lia].
Qed.

(** ** The state directory *)

Section directory.
Context `{Platform} `{SqlText} `{LibSignal} `{RatchetLib} `{!Crypto} `{!Tls} `{Sqlcipher} `{!SqlcipherWrites}.
Context `{!SqlcipherLaws} `{!HarnessLaws} `{!StoreWorks}.
Variable build : anchor.
Variable inputs : Inputs.t.

(** The directory of a harness that has run before: its key file, and the
    store under that key with these tables. *)
Record dir_holds (v : Vm.t) (dir key : bytes) (k : Keys.t) (d : Db.t) : Prop := {
  dh_key : Vm.files v !! join dir KEY_FILE = Some (hex_encode key ++ [10]);
  dh_bytes : bytes_ok key /\ length key = 32%nat;
  dh_store : exists f, file_at (Vm.disk v) (join dir DB_FILE) = Some f /\
    DbFile.key_hex f = hex_encode key /\ DbFile.tables f = (k, d) /\
    exists n, (n <= 4)%nat /\ DbFile.schema f = schema_at n
}.

Lemma prog_bind_Some {A B} (f : A -> prog B) (m : prog A) v r v' :
  mbind f m v = Some (r, v') ->
  (exists a v1, m v = Some (Ok a, v1) /\ f a v1 = Some (r, v')) \/
  (exists c, m v = Some (Err c, v') /\ r = Err c) \/ (m v = Some (Panic, v') /\ r = Panic).
Proof.
  unfold mbind, prog_bind. destruct (m v) as [[[a|c|] v1]|]; [..|done].
  - eauto.
  - intros [= <- <-]. right. left. eauto.
  - intros [= <- <-]. by right; right.
Qed.

Lemma key_file_reads v dir key :
  Vm.files v !! join dir KEY_FILE = Some (hex_encode key ++ [10]) -> bytes_ok key -> length key = 32%nat ->
  Harness.load_or_create_key dir v = Some (Ok key, v).
Proof.
  intros Hk Hb Hl. unfold Harness.load_or_create_key. rewrite Hk.
  pose proof (hex_line_reads key Hb) as Hr. destruct (utf8_decode _) as [s|]; [|done]. simpl in Hr.
  unfold mbind, prog_bind, Harness.expect_some. cbn [mret prog_ret]. rewrite Hr. cbn [mret prog_ret]. by rewrite Hl.
Qed.

(** The key that a first run makes is the key that later runs read. *)
Lemma created_key_reads v dir key v' :
  Vm.files v !! join dir KEY_FILE = None ->
  (forall w, bytes_ok (random_bytes 32 w).1 /\ length (random_bytes 32 w).1 = 32%nat) ->
  Harness.load_or_create_key dir v = Some (Ok key, v') -> Harness.load_or_create_key dir v' = Some (Ok key, v').
Proof.
  intros Hn Hr. unfold Harness.load_or_create_key at 1. rewrite Hn.
  specialize (Hr (Vm.world v)). destruct (random_bytes 32 (Vm.world v)) as [b w]. destruct Hr as [Hb Hl].
  destruct (Vm.write_ok _ _); [|done]. intros [= <- <-].
  apply key_file_reads; [|done..]. simpl. by rewrite lookup_insert_eq.
Qed.

(** Opening the store of the directory again, under its key. *)
Lemma reopen_holds v dir key k d :
  dir_holds v dir key k d ->
  match open_store (join dir DB_FILE) (DbKey.from_bytes key) (Vm.disk v) with
  | (Ok c, d') => read_tables c d' = (k, d) /\ dir_holds (Vm.with_disk v d') dir key k d
  | (_, d') => dir_holds (Vm.with_disk v d') dir key k d
  end.
Proof.
  intros [Hk Hb (f & Hf & Hh & Ht & Hs)].
  assert (Hks : known_schema (Vm.disk v) (join dir DB_FILE)) by (intros f' E; by simplify_eq).
  pose proof (open_store_cases _ (DbKey.from_bytes key) _ Hks) as Ho. unfold file_kept, file_or_new in Ho.
  rewrite Hf in Ho. cbn [default] in Ho.
  assert (Hv : forall m d', at_version (Vm.disk v) (join dir DB_FILE) (hex_encode key) (DbFile.tables f) m d' ->
    dir_holds (Vm.with_disk v d') dir key k d).
  { intros m d' [Hm Hfile _]. split; [done|done|]. eexists. simpl. rewrite Hfile. split; [reflexivity|].
    simpl. split_and!; [done|done|by exists m]. }
  destruct (open_store _ _ (Vm.disk v)) as [[c|e|] d']; [| |done].
  - destruct Ho as (_ & Hc & Hav). split; [|by eapply Hv].
    destruct (read_law c d' _ _ _ Hc (av_file _ _ _ _ _ _ Hav) eq_refl) as [_ ->]. done.
  - destruct Ho as [[He|(_ & m & Hav)] _]; [|by eapply Hv]. split; [done|done|]. exists f. simpl. rewrite He. done.
Qed.

(** A call of the client leaves its tables in the store. *)
Lemma call_holds {A} v dir key k d s (m : st Engine.t A) r v' :
  dir_holds v dir key k d -> Harness.call (join dir DB_FILE) s m v = Some (r, v') ->
  exists r' s', m s = (r', s') /\ dir_holds v' dir key (Engine.keys s') (Engine.db s') /\
    Vm.stdout v' = Vm.stdout v /\
    match r with Ok (a, s1) => r' = Ok a /\ s1 = s' | Err _ => False | Panic => True end.
Proof.
  intros [Hk Hb (f & Hf & Hh & Ht & Hs)] E. unfold Harness.call in E. destruct (m s) as [r' s'] eqn:Em.
  exists r', s'. split; [done|].
  assert (Hd : dir_holds v' dir key (Engine.keys s') (Engine.db s') /\ Vm.stdout v' = Vm.stdout v).
  { assert (v' = Vm.with_world (Vm.with_disk v (write_tables (join dir DB_FILE) (Engine.keys s', Engine.db s') (Vm.disk v)))
                   (Engine.world s')) as -> by (by destruct r'; simplify_eq).
    split; [|done]. split; [done|done|]. eexists. simpl. rewrite write_law, beq_refl, Hf. split; [reflexivity|]. done. }
  destruct Hd as [Hd Ho]. split_and!; [done|done|]. by destruct r'; simplify_eq.
Qed.

Lemma load_bind {B} (f : bytes -> prog B) v dir key k d :
  dir_holds v dir key k d -> mbind f (Harness.load_or_create_key dir) v = f key v.
Proof. intros [Hk [Hb Hl] _]. unfold mbind, prog_bind. by rewrite (key_file_reads v dir key). Qed.

(** The client made over the directory has its tables and the outside. *)
Lemma client_open_holds v dir relay key k d r v' :
  dir_holds v dir key k d ->
  Harness.on_disk (TitlanClient.open build (join dir DB_FILE) (DbKey.from_bytes key) relay (Vm.world v)) v = Some (r, v') ->
  dir_holds v' dir key k d /\ Vm.stdout v' = Vm.stdout v /\
  match r with
  | Ok s => Engine.keys s = k /\ Engine.db s = d /\ Engine.world s = Vm.world v
  | Err _ => False
  | Panic => True
  end.
Proof.
  intros Hh. pose proof (reopen_holds _ _ _ _ _ Hh) as Ho.
  unfold Harness.on_disk, TitlanClient.open, TitlanClient.open_timed, mbind, st_bind, read_r.
  destruct (open_store _ _ (Vm.disk v)) as [[c|e|] d']; [|by intros [= <- <-]..].
  destruct Ho as [-> Hh']. unfold Engine.new.
  destruct (build_http_client _ _) as [h|e|]; rsimpl; [|by intros [= <- <-]..].
  destruct PaddingProfile.default_profile; rsimpl; by intros [= <- <-].
Qed.

Lemma open_client_holds v dir relay key k d r v' :
  dir_holds v dir key k d -> Keys.is_initialized k = true ->
  Harness.open_client build inputs dir relay v = Some (r, v') ->
  dir_holds v' dir key k d /\ Vm.stdout v' = Vm.stdout v /\
  match r with
  | Ok s => Engine.keys s = k /\ Engine.db s = d
  | Err _ => False
  | Panic => True
  end.
Proof.
  intros Hh Hi E. unfold Harness.open_client in E.
  apply prog_bind_Some in E as [([] & v1 & Em & E)|[(c & Em & ->)|[Em ->]]]; unfold Harness.create_dir_all in Em;
    destruct (Vm.mkdir_ok v dir); simplify_eq; [|done].
  rewrite (load_bind _ v1 dir key k d) in E by done.
  apply prog_bind_Some in E as [(s & v2 & Eo & E)|[(c & Eo & ->)|[Eo ->]]];
    destruct (client_open_holds _ _ _ _ _ _ _ _ Hh Eo) as (Hh' & Ho & Hr); [|done..].
  destruct Hr as (Hk & Hd & _). subst k d.
  apply prog_bind_Some in E as [([b s1] & v3 & Ec & E)|[(c & Ec & ->)|[Ec ->]]];
    destruct (call_holds _ _ _ _ _ _ _ _ _ Hh' Ec) as (r' & s' & Hm & Hh3 & Ho3 & Hr); [|done|];
    unfold TitlanClient.is_initialized in Hm; rewrite on_keys_works in Hm; unfold zoom, read_r in Hm; rewrite Hi in Hm;
    injection Hm as <- <-; [|by rewrite Ho3].
  destruct Hr as [[= <-] ->]. injection E as <- <-. by rewrite Ho3.
Qed.

Lemma report_holds pending v r v' :
  Harness.report inputs pending v = Some (r, v') ->
  Vm.files v' = Vm.files v /\ Vm.disk v' = Vm.disk v /\
  match r with
  | Ok _ => pending = [] /\
            exists t, Vm.stdout v' = Vm.stdout v ++ [bstr "deposit-confirmed epoch_ms=" ++ bstr (pretty (t : Z))]
  | Err c => c = 1 /\ pending <> []
  | Panic => True
  end.
Proof.
  unfold Harness.report. destruct pending as [|x p]; simpl.
  - unfold Harness.now_ms, Harness.expect_some. destruct (mjoin _) as [t|]; simpl.
    + intros [= <- <-]. by eauto.
    + by intros [= <- <-].
  - by intros [= <- <-].
Qed.

(** The check at the end reports what the store's outbox is. *)
Lemma confirm_holds v dir conv key k d r v' :
  dir_holds v dir key k d -> Harness.confirm inputs dir conv v = Some (r, v') ->
  dir_holds v' dir key k d /\
  match r with
  | Ok _ => pending_chat d conv = Ok [] /\
            exists t, Vm.stdout v' = Vm.stdout v ++ [bstr "deposit-confirmed epoch_ms=" ++ bstr (pretty (t : Z))]
  | Err c => c = 1 /\ exists p, pending_chat d conv = Ok p /\ p <> []
  | Panic => True
  end.
Proof.
  intros Hh E. unfold Harness.confirm in E. rewrite (load_bind _ v dir key k d) in E by done.
  pose proof (reopen_holds _ _ _ _ _ Hh) as Ho. unfold Harness.on_disk in E.
  apply prog_bind_Some in E as [(c & v1 & Em & E)|[(c & Em & ->)|[Em ->]]];
    destruct (open_store _ _ (Vm.disk v)) as [[c'|e|] d'] eqn:Eo; try discriminate Em; [|by injection Em as <-..].
  injection Em as <- <-. destruct Ho as [Ht Hh1].
  apply prog_bind_Some in E as [(p & v2 & Em & E)|[(c & Em & ->)|[Em ->]]];
    unfold read_r in Em; cbn [Vm.with_disk Vm.disk] in Em; rewrite Ht in Em; cbn [snd] in Em;
    destruct (pending_chat d conv) as [p'| |] eqn:Ep; try discriminate Em; [|by injection Em as <-..].
  injection Em as <- <-. apply report_holds in E as (Hf & Hd & Hr).
  split.
  - destruct Hh1 as [? ? ?]. split; rewrite ?Hf, ?Hd; done.
  - destruct r as [u|c|]; [| |done].
    + destruct Hr as [-> Ht']. done.
    + destruct Hr as [-> Hne]. eauto.
Qed.

(** The conversation a command line names, or the only one. *)
Definition chosen (flags : gmap str str) (convs : list bytes) (conv : bytes) : Prop :=
  match flags !! bstr "--conv" with
  | Some h => hex_decode (trim h) = Some conv /\ length conv = 16%nat
  | None => convs = [conv]
  end.

Lemma choose_holds flags dir convs v r v' :
  Harness.choose_conversation flags dir convs v = Some (r, v') ->
  Vm.files v' = Vm.files v /\ Vm.disk v' = Vm.disk v /\ Vm.stdout v' = Vm.stdout v /\
  match r with
  | Ok conv => chosen flags convs conv
  | Err c => c = 2 /\ flags !! bstr "--conv" = None /\ length convs <> 1%nat
  | Panic => True
  end.
Proof.
  unfold Harness.choose_conversation, chosen. destruct (flags !! bstr "--conv") as [h|].
  - unfold Harness.expect_some. destruct (hex_decode _) as [b|]; unfold mbind, prog_bind; simpl.
    + destruct (Nat.eqb_spec (length b) 16); intros E; injection E as <- <-; done.
    + by intros [= <- <-].
  - by destruct convs as [|c [|]]; intros [= <- <-].
Qed.

Lemma chosen_length flags d convs conv :
  list_conversation_ids d = Ok convs -> chosen flags convs conv -> length conv = 16%nat.
Proof.
  intros [= <-]. unfold chosen. destruct (flags !! _) as [h|]; [by intros [_ ?]|]. intros Hl.
  assert (Hin : conv ∈ [conv]) by set_solver. rewrite <- Hl in Hin.
  apply list_elem_of_fmap in Hin as (x & -> & _). apply blob_length.
Qed.

Lemma holds_frame v v' dir key k d :
  Vm.files v' = Vm.files v -> Vm.disk v' = Vm.disk v -> dir_holds v dir key k d -> dir_holds v' dir key k d.
Proof. intros Hf Hd [? ? ?]. split; rewrite ?Hf, ?Hd; done. Qed.

Lemma required_bind {B} flags key x (f : str -> prog B) v :
  flags !! key = Some x -> mbind f (Harness.required flags key) v = f x v.
Proof. intros Hx. unfold mbind, prog_bind, Harness.required. by rewrite Hx. Qed.

(** The outcome of a deposit to one conversation, over the tables [d]. *)
Definition deposited (v : Vm.t) (dir key : bytes) (d : Db.t) (conv text : bytes) (r : result Z unit) (v' : Vm.t) : Prop :=
  exists k' d', dir_holds v' dir key k' d' /\ db_ok d' /\
  match r with
  | Ok _ => exists id backlog convo mailbox t0 t1,
      pending_chat d conv = Ok backlog /\ pending_chat d' conv = Ok [] /\
      get_conversation d conv = Ok (Some convo) /\ Conversation.mailbox_send convo = Some mailbox /\
      Forall (left_outbox convo mailbox) (backlog ++ [(id, InnerFrame.chat_v1 text)]) /\
      Vm.stdout v' = Vm.stdout v ++ [bstr "deposit-start epoch_ms=" ++ bstr (pretty (t0 : Z));
                                     bstr "deposit-confirmed epoch_ms=" ++ bstr (pretty (t1 : Z))]
  | Err c => c = 1 /\ exists id backlog n, pending_chat d conv = Ok backlog /\
      pending_chat d' conv = Ok (drop n (backlog ++ [(id, InnerFrame.chat_v1 text)])) /\
      drop n (backlog ++ [(id, InnerFrame.chat_v1 text)]) <> []
  | Panic => True
  end.

Lemma deposit_one_holds v dir key k s conv text r v' :
  dir_holds v dir key k (Engine.db s) -> db_ok (Engine.db s) -> length conv = 16%nat ->
  (forall w, length (random_bytes 16 w).1 = 16%nat) ->
  Harness.deposit_one inputs dir s conv text v = Some (r, v') -> deposited v dir key (Engine.db s) conv text r v'.
Proof.
  intros Hh Hd Hl Hid E. unfold Harness.deposit_one in E.
  unfold Harness.now_ms at 1, Harness.expect_some in E. destruct (mjoin _) as [t0|].
  2: { injection E as <- <-. by exists k, (Engine.db s). }
  unfold mbind at 1, prog_bind at 1 in E. cbn [mret prog_ret] in E.
  unfold mbind at 1, prog_bind at 1, Harness.say at 1 in E.
  set (v1 := Vm.say _ _) in E. assert (Hh1 : dir_holds v1 dir key k (Engine.db s)) by (by apply (holds_frame v)).
  apply prog_bind_Some in E as [([u s1] & v2 & Em & E)|[(c & Em & ->)|[Em ->]]];
    destruct (call_holds _ _ _ _ _ _ _ _ _ Hh1 Em) as (r2 & s2 & Hm & Hh2 & Ho2 & Hr2); [|done|].
  - destruct Hr2 as [-> ->].
    destruct (send_chat_cases _ _ _ _ _ Hd Hl Hid Hm) as [[[e He] _]|(_ & Hd2 & id & p & n & Hp & Hp2 & Hall)]; [done|].
    destruct (confirm_holds _ _ _ _ _ _ _ _ Hh2 E) as [Hh3 Hr3]. exists (Engine.keys s2), (Engine.db s2).
    split_and!; [done|done|]. destruct r as [u'|c|]; [| |done].
    + destruct Hr3 as [Hempty [t1 Ht1]]. destruct (Hall Hempty) as (convo & mailbox & Hc & Hmb & Hf).
      exists id, p, convo, mailbox, t0, t1. split_and!; try done. rewrite Ht1, Ho2. simpl. by rewrite <- app_assoc.
    + destruct Hr3 as [-> (p' & Hp' & Hne)]. split; [done|]. exists id, p, n. split_and!; try done. congruence.
  - exists (Engine.keys s2), (Engine.db s2). split_and!; [done| |done].
    destruct (send_chat_cases _ _ _ _ _ Hd Hl Hid Hm) as [[_ Hs]|(_ & Hd2 & _)]; [by rewrite Hs|done].
Qed.
End directory.

(** ** The wait of an offer *)

Section waiting.
Context `{StoreWorks} `{SqlText} `{LibSignal} `{RatchetLib} `{!Crypto} `{!Tls} `{Sqlcipher} `{!SqlcipherWrites}.
Variable build : anchor.
Variable inputs : Inputs.t.

(** The engine after [n] seconds of its own tasks. *)
Fixpoint after (n : nat) (s : Engine.t) : Engine.t :=
  match n with O => s | S k => Inputs.background inputs k (after k s) end.

(** The first conversation listed after [n] seconds that was not there before. *)
Definition newcomer (before : list bytes) (s : Engine.t) (n : nat) : option bytes :=
  match list_conversation_ids (Engine.db (after n s)) with
  | Ok now => List.find (fun c => negb (bool_decide (c ∈ before))) now
  | _ => None
  end.

Lemma newcomer_new before s n c : newcomer before s n = Some c -> c ∉ before.
Proof. unfold newcomer. simpl. intros [_ Hc]%List.find_some. by reflect_bools. Qed.

Lemma find_before before l :
  List.find (fun c : bytes => negb (bool_decide (c ∈ before))) l
  = List.find (fun c => negb (bool_decide (c ∈ (list_to_set before : gset bytes)))) l.
Proof.
  induction l as [|c l IH]; simpl; [done|].
  rewrite (bool_decide_ext (c ∈ before) (c ∈ (list_to_set before : gset bytes))) by set_solver.
  destruct (negb _); [done|exact IH].
Qed.

(** One poll. *)
Lemma poll_eq path s v :
  Harness.call path s TitlanClient.list_conversations v =
  Some (Ok (((fun x => blob16 (ConvRow.id x.2)) <$> merge_sort newer (indexed (Engine.db s))), s),
        Vm.with_world (Vm.with_disk v (write_tables path (Engine.keys s, Engine.db s) (Vm.disk v))) (Engine.world s)).
Proof. unfold Harness.call, TitlanClient.list_conversations. by rewrite db_get_works. Qed.

Lemma wait_loop_spec path before s : forall secs i v r v',
  Harness.wait_loop inputs path (list_to_set before) secs i (after i s) v = Some (r, v') ->
  Vm.stdout v' = Vm.stdout v /\ exists o, r = Ok o /\
  match o with
  | Some c => exists n, (i < n <= i + secs)%nat /\ newcomer before s n = Some c /\
                forall m, (i < m < n)%nat -> newcomer before s m = None
  | None => forall m, (i < m <= i + secs)%nat -> newcomer before s m = None
  end.
Proof.
  induction secs as [|secs IH]; intros i v r v' E; cbn [Harness.wait_loop] in E.
  { injection E as <- <-. split; [done|]. exists None. split; [done|]. lia. }
  unfold mbind at 1, prog_bind at 1 in E. rewrite poll_eq in E. set (v1 := Vm.with_world _ _) in E.
  assert (Hn : newcomer before s (S i) = List.find (fun c => negb (bool_decide (c ∈ (list_to_set before : gset bytes))))
    ((fun x => blob16 (ConvRow.id x.2)) <$> merge_sort newer (indexed (Engine.db (Inputs.background inputs i (after i s)))))).
  { unfold newcomer. simpl. apply find_before. }
  rewrite <- Hn in E. destruct (newcomer before s (S i)) as [c|] eqn:Ec.
  - injection E as <- <-. split; [done|]. exists (Some c). split; [done|]. exists (S i).
    split_and!; [lia|lia|done|]. lia.
  - apply (IH (S i)) in E as (Ho & o & -> & Hspec). split; [done|]. exists o. split; [done|].
    destruct o as [c|].
    + destruct Hspec as (n & Hle & Hc & Hm). exists n. split_and!; [lia|lia|done|]. intros m Hm2.
      destruct (decide (m = S i)) as [->|]; [done|]. apply Hm. lia.
    + intros m Hm. destruct (decide (m = S i)) as [->|]; [done|]. apply Hspec. lia.
Qed.

(** Calls of the client never exit. *)
Lemma call_cases {A} path s (m : st Engine.t A) v r v' :
  Harness.call path s m v = Some (r, v') ->
  Vm.stdout v' = Vm.stdout v /\ (r = Panic \/ exists a s', m s = (Ok a, s') /\ r = Ok (a, s')).
Proof.
  unfold Harness.call. destruct (m s) as [[a|e|] s'] eqn:Em; intros [= <- <-]; split; try done; eauto.
Qed.

Lemma call_bind {A B} path s (m : st Engine.t A) (f : A * Engine.t -> prog B) v r v' :
  mbind f (Harness.call path s m) v = Some (r, v') ->
  r = Panic \/ exists a s' v1, m s = (Ok a, s') /\ Vm.stdout v1 = Vm.stdout v /\ f (a, s') v1 = Some (r, v').
Proof.
  intros E. apply prog_bind_Some in E as [(x & v1 & Ec & E)|[(c & Ec & _)|[_ ->]]]; [| |by left];
    apply call_cases in Ec as [Ho [Hx|(a & s' & Hm & Hx)]]; try done.
  injection Hx as ->. right. by exists a, s', v1.
Qed.

Lemma load_no_exit dir v c v' : Harness.load_or_create_key dir v <> Some (Err c, v').
Proof.
  unfold Harness.load_or_create_key. destruct (Vm.files v !! _) as [content|].
  - unfold mbind, prog_bind, Harness.expect_some. destruct (utf8_decode content); [|done]. cbn [mret prog_ret].
    destruct (hex_decode _); [|done]. cbn [mret prog_ret]. by destruct (_ =? _)%nat.
  - destruct (random_bytes 32 _). by destruct (Vm.write_ok _ _).
Qed.

Lemma open_client_no_exit dir relay v c v' : Harness.open_client build inputs dir relay v <> Some (Err c, v').
Proof.
  intros E. unfold Harness.open_client in E.
  apply prog_bind_Some in E as [([] & v1 & _ & E)|[(c' & Em & _)|[_ ?]]]; [|unfold Harness.create_dir_all in Em; by destruct (Vm.mkdir_ok v dir)|done].
  apply prog_bind_Some in E as [(key & v2 & _ & E)|[(c' & Em & _)|[_ ?]]]; [|by apply load_no_exit in Em|done].
  apply prog_bind_Some in E as [(s & v3 & _ & E)|[(c' & Em & _)|[_ ?]]]; [|unfold Harness.on_disk in Em|done].
  2: { destruct (TitlanClient.open _ _ _ _ _ _) as [[|e|] d]; done. }
  apply prog_bind_Some in E as [([b s1] & v4 & _ & E)|[(c' & Em & _)|[_ ?]]]; [| |done].
  2: { apply call_cases in Em as [_ [?|(? & ? & _ & ?)]]; done. }
  destruct b; [done|].
  destruct (TitlanClient.initialize_identity _ _) as [[r s']|]; [|done].
  apply prog_bind_Some in E as [([u s2] & v5 & _ & E)|[(c' & Em & _)|[_ ?]]]; [done| |done].
  apply call_cases in Em as [_ [?|(? & ? & _ & ?)]]; done.
Qed.
End waiting.

(** ** Properties *)

(** C38: the harness's word on a deposit.  Where the client's store works, in a
    directory that an earlier run made, on any network and for any outcome of the run, the directory stays
    one a later run can use.  A run of [send] that returns has printed its two
    lines, the outbox of the chosen conversation is empty, and every message
    that was in it, the new text last, was encrypted and accepted by the relay
    or refused by it for good.  A run that exits with 1 has stored the text
    and its outbox is not empty: it is a tail of the old outbox with the text
    at the end.  A run that exits with 2 changed nothing, because no
    conversation was named and there is not exactly one.  There is no other
    exit code. *)
Theorem send_honest `{StoreWorks} `{SqlText} `{LibSignal} `{RatchetLib} `{!Crypto} `{!Tls} `{Sqlcipher}
    `{!SqlcipherWrites} `{!SqlcipherLaws} `{!HarnessLaws}
    (build : anchor) (inputs : Inputs.t) (flags : gmap str str) (dir relay : str) (v v' : Vm.t) (r : result Z unit)
    (key : bytes) (k : Keys.t) (d : Db.t) (convs : list bytes)
    (text := as_bytes (default DEFAULT_TEXT (flags !! bstr "--text"))) :
  flags !! bstr "--dir" = Some dir -> flags !! bstr "--relay" = Some relay ->
  dir_holds v (as_bytes dir) key k d -> Keys.is_initialized k = true -> db_ok d ->
  list_conversation_ids d = Ok convs -> (forall w, length (random_bytes 16 w).1 = 16%nat) ->
  Harness.send build inputs flags v = Some (r, v') ->
  (r = Err 2 /\ dir_holds v' (as_bytes dir) key k d /\ flags !! bstr "--conv" = None /\ length convs <> 1%nat) \/
  (r = Panic /\ dir_holds v' (as_bytes dir) key k d) \/
  (exists conv, chosen flags convs conv /\ deposited v (as_bytes dir) key d conv text r v').
Proof.
  intros Hfd Hfr Hh Hi Hd Hl Hid E. unfold Harness.send in E.
  rewrite (required_bind _ _ _ _ _ Hfd), (required_bind _ _ _ _ _ Hfr) in E.
  apply prog_bind_Some in E as [(s & v1 & Em & E)|[(c & Em & ->)|[Em ->]]];
    destruct (open_client_holds _ _ _ _ _ _ _ _ _ _ Hh Hi Em) as (Hh1 & Ho1 & Hs); [|done|by auto].
  destruct Hs as [Hk Hdb].
  apply prog_bind_Some in E as [([cs s1] & v2 & Em2 & E)|[(c & Em2 & ->)|[Em2 ->]]];
    destruct (call_holds _ _ _ _ _ _ _ _ _ Hh1 Em2) as (r2 & s2 & Hm & Hh2 & Ho2 & Hr2); [|done|];
    unfold TitlanClient.list_conversations in Hm; rewrite db_get_works in Hm;
    injection Hm as <- <-; rewrite Hk, Hdb in Hh2; [|by auto].
  destruct Hr2 as [Hcs ->]. rewrite Hdb, Hl in Hcs. injection Hcs as ->.
  apply prog_bind_Some in E as [(conv & v3 & Em3 & E)|[(c & Em3 & ->)|[Em3 ->]]];
    destruct (choose_holds _ _ _ _ _ _ Em3) as (Hf3 & Hd3 & Ho3 & Hr3);
    apply (holds_frame _ _ _ _ _ _ Hf3 Hd3) in Hh2; [| |by auto].
  - right. right. exists conv. split; [done|]. rewrite <- Hdb in Hh2, Hd |- *.
    destruct (deposit_one_holds _ _ _ _ _ _ _ _ _ _ Hh2 Hd (chosen_length _ _ _ _ Hl Hr3) Hid E)
      as (k' & d' & Hh' & Hd' & Hr). exists k', d'. split_and!; [done|done|].
    replace (Vm.stdout v) with (Vm.stdout v3) by congruence. exact Hr.
  - left. destruct Hr3 as [-> ?]. done.
Qed.

(** The harness's wait, where the client's store works.  A run of [offer] prints the link of the very
    payload it exported, and then waits as many seconds as that payload's own
    lifetime says, no more.  It returns with the first conversation that was
    not there before, in the first second in which there is one, and exits with
    1 only when there was none in any of them; there is no other exit. *)
Theorem offer_waits `{StoreWorks} `{SqlText} `{LibSignal} `{RatchetLib} `{!Crypto} `{!Tls} `{Sqlcipher}
    `{!SqlcipherWrites}
    (build : anchor) (inputs : Inputs.t) (flags : gmap str str) (dir relay : str) (v v' : Vm.t) (r : result Z unit) :
  flags !! bstr "--dir" = Some dir -> flags !! bstr "--relay" = Some relay ->
  Harness.offer build inputs flags v = Some (r, v') ->
  r = Panic \/
  exists s v1 convs payload s1 issued ttl line,
    Harness.open_client build inputs (as_bytes dir) (as_bytes relay) v = Some (Ok s, v1) /\
    list_conversation_ids (Engine.db s) = Ok convs /\
    TitlanClient.export_pairing_offer (Inputs.new_record inputs) s = (Ok (PairingPayload.mk payload), s1) /\
    TitlanClient.peek_offer_validity payload = Ok (OfferValidity.mk issued ttl) /\
    let shown := [LINK_PREFIX ++ b64url_encode payload; line] in
    match r with
    | Ok _ => exists n c, (1 <= n <= Z.to_nat ttl)%nat /\ newcomer inputs convs s1 n = Some c /\ (c ∉ convs) /\
        (forall m : nat, (1 <= m < n)%nat -> newcomer inputs convs s1 m = None) /\
        Vm.stdout v' = Vm.stdout v1 ++ shown ++ [bstr "paired: conversation " ++ hex_encode c]
    | Err code => code = 1 /\ (forall m, (1 <= m <= Z.to_nat ttl)%nat -> newcomer inputs convs s1 m = None) /\
        Vm.stdout v' = Vm.stdout v1 ++ shown
    | Panic => False
    end.
Proof.
  intros Hfd Hfr E. unfold Harness.offer in E.
  rewrite (required_bind _ _ _ _ _ Hfd), (required_bind _ _ _ _ _ Hfr) in E.
  apply prog_bind_Some in E as [(s & v1 & Eo & E)|[(c & Eo & _)|[_ ->]]];
    [|by apply open_client_no_exit in Eo|by left].
  apply call_bind in E as [->|(convs & s' & v2 & Hl & Ho2 & E)]; [by left|].
  unfold TitlanClient.list_conversations in Hl. rewrite db_get_works in Hl. injection Hl as Hl <-.
  apply call_bind in E as [->|([payload] & s1 & v3 & Hx & Ho3 & E)]; [by left|].
  apply call_bind in E as [->|([issued ttl] & s2 & v4 & Hp & Ho4 & E)]; [by left|]. injection Hp as Hp <-. right.
  do 2 (unfold mbind at 1, prog_bind at 1, Harness.say at 1 in E).
  set (v5 := Vm.say (Vm.say _ _) _) in E.
  eexists s, v1, convs, payload, s1, issued, ttl, _. split_and!; [done|by rewrite <- Hl|done|done|].
  apply prog_bind_Some in E as [(found & v6 & Ew & E)|[(c & Ew & _)|[Ew _]]];
    change s1 with (after inputs 0 s1) in Ew;
    apply wait_loop_spec in Ew as (Ho6 & o & Ho & Hspec); try discriminate Ho. injection Ho as <-.
  assert (Ho5 : Vm.stdout v6 = Vm.stdout v1 ++ [LINK_PREFIX ++ b64url_encode payload; _])
    by (rewrite Ho6; unfold v5; simpl; rewrite Ho4, Ho3, Ho2, <- app_assoc; reflexivity).
  cbn [OfferValidity.ttl_s] in Hspec. destruct found as [c|].
  - injection E as <- <-. destruct Hspec as (n & Hn & Hc & Hm). exists n, c.
    split_and!; [lia|lia|done|by eapply newcomer_new| |].
    + intros m Hm2. apply Hm. lia.
    + simpl. rewrite Ho5, <- app_assoc. done.
  - injection E as <- <-. split_and!; [done| |done]. intros m Hm. apply Hspec. lia.
Qed.
(** A machine with its files in memory, one paired conversation with two
    messages waiting, and a relay that answers from a script. *)
Module Bench.
Definition hex_value (c : Z) : option Z :=
  if between 48 57 c then Some (c - 48) else if between 97 102 c then Some (c - 87) else None.

Fixpoint unhex (s : list Z) : option bytes :=
  match s with
  | [] => Some []
  | h :: l :: r => a ← hex_value h; b ← hex_value l; bs ← unhex r; Some (a * 16 + b :: bs)
  | [_] => None
  end.

#[export] Instance tls : Tls (H := scripted) := {|
  sha256 b := replicate 32 (foldr Z.add 0 b mod 256);
  hex_decode := unhex;
  ring_provider := CryptoProvider.mk (fun _ _ _ => inl tt) (fun _ _ _ => inl tt) [];
  safe_protocol_versions := inl tt;
  webpki_verifier := Verifier.mk (fun _ _ _ => inr "unknown issuer"%string) (fun _ _ _ => inl tt) (fun _ _ _ => inl tt) [];
  server_name_ok _ := true;
  TcpStream := bytes;
  TlsStream := bytes;
  WebSocket := bytes + bytes;
  tcp_connect address w := (inl address, w);
  tls_handshake _ _ _ w := (inr "no relay here"%string, w);
  client_async _ s w := (inl s, w);
  reqwest_build _ _ := inl tt
|}.

#[export] Existing Instances MemoryFiles.lib MemoryFiles.laws.

#[export] Instance writes : SqlcipherWrites := {|
  write_tables path t d :=
    ((fun q => if beq q path then (fun f => DbFile.mk (DbFile.key_hex f) (DbFile.schema f) t) <$> d.1 path else d.1 q),
     d.2)
|}.

Lemma hex_digit_value n : 0 <= n < 16 -> hex_value (hex_digit n) = Some n.
Proof.
  intros Hn. assert (Hall : Forall (fun n => hex_value (hex_digit n) = Some n) (seqZ 0 16)) by by_compute.
  rewrite Forall_forall in Hall. apply Hall, elem_of_seqZ. lia.
Qed.

#[export] Instance laws : HarnessLaws.
Proof.
  split; [|done]. induction 1 as [|x b Hx _ IH]; [done|]. unfold byte_ok in Hx. unfold hex_encode in *. simpl in *.
  rewrite (hex_digit_value (x / 16)) by (split; [apply Z.div_pos; lia|apply Z.div_lt_upper_bound; lia]).
  rewrite (hex_digit_value (x mod 16)) by (apply Z.mod_pos_bound; lia). simpl. rewrite IH. simpl.
  do 2 f_equal. pose proof (Z.div_mod x 16). lia.
Qed.

Definition key : bytes := replicate 32 9.
Definition dir : str := bstr "/tmp/h".
Definition flags : gmap str str := <[bstr "--dir" := dir]> (<[bstr "--relay" := bstr "wss://mine"]> ∅).

Definition machine (script : list (Z * bytes)) : Vm.t (H := scripted) (H0 := MemoryFiles.lib) :=
  Vm.mk (H := scripted) (H0 := MemoryFiles.lib)
    (<[join dir KEY_FILE := hex_encode key ++ [10]]> ∅) (fun _ => true) (fun _ => true)
    ((fun q => if beq q (join dir DB_FILE)
               then Some (DbFile.mk (hex_encode key) (schema_at 4) (demo_keys, two_pending)) else None),
     ([], None))
    script [] [].

(** A pairing that completes in the third second, [pairs] permitting. *)
Definition new_conv : bytes := replicate 16 3.
Definition complete (s : Engine.t) : Engine.t :=
  Engine.with_db s (Db.with_conversations (Engine.db s)
    (Db.conversations (Engine.db s) ++ [new_row new_conv (bstr "eva") (bstr "wss://r") None None 1000])).

Definition inputs (pairs : bool) : Inputs.t (H := scripted) :=
  Inputs.mk (H := scripted) (mkGenerated [] [] [] (Ok []) None (Ok tt) (fun _ _ => Ok []) (Ok []) (Ok []))
    (fun _ => [7] : bytes) (fun i s => if pairs && (i =? 2)%nat then complete s else s) []
    [Some 1000000; Some 1000250].

Lemma machine_holds script : dir_holds (machine script) dir key demo_keys two_pending.
Proof.
  split; [done|split; [by_compute|done]|]. eexists. split; [reflexivity|]. split_and!; [done|done|by exists 4%nat].
Qed.
End Bench.

#[local] Existing Instances Bench.tls Bench.writes MemoryFiles.lib MemoryFiles.laws Bench.laws.

(** Three deposits are accepted: the run confirms.  With the relay down after
    the first, it exits with 1. *)
Lemma send_honest_witness :
  fst <$> Harness.send None (Bench.inputs true) Bench.flags (Bench.machine [(202, [])]) = Some (Err 1) /\
  exists r v', Harness.send None (Bench.inputs true) Bench.flags (Bench.machine [(202, []); (202, []); (202, [])]) = Some (r, v') /\
    deposited (Bench.machine [(202, []); (202, []); (202, [])]) Bench.dir Bench.key two_pending demo_conv
      (as_bytes DEFAULT_TEXT) r v' /\ r = Ok tt.
Proof.
  split; [vm_compute; reflexivity|].
  destruct (Harness.send None (Bench.inputs true) Bench.flags (Bench.machine [(202, []); (202, []); (202, [])]))
    as [[r v']|] eqn:E; [|vm_compute in E; discriminate E].
  exists r, v'. split; [done|].
  assert (Hr : r = Ok tt) by (vm_compute in E; by injection E as <- _).
  split; [|done].
  destruct (send_honest None (Bench.inputs true) Bench.flags Bench.dir (bstr "wss://mine") _ v' r Bench.key _ _ [demo_conv]
    eq_refl eq_refl (Bench.machine_holds _) eq_refl two_pending_ok ltac:(vm_compute; reflexivity) ltac:(by intros w) E)
    as [[Hx _]|[[Hx _]|(conv & Hc & Hd)]]; [congruence|congruence|].
  unfold chosen in Hc. simpl in Hc. injection Hc as <-. exact Hd.
Defined.

(** The pairing completes in the third second: the run ends there. *)
Lemma offer_waits_witness :
  let v := Bench.machine [(201, created_json (replicate 43 66))] in
  exists v', Harness.offer None (Bench.inputs true) Bench.flags v = Some (Ok tt, v') /\
    exists link line, Vm.stdout v' = [link; line; bstr "paired: conversation " ++ hex_encode Bench.new_conv].
Proof.
  intros v. destruct (Harness.offer None (Bench.inputs true) Bench.flags v) as [[r v']|] eqn:E;
    [|vm_compute in E; discriminate E].
  assert (Hr : r = Ok tt) by (vm_compute in E; by injection E as <- _). subst r. exists v'. split; [done|].
  assert (Ho : exists link line, Vm.stdout v' = [link; line; bstr "paired: conversation " ++ hex_encode Bench.new_conv])
    by (vm_compute in E; injection E as <-; eauto).
  destruct (offer_waits None (Bench.inputs true) Bench.flags Bench.dir (bstr "wss://mine") v v' (Ok tt) eq_refl eq_refl E)
    as [Hx|(s & v1 & convs & payload & s1 & issued & ttl & line & _ & _ & _ & _ & _)]; [discriminate Hx|].
  exact Ho.
Defined.
