(* ===== verification/TestCert.v ===== *)
(** The certificate tool of the test relay
    ([tezca-relay/examples/gen_test_cert.rs]) and what a client built with the
    test anchor makes of its pin file: the tool's output trusts the tool's
    certificate and nothing else. *)

From S2P Require Import Prelude Errors Utf8 Config Storage Keys Transport Tls Open EngineDemo HarnessCodec Harness.

(** What [rcgen] generates: the certificate's DER, and both PEM texts. *)
Module CertifiedKey.
Record t := mk { der : bytes; cert_pem : bytes; key_pem : bytes }.
End CertifiedKey.

Module GenTestCert.
Section tool.
Context `{Platform} `{!Tls} `{Sqlcipher}.
Variable generate_simple_self_signed : list bytes -> option CertifiedKey.t.

Definition SUBJECT_ALT_NAMES : list bytes := map bstr ["10.0.2.2"; "127.0.0.1"; "localhost"]%string.

(** [write!(s, "{b:02x}")] over the digest. *)
Definition pin_text (digest : bytes) : bytes :=
  foldl (fun s b => s ++ [hex_digit (b / 16); hex_digit (b mod 16)]) [] digest.

(** [std::fs::write(..).expect(..)] *)
Definition fs_write (path content : bytes) : prog unit :=
  fun v => if Vm.write_ok v path
           then Some (Ok tt, Vm.with_files v (<[path := content]> (Vm.files v)))
           else Some (Panic, v).

(** [args] with the program's name first. *)
Definition main (args : list str) : prog unit :=
  out ← Harness.expect_some (args !! 1%nat);
  let dir := HarnessCodec.as_bytes out in
  _ ← Harness.create_dir_all dir;
  ck ← Harness.expect_some (generate_simple_self_signed SUBJECT_ALT_NAMES);
  let pin := pin_text (sha256 (CertifiedKey.der ck)) in
  _ ← fs_write (join dir (bstr "cert.pem")) (CertifiedKey.cert_pem ck);
  _ ← fs_write (join dir (bstr "key.pem")) (CertifiedKey.key_pem ck);
  _ ← fs_write (join dir (bstr "pin.hex")) (pin ++ [10]);
  Harness.say (bstr "wrote cert.pem, key.pem, pin.hex to " ++ dir).
End tool.
End GenTestCert.

(** ** Lemmas *)

Lemma pin_text_hex digest : GenTestCert.pin_text digest = hex_encode digest.
Proof.
  unfold GenTestCert.pin_text, hex_encode.
  assert (Hgen : forall acc, foldl (fun s b => s ++ [hex_digit (b / 16); hex_digit (b mod 16)]) acc digest
                             = acc ++ concat (map (fun c => [hex_digit (c / 16); hex_digit (c mod 16)]) digest)).
  { induction digest as [|b r IH]; intros acc; simpl; [by rewrite app_nil_r|]. rewrite IH, <- app_assoc. done. }
  apply Hgen.
Qed.

Section trust.
Context `{Platform} `{!Tls} `{Sqlcipher} `{!SqlcipherLaws} `{!SqlcipherWrites} `{!HarnessLaws}.

(** A run that returned wrote the digest of the certificate it made. *)
Lemma main_writes_pin gen args v v' :
  GenTestCert.main gen args v = Some (Ok tt, v') ->
  exists dir ck, args !! 1%nat = Some dir /\ gen GenTestCert.SUBJECT_ALT_NAMES = Some ck /\
    Vm.files v' !! join (HarnessCodec.as_bytes dir) (bstr "pin.hex")
    = Some (hex_encode (sha256 (CertifiedKey.der ck)) ++ [10]).
Proof.
  unfold GenTestCert.main, Harness.expect_some, Harness.create_dir_all, GenTestCert.fs_write.
  destruct (args !! 1%nat) as [dir|]; [|done]. unfold mbind, prog_bind. cbn [mret prog_ret].
  destruct (Vm.mkdir_ok v _); [|done]. destruct (gen _) as [ck|]; [|done]. cbn [mret prog_ret].
  destruct (Vm.write_ok v _); [|done]. simpl. destruct (Vm.write_ok v _); [|done]. simpl.
  destruct (Vm.write_ok v _); [|done]. simpl. intros [= <-]. exists dir, ck. split_and!; [done..|].
  simpl. by rewrite lookup_insert_eq, pin_text_hex.
Qed.

(** The test anchor.  When the certificate tool returns, the pin file it
    left, given to a client built with the test anchor, makes that client
    trust a TLS stream of a conversation without a pin exactly when the
    stream's leaf has the digest of the certificate the tool generated; a
    conversation's own pin still wins over it. *)
Theorem test_pin_trusts `{!TlsLaws} (gen : list bytes -> option CertifiedKey.t) (args : list str) (v v' : Vm.t) :
  GenTestCert.main gen args v = Some (Ok tt, v') ->
  (forall b, bytes_ok (sha256 b) /\ length (sha256 b) = 32%nat) ->
  exists dir ck content var, args !! 1%nat = Some dir /\ gen GenTestCert.SUBJECT_ALT_NAMES = Some ck /\
    Vm.files v' !! join (HarnessCodec.as_bytes dir) (bstr "pin.hex") = Some content /\
    utf8_decode content = Some var /\
    (forall host s, trusted (Some (Some var)) None host s <-> sha256 (leaf s) = sha256 (CertifiedKey.der ck)) /\
    (forall host p s, trusted (Some (Some var)) (Some p) host s <-> sha256 (leaf s) = p).
Proof.
  intros E Hsha. destruct (main_writes_pin _ _ _ _ E) as (dir & ck & Ha & Hg & Hf).
  destruct (Hsha (CertifiedKey.der ck)) as [Hb Hl].
  pose proof (hex_line_reads _ Hb) as Hr. destruct (utf8_decode _) as [var|] eqn:Ev; [|done]. simpl in Hr.
  eexists dir, ck, _, var. split_and!; [done|done|exact Hf|exact Ev| |]; unfold trusted, effective_pin.
  - intros host s. unfold env_test_pin. simpl. rewrite Hr. simpl. by rewrite Hl.
  - done.
Qed.
End trust.

#[local] Existing Instances Bench.tls Bench.writes MemoryFiles.lib MemoryFiles.laws Bench.laws.

(** The anchor made from the tool's file, on a machine in memory. *)
Module TestRelay.
Definition ck : CertifiedKey.t := CertifiedKey.mk [48; 130; 1; 10] (bstr "cert") (bstr "key").

#[export] Instance laws : TlsLaws (H0 := Bench.tls).
Proof.
  refine {| leaf := fun s : TlsStream => s : bytes; chain := fun _ => []; stream_of := fun w : WebSocket => w |}.
  - done.
  - by intros url s w ws w' [= -> ->].
Defined.
End TestRelay.

#[local] Existing Instances TestRelay.laws.

Lemma test_pin_trusts_witness :
  let gen := fun _ : list bytes => Some TestRelay.ck in
  exists v' var, GenTestCert.main gen [bstr "gen"; bstr "out"] (Bench.machine []) = Some (Ok tt, v') /\
    Vm.files v' !! bstr "out/pin.hex" = Some var /\
    trusted (Some (Some var)) None (bstr "relay") [48; 130; 1; 10] /\
    ~ trusted (Some (Some var)) None (bstr "relay") [48; 130; 1; 11].
Proof.
  intros gen. destruct (GenTestCert.main gen [bstr "gen"; bstr "out"] (Bench.machine [])) as [[r v']|] eqn:E;
    [|vm_compute in E; discriminate E].
  assert (Hr : r = Ok tt) by (vm_compute in E; by injection E as <- _). subst r.
  assert (Hs : forall b, bytes_ok (sha256 b) /\ length (sha256 b) = 32%nat).
  { intros b. split; [apply Forall_replicate, Z.mod_pos_bound; lia|apply length_replicate]. }
  destruct (test_pin_trusts gen _ _ _ E Hs) as (dir & ck & content & var & Ha & Hg & Hf & Hv & Ht & _).
  injection Ha as <-. injection Hg as <-.
  assert (Hc : content = var).
  { vm_compute in E. injection E as <-. vm_compute in Hf. injection Hf as <-. vm_compute in Hv. by injection Hv as <-. }
  subst var. exists v', content. split; [done|]. split; [exact Hf|].
  rewrite !Ht. split; [done|]. vm_compute. discriminate.
Defined.
