(* ===== verification/TestsStore.v ===== *)
(** The unit tests of the store ([storage/mod.rs], modules [v3_tests],
    [v1_to_v3_migration_tests] and [v4_tests]), each as a program over the
    model with the test's own assertions.  Ids that the tests draw are
    [drawn 1], [drawn 2] and so on, and the clock stands at [NOW]; databases
    of earlier versions are files of [MemoryFiles]. *)

From S2P Require Import Prelude Errors Utf8 Config Envelope Storage Keys Transport Open RelayWire FuzzTargets.

(** ** The kit *)

#[export] Instance Direction_eq_dec : EqDecision Direction.
Proof. solve_decision. Defined.
#[export] Instance StoredMessage_eq_dec : EqDecision StoredMessage.t.
Proof. solve_decision. Defined.
#[export] Instance ConversationSummary_eq_dec : EqDecision ConversationSummary.t.
Proof. solve_decision. Defined.
#[export] Instance Conversation_eq_dec : EqDecision Conversation.t.
Proof. solve_decision. Defined.
#[export] Instance RecoveryRecord_eq_dec : EqDecision RecoveryRecord.t.
Proof. solve_decision. Defined.

(** [assert_eq!] *)
Definition assert_eq {E A : Type} `{EqDecision A} (a b : A) : result E unit := assert (bool_decide (a = b)).

(** [matches!(r, Err(e) if p e)] *)
Definition assert_err {E A : Type} (r : Result A) (p : CoreError -> bool) : result E unit :=
  match r with Err e => assert (p e) | _ => Panic end.

Definition is_invalid_label (e : CoreError) : bool := match e with InvalidLabel _ => true | _ => false end.

(** Runs a list of tests one after the other. *)
Ltac run_tests := repeat (apply Forall_cons_2; [vm_compute; reflexivity|]); apply Forall_nil_2.

Definition drawn (n : Z) : bytes := replicate 15 0 ++ [n].
Definition NOW : Z := 1755000000.

Module StoreTests.
Section tests.
Context `{SqlText}.

Definition fresh_store : Db.t := Db.mk [] [] true.

Definition routed (d : Db.t) (id peer : bytes) : run (bytes * Db.t) :=
  unwrapped (create_routed_conversation d id peer (bstr "wss://relay/v1") (Some (bstr "sendbox")) (bstr "myinbox") NOW).

(** [UPDATE conversations SET created_at = ?2 WHERE id = ?1] *)
Definition backdate (d : Db.t) (id : bytes) (value : Z) : Db.t :=
  update_conv d id (fun r => ConvRow.mk (ConvRow.id r) (ConvRow.peer_address r) (ConvRow.relay_url r)
    (ConvRow.mailbox_send r) (ConvRow.mailbox_recv r) value (ConvRow.relay_pin r) (ConvRow.recovery_role r)
    (ConvRow.recovery_own_contrib r) (ConvRow.recovery_peer_contrib r) (ConvRow.recovery_root r)
    (ConvRow.recovery_own_gen r) (ConvRow.recovery_peer_gen r) (ConvRow.label r)).

(** [UPDATE messages SET sent_at = .., received_at = .. WHERE id = ?1] *)
Definition set_times (d : Db.t) (id : bytes) (sent received : option Z) : Db.t :=
  Db.with_messages d (map (fun m => if beq (MsgRow.id m) id
    then MsgRow.mk (MsgRow.id m) (MsgRow.conversation_id m) (MsgRow.direction m) (MsgRow.payload_type m)
           (MsgRow.type_version m) (MsgRow.body m) sent received (MsgRow.status m)
    else m) (Db.messages d)).

Definition no_recovery : RecoveryRecord.t := RecoveryRecord.mk None None None None 0 0.

(** [store.recovery_state(..).expect(..).expect(..)] *)
Definition recovery_row (d : Db.t) (conv : bytes) : run RecoveryRecord.t :=
  o ← unwrapped (recovery_state d conv); expect o.

Definition conversation_row (d : Db.t) (conv : bytes) : run Conversation.t :=
  o ← unwrapped (get_conversation d conv); expect o.

Definition schema_v3_migrates_and_recovery_state_round_trips : run unit :=
  let '(migrated, schema) := Schema.migrate Schema.empty in
  _ ← unwrapped migrated;
  _ ← assert_eq (Schema.version schema) 4;
  '(conv, d) ← unwrapped (create_routed_conversation fresh_store (drawn 1) (bstr "peeraddr")
                            (bstr "wss://relay/v1") None (bstr "myinbox") NOW);
  r ← recovery_row d conv;
  _ ← assert_eq r no_recovery;
  let own := replicate 32 17 in
  let peer := replicate 32 34 in
  let root := replicate 32 51 in
  d ← unwrapped (set_recovery_pairing d conv 0 own);
  d ← unwrapped (set_recovery_root d conv peer root);
  d ← unwrapped (set_recovery_generations d conv 2 1);
  r ← recovery_row d conv;
  assert_eq r (RecoveryRecord.mk (Some 0) (Some own) (Some peer) (Some root) 2 1).

Definition label_set_get_clear_roundtrip : run unit :=
  '(conv, d) ← routed fresh_store (drawn 1) (bstr "peer-a");
  l ← unwrapped (conversation_label d conv);
  _ ← assert_eq l None;
  d ← unwrapped (set_conversation_label d conv (Some (bstr "  Alice at work  ")));
  l ← unwrapped (conversation_label d conv);
  _ ← assert_eq l (Some (bstr "Alice at work"));
  summaries ← unwrapped (list_conversation_summaries d);
  _ ← assert_eq (length summaries) 1%nat;
  s0 ← expect (summaries !! 0%nat);
  _ ← assert_eq (ConversationSummary.id s0) conv;
  _ ← assert_eq (ConversationSummary.label s0) (Some (bstr "Alice at work"));
  d ← unwrapped (set_conversation_label d conv None);
  l ← unwrapped (conversation_label d conv);
  _ ← assert_eq l None;
  d ← unwrapped (set_conversation_label d conv (Some (bstr "Bob")));
  d ← unwrapped (set_conversation_label d conv (Some []));
  l ← unwrapped (conversation_label d conv);
  _ ← assert_eq l None;
  assert_err (set_conversation_label d (replicate 16 153) (Some (bstr "x"))) (fun _ => true).

Fixpoint all_rejected (labels : list (list Z)) : run unit :=
  match labels with
  | [] => Ok tt
  | l :: r => _ ← assert_err (normalize_label (Some l)) is_invalid_label; all_rejected r
  end.

Definition label_rules_reject_blank_long_and_control : run unit :=
  l ← unwrapped (normalize_label None);
  _ ← assert_eq l None;
  l ← unwrapped (normalize_label (Some []));
  _ ← assert_eq l None;
  l ← unwrapped (normalize_label (Some (bstr " Team Ops ")));
  _ ← assert_eq l (Some (bstr "Team Ops"));
  let sixty_four := replicate (Z.to_nat MAX_LABEL_SCALARS) 233 in
  l ← unwrapped (normalize_label (Some sixty_four));
  _ ← assert_eq l (Some sixty_four);
  _ ← all_rejected [bstr "   "; [9; 10]; replicate (Z.to_nat (MAX_LABEL_SCALARS + 1)) 97;
                    bstr "ctrl" ++ [7] ++ bstr "char"; bstr "tab" ++ [9] ++ bstr "inside";
                    bstr "line" ++ [10] ++ bstr "break"; bstr "nul" ++ [0]];
  '(conv, d) ← routed fresh_store (drawn 1) (bstr "peer-a");
  d ← unwrapped (set_conversation_label d conv (Some (bstr "kept")));
  _ ← assert_err (set_conversation_label d conv (Some (bstr "   "))) is_invalid_label;
  _ ← assert_err (set_conversation_label d conv (Some (replicate (Z.to_nat (MAX_LABEL_SCALARS + 1)) 120)))
        is_invalid_label;
  l ← unwrapped (conversation_label d conv);
  assert_eq l (Some (bstr "kept")).

Definition timestamps_written_at_insert : run unit :=
  '(conv, d) ← routed fresh_store (drawn 1) (bstr "peer-a");
  let before := NOW in
  '(out_id, d) ← unwrapped (save_outgoing d (drawn 2) conv (InnerFrame.chat_v1 (bstr "out")) (Some (NOW + 1)));
  '(incoming, d) ← unwrapped (save_incoming d (drawn 3) conv (InnerFrame.chat_v1 (bstr "in")) (Some (NOW + 2)));
  let after := NOW + 3 in
  messages ← unwrapped (list_messages d conv);
  _ ← assert_eq (length messages) 2%nat;
  out ← expect (messages !! 0%nat);
  _ ← assert_eq (StoredMessage.id out) out_id;
  _ ← assert_eq (StoredMessage.direction out) Outgoing;
  sent ← expect (StoredMessage.sent_at out);
  _ ← assert ((before <=? sent) && (sent <=? after));
  _ ← assert_eq (StoredMessage.received_at out) None;
  inc ← expect (messages !! 1%nat);
  _ ← assert_eq (StoredMessage.id inc) (StoredMessage.id incoming);
  _ ← assert_eq (StoredMessage.direction inc) Incoming;
  received ← expect (StoredMessage.received_at inc);
  _ ← assert ((before <=? received) && (received <=? after));
  _ ← assert_eq (StoredMessage.sent_at inc) None;
  assert_eq incoming inc.

(** The summary of a conversation, by its id. *)
Definition by_id (summaries : list ConversationSummary.t) (id : bytes) : run ConversationSummary.t :=
  expect (List.find (fun s => beq (ConversationSummary.id s) id) summaries).

Definition summaries_order_by_last_activity : run unit :=
  '(a, d) ← routed fresh_store (drawn 1) (bstr "peer-a");
  '(b, d) ← routed d (drawn 2) (bstr "peer-b");
  '(c, d) ← routed d (drawn 3) (bstr "peer-c");
  let d := backdate (backdate (backdate d a 1000) b 2000) c 5000 in
  '(a_msg, d) ← unwrapped (save_incoming d (drawn 4) a (InnerFrame.chat_v1 (bstr "hello")) (Some NOW));
  let d := set_times d (StoredMessage.id a_msg) None (Some 3000) in
  '(c_msg, d) ← unwrapped (save_outgoing d (drawn 5) c (InnerFrame.chat_v1 (bstr "old")) (Some NOW));
  let d := set_times d c_msg (Some 100) None in
  summaries ← unwrapped (list_conversation_summaries d);
  _ ← assert_eq (map ConversationSummary.id summaries) [c; a; b];
  sa ← by_id summaries a;
  _ ← assert_eq (ConversationSummary.last_activity_at sa) 3000;
  sb ← by_id summaries b;
  _ ← assert_eq (ConversationSummary.last_activity_at sb) 2000;
  sc ← by_id summaries c;
  _ ← assert_eq (ConversationSummary.last_activity_at sc) 5000;
  _ ← assert_eq (ConversationSummary.created_at sa) 1000;
  ids ← unwrapped (list_conversation_ids d);
  assert_eq ids [c; b; a].

(** [haystack.windows(n).any(|w| w == needle)] *)
Fixpoint contains (haystack needle : bytes) : bool :=
  bool_decide (needle `prefix_of` haystack) ||
  match haystack with [] => false | _ :: r => contains r needle end.

Definition label_never_in_frame : run unit :=
  '(conv, d) ← routed fresh_store (drawn 1) (bstr "peer-a");
  d ← unwrapped (set_recovery_pairing d conv 0 (replicate 32 17));
  routing_before ← conversation_row d conv;
  recovery_before ← recovery_row d conv;
  let label := bstr "titlan label sentinel core" in
  d ← unwrapped (set_conversation_label d conv (Some label));
  routing ← conversation_row d conv;
  _ ← assert_eq routing routing_before;
  recovery ← recovery_row d conv;
  _ ← assert_eq recovery recovery_before;
  '(_, d) ← unwrapped (save_outgoing d (drawn 2) conv (InnerFrame.chat_v1 (bstr "hello after labelling")) (Some NOW));
  pending ← unwrapped (pending_chat d conv);
  _ ← assert_eq (length pending) 1%nat;
  '(_, frame) ← expect (pending !! 0%nat);
  _ ← assert_eq (InnerFrame.payload frame) (bstr "hello after labelling");
  profile ← unwrapped PaddingProfile.default_profile;
  encoded ← unwrapped (InnerFrame.encode frame profile);
  _ ← assert (negb (contains (InnerFrame.payload frame) label));
  _ ← assert (negb (contains encoded label));
  assert (contains encoded (bstr "hello after labelling")).
End tests.
End StoreTests.

(** ** Databases of earlier versions *)

#[local] Existing Instances MemoryFiles.lib.

Module MigrationTests.
Section tests.
Context `{SqlText}.

(** What the tests write through a raw connection before the store opens it. *)
Definition raw_file (path key : bytes) (schema : Schema.t) (k : Keys.t) (d : Db.t) : Disk :=
  ((fun q => if beq q path then Some (DbFile.mk (hex_encode key) schema (k, d)) else None), ([], None)).

(** [Store::open(..).expect(..)]: the tables, and the version it reports. *)
Definition opened (path key : bytes) (disk : Disk) : run (Keys.t * Db.t * Z) :=
  let '(r, disk) := open_store path (DbKey.from_bytes key) disk in
  conn ← unwrapped r;
  v ← unwrapped (fst (schema_version conn disk));
  Ok (read_tables conn disk, v).

Definition hi_message (id conv : bytes) : MsgRow.t := MsgRow.mk id conv 1 1 1 (bstr "hi!") None None 2.

(** What both tests read back of the one conversation and its message. *)
Definition rows_survive (d : Db.t) (conv_id msg_id : bytes) : run StoredMessage.t :=
  convo ← StoreTests.conversation_row d conv_id;
  _ ← assert_eq (Conversation.peer_address convo) (bstr "peer-a");
  _ ← assert_eq (Conversation.relay_url convo) (bstr "wss://r.example/v1");
  _ ← assert_eq (Conversation.mailbox_send convo) (Some (bstr "sendbox"));
  _ ← assert_eq (Conversation.mailbox_recv convo) (Some (bstr "recvbox"));
  _ ← assert_eq (Conversation.relay_pin convo) None;
  l ← unwrapped (conversation_label d conv_id);
  _ ← assert_eq l None;
  messages ← unwrapped (list_messages d conv_id);
  _ ← assert_eq (length messages) 1%nat;
  m ← expect (messages !! 0%nat);
  _ ← assert_eq (StoredMessage.id m) msg_id;
  _ ← assert_eq (StoredMessage.body m) (bstr "hi!");
  Ok m.

Definition populated_v1_database_migrates_to_v3_preserving_rows : run unit :=
  let path := bstr "v1.db" in
  let key := replicate 32 8 in
  let conv_id := seqZ 0 16 in
  let msg_id := replicate 16 238 in
  let keys := Keys.mk (Some (LocalIdentity.mk (bstr "addr-v1") 42 [1; 2])) {[ (bstr "peer-a", 1) := [170] ]}
                {[ bstr "peer-a" := [187] ]} ∅ ∅ ∅ in
  let db := Db.mk [new_row conv_id (bstr "peer-a") (bstr "wss://r.example/v1") (Some (bstr "sendbox"))
                     (Some (bstr "recvbox")) NOW] [hi_message msg_id conv_id] true in
  _ ← assert_eq (Schema.version (schema_at 1)) 1;
  '(k, d, v) ← opened path key (raw_file path key (schema_at 1) keys db);
  _ ← assert_eq v 4;
  addr ← unwrapped (local_address k);
  _ ← assert_eq addr (bstr "addr-v1");
  m ← rows_survive d conv_id msg_id;
  _ ← assert_eq (StoredMessage.direction m) Incoming;
  _ ← assert_eq (StoredMessage.payload_type m) 1;
  _ ← assert_eq (StoredMessage.type_version m) 1;
  i ← expect (Keys.local_identity k);
  _ ← assert_eq (LocalIdentity.registration_id i, LocalIdentity.identity_keypair i) (42, [1; 2]);
  record ← expect (session_row k (bstr "peer-a") 1);
  _ ← assert_eq record [170];
  identity ← expect (identity_row k (bstr "peer-a"));
  _ ← assert_eq identity [187];
  r ← StoreTests.recovery_row d conv_id;
  assert_eq r StoreTests.no_recovery.

Definition migrate_v3_to_v4_preserves_rows_and_adds_null_label : run unit :=
  let path := bstr "v3.db" in
  let key := replicate 32 8 in
  let conv_id := replicate 16 60 in
  let msg_id := replicate 16 77 in
  let own := replicate 32 17 in
  let peer := replicate 32 34 in
  let root := replicate 32 51 in
  let keys := Keys.mk (Some (LocalIdentity.mk (bstr "addr-v3") 42 [1; 2])) ∅ ∅ ∅ ∅ ∅ in
  let db := Db.mk [ConvRow.mk conv_id (bstr "peer-a") (bstr "wss://r.example/v1") (Some (bstr "sendbox"))
                     (Some (bstr "recvbox")) 1700000000 None (Some 0) (Some own) (Some peer) (Some root) 2 1 None]
                  [hi_message msg_id conv_id] true in
  _ ← assert_eq (Schema.version (schema_at 3)) 3;
  columns ← expect (Schema.columns (schema_at 3));
  _ ← assert (negb (bool_decide ("label"%string ∈ columns)));
  '(k, d, v) ← opened path key (raw_file path key (schema_at 3) keys db);
  _ ← assert_eq v 4;
  addr ← unwrapped (local_address k);
  _ ← assert_eq addr (bstr "addr-v3");
  r ← StoreTests.recovery_row d conv_id;
  _ ← assert_eq r (RecoveryRecord.mk (Some 0) (Some own) (Some peer) (Some root) 2 1);
  m ← rows_survive d conv_id msg_id;
  _ ← assert_eq (StoredMessage.sent_at m) None;
  _ ← assert_eq (StoredMessage.received_at m) None;
  summaries ← unwrapped (list_conversation_summaries d);
  assert_eq summaries [ConversationSummary.mk conv_id None 1700000000 1700000000].
End tests.
End MigrationTests.

Definition store_tests `{SqlText} : list (run unit) :=
  [StoreTests.schema_v3_migrates_and_recovery_state_round_trips;
   MigrationTests.populated_v1_database_migrates_to_v3_preserving_rows;
   MigrationTests.migrate_v3_to_v4_preserves_rows_and_adds_null_label;
   StoreTests.label_set_get_clear_roundtrip;
   StoreTests.label_rules_reject_blank_long_and_control;
   StoreTests.timestamps_written_at_insert;
   StoreTests.summaries_order_by_last_activity;
   StoreTests.label_never_in_frame].

Lemma store_tests_pass `{SqlText} : Forall (fun t => t = Ok tt) store_tests.
Proof. run_tests. Qed.
