(* ===== verification/Keepalive.v ===== *)
(** Subscriptions in time ([relay_client/ws.rs], [Subscription::next] and its
    keepalive tests).  [Transport.next] takes what each wait ended with as its
    input; here the waits have lengths, and so have the sends, which no timer
    bounds.  A connection is a queue of items with their instants of arrival,
    and what becomes of a Ping or a Pong that is sent from an instant on. *)

From S2P Require Import Prelude Errors Config Transport RelayWire FuzzTargets TestsStore.

(** What the socket yields: a message, an error, or its end. *)
Inductive Item :=
  | Binary (data : bytes)
  | Pong
  | Ping
  | Close
  | End_
  | OtherMessage
  | Failed (e : string).

Inductive Sent := SentPing | SentPong.

(** What becomes of a Ping: the send fails at an instant, or is done at one and
    the Pong arrives at another or never, or it is never done (a peer that does
    not read and a full buffer). *)
Inductive Reaction :=
  | Refused (until : Z) (e : string)
  | Answered (until at_ : Z)
  | Lost (until : Z)
  | Blocked.

(** When the [await] of the send is over. *)
Definition until (r : Reaction) : option Z :=
  match r with Refused u _ | Answered u _ | Lost u => Some u | Blocked => None end.

Module Timed.
Record t := mk {
  awaiting_pong : bool;
  now : Z;
  queue : list (Z * Item);
  sent : list (Z * Sent)
}.
End Timed.

(** A Pong takes its place among the items under way. *)
Fixpoint queue_pong (t : Z) (q : list (Z * Item)) : list (Z * Item) :=
  match q with
  | [] => [(t, Pong)]
  | (u, i) :: r => if u <=? t then (u, i) :: queue_pong t r else (t, Pong) :: q
  end.

(** [tokio::time::timeout(wait, self.ws.next())]: the item that is there by the
    deadline, the instant it is read and what stays queued. *)
Definition timeout (s : Timed.t) (wait : Z) : option (Z * Item * list (Z * Item)) :=
  match Timed.queue s with
  | (t, i) :: r => if t <=? Timed.now s + wait then Some (Z.max (Timed.now s) t, i, r) else None
  | [] => None
  end.

(** A turn of the loop returns, goes on, or hangs in a send. *)
Inductive Turn :=
  | Returns (r : Result (option Event)) (s : Timed.t)
  | GoesOn (s : Timed.t)
  | Hangs (s : Timed.t).

Inductive Call :=
  | Returned (r : Result (option Event)) (s : Timed.t)
  | Hung (s : Timed.t).

Section timed.
(** [pong t] is when the send of a Pong begun at [t] is over, well or not:
    its result is dropped. *)
Context (timing : KeepaliveTiming.t) (react : Z -> Reaction) (pong : Z -> option Z).

Definition wait (s : Timed.t) : Z :=
  if Timed.awaiting_pong s then KeepaliveTiming.grace timing else KeepaliveTiming.interval timing.

(** One turn of the loop of [Subscription::next]. *)
Definition turn (s : Timed.t) : Turn :=
  let 'Timed.mk awaiting now q sent := s in
  match timeout s (wait s) with
  | None =>
    let deadline := now + wait s in
    if awaiting then Returns (Err (Network "keepalive timeout")) (Timed.mk awaiting deadline q sent)
    else match react deadline with
         | Refused u e => Returns (Err (Network e)) (Timed.mk awaiting u q sent)
         | Answered u t => GoesOn (Timed.mk true u (queue_pong t q) (sent ++ [(deadline, SentPing)]))
         | Lost u => GoesOn (Timed.mk true u q (sent ++ [(deadline, SentPing)]))
         | Blocked => Hangs (Timed.mk awaiting deadline q sent)
         end
  | Some (t, Binary data, r) => Returns (e ← parse_delivery data; Ok (Some e)) (Timed.mk false t r sent)
  | Some (t, Pong, r) =>
    if awaiting then Returns (Ok (Some Idle)) (Timed.mk false t r sent) else GoesOn (Timed.mk awaiting t r sent)
  | Some (t, Ping, r) =>
    match pong t with
    | Some u => GoesOn (Timed.mk awaiting u r (sent ++ [(t, SentPong)]))
    | None => Hangs (Timed.mk awaiting t r sent)
    end
  | Some (t, (Close | End_), r) => Returns (Ok None) (Timed.mk awaiting t r sent)
  | Some (t, OtherMessage, r) => GoesOn (Timed.mk awaiting t r sent)
  | Some (t, Failed e, r) => Returns (Err (Network e)) (Timed.mk awaiting t r sent)
  end.

(** The loop; [None]: out of fuel. *)
Fixpoint next_from (fuel : nat) (s : Timed.t) : option Call :=
  match fuel with
  | O => None
  | S fuel => match turn s with
              | Returns r s' => Some (Returned r s')
              | GoesOn s' => next_from fuel s'
              | Hangs s' => Some (Hung s')
              end
  end.

(** Every turn uses up a queued item or the one Ping of the call, which may
    queue one more. *)
Definition turns (s : Timed.t) : nat := (length (Timed.queue s) + if Timed.awaiting_pong s then 1 else 3)%nat.

Definition next_timed (s : Timed.t) : option Call := next_from (turns s) s.

(** ** The untimed view *)

Definition input_of (i : Item) : WsInput :=
  match i with
  | Binary d => WsBinary d
  | Pong => WsPong
  | Ping => WsPing
  | Close => WsClose
  | End_ => WsEnd
  | OtherMessage => WsOther
  | Failed e => WsErr e
  end.

(** What the wait of a turn ends with. *)
Definition turn_input (s : Timed.t) : WsInput :=
  match timeout s (wait s) with
  | Some (_, i, _) => input_of i
  | None => Elapsed (match react (Timed.now s + wait s) with Refused _ e => Some e | _ => None end)
  end.

Fixpoint trace (fuel : nat) (s : Timed.t) : list WsInput :=
  match fuel with
  | O => []
  | S fuel => turn_input s :: match turn s with GoesOn s' => trace fuel s' | _ => [] end
  end.
End timed.

(** Items are read in the order of their arrival. *)
Definition ordered (q : list (Z * Item)) : Prop := StronglySorted (fun a b => a.1 <= b.1) q.

(** Items that [next] reads without returning. *)
Definition skipped (i : Item) : bool := match i with Ping | OtherMessage | Pong => true | _ => false end.

(** The library's own errors have other texts than the keepalive's. *)
Definition other_errors (react : Z -> Reaction) (q : list (Z * Item)) : Prop :=
  (forall p u, react p <> Refused u "keepalive timeout") /\ (forall t, (t, Failed "keepalive timeout") ∉ q).

(** Sends take their time forward; [prompt]: none takes longer than [delay]. *)
Definition forward (react : Z -> Reaction) (pong : Z -> option Z) : Prop :=
  forall p u, until (react p) = Some u \/ pong p = Some u -> p <= u.
Definition prompt (delay : Z) (react : Z -> Reaction) (pong : Z -> option Z) : Prop :=
  forall p, (exists u, until (react p) = Some u /\ u <= p + delay) /\ exists u, pong p = Some u /\ u <= p + delay.

(** ** Lemmas *)

Lemma queue_pong_elem t q x : x ∈ queue_pong t q <-> x = (t, Pong) \/ x ∈ q.
Proof.
  induction q as [|[u i] r IH]; simpl; [set_solver|]. bool_case; rewrite ?elem_of_cons, ?IH; [|set_solver].
  tauto.
Qed.

Lemma queue_pong_length t q : length (queue_pong t q) = S (length q).
Proof. induction q as [|[u i] r IH]; simpl; [done|]. bool_case; simpl; by rewrite ?IH. Qed.

Lemma queue_pong_ordered t q : ordered q -> ordered (queue_pong t q).
Proof.
  induction 1 as [|[u i] r Hr IH Hall]; simpl; [by repeat constructor|]. bool_case; reflect_bools.
  - constructor; [done|]. apply Forall_forall. intros x [->|Hx]%queue_pong_elem; [done|].
    rewrite Forall_forall in Hall. by apply Hall.
  - constructor; [by constructor|]. constructor; [simpl; lia|].
    eapply Forall_impl; [exact Hall|]. simpl. intros; lia.
Qed.

#[local] Arguments queue_pong : simpl never.

Section laws.
Context (timing : KeepaliveTiming.t) (react : Z -> Reaction) (pong : Z -> option Z).
Context (Hi : 0 <= KeepaliveTiming.interval timing) (Hg : 0 <= KeepaliveTiming.grace timing).
Context (Hfw : forward react pong).

(** The cases of a turn: timer or item, and which. *)
Ltac turn_cases :=
  unfold turn, timeout, wait; cbn [Timed.awaiting_pong Timed.now Timed.queue Timed.sent];
  lazymatch goal with
  | |- context [match ?q with [] => _ | _ => _ end] => destruct q as [|[? []] ?]
  end;
  try lazymatch goal with |- context [?t <=? ?d] => destruct (t <=? d) eqn:? end; reflect_bools;
  try lazymatch goal with |- context [match react ?p with _ => _ end] => destruct (react p) eqn:Hreact end;
  try lazymatch goal with |- context [match pong ?p with _ => _ end] => destruct (pong p) eqn:Hpong end;
  intros Hturn; simplify_eq.

Lemma turn_shorter s s' : turn timing react pong s = GoesOn s' -> (turns s' < turns s)%nat.
Proof.
  destruct s as [[|] now q sent]; turn_cases; unfold turns; simpl; rewrite ?queue_pong_length; simpl; lia.
Qed.

Lemma next_from_ends fuel s : (turns s <= fuel)%nat -> is_Some (next_from timing react pong fuel s).
Proof.
  revert s. induction fuel as [|fuel IH]; intros s Hf.
  - unfold turns in Hf. destruct (Timed.awaiting_pong s); lia.
  - simpl. destruct (turn timing react pong s) as [r s'|s'|s'] eqn:E; [by eexists| |by eexists].
    apply turn_shorter in E. apply IH. lia.
Qed.

(** A turn is a step of the untimed loop on what its wait ended with. *)
Lemma turn_next s rest :
  match turn timing react pong s with
  | Returns r s' =>
    next (Timed.awaiting_pong s) (turn_input timing react s :: rest) = Some (r, Timed.awaiting_pong s', rest)
  | GoesOn s' =>
    next (Timed.awaiting_pong s) (turn_input timing react s :: rest) = next (Timed.awaiting_pong s') rest
  | Hangs _ => True
  end.
Proof.
  destruct s as [[|] now q sent]; unfold turn_input, turn, timeout, wait;
    cbn [Timed.awaiting_pong Timed.now Timed.queue Timed.sent]; destruct q as [|[t []] r]; try bool_case; try done;
    try (by destruct (react _)); by destruct (pong _).
Qed.

Lemma trace_next fuel s r s' :
  next_from timing react pong fuel s = Some (Returned r s') ->
  next (Timed.awaiting_pong s) (trace timing react pong fuel s) = Some (r, Timed.awaiting_pong s', []).
Proof.
  revert s. induction fuel as [|fuel IH]; intros s; cbn [next_from trace]; [done|].
  pose proof (fun rest => turn_next s rest) as Ht.
  destruct (turn timing react pong s) as [r1 s1|s1|s1]; [intros [= -> ->]; by apply Ht| |done].
  rewrite Ht. apply IH.
Qed.

(** ** Invariants of a call *)

(** What holds throughout a call that began at [start]. *)
Record call_inv (start : Z) (s : Timed.t) : Prop := {
  ci_ordered : ordered (Timed.queue s);
  ci_texts : other_errors react (Timed.queue s);
  ci_start : start <= Timed.now s;
  ci_ping : Timed.awaiting_pong s = true ->
    exists p u, (p, SentPing) ∈ Timed.sent s /\ start + KeepaliveTiming.interval timing <= p <= u /\
      until (react p) = Some u /\ u <= Timed.now s /\ (forall e, react p <> Refused u e) /\
      (forall t, react p = Answered u t -> (t, Pong) ∈ Timed.queue s)
}.

(** How late it can be, when sends take at most [delay] and what is read
    without returning arrives by [h]; [n] items were queued at the start. *)
Record call_budget (delay h n : Z) (s : Timed.t) : Prop := {
  cb_now : Timed.now s + delay * zlen (Timed.queue s)
    <= h + delay * n + if Timed.awaiting_pong s then KeepaliveTiming.interval timing + 2 * delay else 0;
  cb_len : zlen (Timed.queue s) <= n + if Timed.awaiting_pong s then 1 else 0;
  cb_skipped : forall t i, (t, i) ∈ Timed.queue s -> skipped i = true ->
    t <= h \/ Timed.awaiting_pong s = true /\ i = Pong
}.

Lemma other_errors_tail x q : other_errors react (x :: q) -> other_errors react q.
Proof. intros [Hr Hq]. split; [done|]. intros t Ht. apply (Hq t). by right. Qed.

Lemma other_errors_pong t q : other_errors react q -> other_errors react (queue_pong t q).
Proof. intros [Hr Hq]. split; [done|]. intros u [[=]|Hu]%queue_pong_elem. by apply (Hq u). Qed.

(** A turn that goes on read a skipped item, or sent the Ping. *)
Lemma turn_GoesOn a now q sent s' (p := now + KeepaliveTiming.interval timing) :
  turn timing react pong (Timed.mk a now q sent) = GoesOn s' ->
  (exists t i r sent' u, q = (t, i) :: r /\ skipped i = true /\ (a = true -> i <> Pong) /\
     t <= now + (if a then KeepaliveTiming.grace timing else KeepaliveTiming.interval timing) /\
     s' = Timed.mk a u r (sent ++ sent') /\ (u = Z.max now t \/ pong (Z.max now t) = Some u)) \/
  (a = false /\ exists u q', s' = Timed.mk true u q' (sent ++ [(p, SentPing)]) /\
     (react p = Lost u /\ q' = q \/ exists t, react p = Answered u t /\ q' = queue_pong t q)).
Proof.
  subst p. destruct a; turn_cases;
    first [ right; split; [done|]; do 2 eexists; by eauto
          | left; eexists _, _, _, _, _; split_and!; [reflexivity|done|done|done|reflexivity|by eauto]
          | left; eexists _, _, _, [], _; rewrite app_nil_r; split_and!; try done; by eauto ].
Qed.

Lemma turn_keeps start s s' : call_inv start s -> turn timing react pong s = GoesOn s' -> call_inv start s'.
Proof.
  destruct s as [a now q sent].
  intros [Ho Ht Hs Hp] [(t & i & r & sent' & u & -> & Hi' & Hpong & Htd & -> & Hu)|(-> & u & q' & -> & Hq)]%turn_GoesOn;
    cbn [Timed.awaiting_pong Timed.now Timed.queue Timed.sent] in *.
  - assert (Hnow : now <= u) by (destruct Hu as [->|Hu]; [lia|]; specialize (Hfw _ _ (or_intror Hu)); lia).
    apply StronglySorted_inv in Ho as [Ho Hall]. split; cbn; [done|by eapply other_errors_tail|lia|].
    intros Ha. destruct (Hp Ha) as (p & v & Hin & Hb & Hv & Hvn & Hr & Hans). exists p, v.
    split_and!; try done; [set_solver|lia..|].
    intros w [[= -> <-]|Hw]%Hans%elem_of_cons; [by destruct Hpong|done].
  - assert (Huu : until (react (now + KeepaliveTiming.interval timing)) = Some u)
      by (destruct Hq as [[-> _]|(t & -> & _)]; done).
    pose proof (Hfw _ _ (or_introl Huu)) as Hle. split; cbn; [| |lia|].
    + destruct Hq as [[_ ->]|(t & _ & ->)]; [done|by apply queue_pong_ordered].
    + destruct Hq as [[_ ->]|(t & _ & ->)]; [done|by apply other_errors_pong].
    + intros _. exists (now + KeepaliveTiming.interval timing), u. split_and!; try done; [set_solver|lia..| |].
      * destruct Hq as [[-> _]|(t & -> & _)]; done.
      * intros t Hr. destruct Hq as [[Hl _]|(w & Hw & ->)]; [by rewrite Hl in Hr|].
        rewrite Hw in Hr. injection Hr as ->. apply queue_pong_elem. by left.
Qed.

Lemma prompt_pong delay t u : prompt delay react pong -> pong t = Some u -> u <= t + delay.
Proof. intros Hp Hu. destruct (Hp t) as (_ & v & Hv & ?). congruence. Qed.

Lemma prompt_ping delay t u : prompt delay react pong -> until (react t) = Some u -> u <= t + delay.
Proof. intros Hp Hu. destruct (Hp t) as ((v & Hv & ?) & _). congruence. Qed.

Lemma budget_keeps delay h n s s' :
  0 <= delay -> prompt delay react pong -> call_budget delay h n s ->
  turn timing react pong s = GoesOn s' -> call_budget delay h n s'.
Proof.
  destruct s as [a now q sent].
  intros Hd Hp [Hn Hl Hk] [(t & i & r & sent' & u & -> & Hi' & Hpong & Htd & -> & Hu)|(-> & u & q' & -> & Hq)]%turn_GoesOn;
    cbn [Timed.awaiting_pong Timed.now Timed.queue Timed.sent] in *.
  - rewrite zlen_cons in Hn, Hl.
    assert (Hle : u <= Z.max now t + delay) by (destruct Hu as [->|Hu]; [lia|by eapply prompt_pong]).
    destruct (Hk t i) as [Ht|[-> ->]]; [by left|done| |by destruct Hpong].
    split; cbn; [|destruct a; lia|intros w j Hw; apply Hk; by right].
    assert (0 <= zlen r) by apply zlen_nonneg. destruct a; nia.
  - assert (Huu : until (react (now + KeepaliveTiming.interval timing)) = Some u)
      by (destruct Hq as [[-> _]|(t & -> & _)]; done).
    pose proof (prompt_ping _ _ _ Hp Huu) as Hle.
    assert (Hlen : zlen q' <= zlen q + 1)
      by (destruct Hq as [[_ ->]|(t & _ & ->)]; unfold zlen; rewrite ?queue_pong_length; lia).
    split; cbn; [nia|lia|]. intros w j Hw Hj. destruct Hq as [[_ ->]|(t & _ & ->)].
    + destruct (Hk w j Hw Hj) as [|[? _]]; [by left|done].
    + apply queue_pong_elem in Hw as [[= -> ->]|Hw]; [by right|]. destruct (Hk w j Hw Hj) as [|[? _]]; [by left|done].
Qed.

(** The keepalive error at [now s']: a Ping of this call went unanswered, and
    the connection was silent for the grace period before. *)
Definition gave_up (start : Z) (s' : Timed.t) : Prop :=
  (forall t i, (t, i) ∈ Timed.queue s' -> Timed.now s' < t) /\
  exists p u, (p, SentPing) ∈ Timed.sent s' /\ start + KeepaliveTiming.interval timing <= p <= u /\
    until (react p) = Some u /\ u + KeepaliveTiming.grace timing <= Timed.now s' /\
    (forall e, react p <> Refused u e) /\ (forall t, react p = Answered u t -> Timed.now s' < t).

Lemma delivery_not_network d e : (x ← parse_delivery d; Ok (Some x)) <> Err (Network e).
Proof.
  unfold parse_delivery, index, slice, expect. repeat (bool_case; rsimpl; try done).
  all: destruct (d !! _); rsimpl; [by bool_case|done].
Qed.

(** A turn that returns: by the deadline or when its Ping was refused, and
    with the timer only while a Pong is awaited and nothing is due. *)
Lemma turn_Returns (a : bool) now q sent r s' (d := now + if a then KeepaliveTiming.grace timing else KeepaliveTiming.interval timing) :
  turn timing react pong (Timed.mk a now q sent) = Returns r s' ->
  (now <= Timed.now s' <= d \/ a = false /\ until (react d) = Some (Timed.now s')) /\
  (other_errors react q -> r = Err (Network "keepalive timeout") ->
     a = true /\ s' = Timed.mk a d q sent /\ (forall t i r', q = (t, i) :: r' -> d < t)).
Proof.
  subst d. destruct a; turn_cases;
    (split; [cbn; first [left; lia|by right]|]); intros [Hr Hf]; intros; simplify_eq;
    try (by edestruct Hr; eassumption); try (by destruct (Hf _ (list_elem_of_here _ _)));
    try (by edestruct delivery_not_network; eassumption); (split_and!; [done..|]); intros; by simplify_eq.
Qed.

Lemma turn_Hangs s s' :
  turn timing react pong s = Hangs s' ->
  Timed.now s <= Timed.now s' /\ (react (Timed.now s') = Blocked \/ pong (Timed.now s') = None).
Proof. destruct s as [[|] now q sent]; turn_cases; cbn; (split; [lia|]); by auto. Qed.

Lemma turn_gave_up start s r s' :
  call_inv start s -> turn timing react pong s = Returns r s' ->
  start <= Timed.now s' /\ (r = Err (Network "keepalive timeout") -> gave_up start s').
Proof.
  destruct s as [a now q sent]. intros [Ho Ht Hs Hp] (Hb & Hg')%turn_Returns.
  cbn [Timed.awaiting_pong Timed.now Timed.queue Timed.sent] in *. split.
  { destruct Hb as [Hb|[-> Hu]]; [lia|]. specialize (Hfw _ _ (or_introl Hu)). lia. }
  intros Hr. destruct (Hg' Ht Hr) as (-> & -> & Hq).
  destruct (Hp eq_refl) as (p & u & Hin & Hpb & Hu & Hun & Hnr & Hans).
  assert (Hlate : forall t i, (t, i) ∈ q -> now + KeepaliveTiming.grace timing < t).
  { destruct q as [|[w j] q']; [set_solver|]. specialize (Hq w j q' eq_refl).
    apply StronglySorted_inv in Ho as [_ Hall]. rewrite Forall_forall in Hall.
    intros t i [[= -> ->]|Hti]%elem_of_cons; [done|]. specialize (Hall _ Hti). simpl in Hall. lia. }
  split; [exact Hlate|]. exists p, u. split_and!; try done; [lia..|simpl; lia|].
  intros t Ha. by apply (Hlate t Pong), Hans.
Qed.

Lemma turn_in_time delay h n s r s' :
  0 <= delay -> 0 <= n -> prompt delay react pong -> call_budget delay h n s -> turn timing react pong s = Returns r s' ->
  Timed.now s' <= h + KeepaliveTiming.interval timing + KeepaliveTiming.grace timing + delay * (n + 2).
Proof.
  destruct s as [a now q sent]. intros Hd Hn0 Hp [Hn Hl _] (Hdl & _)%turn_Returns.
  cbn [Timed.awaiting_pong Timed.now Timed.queue Timed.sent] in *. assert (0 <= zlen q) by apply zlen_nonneg.
  destruct Hdl as [Hdl|[-> Hu]]; [destruct a; nia|].
  apply (prompt_ping _ _ _ Hp) in Hu. nia.
Qed.

(** A call to its end. *)
Lemma call_outcome start fuel s c :
  call_inv start s -> next_from timing react pong fuel s = Some c ->
  match c with
  | Returned r s' => start <= Timed.now s' /\ (r = Err (Network "keepalive timeout") -> gave_up start s')
  | Hung s' => start <= Timed.now s' /\ (react (Timed.now s') = Blocked \/ pong (Timed.now s') = None)
  end.
Proof.
  revert s. induction fuel as [|fuel IH]; intros s Hinv; cbn [next_from]; [done|].
  destruct (turn timing react pong s) as [r1 s1|s1|s1] eqn:E.
  - intros [= <-]. by eapply turn_gave_up.
  - apply IH. by eapply turn_keeps.
  - intros [= <-]. apply turn_Hangs in E as [? ?]. split; [|done]. destruct Hinv. lia.
Qed.

Lemma call_in_time delay h n fuel s r s' :
  0 <= delay -> 0 <= n -> prompt delay react pong -> call_budget delay h n s ->
  next_from timing react pong fuel s = Some (Returned r s') ->
  Timed.now s' <= h + KeepaliveTiming.interval timing + KeepaliveTiming.grace timing + delay * (n + 2).
Proof.
  intros Hd Hn Hp. revert s. induction fuel as [|fuel IH]; intros s Hb; cbn [next_from]; [done|].
  destruct (turn timing react pong s) as [r1 s1|s1|s1] eqn:E; [|apply IH; by eapply budget_keeps|done].
  intros [= -> ->]. by eapply turn_in_time.
Qed.
End laws.

(** ** The keepalive tests *)

Module KeepaliveTests.
Definition TEST_TIMING : KeepaliveTiming.t := KeepaliveTiming.mk 300 300.

Definition client_over (q : list (Z * Item)) : Timed.t := Timed.mk false 0 q [].

(** What [answering_server] sends first, after a sleep. *)
Definition delivery_after (d : Z) : list (Z * Item) := [(d, Binary ([1] ++ replicate 16 7 ++ bstr "env"))].

(** It reads, counts and answers every Ping at once. *)
Definition answering (p : Z) : Reaction := Answered p p.

(** The Pings it read and the instant of the first. *)
Definition pings (s : Timed.t) : list Z :=
  omap (fun '(t, k) => match k with SentPing => Some t | SentPong => None end) (Timed.sent s).

(** [tokio::time::timeout(limit, sub.next()).await.expect(..)] *)
Definition within (limit : Z) (react : Z -> Reaction) (s : Timed.t) : run (Result (option Event) * Timed.t) :=
  c ← expect (next_timed TEST_TIMING react Some s);
  match c with
  | Returned r s' => if Timed.now s' - Timed.now s <=? limit then Ok (r, s') else Panic
  | Hung _ => Panic
  end.

Definition is_idle (e : option Event) : bool := match e with Some Idle => true | _ => false end.

Definition keepalive_pings_after_interval_of_silence : run unit :=
  let sub := client_over [] in
  '(r, sub') ← within 3000 answering sub;
  event ← unwrapped r;
  _ ← assert (is_idle event);
  _ ← assert_eq (length (pings sub')) 1%nat;
  ping_at ← expect (head (pings sub'));
  assert (250 <=? ping_at - Timed.now sub).

Definition keepalive_missing_pong_is_a_transport_error : run unit :=
  let sub := client_over [] in
  '(result, sub') ← within 3000 Lost sub;
  _ ← assert (negb (is_ok result));
  assert (550 <=? Timed.now sub' - Timed.now sub).

Definition keepalive_resets_on_traffic : run unit :=
  let sub := client_over (delivery_after 150) in
  '(r, sub1) ← within 3000 answering sub;
  first ← unwrapped r;
  _ ← assert (match first with Some (Delivery id _) => beq id (replicate 16 7) | _ => false end);
  '(r, sub2) ← within 3000 answering sub1;
  second ← unwrapped r;
  _ ← assert (is_idle second);
  ping_at ← expect (head (pings sub2));
  _ ← assert (400 <=? ping_at - Timed.now sub);
  assert_eq (length (pings sub2)) 1%nat.
End KeepaliveTests.

Definition keepalive_tests : list (run unit) :=
  [KeepaliveTests.keepalive_pings_after_interval_of_silence;
   KeepaliveTests.keepalive_missing_pong_is_a_transport_error;
   KeepaliveTests.keepalive_resets_on_traffic].

Lemma keepalive_tests_pass : Forall (fun t => t = Ok tt) keepalive_tests.
Proof. run_tests. Qed.

(** ** Properties *)


