(* ===== verification/TestsFormats.v ===== *)
(** The unit tests of the relay's frames ([tezca-relay/src/wire.rs]), of
    recovery ([recovery.rs]), of the pairing payloads ([pairing.rs], modules
    [v2_tests] and [v1_conformance_tests]), of the error classification
    ([ffi.rs]), of the socket address ([relay_client/ws.rs]) and of the pin
    ([relay_client/ws/pin.rs]), each as a program over the model with the
    test's own assertions.  [StandIn] replaces the MAC by a function with
    32-byte results that tells the tests' inputs apart. *)

From S2P Require Import Prelude Errors Utf8 Config Envelope Cursor Pairing Recovery Storage Transport Tls Ffi.
From S2P Require Import Base64 RelayWire FuzzTargets TestsStore.

#[export] Instance BundleData_eq_dec : EqDecision BundleData.t.
Proof. solve_decision. Defined.

Definition is_malformed (e : CoreError) : bool := match e with Malformed _ => true | _ => false end.
Definition is_proof_failed (e : CoreError) : bool := match e with ProofOfScanFailed => true | _ => false end.

(** [assert!(r.is_ok())] *)
Definition assert_ok {E A : Type} (r : Result A) : result E unit := assert (is_ok r).

Module StandIn.
(** A polynomial in the bytes, the length of the key first. *)
Definition mix (n : Z) (l : bytes) : Z := foldl (fun acc b => Z.land (acc * 65599 + b + 1) (Z.ones n)) 7 l.
Definition mac (key data : bytes) : bytes := to_be 32 (mix 256 (to_be 4 (zlen key) ++ key ++ data)).
End StandIn.

Module WireTests.
Definition admission_checks_magic_version_and_length_only : run unit :=
  let admits b := (x ← deposit_admissible b; assert x : run unit) in
  let refuses b := (x ← deposit_admissible b; assert (negb x) : run unit) in
  _ ← admits (bstr "TZCA" ++ [1; 2; 0; 0; 170]);
  _ ← admits (bstr "TZCA" ++ [1; 127; 255; 255] ++ bstr " garbage");
  _ ← refuses (bstr "TZCB" ++ [1; 2; 0; 0; 170]);
  _ ← refuses (bstr "TZCA" ++ [2; 2; 0; 0; 170]);
  _ ← refuses (bstr "TZCA" ++ [1; 2; 0; 0]);
  refuses [].

Definition ack_frame_roundtrip_and_rejection : run unit :=
  let id := replicate 16 7 in
  let frame := [2] ++ id in
  x ← parse_ack_frame frame;
  _ ← assert_eq x (Some id);
  x ← parse_ack_frame (take 16 frame);
  _ ← assert_eq x None;
  x ← parse_ack_frame (replicate 17 1);
  _ ← assert_eq x None;
  x ← parse_ack_frame [];
  assert_eq x None.

Definition mailbox_id_encoding_is_43_chars_and_shape_checked : run unit :=
  let id := encode_mailbox_id (replicate 32 0) in
  _ ← assert_eq (length id) 43%nat;
  _ ← assert (mailbox_id_shape_ok id);
  let id := encode_mailbox_id (replicate 32 255) in
  _ ← assert_eq (length id) 43%nat;
  _ ← assert (mailbox_id_shape_ok id);
  _ ← assert (negb (mailbox_id_shape_ok (bstr "short")));
  assert (negb (mailbox_id_shape_ok (replicate 43 43))).
End WireTests.

Module RecoveryTests.
Definition contrib (seed : Z) : bytes := replicate 32 seed.

Definition root_is_symmetric_across_parties_but_order_sensitive (mac : bytes -> bytes -> bytes) : run unit :=
  let a := contrib 170 in
  let b := contrib 187 in
  ab ← unwrapped (derive_root mac a b);
  ab' ← unwrapped (derive_root mac a b);
  _ ← assert_eq ab ab';
  ba ← unwrapped (derive_root mac b a);
  assert (negb (beq ab ba)).

(** [c.is_ascii_alphanumeric() || c == b'-' || c == b'_'] *)
Definition is_id_char (c : Z) : bool :=
  between 48 57 c || between 65 90 c || between 97 122 c || (c =? 45) || (c =? 95).

Definition mailbox_ids_are_43_chars_and_role_generation_separated (mac : bytes -> bytes -> bytes) : run unit :=
  root ← unwrapped (derive_root mac (contrib 1) (contrib 2));
  a0 ← unwrapped (derive_mailbox_id mac root Offerer 0);
  _ ← assert_eq (length a0) 43%nat;
  again ← unwrapped (derive_mailbox_id mac root Offerer 0);
  _ ← assert_eq a0 again;
  b0 ← unwrapped (derive_mailbox_id mac root Responder 0);
  _ ← assert (negb (beq a0 b0));
  a1 ← unwrapped (derive_mailbox_id mac root Offerer 1);
  _ ← assert (negb (beq a0 a1));
  assert (forallb is_id_char a0).

Definition sender_forward_window_is_w_wide : run unit :=
  assert_eq (GenerationState.outbound_window (GenerationState.mk 0 2)) [2; 3; 4; 5].

Definition double_restart_desync_converges_to_max : run unit :=
  let a := GenerationState.mk 2 0 in
  let b := GenerationState.mk 1 0 in
  let '(bumped, a) := GenerationState.converge a 1 in
  _ ← assert (negb bumped);
  _ ← assert_eq (GenerationState.own a) 2;
  let '(bumped, b) := GenerationState.converge b 2 in
  _ ← assert bumped;
  _ ← assert_eq (GenerationState.own b) 2;
  assert_eq (GenerationState.own a) (GenerationState.own b).

Definition offset_at_or_beyond_window_is_exhausted : run unit :=
  _ ← assert (negb (GenerationState.is_exhausted (GenerationState.mk 3 0)));
  _ ← assert (GenerationState.is_exhausted (GenerationState.mk 4 0));
  assert (GenerationState.is_exhausted (GenerationState.mk 0 9)).

Definition recovery_hello_round_trips_and_rejects_malformed : run unit :=
  let nonce := replicate 16 90 in
  let enc := encode_recovery_hello 7 nonce in
  _ ← assert_eq (zlen enc) (1 + 4 + RECOVERY_HELLO_NONCE_LEN);
  '(g, n) ← unwrapped (parse_recovery_hello enc);
  _ ← assert_eq g 7;
  _ ← assert_eq n nonce;
  _ ← assert_err (parse_recovery_hello (take (length enc - 1) enc)) (fun _ => true);
  assert_err (parse_recovery_hello (<[0%nat := 2]> enc)) (fun _ => true).

Definition cycle_exhaustion_counts_attempts_and_429_within_an_attempt_cannot_advance : run unit :=
  let t := ExhaustionTracker.new in
  _ ← assert (negb (ExhaustionTracker.is_exhausted t));
  let t := ExhaustionTracker.note_probe_cycle (ExhaustionTracker.note_probe_cycle t) in
  _ ← assert (negb (ExhaustionTracker.is_exhausted t));
  let t := ExhaustionTracker.note_probe_cycle t in
  _ ← assert (ExhaustionTracker.is_exhausted t);
  assert (negb (ExhaustionTracker.is_exhausted (ExhaustionTracker.reset t))).
End RecoveryTests.

Module PairingTests.
Definition secret (seed : Z) : bytes := replicate 32 seed.

Definition proof_verifies_with_matching_secret_bundle_and_contribution (mac : bytes -> bytes -> bytes) : run unit :=
  let s := secret 17 in
  let bundle := bstr "responder-prekey-bundle-bytes" in
  let contrib := replicate 32 153 in
  proof ← unwrapped (compute_proof_of_scan mac s bundle contrib);
  assert_ok (verify_proof_of_scan mac s bundle contrib proof).

Definition proof_fails_on_wrong_secret_bundle_contribution_or_mac (mac : bytes -> bytes -> bytes) : run unit :=
  let s := secret 17 in
  let bundle := bstr "responder-bundle" in
  let contrib := replicate 32 153 in
  proof ← unwrapped (compute_proof_of_scan mac s bundle contrib);
  _ ← assert_err (verify_proof_of_scan mac (secret 34) bundle contrib proof) is_proof_failed;
  _ ← assert_err (verify_proof_of_scan mac s (bstr "tampered-bundle") contrib proof) is_proof_failed;
  _ ← assert_err (verify_proof_of_scan mac s bundle (replicate 32 0) proof) is_proof_failed;
  assert_err (verify_proof_of_scan mac s bundle contrib (take 16 proof)) is_proof_failed.

Definition pair_ack_v2_roundtrips_and_carries_verifiable_proof (mac : bytes -> bytes -> bytes) : run unit :=
  let bundle := bstr "B-bundle" in
  let contrib := replicate 32 85 in
  let s := secret 68 in
  enc ← unwrapped (encode_pair_ack_v2 mac bundle (bstr "wss://b/v1") (replicate 43 66) contrib s);
  ack ← unwrapped (parse_pair_ack_v2 enc);
  _ ← assert_eq (PairAckV2.responder_bundle ack) bundle;
  _ ← assert_eq (PairAckV2.root_contribution ack) contrib;
  assert_ok (verify_proof_of_scan mac s (PairAckV2.responder_bundle ack) (PairAckV2.root_contribution ack)
               (PairAckV2.proof ack)).

Definition mailbox_update_v2_roundtrips_contribution : run unit :=
  let contrib := replicate 32 119 in
  enc ← unwrapped (encode_mailbox_update_v2 (bstr "wss://a/v1") (replicate 43 67) contrib);
  '(r, i, c) ← unwrapped (parse_mailbox_update_v2 enc);
  _ ← assert_eq r (bstr "wss://a/v1");
  _ ← assert_eq (length i) 43%nat;
  assert_eq c contrib.

Definition bundle_with_device_id (device_id : Z) : BundleData.t :=
  BundleData.mk (replicate 66 97) 4660 device_id (5 :: replicate 32 17) 7 (replicate 33 34) (replicate 64 51)
    9 (replicate 1569 68) (replicate 64 85) (Some (2, replicate 33 102)).

Definition bundle_with_device_id_other_than_1_is_malformed : run unit :=
  b ← unwrapped (serialize (bundle_with_device_id 2));
  assert_err (parse b) is_malformed.

Definition mailbox_update_v1_with_trailing_bytes_is_malformed : run unit :=
  payload ← unwrapped (encode_mailbox_update (bstr "wss://relay.example/v1") (replicate 43 65));
  assert_err (parse_mailbox_update (payload ++ [222; 173])) is_malformed.
End PairingTests.

Module ClassificationTests.
Definition is_network (e : TitlanError.t) : bool := match e with TitlanError.Network _ => true | _ => false end.
Definition is_malformed (e : TitlanError.t) : bool := match e with TitlanError.Malformed _ => true | _ => false end.
Definition is_protocol (e : TitlanError.t) : bool := match e with TitlanError.Protocol _ => true | _ => false end.
Definition is_other (e : TitlanError.t) : bool := match e with TitlanError.Other _ => true | _ => false end.
Definition is_unavailable (e : TitlanError.t) : bool :=
  match e with TitlanError.PairingUnavailable => true | _ => false end.
Definition is_signature_invalid (e : TitlanError.t) : bool :=
  match e with TitlanError.OfferSignatureInvalid => true | _ => false end.
Definition is_scan_failed (e : TitlanError.t) : bool :=
  match e with TitlanError.ProofOfScanFailed => true | _ => false end.
Definition is_expired (e : TitlanError.t) : bool :=
  match e with TitlanError.OfferExpired _ _ _ _ => true | _ => false end.

Definition expired_carries (detail : OfferExpiryDetail) : run unit :=
  match TitlanError.from (OfferExpired 1755000000 3600 1755010000 detail) with
  | TitlanError.OfferExpired issued_at ttl_s now _ =>
    _ ← assert_eq issued_at 1755000000;
    _ ← assert_eq ttl_s 3600;
    assert_eq now 1755010000
  | _ => Panic
  end.

Definition accept_path_classification_is_total_and_four_way : run unit :=
  _ ← assert (is_network (TitlanError.from (Network "relay unreachable")));
  _ ← expired_carries Expired;
  _ ← expired_carries NotYetValid;
  _ ← assert (is_unavailable (TitlanError.from PairingUnavailable));
  _ ← assert (is_signature_invalid (TitlanError.from OfferSignatureInvalid));
  _ ← assert (is_malformed (TitlanError.from (Malformed "trailing bytes in pairing offer")));
  _ ← assert (is_malformed (TitlanError.from (UnsupportedVersion 2)));
  _ ← assert (is_scan_failed (TitlanError.from ProofOfScanFailed));
  _ ← assert (is_protocol (TitlanError.from (Signal "bad key data")));
  _ ← assert (is_other (TitlanError.from (Storage "disk full")));
  assert (is_other (TitlanError.from (PayloadTooLarge 9000 8186))).

Definition invalid_label_is_the_internal_class : run unit :=
  match TitlanError.from (InvalidLabel "blank after trimming") with
  | TitlanError.Other msg => assert_eq msg "invalid conversation label: blank after trimming"%string
  | _ => Panic
  end.

Definition structural (e : CoreError) : run unit :=
  let mapped := TitlanError.from e in
  _ ← assert (negb (is_signature_invalid mapped || is_scan_failed mapped || is_protocol mapped));
  assert (is_malformed mapped).

Definition structural_family_never_surfaces_as_crypto : run unit :=
  _ ← structural (UnsupportedVersion 1);
  _ ← structural (UnsupportedVersion 2);
  structural (Malformed "offer ttl_s out of range").

Definition crypto_family_is_distinct_and_never_expired : run unit :=
  _ ← assert (is_scan_failed (TitlanError.from ProofOfScanFailed));
  _ ← assert (is_protocol (TitlanError.from (Signal "PQXDH failure")));
  _ ← assert (negb (is_expired (TitlanError.from OfferSignatureInvalid)));
  _ ← assert (negb (is_expired (TitlanError.from ProofOfScanFailed)));
  assert (negb (is_expired (TitlanError.from (Signal "PQXDH failure")))).
End ClassificationTests.

Module SocketTests.
Definition socket_authority_defaults_wss_to_443 : run unit :=
  assert_eq (socket_authority (bstr "wss") (bstr "relay.titlan.chat")) (bstr "relay.titlan.chat:443").
Definition socket_authority_defaults_ws_to_80 : run unit :=
  assert_eq (socket_authority (bstr "ws") (bstr "relay.local")) (bstr "relay.local:80").
Definition socket_authority_keeps_explicit_port : run unit :=
  _ ← assert_eq (socket_authority (bstr "wss") (bstr "10.0.0.32:8443")) (bstr "10.0.0.32:8443");
  assert_eq (socket_authority (bstr "ws") (bstr "127.0.0.1:41234")) (bstr "127.0.0.1:41234").
End SocketTests.

(** The pin tests, for any two certificates that the tests may generate. *)
Module PinTests.
Section tests.
Context `{Tls}.

Definition pinned_certificate_is_accepted (der : bytes) : run unit :=
  match Verifier.verify_server_cert (pin_verifier (sha256 der)) der [] (bstr "relay.example") with
  | inl _ => Ok tt
  | inr _ => Panic
  end.

Definition certificate_not_matching_pin_is_rejected (presented other : bytes) : run unit :=
  let expected_pin := sha256 other in
  _ ← assert (negb (beq (sha256 presented) expected_pin));
  match Verifier.verify_server_cert (pin_verifier expected_pin) presented [] (bstr "relay.example") with
  | inl _ => Panic
  | inr err => assert_eq err "relay certificate pin mismatch"%string
  end.

Definition advertises_the_providers_signature_schemes (der : bytes) : run unit :=
  assert (bool_decide (Verifier.supported_verify_schemes (pin_verifier (sha256 der)) <> [])).
End tests.
End PinTests.

Definition format_tests (mac : bytes -> bytes -> bytes) : list (run unit) :=
  [WireTests.admission_checks_magic_version_and_length_only;
   WireTests.ack_frame_roundtrip_and_rejection;
   WireTests.mailbox_id_encoding_is_43_chars_and_shape_checked;
   RecoveryTests.root_is_symmetric_across_parties_but_order_sensitive mac;
   RecoveryTests.mailbox_ids_are_43_chars_and_role_generation_separated mac;
   RecoveryTests.sender_forward_window_is_w_wide;
   RecoveryTests.double_restart_desync_converges_to_max;
   RecoveryTests.offset_at_or_beyond_window_is_exhausted;
   RecoveryTests.recovery_hello_round_trips_and_rejects_malformed;
   RecoveryTests.cycle_exhaustion_counts_attempts_and_429_within_an_attempt_cannot_advance;
   PairingTests.proof_verifies_with_matching_secret_bundle_and_contribution mac;
   PairingTests.proof_fails_on_wrong_secret_bundle_contribution_or_mac mac;
   PairingTests.pair_ack_v2_roundtrips_and_carries_verifiable_proof mac;
   PairingTests.mailbox_update_v2_roundtrips_contribution;
   PairingTests.bundle_with_device_id_other_than_1_is_malformed;
   PairingTests.mailbox_update_v1_with_trailing_bytes_is_malformed;
   ClassificationTests.accept_path_classification_is_total_and_four_way;
   ClassificationTests.invalid_label_is_the_internal_class;
   ClassificationTests.structural_family_never_surfaces_as_crypto;
   ClassificationTests.crypto_family_is_distinct_and_never_expired;
   SocketTests.socket_authority_defaults_wss_to_443;
   SocketTests.socket_authority_defaults_ws_to_80;
   SocketTests.socket_authority_keeps_explicit_port].

Lemma format_tests_pass : Forall (fun t => t = Ok tt) (format_tests StandIn.mac).
Proof. run_tests. Qed.

(** The pin tests pass whatever certificates they draw, if the digest tells
    them apart and the provider has a signature scheme. *)
Lemma pin_tests_pass `{Tls} (der other : bytes) :
  sha256 der <> sha256 other -> CryptoProvider.supported_schemes ring_provider <> [] ->
  Forall (fun t => t = Ok tt)
    [PinTests.pinned_certificate_is_accepted der; PinTests.certificate_not_matching_pin_is_rejected der other;
     PinTests.advertises_the_providers_signature_schemes der].
Proof.
  intros Hne Hs. repeat constructor.
  - unfold PinTests.pinned_certificate_is_accepted. simpl. by rewrite beq_refl.
  - unfold PinTests.certificate_not_matching_pin_is_rejected. simpl.
    unfold beq. rewrite bool_decide_eq_false_2 by done. done.
  - unfold PinTests.advertises_the_providers_signature_schemes. simpl. by rewrite bool_decide_eq_true_2.
Qed.
