(* ===== verification/TestsOffer.v ===== *)
(** The acceptance tests of pairing offers ([pairing_v3_acceptance.rs], R1 to
    R10) and the committed conformance vector ([pairing.rs], module
    [v3_conformance_tests]; [proto/fixtures/]).  The vector is the text of the
    fixture files: the model decodes and parses bytes that the program's real
    libraries produced.  Signatures of freshly minted offers are [Signer]'s; of
    the vector's signature only the one fact is used that it verifies. *)

From stdpp Require Import pretty.
From S2P Require Import Prelude Errors Utf8 Config Envelope Cursor Pairing Recovery Storage Keys.
From S2P Require Import Transport Tls Session Engine Client EngineDemo Base64 RelayWire FuzzTargets HarnessCodec Harness.
From S2P Require Import Open TestsStore Keepalive TestsFormats.

#[export] Instance OfferV3_eq_dec : EqDecision OfferV3.t.
Proof. solve_decision. Defined.

(** ** The tests' own base64url *)

Definition position (c : Z) : option Z := Z.of_nat <$> (fst <$> list_find (fun a => a = c) ALPHABET).

(** [chunk.iter().fold(0u32, ..)]; a character outside the alphabet panics. *)
Definition strict_push (n : run Z) (c : Z) : run Z :=
  n ← n; v ← expect (position c); Ok (Z.lor (Z.shiftl n 6 mod 2 ^ 32) v).

Definition strict_chunk (chunk : bytes) : run bytes :=
  n ← foldl strict_push (Ok 0) chunk;
  if zlen chunk =? 4 then slice (to_be 4 n) 1 4
  else if zlen chunk =? 3 then slice (to_be 4 (Z.shiftl n 6 mod 2 ^ 32)) 1 3
  else if zlen chunk =? 2 then b ← index (to_be 4 (Z.shiftl n 4 mod 2 ^ 32)) 2; Ok [b]
  else Panic.

Fixpoint strict_chunks (cs : list bytes) : run bytes :=
  match cs with
  | [] => Ok []
  | c :: r => g ← strict_chunk c; rest ← strict_chunks r; Ok (g ++ rest)
  end.

Definition strict_decode (s : bytes) : run bytes :=
  _ ← assert (negb (zlen s mod 4 =? 1));
  strict_chunks (chunks4 s).

(** ** Minting *)

(** A key pair whose signature of a message is a polynomial in the public key
    and the message. *)
Module Signer.
Definition identity : bytes := 5 :: replicate 32 100.
Definition calculate (private_key message : bytes) : Result bytes :=
  Ok (to_be 64 (StandIn.mix 512 (private_key ++ message))).
Definition verify (public_key message sig : bytes) : bool :=
  beq sig (to_be 64 (StandIn.mix 512 (public_key ++ message))).
End Signer.

Module OfferTests.
Definition T0 : Z := 1755000000.
Definition RELAY : bytes := bstr "wss://127.0.0.1:8443".
Definition INBOX : bytes := replicate 43 65.
Definition SECRET : bytes := replicate 32 66.

Definition bundle_for (identity : bytes) : run bytes :=
  unwrapped (serialize (BundleData.mk (replicate 66 97) 4660 1 identity 7 (replicate 33 34) (replicate 64 51)
                          9 (replicate 1569 68) (replicate 64 85) (Some (2, replicate 33 102)))).

Definition mint (identity relay : bytes) (issued_at ttl_s : Z) : run bytes :=
  bundle ← bundle_for identity;
  unwrapped (encode_pairing_offer_v3 Signer.calculate (OfferV3.mk bundle relay INBOX SECRET issued_at ttl_s) identity).

Definition accept (b : bytes) (now : Z) : Result OfferV3.t := parse_pairing_offer_v3 (fun k => Ok k) Signer.verify b now.

(** The trailing signature verifies over everything before it. *)
Definition signed_by (identity enc : bytes) : run unit :=
  let mid := (length enc - Z.to_nat OFFER_SIG_LEN)%nat in
  assert (Signer.verify identity (take mid enc) (drop mid enc)).

Definition r1_fresh_mint_round_trips_and_accepts : run unit :=
  let id := Signer.identity in
  enc ← mint id RELAY T0 OFFER_DEFAULT_TTL_S;
  offer ← unwrapped (accept enc (T0 + 1));
  bundle ← bundle_for id;
  _ ← assert_eq (OfferV3.bundle offer) bundle;
  _ ← assert_eq (OfferV3.relay_url offer) RELAY;
  _ ← assert_eq (OfferV3.pairing_inbox_id offer) INBOX;
  _ ← assert_eq (OfferV3.pairing_secret offer) SECRET;
  _ ← assert_eq (OfferV3.issued_at offer) T0;
  _ ← assert_eq (OfferV3.ttl_s offer) OFFER_DEFAULT_TTL_S;
  signed_by id enc.

Definition r3_boundary_now_equals_issued_plus_ttl_is_expired : run unit :=
  enc ← mint Signer.identity RELAY T0 3600;
  _ ← assert_err (accept enc (T0 + 3600))
        (fun e => match e with
                  | OfferExpired issued_at ttl_s now Expired =>
                    (issued_at =? T0) && (ttl_s =? 3600) && (now =? T0 + 3600)
                  | _ => false end);
  assert_ok (accept enc (T0 + 3599)).

Definition r4_bit_flipped_issued_at_is_signature_invalid_not_expired : run unit :=
  enc ← mint Signer.identity RELAY T0 3600;
  let off := (length enc - Z.to_nat OFFER_SIG_LEN - 4 - 8 + 4)%nat in
  b ← expect (enc !! off);
  _ ← assert_eq (Z.land b 64) 64;
  assert_err (accept (<[off := Z.lxor b 64]> enc) (T0 + 1))
    (fun e => match e with OfferSignatureInvalid => true | _ => false end).

Definition ttl_is_malformed (ttl : Z) : run unit :=
  enc ← mint Signer.identity RELAY T0 ttl;
  assert_err (accept enc (T0 + 1)) is_malformed.

Definition r5_ttl_zero_and_over_max_are_malformed : run unit :=
  _ ← ttl_is_malformed 0; ttl_is_malformed (MAX_OFFER_TTL_S + 1).

Definition r6_future_dated_beyond_grace_is_not_yet_valid : run unit :=
  enc ← mint Signer.identity RELAY (T0 + FUTURE_SKEW_S + 1) 3600;
  _ ← assert_err (accept enc T0)
        (fun e => match e with
                  | OfferExpired issued_at _ now NotYetValid => (issued_at =? T0 + FUTURE_SKEW_S + 1) && (now =? T0)
                  | _ => false end);
  at_grace ← mint Signer.identity RELAY (T0 + FUTURE_SKEW_S) 3600;
  assert_ok (accept at_grace T0).

Definition r8_trailing_bytes_after_offer_sig_reject : run unit :=
  enc ← mint Signer.identity RELAY T0 3600;
  assert_err (accept (enc ++ [222; 173]) (T0 + 1)) is_malformed.

Definition r9_harness_fuse_equals_embedded_ttl : run unit :=
  enc ← mint Signer.identity RELAY T0 7200;
  validity ← unwrapped (TitlanClient.peek_offer_validity enc);
  _ ← assert_eq (OfferValidity.ttl_s validity) 7200;
  assert_eq (OfferValidity.issued_at validity) T0.

Definition r10_qr_link_byte_identity_round_trip_v3 : run unit :=
  let id := Signer.identity in
  enc ← mint id RELAY T0 OFFER_DEFAULT_TTL_S;
  let link := LINK_PREFIX ++ b64url_encode enc in
  _ ← assert (bool_decide (LINK_PREFIX `prefix_of` link));
  decoded ← strict_decode (drop (length LINK_PREFIX) link);
  _ ← assert_eq decoded enc;
  offer ← unwrapped (accept decoded (T0 + 1));
  _ ← assert_eq (OfferV3.issued_at offer) T0;
  _ ← assert_eq (OfferV3.ttl_s offer) OFFER_DEFAULT_TTL_S;
  signed_by id decoded.
End OfferTests.

(** ** The committed vectors *)

Definition V2_FIXTURE_LINK : str :=
  bstr ("titlan://pair#AgdpAQBCYWFhYWFhYWFhYWFhYWFhYWFhYWFhYWFhYWFhYWFhYWFhYWFhYWFhYWFhYWFhYWFhYWFhYWFhYW" +:+
        "FhYWFhYWFhYWFhAAASNAAAAAEAIQUREREREREREREREREREREREREREREREREREREREREREQAAAAcAISIiIiIiIiIiIiIiIi" +:+
        "IiIiIiIiIiIiIiIiIiIiIiIiIiIgBAMzMzMzMzMzMzMzMzMzMzMzMzMzMzMzMzMzMzMzMzMzMzMzMzMzMzMzMzMzMzMzMzMz" +:+
        "MzMzMzMzMzMzMzMzMzMwAAAAkGIURERERERERERERERERERERERERERERERERERERERERERERERERERERERERERERERERERE" +:+
        "RERERERERERERERERERERERERERERERERERERERERERERERERERERERERERERERERERERERERERERERERERERERERERERERE" +:+
        "RERERERERERERERERERERERERERERERERERERERERERERERERERERERERERERERERERERERERERERERERERERERERERERERE" +:+
        "RERERERERERERERERERERERERERERERERERERERERERERERERERERERERERERERERERERERERERERERERERERERERERERERE" +:+
        "RERERERERERERERERERERERERERERERERERERERERERERERERERERERERERERERERERERERERERERERERERERERERERERERE" +:+
        "RERERERERERERERERERERERERERERERERERERERERERERERERERERERERERERERERERERERERERERERERERERERERERERERE" +:+
        "RERERERERERERERERERERERERERERERERERERERERERERERERERERERERERERERERERERERERERERERERERERERERERERERE" +:+
        "RERERERERERERERERERERERERERERERERERERERERERERERERERERERERERERERERERERERERERERERERERERERERERERERE" +:+
        "RERERERERERERERERERERERERERERERERERERERERERERERERERERERERERERERERERERERERERERERERERERERERERERERE" +:+
        "RERERERERERERERERERERERERERERERERERERERERERERERERERERERERERERERERERERERERERERERERERERERERERERERE" +:+
        "RERERERERERERERERERERERERERERERERERERERERERERERERERERERERERERERERERERERERERERERERERERERERERERERE" +:+
        "RERERERERERERERERERERERERERERERERERERERERERERERERERERERERERERERERERERERERERERERERERERERERERERERE" +:+
        "RERERERERERERERERERERERERERERERERERERERERERERERERERERERERERERERERERERERERERERERERERERERERERERERE" +:+
        "RERERERERERERERERERERERERERERERERERERERERERERERERERERERERERERERERERERERERERERERERERERERERERERERE" +:+
        "RERERERERERERERERERERERERERERERERERERERERERERERERERERERERERERERERERERERERERERERERERERERERERERERE" +:+
        "RERERERERERERERERERERERERERERERERERERERERERERERERERERERERERERERERERERERERERERERERERERERERERERERE" +:+
        "RERERERERERERERERERERERERERERERERERERERERERERERERERERERERERERERERERERERERERERERERERERERERERERERE" +:+
        "RERERERERERERERERERERERERERERERERERERERERERERERERERERERERERERERERERERERERERERERERERERERERERERERE" +:+
        "RERERERERERERERERERERERERERERERERERERERERERERERERERERERERERERERERERERERERERERERERERERERERERERERE" +:+
        "RERERERERERERERERERERERERERERERERERERERERERERERERERERERERERERERERERERERERERERERERERERERERERERERE" +:+
        "RERERERERERERERERERERERERERERERERERERERERERERERERERERERERERERERERERERERERERERERERERERERERERERERE" +:+
        "RERERERERERERERERERERERERERERERERERERERERERERERERERERERERERERERERERERERERERERERERERERERERERERERE" +:+
        "RERERERABAVVVVVVVVVVVVVVVVVVVVVVVVVVVVVVVVVVVVVVVVVVVVVVVVVVVVVVVVVVVVVVVVVVVVVVVVVVVVVVVVVVVVVQ" +:+
        "AAAAIAIWZmZmZmZmZmZmZmZmZmZmZmZmZmZmZmZmZmZmZmZmZmZgAUd3NzOi8vMTI3LjAuMC4xOjg0NDNBQUFBQUFBQUFBQU" +:+
        "FBQUFBQUFBQUFBQUFBQUFBQUFBQUFBQUFBQUFBQUFBQkJCQkJCQkJCQkJCQkJCQkJCQkJCQkJCQkJCQkJCQkI")%string.

Definition CONFORMANCE_LINK : str :=
  bstr ("titlan://pair#AwdpAQBCYWFhYWFhYWFhYWFhYWFhYWFhYWFhYWFhYWFhYWFhYWFhYWFhYWFhYWFhYWFhYWFhYWFhYWFhYW" +:+
        "FhYWFhYWFhYWFhAAASNAAAAAEAIQVkYJxNtgtpXMAIbeEUAi6uServTssbyK8NlLTMFXbtJQAAAAcAISIiIiIiIiIiIiIiIi" +:+
        "IiIiIiIiIiIiIiIiIiIiIiIiIiIgBAMzMzMzMzMzMzMzMzMzMzMzMzMzMzMzMzMzMzMzMzMzMzMzMzMzMzMzMzMzMzMzMzMz" +:+
        "MzMzMzMzMzMzMzMzMzMwAAAAkGIURERERERERERERERERERERERERERERERERERERERERERERERERERERERERERERERERERE" +:+
        "RERERERERERERERERERERERERERERERERERERERERERERERERERERERERERERERERERERERERERERERERERERERERERERERE" +:+
        "RERERERERERERERERERERERERERERERERERERERERERERERERERERERERERERERERERERERERERERERERERERERERERERERE" +:+
        "RERERERERERERERERERERERERERERERERERERERERERERERERERERERERERERERERERERERERERERERERERERERERERERERE" +:+
        "RERERERERERERERERERERERERERERERERERERERERERERERERERERERERERERERERERERERERERERERERERERERERERERERE" +:+
        "RERERERERERERERERERERERERERERERERERERERERERERERERERERERERERERERERERERERERERERERERERERERERERERERE" +:+
        "RERERERERERERERERERERERERERERERERERERERERERERERERERERERERERERERERERERERERERERERERERERERERERERERE" +:+
        "RERERERERERERERERERERERERERERERERERERERERERERERERERERERERERERERERERERERERERERERERERERERERERERERE" +:+
        "RERERERERERERERERERERERERERERERERERERERERERERERERERERERERERERERERERERERERERERERERERERERERERERERE" +:+
        "RERERERERERERERERERERERERERERERERERERERERERERERERERERERERERERERERERERERERERERERERERERERERERERERE" +:+
        "RERERERERERERERERERERERERERERERERERERERERERERERERERERERERERERERERERERERERERERERERERERERERERERERE" +:+
        "RERERERERERERERERERERERERERERERERERERERERERERERERERERERERERERERERERERERERERERERERERERERERERERERE" +:+
        "RERERERERERERERERERERERERERERERERERERERERERERERERERERERERERERERERERERERERERERERERERERERERERERERE" +:+
        "RERERERERERERERERERERERERERERERERERERERERERERERERERERERERERERERERERERERERERERERERERERERERERERERE" +:+
        "RERERERERERERERERERERERERERERERERERERERERERERERERERERERERERERERERERERERERERERERERERERERERERERERE" +:+
        "RERERERERERERERERERERERERERERERERERERERERERERERERERERERERERERERERERERERERERERERERERERERERERERERE" +:+
        "RERERERERERERERERERERERERERERERERERERERERERERERERERERERERERERERERERERERERERERERERERERERERERERERE" +:+
        "RERERERERERERERERERERERERERERERERERERERERERERERERERERERERERERERERERERERERERERERERERERERERERERERE" +:+
        "RERERERERERERERERERERERERERERERERERERERERERERERERERERERERERERERERERERERERERERERERERERERERERERERE" +:+
        "RERERERERERERERERERERERERERERERERERERERERERERERERERERERERERERERERERERERERERERERERERERERERERERERE" +:+
        "RERERERERERERERERERERERERERERERERERERERERERERERERERERERERERERERERERERERERERERERERERERERERERERERE" +:+
        "RERERERERERERERERERERERERERERERERERERERERERERERERERERERERERERERERERERERERERERERERERERERERERERERE" +:+
        "RERERERABAVVVVVVVVVVVVVVVVVVVVVVVVVVVVVVVVVVVVVVVVVVVVVVVVVVVVVVVVVVVVVVVVVVVVVVVVVVVVVVVVVVVVVQ" +:+
        "AAAAIAIWZmZmZmZmZmZmZmZmZmZmZmZmZmZmZmZmZmZmZmZmZmZgAUd3NzOi8vMTI3LjAuMC4xOjg0NDNBQUFBQUFBQUFBQU" +:+
        "FBQUFBQUFBQUFBQUFBQUFBQUFBQUFBQUFBQUFBQUFBQkJCQkJCQkJCQkJCQkJCQkJCQkJCQkJCQkJCQkJCQkIAAAAAaJsswA" +:+
        "AADhDLdf5Xc-VpQHG2QGmemkvCcvSzLX8C61biPc1_4vq0wvV84FHw2mKs6yoV2faFyIdhbtfrWOLZSoNkvBIbF6oC")%string.

Definition CONFORMANCE_EXPECTED : str :=
  concat (map (fun line => bstr line ++ [10])
    ["decoded_sha256=0ca28087829460ae7be5c115304cc5a0abe1c1a2487eb507dfa546dbf4bb6e2b";
     "decoded_len=2073";
     "relay=wss://127.0.0.1:8443";
     "inbox=AAAAAAAAAAAAAAAAAAAAAAAAAAAAAAAAAAAAAAAAAAA";
     "onetime_id=2";
     "bundle_len=1897";
     "identity_pub=0564609c4db60b695cc0086de114022eae49eaef4ecb1bc8af0d94b4cc1576ed25";
     "issued_at=1755000000";
     "ttl_s=3600"]%string).

(** [str::lines] on text that ends in a line feed. *)
Fixpoint lines_from (acc : str) (s : str) : list str :=
  match s with
  | [] => if (length acc =? 0)%nat then [] else [acc]
  | c :: r => if c =? 10 then acc :: lines_from [] r else lines_from (acc ++ [c]) r
  end.

Module VectorTests.
Definition strip_prefix (p s : str) : option str :=
  if bool_decide (p `prefix_of` s) then Some (drop (length p) s) else None.

(** [.lines().find_map(..)] *)
Fixpoint find_key (key : str) (ls : list str) : option str :=
  match ls with
  | [] => None
  | l :: r => match strip_prefix key l ≫= strip_prefix (bstr "=") with Some v => Some v | None => find_key key r end
  end.

Definition conformance_expected (key : str) : run str := expect (find_key key (lines_from [] CONFORMANCE_EXPECTED)).

Definition decimal (n : Z) : str := bstr (pretty n).

Definition r7_v2_fixture_bytes_are_unsupported_version : run unit :=
  fragment ← expect (strip_prefix LINK_PREFIX V2_FIXTURE_LINK);
  payload ← strict_decode fragment;
  assert_err (OfferTests.accept payload OfferTests.T0)
    (fun e => match e with UnsupportedVersion got => got =? 2 | _ => false end).

(** The signed region rebuilt without the encoder. *)
Definition conformance_prefix (identity_pub : bytes) : run bytes :=
  bundle ← OfferTests.bundle_for identity_pub;
  out ← unwrapped (put_bytes [OFFER_VERSION_V3] bundle);
  out ← unwrapped (put_bytes out OfferTests.RELAY);
  Ok (out ++ OfferTests.INBOX ++ OfferTests.SECRET ++ to_be 8 OfferTests.T0 ++ to_be 4 OFFER_DEFAULT_TTL_S).

(** The digest of the decoded bytes is the pinned one. *)
Definition pinned_digest (digest : bytes -> bytes) (payload : bytes) : run unit :=
  e ← conformance_expected (bstr "decoded_sha256");
  assert_eq (hex_encode (digest payload)) e.

Definition decoded_vector : run bytes :=
  fragment ← expect (strip_prefix LINK_PREFIX CONFORMANCE_LINK);
  payload ← strict_decode fragment;
  _ ← assert_eq (b64url_encode payload) fragment;
  Ok payload.

Definition pinned_fields (verify : bytes -> bytes -> bytes -> bool) (payload : bytes) : run unit :=
  e ← conformance_expected (bstr "decoded_len");
  _ ← assert_eq (decimal (zlen payload)) e;
  e ← conformance_expected (bstr "identity_pub");
  identity_pub ← expect (Bench.unhex e);
  prefix ← conformance_prefix identity_pub;
  _ ← assert_eq (take (length payload - Z.to_nat OFFER_SIG_LEN) payload) prefix;
  offer ← unwrapped (parse_pairing_offer_v3 (fun k => Ok k) verify payload (OfferTests.T0 + 1));
  e ← conformance_expected (bstr "relay");
  _ ← assert_eq (OfferV3.relay_url offer) e;
  e ← conformance_expected (bstr "inbox");
  _ ← assert_eq (OfferV3.pairing_inbox_id offer) e;
  _ ← assert_eq (OfferV3.pairing_secret offer) OfferTests.SECRET;
  e ← conformance_expected (bstr "issued_at");
  _ ← assert_eq (decimal (OfferV3.issued_at offer)) e;
  e ← conformance_expected (bstr "ttl_s");
  _ ← assert_eq (decimal (OfferV3.ttl_s offer)) e;
  e ← conformance_expected (bstr "bundle_len");
  _ ← assert_eq (decimal (zlen (OfferV3.bundle offer))) e;
  data ← unwrapped (parse (OfferV3.bundle offer));
  _ ← assert_eq (BundleData.identity_key data) identity_pub;
  '(onetime_id, _) ← expect (BundleData.onetime_prekey data);
  e ← conformance_expected (bstr "onetime_id");
  _ ← assert_eq (decimal onetime_id) e;
  assert_eq (length (BundleData.kyber_prekey_pub data)) 1569%nat.

Definition committed_conformance_vector_link_round_trips_and_parses
    (digest : bytes -> bytes) (verify : bytes -> bytes -> bytes -> bool) : run unit :=
  payload ← decoded_vector;
  _ ← pinned_digest digest payload;
  pinned_fields verify payload.

(** What the vector's mint prints after the two texts' headers, line by line. *)
Definition printed (digest : bytes -> bytes) (bundle payload identity_pub : bytes) : list str :=
  [bstr "decoded_sha256=" ++ hex_encode (digest payload);
   bstr "decoded_len=" ++ decimal (zlen payload);
   bstr "relay=" ++ OfferTests.RELAY;
   bstr "inbox=" ++ OfferTests.INBOX;
   bstr "onetime_id=2";
   bstr "bundle_len=" ++ decimal (zlen bundle);
   bstr "identity_pub=" ++ hex_encode identity_pub;
   bstr "issued_at=" ++ decimal OfferTests.T0;
   bstr "ttl_s=" ++ decimal OFFER_DEFAULT_TTL_S].

(** [identity_pub] and [private] are the generated key pair's. *)
Definition regen_committed_v3_vector {PrivateKey : Type} (calculate : PrivateKey -> bytes -> Result bytes)
    (digest : bytes -> bytes) (identity_pub : bytes) (private : PrivateKey) : run (list str) :=
  bundle ← OfferTests.bundle_for identity_pub;
  payload ← unwrapped (encode_pairing_offer_v3 calculate
              (OfferV3.mk bundle OfferTests.RELAY OfferTests.INBOX OfferTests.SECRET OfferTests.T0 OFFER_DEFAULT_TTL_S)
              private);
  Ok ([bstr "--- pairing-offer-v3.link.txt (no trailing newline) ---"; LINK_PREFIX ++ b64url_encode payload;
       bstr "--- pairing-offer-v3.expected.txt ---"] ++ printed digest bundle payload identity_pub).
End VectorTests.

(** ** An expired offer and a dead relay (R2) *)

(** Requests are recorded and refused; the clock stands. *)
Module DeadRelay.
Definition url : bytes := bstr "https://127.0.0.1:49152".

#[export] Instance platform : Platform | 0 := {|
  World := list bytes;
  http_send _ u _ w := (Err "connection refused"%string, w ++ [u]);
  random_bytes n w := (replicate n 7, w);
  system_secs w := (Some OfferTests.T0, w);
  unixepoch w := (OfferTests.T0, w);
  store_fault w := (None, w);
  status_text _ := "status"%string
|}.

#[export] Instance tls : Tls (H := platform) := {|
  sha256 b := b;
  hex_decode := Bench.unhex;
  ring_provider := CryptoProvider.mk (fun _ _ _ => inl tt) (fun _ _ _ => inl tt) [];
  safe_protocol_versions := inl tt;
  webpki_verifier := Verifier.mk (fun _ _ _ => inr "unknown issuer"%string) (fun _ _ _ => inl tt) (fun _ _ _ => inl tt) [];
  server_name_ok _ := true;
  TcpStream := bytes;
  TlsStream := bytes;
  WebSocket := bytes + bytes;
  tcp_connect a w := (inr "connection refused"%string, w ++ [a]);
  tls_handshake _ _ _ w := (inr "no relay here"%string, w);
  client_async _ s w := (inl s, w);
  reqwest_build _ _ := inl tt
|}.

#[export] Instance crypto : Crypto := {|
  mac_finalize := StandIn.mac;
  PrivateKey := unit;
  PublicKey := bytes;
  private_key _ := tt;
  calculate_signature _ m := Ok m;
  public_key_deserialize b := Ok b;
  verify_signature := Signer.verify
|}.

#[local] Existing Instance MemoryFiles.lib.

(** A directory without a database. *)
Definition fresh_disk : Disk (Sqlcipher := MemoryFiles.lib) := ((fun _ => None), ([], None)).

Definition generated : Generated :=
  mkGenerated [5; 1] [5; 2] [5] (Ok [4]) (Some 1000) (Ok tt) (fun _ sig => Ok ([6] ++ sig)) (Ok [7; 7]) (Ok [8; 8]).

Definition r2_expired_offer_is_offer_expired_with_zero_network_io : run unit :=
  let '(key, w) := DbKey.generate ([] : World) in
  client ← unwrapped (TitlanClient.open None (bstr "titlan.db") key url w fresh_disk).1;
  '(r, client) ← expect (TitlanClient.initialize_identity generated client);
  _ ← unwrapped r;
  let now := OfferTests.T0 in
  enc ← OfferTests.mint Signer.identity url (now - 7200) 3600;
  let '(r, client) := TitlanClient.begin_pairing_from_offer enc [] client in
  _ ← assert_err r
        (fun e => match e with
                  | OfferExpired issued_at ttl_s seen Expired =>
                    (issued_at =? now - 7200) && (ttl_s =? 3600) && (issued_at + ttl_s <=? seen)
                  | _ => false end);
  assert (bool_decide (Engine.world (H := platform) client = ([] : list bytes))).
End DeadRelay.

Definition offer_tests : list (run unit) :=
  [OfferTests.r1_fresh_mint_round_trips_and_accepts;
   DeadRelay.r2_expired_offer_is_offer_expired_with_zero_network_io;
   OfferTests.r3_boundary_now_equals_issued_plus_ttl_is_expired;
   OfferTests.r4_bit_flipped_issued_at_is_signature_invalid_not_expired;
   OfferTests.r5_ttl_zero_and_over_max_are_malformed;
   OfferTests.r6_future_dated_beyond_grace_is_not_yet_valid;
   VectorTests.r7_v2_fixture_bytes_are_unsupported_version;
   OfferTests.r8_trailing_bytes_after_offer_sig_reject;
   OfferTests.r9_harness_fuse_equals_embedded_ttl;
   OfferTests.r10_qr_link_byte_identity_round_trip_v3].

Lemma offer_tests_pass : Forall (fun t => t = Ok tt) offer_tests.
Proof. unfold offer_tests. run_tests. Qed.

(** ** The tests' decoder is the harness's *)

Lemma position_val c : position c = val c.
Proof.
  assert (Hc : 0 <= c < 256 \/ position c = None /\ val c = None).
  { destruct (decide (0 <= c < 256)) as [|Hc]; [by left|right]. split.
    - unfold position. replace (list_find _ ALPHABET) with (@None (nat * Z)); [done|]. symmetry.
      apply list_find_None. assert (Ha : Forall (fun a => 0 <= a < 256) ALPHABET) by (apply Forall_forall; intros a Ha;
        assert (Hd : forallb (fun a => (0 <=? a) && (a <? 256)) ALPHABET = true) by (vm_compute; reflexivity);
        rewrite forallb_forall in Hd; specialize (Hd a); rewrite <- list_elem_of_In in Hd; specialize (Hd Ha); lia).
      eapply Forall_impl; [exact Ha|]. intros a Hr ->. done.
    - unfold val, between. repeat bool_case; reflect_bools; lia || done. }
  destruct Hc as [Hc|[-> ->]]; [|done].
  assert (Hd : forallb (fun k => bool_decide (position k = val k)) (seqZ 0 256) = true) by (vm_compute; reflexivity).
  rewrite forallb_forall in Hd. specialize (Hd c). rewrite <- list_elem_of_In, elem_of_seqZ in Hd.
  apply bool_decide_eq_true in Hd; [done|lia].
Qed.

Lemma strict_push_value n c : strict_push (expect n) c = expect (push_value n c).
Proof. unfold strict_push, push_value. rewrite position_val. destruct n, (val c); done. Qed.

Lemma strict_word chunk n : foldl strict_push (expect n) chunk = expect (foldl push_value n chunk).
Proof. revert n. induction chunk as [|c r IH]; intros n; cbn [foldl]; [done|]. by rewrite strict_push_value, IH. Qed.

Lemma pair_word a b : 0 <= a < 64 -> 0 <= b < 64 ->
  to_be 4 (Z.shiftl (a * 64 + b) 4 mod 2 ^ 32) = [0; 0; a * 4 + b / 16; b mod 16 * 16].
Proof.
  intros. rewrite Z.shiftl_mul_pow2 by lia. rewrite Z.mod_small by lia.
  change (to_be 4 ?n) with [n / 256 / 256 / 256 mod 256; n / 256 / 256 mod 256; n / 256 mod 256; n mod 256].
  f_equal; [|f_equal; [|f_equal; [|f_equal]]]; Z.to_euclidean_division_equations; lia.
Qed.

Ltac val_ranges :=
  repeat match goal with
    | H : val ?c = Some ?v |- _ => lazymatch goal with _ : 0 <= v < 64 |- _ => fail | _ => pose proof (val_range _ _ H) end
    end.

Lemma strict_chunk_decode chunk : (2 <= length chunk <= 4)%nat ->
  strict_chunk chunk = expect (b64url_decode_chunk chunk).
Proof.
  intros Hl. unfold strict_chunk. change (Ok 0) with (expect (E := Empty_set) (Some 0)). rewrite strict_word.
  destruct (mapM val chunk) as [vs|] eqn:E; [|by rewrite push_value_None, decode_chunk_None].
  apply mapM_Some in E. destruct chunk as [|x [|y [|z [|t [|]]]]]; simpl in Hl; try lia;
    repeat match goal with H : Forall2 _ _ _ |- _ => inversion H; clear H; subst end; val_ranges.
  - erewrite decode_chunk2 by eassumption. push_values. cbn [expect mbind result_bind]. change (zlen [x; y]) with 2. simpl (2 =? 4).
    simpl (2 =? 3). simpl (2 =? 2). cbv iota. rewrite pair_word by lia. done.
  - erewrite decode_chunk3 by eassumption. push_values. cbn [expect mbind result_bind]. change (zlen [x; y; z]) with 3. simpl (3 =? 4).
    simpl (3 =? 3). cbv iota. rewrite (Z.shiftl_mul_pow2 _ 6) by lia. change (2 ^ 6) with 64.
    rewrite <- (Z.add_0_r (_ * 64)), word_bytes by lia. done.
  - erewrite decode_chunk4 by eassumption. push_values. cbn [expect mbind result_bind]. change (zlen [x; y; z; t]) with 4. simpl (4 =? 4). cbv iota.
    rewrite <- (Z.mod_small _ (2 ^ 32)) at 1 by lia. rewrite word_bytes by lia. done.
Qed.

Lemma strict_chunks_decode s : strict_chunks (chunks4 s) = expect (b64url_decode s).
Proof.
  induction s as [|a|a b|a b c|a b c d r IH] using chunks4_ind.
  - done.
  - rewrite decode_short. cbn [chunks4 strict_chunks]. unfold strict_chunk. cbn [foldl].
    change (Ok 0) with (expect (E := Empty_set) (Some 0)). rewrite strict_push_value. by destruct (push_value _ a).
  - rewrite decode_last by (simpl; lia). cbn [chunks4 strict_chunks]. rewrite strict_chunk_decode by (simpl; lia).
    destruct (b64url_decode_chunk _); simpl; by rewrite ?app_nil_r.
  - rewrite decode_last by (simpl; lia). cbn [chunks4 strict_chunks]. rewrite strict_chunk_decode by (simpl; lia).
    destruct (b64url_decode_chunk _); simpl; by rewrite ?app_nil_r.
  - rewrite decode_cons4. cbn [chunks4 strict_chunks]. rewrite strict_chunk_decode, IH by (simpl; lia).
    destruct (b64url_decode_chunk _), (b64url_decode r); done.
Qed.

(** The decoder the tests carry panics on exactly the strings the harness's
    refuses, and agrees with it on the others. *)
Lemma strict_decode_eq s : strict_decode s = expect (b64url_decode s).
Proof.
  unfold strict_decode, assert. destruct (zlen s mod 4 =? 1) eqn:E; simpl; [|apply strict_chunks_decode].
  rewrite decode_reference. unfold reference_decode.
  replace (length s mod 4 =? 1)%nat with true; [by destruct (mapM val s)|].
  symmetry. apply Nat.eqb_eq. apply Z.eqb_eq in E. apply Nat2Z.inj. by rewrite Nat2Z.inj_mod.
Qed.

(** ** The committed vector *)

Definition vector_payload : bytes :=
  match VectorTests.decoded_vector with Ok p => p | _ => [] end.

(** The key in the vector's bundle, and what its signature is over. *)
Definition vector_identity : bytes :=
  match VectorTests.conformance_expected (bstr "identity_pub") ≫= (fun e => expect (Bench.unhex e)) with
  | Ok k => k | _ => []
  end.
Definition vector_signed : bytes := take (length vector_payload - 64) vector_payload.
Definition vector_signature : bytes := drop (length vector_payload - 64) vector_payload.

Lemma vector_decodes : VectorTests.decoded_vector = Ok vector_payload.
Proof. vm_compute. reflexivity. Qed.

(** The verifier is called once: on the bundle's key, the prefix and the signature. *)
Lemma accepted_by verify b now offer data mid prefix sig :
  parse_offer_v3_structure b = Ok offer -> parse (OfferV3.bundle offer) = Ok data ->
  checked_sub (zlen b) OFFER_SIG_LEN = Some mid -> split_at b mid = Ok (E := CoreError) (prefix, sig) ->
  verify (BundleData.identity_key data) prefix sig = true ->
  parse_pairing_offer_v3 (fun k => Ok k) verify b now = parse_pairing_offer_v3 (fun k => Ok k) (fun _ _ _ => true) b now.
Proof.
  intros Ho Hd Hm Hs Hv. unfold parse_pairing_offer_v3. rewrite Ho. cbn [mbind result_bind]. rewrite Hd, Hm.
  cbn [mbind result_bind expect]. rewrite Hs. cbn [mbind result_bind]. by rewrite Hv.
Qed.

Definition bundle_key (b : bytes) : option bytes :=
  match (o ← parse_offer_v3_structure b; parse (OfferV3.bundle o)) with
  | Ok data => Some (BundleData.identity_key data) | _ => None
  end.

Lemma vector_key : bundle_key vector_payload = Some vector_identity.
Proof. vm_compute. reflexivity. Qed.

Lemma vector_split :
  checked_sub (zlen vector_payload) OFFER_SIG_LEN = Some 2009 /\
  split_at vector_payload 2009 = Ok (E := CoreError) (vector_signed, vector_signature).
Proof. split; vm_compute; reflexivity. Qed.

Lemma bundle_key_Some b k : bundle_key b = Some k ->
  exists offer data, parse_offer_v3_structure b = Ok offer /\ parse (OfferV3.bundle offer) = Ok data /\
    BundleData.identity_key data = k.
Proof.
  unfold bundle_key. destruct (parse_offer_v3_structure b) as [o| |]; [|done..]. cbn [mbind result_bind].
  destruct (parse (OfferV3.bundle o)) as [d| |] eqn:E; [|done..]. intros [= <-]. eauto.
Qed.

Lemma fields_by verify b k mid prefix sig :
  bundle_key b = Some k -> checked_sub (zlen b) OFFER_SIG_LEN = Some mid ->
  split_at b mid = Ok (E := CoreError) (prefix, sig) -> verify k prefix sig = true ->
  VectorTests.pinned_fields verify b = VectorTests.pinned_fields (fun _ _ _ => true) b.
Proof.
  intros (offer & data & Ho & Hp & <-)%bundle_key_Some Hm Hs Hv. unfold VectorTests.pinned_fields.
  by rewrite (accepted_by verify b _ _ _ _ _ _ Ho Hp Hm Hs Hv).
Qed.

Lemma vector_fields verify :
  verify vector_identity vector_signed vector_signature = true ->
  VectorTests.pinned_fields verify vector_payload = Ok tt.
Proof.
  intros Hv. destruct vector_split as [Hm Hs]. rewrite (fields_by _ _ _ _ _ _ vector_key Hm Hs Hv).
  vm_compute. reflexivity.
Qed.

Definition vector_bundle : bytes :=
  match OfferTests.bundle_for vector_identity with Ok b => b | _ => [] end.

Lemma vector_prefix :
  OfferTests.bundle_for vector_identity = Ok vector_bundle /\
  offer_prefix (OfferV3.mk vector_bundle OfferTests.RELAY OfferTests.INBOX OfferTests.SECRET OfferTests.T0
                  OFFER_DEFAULT_TTL_S) = Ok vector_signed /\
  zlen vector_signature = OFFER_SIG_LEN /\ vector_signed ++ vector_signature = vector_payload.
Proof. split_and!; vm_compute; reflexivity. Qed.

Lemma regen_prints {PrivateKey : Type} (calculate : PrivateKey -> bytes -> Result bytes) digest pub sk bundle prefix sig :
  OfferTests.bundle_for pub = Ok bundle ->
  offer_prefix (OfferV3.mk bundle OfferTests.RELAY OfferTests.INBOX OfferTests.SECRET OfferTests.T0 OFFER_DEFAULT_TTL_S)
    = Ok prefix ->
  calculate sk prefix = Ok sig -> zlen sig = OFFER_SIG_LEN ->
  VectorTests.regen_committed_v3_vector calculate digest pub sk =
  Ok ([bstr "--- pairing-offer-v3.link.txt (no trailing newline) ---"; LINK_PREFIX ++ b64url_encode (prefix ++ sig);
       bstr "--- pairing-offer-v3.expected.txt ---"] ++ VectorTests.printed digest bundle (prefix ++ sig) pub).
Proof.
  intros Hb Hp Hc Hl. unfold VectorTests.regen_committed_v3_vector. rewrite Hb. cbn [mbind result_bind].
  unfold encode_pairing_offer_v3. rewrite Hp. cbn [mbind result_bind]. rewrite Hc. cbn [mbind result_bind].
  rewrite Hl, Z.eqb_refl. done.
Qed.

Lemma pinned_line digest b :
  VectorTests.pinned_digest digest b = Ok tt ->
  hex_encode (digest b) = bstr "0ca28087829460ae7be5c115304cc5a0abe1c1a2487eb507dfa546dbf4bb6e2b".
Proof.
  unfold VectorTests.pinned_digest.
  replace (VectorTests.conformance_expected (bstr "decoded_sha256"))
    with (Ok (E := Empty_set) (bstr "0ca28087829460ae7be5c115304cc5a0abe1c1a2487eb507dfa546dbf4bb6e2b"))
    by (vm_compute; reflexivity).
  cbn [mbind result_bind]. unfold assert_eq, assert. by case_bool_decide.
Qed.

Lemma vector_texts :
  LINK_PREFIX ++ b64url_encode vector_payload = CONFORMANCE_LINK /\
  VectorTests.printed (fun _ => []) vector_bundle vector_payload vector_identity
  = bstr "decoded_sha256=" :: drop 1 (lines_from [] CONFORMANCE_EXPECTED) /\
  lines_from [] CONFORMANCE_EXPECTED !! 0%nat
  = Some (bstr "decoded_sha256=" ++ bstr "0ca28087829460ae7be5c115304cc5a0abe1c1a2487eb507dfa546dbf4bb6e2b").
Proof. split_and!; vm_compute; reflexivity. Qed.

Lemma printed_digest digest bundle payload pub :
  VectorTests.printed digest bundle payload pub
  = (bstr "decoded_sha256=" ++ hex_encode (digest payload))
    :: drop 1 (VectorTests.printed (fun _ => []) bundle payload pub).
Proof. done. Qed.

(** Minting with the committed key and signature prints the committed files. *)
Lemma vector_regenerates {PrivateKey : Type} (calculate : PrivateKey -> bytes -> Result bytes) digest sk :
  VectorTests.pinned_digest digest vector_payload = Ok tt ->
  calculate sk vector_signed = Ok vector_signature ->
  VectorTests.regen_committed_v3_vector calculate digest vector_identity sk =
  Ok ([bstr "--- pairing-offer-v3.link.txt (no trailing newline) ---"; CONFORMANCE_LINK;
       bstr "--- pairing-offer-v3.expected.txt ---"] ++ lines_from [] CONFORMANCE_EXPECTED).
Proof.
  intros Hd Hc. destruct vector_prefix as (Hb & Hp & Hl & Ha). destruct vector_texts as (Ht & He & H0).
  rewrite (regen_prints _ digest _ _ _ _ _ Hb Hp Hc Hl), Ha, Ht, printed_digest, He, (pinned_line _ _ Hd).
  destruct (lines_from [] CONFORMANCE_EXPECTED) as [|l r]; [done|]. injection H0 as ->. done.
Qed.

Lemma vector_test digest verify :
  VectorTests.pinned_digest digest vector_payload = Ok tt ->
  verify vector_identity vector_signed vector_signature = true ->
  VectorTests.committed_conformance_vector_link_round_trips_and_parses digest verify = Ok tt.
Proof.
  intros Hd Hv. unfold VectorTests.committed_conformance_vector_link_round_trips_and_parses.
  rewrite vector_decodes. cbn [mbind result_bind]. rewrite Hd. cbn [mbind result_bind]. by apply vector_fields.
Qed.

Lemma vector_link : link_payload CONFORMANCE_LINK = Some vector_payload.
Proof. vm_compute. reflexivity. Qed.

(** ** The other tests *)

Module LicensingTests.
#[local] Existing Instance AlwaysLicensed.
Definition always_licensed_stub_licenses_everything : run unit :=
  _ ← assert (is_licensed (bstr "chat")); assert (is_licensed (bstr "anything-else")).
End LicensingTests.

Definition other_tests : list (run unit) :=
  LicensingTests.always_licensed_stub_licenses_everything :: keepalive_tests.

Lemma other_tests_pass : Forall (fun t => t = Ok tt) other_tests.
Proof. constructor; [done|apply keepalive_tests_pass]. Qed.

(** ** Properties *)

Definition pin_tests `{Tls} (der other : bytes) : list (run unit) :=
  [PinTests.pinned_certificate_is_accepted der; PinTests.certificate_not_matching_pin_is_rejected der other;
   PinTests.advertises_the_providers_signature_schemes der].

Module OneScheme.
#[export] Instance tls : Tls (H := DeadRelay.platform) := {|
  sha256 b := b;
  hex_decode := Bench.unhex;
  ring_provider := CryptoProvider.mk (fun _ _ _ => inl tt) (fun _ _ _ => inl tt) [1027];
  safe_protocol_versions := inl tt;
  webpki_verifier := Verifier.mk (fun _ _ _ => inr "unknown issuer"%string) (fun _ _ _ => inl tt) (fun _ _ _ => inl tt) [];
  server_name_ok _ := true;
  TcpStream := bytes;
  TlsStream := bytes;
  WebSocket := bytes + bytes;
  tcp_connect a w := (inr "connection refused"%string, w);
  tls_handshake _ _ _ w := (inr "no relay here"%string, w);
  client_async _ s w := (inl s, w);
  reqwest_build _ _ := inl tt
|}.
End OneScheme.

(** The program's unit tests.  Every modelled test of the store, the
    migrations, the wire formats, the recovery derivation, the error
    classification, the socket authority, the keepalive, the certificate pin,
    the licensing stub and the pairing offers runs to its end without a failed
    assertion or a panic: for any error texts of the database, any drawn
    certificates that the digest tells apart, and, on the link that the
    repository ships, any digest that gives the pinned hash of its bytes and
    any verifier that accepts the one signature it carries.  From that link
    the deposit harness reads the payload that the test decodes, on every
    string the tests' decoder panics or agrees with the harness's, and minting
    with a key that signs so prints the committed files again. *)
Theorem unit_tests_pass `{SqlText} `{Tls} {PrivateKey : Type} (der other : bytes) (digest : bytes -> bytes)
    (verify : bytes -> bytes -> bytes -> bool) (calculate : PrivateKey -> bytes -> Result bytes) (sk : PrivateKey) :
  sha256 der <> sha256 other -> CryptoProvider.supported_schemes ring_provider <> [] ->
  VectorTests.pinned_digest digest vector_payload = Ok tt ->
  verify vector_identity vector_signed vector_signature = true ->
  calculate sk vector_signed = Ok vector_signature ->
  Forall (fun t => t = Ok tt)
    (VectorTests.committed_conformance_vector_link_round_trips_and_parses digest verify ::
     store_tests ++ format_tests StandIn.mac ++ offer_tests ++ other_tests ++ pin_tests der other) /\
  VectorTests.regen_committed_v3_vector calculate digest vector_identity sk =
    Ok ([bstr "--- pairing-offer-v3.link.txt (no trailing newline) ---"; CONFORMANCE_LINK;
         bstr "--- pairing-offer-v3.expected.txt ---"] ++ lines_from [] CONFORMANCE_EXPECTED) /\
  link_payload CONFORMANCE_LINK = Some vector_payload /\
  (forall s, strict_decode s = expect (b64url_decode s)).
Proof.
  intros Hd Hs Hpin Hv Hc. split_and!; [|by apply vector_regenerates|exact vector_link|exact strict_decode_eq].
  constructor; [by apply vector_test|]. rewrite !Forall_app.
  split_and!; [apply store_tests_pass|apply format_tests_pass|apply offer_tests_pass|apply other_tests_pass|
               by apply pin_tests_pass].
Qed.

Lemma unit_tests_pass_witness :
  Forall (fun t => t = Ok tt)
    (VectorTests.committed_conformance_vector_link_round_trips_and_parses
       (fun _ => default [] (Bench.unhex (bstr "0ca28087829460ae7be5c115304cc5a0abe1c1a2487eb507dfa546dbf4bb6e2b")))
       (fun k m s => beq k vector_identity && beq m vector_signed && beq s vector_signature) ::
     store_tests ++ format_tests StandIn.mac ++ offer_tests ++ other_tests ++
     pin_tests (H0 := OneScheme.tls) [48] [48; 1]).
Proof.
  refine (proj1 (unit_tests_pass (H1 := OneScheme.tls) [48] [48; 1] _ _ (fun _ _ => Ok vector_signature) tt _ _ _ _ _)).
  - by intros [=].
  - by intros [=].
  - vm_compute. reflexivity.
  - by rewrite !beq_refl.
  - reflexivity.
Defined.
